(* ===== verification/_CoqProject ===== *)
-Q . S2P
Prelude.v
Sha256.v
SpecTypes.v
Instance.v
Controller.v
Quorum.v
History.v
InstanceInv.v
InstanceFrame.v
ControllerInv.v
Agreement.v
SpecRef.v
Scenario.v
Witnesses.v
Network.v
Proposer.v
RoundTimer.v
Subnets.v
DutyStore.v
Share.v
ValState.v
ValRules.v
Validation.v
ValFacts.v
ValProps.v
ValTrace.v
ValWindow.v
ValBudget.v
ValWitness.v
Queue.v
ValidatorStore.v
StoreRegistry.v
SharedSlices.v
ShareEncoding.v
SharesStorage.v
SharesProps.v
SharesWitness.v
Doppelganger.v
PartialSig.v
Runner.v
RunnerProps.v
ExitProps.v
ExitWitness.v
Slashing.v
KeyManager.v
SlashingProps.v
SlashingSafety.v
SlashingWitness.v
ValueCheck.v
ValueProps.v
ValueWitness.v
RegistryStorage.v
EventHandler.v
EventProps.v
EventBlocks.v
EventShares.v
EventWitness.v
ExecutionClient.v
MultiClient.v
EventSyncer.v
ExecutionProps.v
MultiProps.v
SyncProps.v
SyncRetry.v
SyncWitness.v
