(* ===== verification/Prelude.v ===== *)
(** * SSV node: a verification library

    A node of the SSV network runs the duties of Ethereum validators whose keys are
    shared among the operators of a committee.  Operators gossip signed messages on
    subnets of a P2P network.  Every message passes message validation, which decides
    whether it is accepted, ignored or rejected and remembers what each signer has
    sent.  Accepted consensus messages reach the QBFT controller of their duty, whose
    instances agree on the value the committee signs; on the way there they wait in a
    queue that is popped by priority.  A proposed value is checked before it is voted
    for; runners collect the operators' partial signatures and submit the duty; the key
    manager asks slashing protection before anything is signed, and doppelganger
    protection keeps a validator silent that may run elsewhere.  Operators and validators
    are registered by events of a contract, which the node reads from execution clients
    and handles block by block.  This library models the consensus, message validation,
    the queues, the value checks, slashing and doppelganger protection, the collection of
    signatures with the voluntary exit runner, the way of contract events from the
    execution clients to the database, and what these rely on: the beacon clock and fork
    schedule, leader election, round timers, topics and subnets, the duty store, the
    validator shares, the store that indexes them and their database.

    ** Conventions

    A Go function that may fail returns [result]: [Ok], [Err] with its error, or
    [Panic] for a run-time panic.  Code that changes state is a function in the
    state monad [ST], whose error keeps the state it had reached.  Integers are [Z]
    with wrap-around written out ([u64], [i64] and the operators of [go_scope]).  A
    slice that the code compares with nil is an [option].  Maps are [gmap].  Code
    outside src/ is a parameter: ssv-spec's message types and containers are the class
    [SpecLib], with the laws the node relies on in [SpecLibLaws]; what message
    validation calls outside the repository is [ValLib]; the validator states of
    go-eth2-client are [Eth2Client] and [StatusCodes]; the primitives of fastssz are
    [FastSSZ] and a key-value database [Database], with their laws; BLS signatures are
    [BLS], the signer's database [SignerDatabase], eth2-key-manager's protection
    [NormalProtection], and the decoders of consensus values [ValueLib]; the database and
    the JSON forms of the registry are [RegistryDB] and [RegistryJSON]; the nodes of the
    execution layer, the clock and cancelled contexts are [ExecutionLayer] over a type of
    worlds, which every call may change, with laws that tie the answers to one chain;
    signers, network and stores are functions of the records that hold them.  SpecRef.v,
    ValWitness.v, ShareEncoding.v, SharesWitness.v, ExitWitness.v, SlashingWitness.v,
    ValueWitness.v, EventWitness.v and SyncWitness.v instantiate these interfaces by
    executable definitions, which satisfy the laws and run the concrete scenarios.
    Components meet at interfaces of their own: [SharesStore] between the event handler
    and the storage of shares (EventShares.v), [SyncClient] between the event syncer and
    one or several execution clients (SyncProps.v).

    ** Files

    - Prelude.v: results, the state monad, machine integers and their lemmas, the
      tactics and hint databases shared by the components.
    - Sha256.v: the hash of the standard library, executable.
    - SpecTypes.v: the types and the interface of ssv-spec.
    - Instance.v (protocol/v2/qbft/instance, messages.go, protocol/v2/types/operator.go):
      the QBFT instance: its state, the validation of proposals, prepares, commits and
      round changes, their handlers, the round timeout, the messages created.  Effects
      (signing, broadcasting, timers) are a log.
    - Controller.v (protocol/v2/qbft/controller): the recent instances, starting an
      instance, routing of messages and timeouts, decided messages.
    - Quorum.v (quorum sizes of protocol/v2/types/ssvshare.go), History.v,
      InstanceInv.v, InstanceFrame.v, ControllerInv.v: the intersection of quorums, what
      the log of a node says about its votes, and the invariants of instances and
      controllers.
    - Agreement.v: a network of honest nodes running the controller and faulty ones that
      send anything they can sign, as a step relation.  Agreement, no equivocation,
      commits only after a quorum of prepares, the lock of round changes, no restart of
      a height, and the order of the stored instances.
    - SpecRef.v, Scenario.v, Witnesses.v: the reference library, a runner of scripted
      networks that is sound for the step relation, and the theorems of Agreement.v
      applied to its runs, among them a decision in the first round and one after a
      round change.
    - Network.v (networkconfig/beacon.go, network.go): times, slots, epochs, fork
      schedules, the Boole transition.  Round trips between them, the fork at an epoch,
      and what the comparison of two schedules reports.
    - Proposer.v (protocol/v2/qbft/round_robin_proposer.go): the leader of a round;
      fair rotation, independence of the committee's order.
    - RoundTimer.v (protocol/v2/qbft/roundtimer/timer.go): round budgets and the timer
      object under any interleaving of arming, firing and stopping.
    - Subnets.v (network/commons/subnets.go, ComputeCommitteeID): topic names, committee
      subnets, the whitelist of topics, subscription bitsets.
    - DutyStore.v (operator/duties/dutystore): the duty store refines a view per epoch.
    - Share.v (protocol/v2/types/ssvshare.go, the committee of
      registry/storage/validatorstore.go): shares, their lifecycle and caches.
    - ValState.v, ValRules.v, Validation.v (message/validation, and the decoding of
      protocol/v2/ssv/queue/messages.go): the states of signers, every rule of message
      validation, and the pipeline from a gossip message to its verdict.
    - ValFacts.v: what the operations on signer states do to the rings they live in.
    - ValProps.v: what acceptance means for consensus messages and partial signatures,
      and that a refused message leaves no trace but a blank entry of its own identifier.
    - ValTrace.v: runs of the validator with changing stores and clocks and expiring
      entries; a consensus message is accepted at most once.
    - ValWindow.v: the times at which a slot is acceptable, compared with the slots the
      rings retain and the topics that are open.
    - ValBudget.v: duties per epoch, distinct signing roots per slot, and the effect of a
      higher round on recorded partial signatures.
    - ValWitness.v: the theorems on message validation applied to executed messages.
    - Queue.v (protocol/v2/ssv/queue): the priorities of messages, the queue with its
      channel, pops and purges.  Priorities are total preorders, a pop takes the oldest
      message of the highest priority, no message is lost or duplicated.
    - ValidatorStore.v (registry/storage/validatorstore.go): the indices of the shares by
      validator index, committee and operator, and the events that change them.
    - StoreRegistry.v: the store refines a registry of shares by public key under every
      event, and what it refuses.
    - SharedSlices.v (the same source): the operators' lists as slices of arrays in a heap.
      The events over the heap refine those of ValidatorStore.v, and a list that
      [OperatorValidators] handed out is written over when a share is removed.
    - ShareEncoding.v (registry/storage/shares_encoding.go): the SSZ form of a stored
      share; encoding and decoding are inverse, checked on the encoding that the
      repository keeps for old databases.
    - SharesStorage.v (registry/storage/shares.go): the shares in memory and in the
      database: loading, saving, deleting, metadata updates.
    - SharesProps.v: memory, indices and database agree after every operation, and a
      restart rebuilds the storage from the database.
    - SharesWitness.v: a database in memory, and the theorems applied to it.
    - Doppelganger.v (doppelganger/doppelganger.go, state.go): the states of validators
      and the loop over epochs, with reports and removals between its steps.  When a
      validator can sign, told from the reports and the answers of the beacon node, and what
      a skipped epoch does.
    - PartialSig.v (protocol/v2/ssv/partial_sig_container.go and the signature parts of
      protocol/v2/ssv/runner): the container of partial signatures, duplicates, and the
      reconstruction loop.
    - Runner.v (protocol/v2/ssv/runner: runner.go, runner_validations.go,
      voluntary_exit.go): the state of a duty, the checks of a packet, and the voluntary
      exit runner.
    - RunnerProps.v, ExitProps.v, ExitWitness.v: the reconstruction ends, and with a
      quorum of valid signatures yields one; the roots a packet may have; an exit is
      submitted as soon as a quorum has signed, whatever else arrives; a run with a toy
      threshold scheme.
    - Slashing.v (ssvsigner/ekm/signer_storage.go, slashing_protector.go): the records of
      what a key signed, and their bump, check and update.
    - KeyManager.v (ssvsigner/ekm/remote_key_manager.go,
      ssvsigner/web3signer/block_data.go): shares and requests to sign; the requests that
      are sent are a log.
    - SlashingProps.v, SlashingSafety.v: an abstract machine of one record and the votes
      under it, which every operation of the key manager refines; no run sends two
      slashable votes or blocks of one key.  Removing a share drops its records, so the
      runs that add it again assume votes that are not ahead of the clock.
    - ValueCheck.v (protocol/v2/ssv/value_check.go, protocol/v2/types/consensus_data.go,
      gloas/proposal_data.go): the checks of proposed values.
    - ValueProps.v: accepted values fit the duty and conflict with nothing the key
      manager sent before; the exact condition for aggregator committees.
    - SlashingWitness.v, ValueWitness.v: a database in memory, the SSZ form of
      attestations, the protection over the storage with its laws, and a run with
      refused votes and a share that is removed and added again.
    - RegistryStorage.v (registry/storage/operators.go, recipients.go,
      operator/storage/storage.go): operators, fee recipients, nonces and the last block,
      in a transaction and in memory.
    - EventHandler.v (eth/eventhandler, ValidateSharePublicKeys of
      protocol/v2/types/crypto.go): the handlers of the contract's events, blocks of
      events in one transaction, streams of blocks.
    - EventProps.v: what an event may do to a share, and that only its owner takes it out
      of the registry.  The storage of shares is an interface with laws.
    - EventBlocks.v: a block is all or nothing in the database, the blocks of a stream are
      handled once and in order, nonces count registrations, and what a failing database
      does to a registration.
    - EventShares.v: the storage of shares discharges the interface of the event handler.
    - EventWitness.v: a stream of blocks that registers operators and a validator.
    - ExecutionClient.v (eth/executionclient: logs.go, bloom.go, execution_client.go,
      errors.go): fetching logs in batches that are subdivided at a node's limit, the check
      against bloom filters, packing by block, streaming behind the head.
    - MultiClient.v (eth/executionclient/multi_client.go, Healthy of execution_client.go):
      connecting to several nodes, and calls and streams that go on with the next client
      when one fails.
    - ExecutionProps.v: what was sent, over interruptions and failovers, holds the logs of
      the chain without a gap, once and in order.  The laws say that a node may fail at any
      call but answers a log query exactly if it answers: what the check against bloom
      filters does about a node that leaves logs out is in the model, not in the theorems.
    - MultiProps.v: the multi client stays well-formed, and serves what one of its clients
      serves.
    - EventSyncer.v (eth/eventsyncer, cli/operator/eventsync.go): the tries of the history,
      the ongoing stream, and the start of both.
    - SyncProps.v: the committed database follows the chain; what joining the errors of the
      tries hides.
    - SyncRetry.v: when a block of registrations fails to commit and is tried again by the
      same process, the second try succeeds and leaves its shares out of the database.
    - SyncWitness.v: a small chain and nodes with limits, and the syncer over them.

    ** Bounds

    Loops follow lists or maps, except the reconstruction loop of PartialSig.v, whose fuel
    is one more than the signatures it starts with: every turn but the last removes one,
    and [reconstruct_ends] shows that the fuel is never used up.  The block splitter of
    Sha256.v has the length of its input as fuel, each block being non-empty, as has
    [splitBytes] of EventHandler.v ([splitBytes_length]), and the list
    decoder of SpecRef.v the bytes left, which is enough by [get_put_list].
    [subdivideLogFetch] has the distance of its blocks as fuel, which each call halves
    ([subdivide_fuel]), and [batches_loop] the number of batches, with which it reaches the
    last block ([batches_cases]).  The streams of the execution clients run for ever: their
    attempts and turns are arguments, and the theorems hold for every number of them.
    Hypotheses on
    sizes say that an arithmetic operation of the code does not wrap, for example that a
    slot's start fits a 64-bit duration.

    ** Not modelled

    The runners of the other duties, duty scheduling, the P2P stack, the beacon clients,
    the parser of contract logs, the local key manager and the signer's service, the
    storage engines, the execution of the tasks that events give rise to, APIs and the rest
    of the command line; they are I/O, goroutine wiring or calls into libraries.  Of the execution clients, closing, plain queries, options and
    request timeouts are left out; a channel is the list of what was sent, so that fetching
    comes before handling.  Locks are modelled by the
    atomicity they give: the per-identifier lock of message validation makes one validation
    a step, and the locks per key the check and update of a request to sign.  The
    transaction of a block of events is modelled with its commit and discard; the storages
    of shares and of the signer, seen alone, count a transaction's writes as done.
    Logging, metrics and tracing are left out everywhere. *)

From stdpp Require Import base tactics list gmap numbers strings sorting.
From Stdlib Require Import Strings.Byte.

Declare Scope go_scope.
Delimit Scope go_scope with go.
Open Scope Z_scope.

(** ** Results of Go code

    A Go function returns a value, returns an error, or panics (nil
    dereference, index out of range, division by zero, explicit [panic]). *)
Inductive result (E A : Type) : Type :=
| Ok (a : A)
| Err (e : E)
| Panic.
Arguments Ok {E A} a.
Arguments Err {E A} e.
Arguments Panic {E A}.

Definition is_ok {E A} (r : result E A) : bool :=
  match r with Ok _ => true | _ => false end.

#[global] Instance result_ret {E} : MRet (result E) := λ A a, Ok a.
#[global] Instance result_bind {E} : MBind (result E) := λ A B f m,
  match m with Ok a => f a | Err e => Err e | Panic => Panic end.

(** A Go [error] value of a check: [None] is [nil]. *)
Definition of_check {E} (c : option E) : result E unit :=
  match c with None => Ok tt | Some e => Err e end.

(** [if cond { return err }] *)
Definition fail_if {E} (cond : bool) (e : E) : result E unit :=
  if cond then Err e else Ok tt.
(** [v, _ := f()] for a slice: the error is dropped and the slice is nil. *)
Definition ignore_err {E A} (r : result E (list A)) : list A :=
  match r with Ok l => l | _ => [] end.
(** [for _, x := range l { if err := f(x); err != nil { return err } }] *)
Fixpoint for_each {E A} (f : A → result E unit) (l : list A) : result E unit :=
  match l with
  | [] => Ok tt
  | x :: l => f x ;; for_each f l
  end.
(** [for _, x := range l { y, err := f(x); ...; ys = append(ys, y) }] *)
Fixpoint collect {E A B} (f : A → result E B) (l : list A) : result E (list B) :=
  match l with
  | [] => Ok []
  | x :: l => y ← f x; ys ← collect f l; Ok (y :: ys)
  end.

Section result_facts.
Context {E : Type}.

Lemma bind_ok {A B} (m : result E A) (f : A → result E B) b :
  m ≫= f = Ok b ↔ ∃ a, m = Ok a ∧ f a = Ok b.
Proof. unfold mbind, result_bind. destruct m; naive_solver. Qed.
Lemma fail_if_ok c (e : E) u : fail_if c e = Ok u ↔ c = false.
Proof. unfold fail_if. destruct c, u; naive_solver. Qed.
Lemma of_check_ok (c : option E) u : of_check c = Ok u ↔ c = None.
Proof. destruct c, u; naive_solver. Qed.
Lemma for_each_ok {A} (f : A → result E unit) l u :
  for_each f l = Ok u ↔ ∀ x, x ∈ l → f x = Ok tt.
Proof.
  induction l as [|x l IH]; simpl.
  - destruct u. split; [intros _ x Hx; by apply elem_of_nil in Hx|done].
  - rewrite bind_ok. setoid_rewrite elem_of_cons.
    split; [intros ([] & ? & Hl) y [->|Hy]; [done|by apply IH]|].
    intros Hall. exists tt. split; [auto|]. apply IH. auto.
Qed.
Lemma collect_ok {A B} (f : A → result E B) l ys :
  collect f l = Ok ys ↔ Forall2 (λ x y, f x = Ok y) l ys.
Proof.
  revert ys. induction l as [|x l IH]; intros ys; simpl.
  - split; [intros [= <-]; constructor|by inversion 1].
  - rewrite bind_ok. setoid_rewrite bind_ok. setoid_rewrite IH. split.
    + intros (y & ? & ys' & ? & [= <-]). by constructor.
    + inversion 1; subst. eauto 10.
Qed.
End result_facts.

(** Take apart hypotheses saying that a sequence of checks succeeded. *)
Ltac inv_ok1 :=
  match goal with
  | H : _ ≫= _ = Ok _ |- _ => apply bind_ok in H as (? & ? & H)
  | H : fail_if _ _ = Ok _ |- _ => apply fail_if_ok in H
  | H : of_check _ = Ok _ |- _ => apply of_check_ok in H
  | H : Ok _ = Ok _ |- _ => injection H as H; subst
  | H : Err _ = Ok _ |- _ => discriminate H
  | H : Panic = Ok _ |- _ => discriminate H
  | H : negb _ = false |- _ => apply negb_false_iff in H
  | H : negb _ = true |- _ => apply negb_true_iff in H
  | H : bool_decide _ = false |- _ => apply bool_decide_eq_false in H
  | H : bool_decide _ = true |- _ => apply bool_decide_eq_true in H
  | H : (_ =? _) = true |- _ => apply Z.eqb_eq in H
  | H : (_ <? _) = false |- _ => apply Z.ltb_ge in H
  | H : (_ <? _) = true |- _ => apply Z.ltb_lt in H
  end.
Ltac inv_ok := repeat inv_ok1.

(** ** State passing

    A method mutates its receiver and then returns: mutations made before an
    error stay, so the final state is produced on every path. *)
Definition ST (S E A : Type) : Type := S → S * result E A.

#[global] Instance st_ret {S E} : MRet (ST S E) := λ A a s, (s, Ok a).
#[global] Instance st_bind {S E} : MBind (ST S E) := λ A B f m s,
  match m s with
  | (s', Ok a) => f a s'
  | (s', Err e) => (s', Err e)
  | (s', Panic) => (s', Panic)
  end.

Lemma bind_cases {T E A B} (m : ST T E A) (f : A → ST T E B) s s' r :
  (m ≫= f) s = (s', r) →
  ∃ s1 r1, m s = (s1, r1) ∧
    match r1 with Ok a => f a s1 = (s', r) | Err e => s' = s1 ∧ r = Err e | Panic => s' = s1 ∧ r = Panic end.
Proof.
  unfold mbind, st_bind. destruct (m s) as [s1 [a|e|]]; intros Hm.
  - by exists s1, (Ok a).
  - injection Hm as <- <-. by exists s1, (Err e).
  - injection Hm as <- <-. by exists s1, Panic.
Qed.
Lemma st_bind_ok {S E A B} (m : ST S E A) (f : A → ST S E B) s s' y :
  (m ≫= f) s = (s', Ok y) → ∃ s1 x, m s = (s1, Ok x) ∧ f x s1 = (s', Ok y).
Proof. unfold mbind, st_bind. destruct (m s) as [s1 [x|e|]]; intros Hm; [eauto|done..]. Qed.

Definition st_get {S E} : ST S E S := λ s, (s, Ok s).
Definition st_modify {S E} (f : S → S) : ST S E unit := λ s, (f s, Ok tt).
Definition st_lift {S E A} (r : result E A) : ST S E A := λ s, (s, r).
Definition st_err {S E A} (e : E) : ST S E A := λ s, (s, Err e).

(** [triple P m Q]: run from a state satisfying [P], [m] ends in a state and
    with a result satisfying [Q], whichever way it returns. *)
Definition triple {S E A} (P : S → Prop) (m : ST S E A)
    (Q : result E A → S → Prop) : Prop :=
  ∀ s, P s → Q (m s).2 (m s).1.

Section triples.
Context {S E : Type}.

Lemma triple_ret {A} (P : S → Prop) (a : A) (Q : result E A → S → Prop) :
  (∀ s, P s → Q (Ok a) s) → triple P (mret a) Q.
Proof. intros H s Hs. exact (H s Hs). Qed.

Lemma triple_bind {A B} (P : S → Prop) (m : ST S E A) (f : A → ST S E B)
    (R : A → S → Prop) (Q : result E B → S → Prop) :
  triple P m (λ r s, match r with
                     | Ok a => R a s
                     | Err e => Q (Err e) s
                     | Panic => Q Panic s
                     end) →
  (∀ a, triple (R a) (f a) Q) →
  triple P (m ≫= f) Q.
Proof.
  intros Hm Hf s Hs. specialize (Hm s Hs).
  unfold mbind, st_bind. destruct (m s) as [s' [a|e|]]; simpl in *; [|done..].
  by apply Hf.
Qed.

Lemma triple_conseq {A} (P P' : S → Prop) (m : ST S E A)
    (Q Q' : result E A → S → Prop) :
  triple P' m Q' → (∀ s, P s → P' s) → (∀ r s, Q' r s → Q r s) →
  triple P m Q.
Proof. intros Hm HP HQ s Hs. by apply HQ, Hm, HP. Qed.

Lemma triple_get {A} (P : S → Prop) (f : S → ST S E A)
    (Q : result E A → S → Prop) :
  (∀ s0, P s0 → triple (λ s, s = s0) (f s0) Q) →
  triple P (st_get ≫= f) Q.
Proof. intros H s Hs. unfold mbind, st_bind, st_get. simpl. by apply (H s Hs). Qed.

Lemma triple_modify (P : S → Prop) (g : S → S)
    (Q : result E unit → S → Prop) :
  (∀ s, P s → Q (Ok tt) (g s)) → triple P (st_modify g) Q.
Proof. intros H s Hs. exact (H s Hs). Qed.
End triples.

(** ** Machine integers

    [uint64] values are integers in [0, 2^64); [int64] and [time.Duration]
    values are integers in [-2^63, 2^63).  Arithmetic wraps around. *)
Definition max_u64 : Z := 2 ^ 64 - 1.
Definition max_i64 : Z := 2 ^ 63 - 1.
Definition u64 (z : Z) : Z := z `mod` 2 ^ 64.
Definition i64 (z : Z) : Z := (z + 2 ^ 63) `mod` 2 ^ 64 - 2 ^ 63.

Definition is_u64 (z : Z) : Prop := 0 ≤ z ≤ max_u64.
Definition is_i64 (z : Z) : Prop := - 2 ^ 63 ≤ z ≤ max_i64.

Notation "a +u b" := (u64 (a + b)) (at level 50, left associativity) : go_scope.
Notation "a -u b" := (u64 (a - b)) (at level 50, left associativity) : go_scope.
Notation "a *u b" := (u64 (a * b)) (at level 40, left associativity) : go_scope.
Notation "a +i b" := (i64 (a + b)) (at level 50, left associativity) : go_scope.
Notation "a -i b" := (i64 (a - b)) (at level 50, left associativity) : go_scope.
Notation "a *i b" := (i64 (a * b)) (at level 40, left associativity) : go_scope.
Open Scope go_scope.

(** Facts the components use without naming them. *)
Create HintDb go.

Lemma u64_small z : is_u64 z → u64 z = z.
Proof. unfold is_u64, u64, max_u64. intros. apply Z.mod_small. lia. Qed.

Lemma u64_range z : is_u64 (u64 z).
Proof. unfold is_u64, u64, max_u64. pose proof (Z.mod_pos_bound z (2 ^ 64)). lia. Qed.

Lemma i64_small z : is_i64 z → i64 z = z.
Proof.
  unfold is_i64, i64, max_i64. intros.
  rewrite Z.mod_small; lia.
Qed.

Lemma i64_range z : is_i64 (i64 z).
Proof. unfold is_i64, i64, max_i64. pose proof (Z.mod_pos_bound (z + 2 ^ 63) (2 ^ 64)). lia. Qed.
#[export] Hint Resolve u64_range i64_range : go.

(** ** Lists *)
Lemma filter_none {A} (P : A → Prop) `{!∀ x, Decision (P x)} l : Forall (λ x, ¬ P x) l → filter P l = [].
Proof. induction 1 as [|x l Hx _ IH]; [done|]. by rewrite filter_cons_False. Qed.
Lemma filter_all {A} (P : A → Prop) `{!∀ x, Decision (P x)} l : Forall P l → filter P l = l.
Proof. induction 1 as [|x l Hx _ IH]; [done|]. by rewrite filter_cons_True, IH. Qed.

(** ** Bytes *)
Abbreviation bytes := (list byte).

#[global] Instance byte_eq_dec' : EqDecision byte := Byte.byte_eq_dec.
#[global] Program Instance byte_countable : Countable byte :=
  inj_countable Byte.to_N Byte.of_N _.
Next Obligation. intros b. apply Byte.of_to_N. Qed.

(** A Go [[]byte]: [None] is the nil slice, which differs from the empty one
    only under comparison with [nil]. *)
Abbreviation slice := (option (list byte)).
Definition bytes_of (s : slice) : list byte := default [] s.
