(* ===== verification/SpecTypes.v ===== *)
(** * Data of the SSV protocol and the interface of the ssv-spec library

    The node is written against the package [github.com/ssvlabs/ssv-spec],
    which is not part of the repository.  Its data types appear here as records
    with the fields the node reads; its functions are the fields of the class
    [SpecLib], an argument of every definition that calls them, and the
    behaviour the node relies on is stated in [SpecLibLaws]. *)

From stdpp Require Import base list gmap numbers strings.
From S2P Require Import Prelude.

(** ** Errors

    [spectypes.NewError]/[WrapError] attach an error code; [fmt.Errorf] with
    [%w] wraps; [NewRetryableError] marks an error as worth retrying. *)
Inductive ErrorCode :=
| InstanceStoppedProcessingMessagesErrorCode
| PastRoundErrorCode
| NoProposalForCurrentRoundErrorCode
| WrongMessageHeightErrorCode
| WrongMessageRoundErrorCode
| MessageAllowsOneSignerOnlyErrorCode
| SignerIsNotInCommitteeErrorCode
| ProposalLeaderInvalidErrorCode
| ProposalInvalidErrorCode
| RootHashInvalidErrorCode
| RoundChangeNoQuorumErrorCode
| PrepareMessageInvalidErrorCode
| ProposedDataMismatchErrorCode
| MessageSignatureInvalidErrorCode
| ZeroCommitMessagesErrorCode
| CommitMessageInvalidErrorCode
| CommitMessageTypeWrongErrorCode
| JustificationsNoQuorumInvalidErrorCode
| TimeoutInstanceErrorCode
| StartInstanceErrorCode
| InstanceAlreadyRunningErrorCode
| MessageIdentifierInvalidErrorCode
| FutureMessageErrorCode
| SkipConsensusMessageAsInstanceIsDecidedErrorCode
| DecodeBeaconVoteErrorCode
| DecodeGloasBeaconVoteErrorCode
| GloasBeaconVoteInvalidIndexErrorCode
| AggCommConsensusDataDecodeErrorCode
| ProposerDutySlotMismatchErrorCode
| QBFTValueInvalidErrorCode
| UnmarshalSSZErrorCode
| ProposerBlockSlotMismatchErrorCode
| ProposerBlockProposerIndexMismatchErrorCode
| WrongBeaconRoleTypeErrorCode
| DutyEpochTooFarFutureErrorCode
| WrongValidatorPubkeyErrorCode
| WrongValidatorIndexErrorCode
| ValidatorRegistrationNoConsensusPhaseErrorCode
| ValidatorExitNoConsensusPhaseErrorCode
| UnknownDutyRoleDataErrorCode.

#[global] Instance ErrorCode_eq_dec : EqDecision ErrorCode.
Proof. solve_decision. Defined.

Inductive goerr :=
| ENew (msg : string)
| EWrap (msg : string) (inner : goerr)
| ECode (code : ErrorCode) (inner : goerr)
| ERetryable (inner : goerr).

#[global] Instance goerr_eq_dec : EqDecision goerr.
Proof. solve_decision. Defined.

Definition NewError (c : ErrorCode) (msg : string) : goerr := ECode c (ENew msg).
Definition WrapError (c : ErrorCode) (e : goerr) : goerr := ECode c e.
Definition NewRetryableError (e : goerr) : goerr := ERetryable e.

(** [errors.As(err, *RetryableError)]: some error of the chain is marked. *)
Fixpoint IsRetryable (e : goerr) : bool :=
  match e with
  | ENew _ => false
  | EWrap _ e => IsRetryable e
  | ECode _ e => IsRetryable e
  | ERetryable _ => true
  end.

(** ** Numbers *)
Abbreviation OperatorID := Z (only parsing).
Abbreviation Round := Z (only parsing).
Abbreviation Height := Z (only parsing).
Abbreviation Slot := Z (only parsing).
Abbreviation Epoch := Z (only parsing).
Abbreviation ValidatorIndex := Z (only parsing).

Definition NoRound : Round := 0.
Definition FirstRound : Round := 1.
Definition FirstHeight : Height := 0.

(** ** Runner roles; [RoleAggregator] and [RoleSyncCommitteeContribution] are the
    deprecated ones of protocol/v2/types/runner_role.go. *)
Inductive RunnerRole :=
| RoleCommittee
| RoleAggregator
| RoleProposer
| RoleSyncCommitteeContribution
| RoleValidatorRegistration
| RoleVoluntaryExit
| RoleAggregatorCommittee
| RolePTCAttester
| RoleProposerPreferences
| RoleUnknown (n : Z).

#[global] Instance RunnerRole_eq_dec : EqDecision RunnerRole.
Proof. solve_decision. Defined.

(** ** QBFT messages *)
Inductive MessageType :=
| ProposalMsgType
| PrepareMsgType
| CommitMsgType
| RoundChangeMsgType
| UnknownMsgType (n : Z).

#[global] Instance MessageType_eq_dec : EqDecision MessageType.
Proof. solve_decision. Defined.

Record Message := mkMessage {
  m_MsgType : MessageType;
  m_Height : Height;
  m_Round : Round;
  m_Identifier : bytes;
  m_Root : bytes;
  m_DataRound : Round;
  m_RoundChangeJustification : list bytes;
  m_PrepareJustification : list bytes;
}.

#[global] Instance Message_eq_dec : EqDecision Message.
Proof. solve_decision. Defined.

(** ** SSV envelopes *)
Inductive SSVMsgType :=
| SSVConsensusMsgType
| SSVPartialSignatureMsgType
| SSVEventMsgType
| UnknownSSVMsgType (n : Z).

#[global] Instance SSVMsgType_eq_dec : EqDecision SSVMsgType.
Proof. solve_decision. Defined.

Record SSVMessage := mkSSVMessage {
  sv_MsgType : SSVMsgType;
  sv_MsgID : bytes;
  sv_Data : bytes;
}.

#[global] Instance SSVMessage_eq_dec : EqDecision SSVMessage.
Proof. solve_decision. Defined.

Record SignedSSVMessage := mkSigned {
  s_Signatures : list bytes;
  s_OperatorIDs : list OperatorID;
  s_SSVMessage : option SSVMessage;   (* a pointer; None is nil *)
  s_FullData : slice;
}.

#[global] Instance SignedSSVMessage_eq_dec : EqDecision SignedSSVMessage.
Proof. solve_decision. Defined.

Record ProcessingMessage := mkPM {
  SignedMessage : SignedSSVMessage;
  QBFTMessage : Message;
}.

#[global] Instance ProcessingMessage_eq_dec : EqDecision ProcessingMessage.
Proof. solve_decision. Defined.

Definition pm_Round (m : ProcessingMessage) : Round := m_Round (QBFTMessage m).
Definition pm_Root (m : ProcessingMessage) : bytes := m_Root (QBFTMessage m).
Definition pm_Type (m : ProcessingMessage) : MessageType := m_MsgType (QBFTMessage m).
Definition pm_Height (m : ProcessingMessage) : Height := m_Height (QBFTMessage m).
Definition pm_Signers (m : ProcessingMessage) : list OperatorID :=
  s_OperatorIDs (SignedMessage m).

(** The distinct signers of a list of messages. *)
Definition unique_signers (ms : list ProcessingMessage) : gset OperatorID :=
  list_to_set (ms ≫= pm_Signers).

Lemma elem_of_unique_signers (o : OperatorID) ms :
  o ∈ unique_signers ms ↔ ∃ m, m ∈ ms ∧ o ∈ pm_Signers m.
Proof.
  unfold unique_signers. rewrite elem_of_list_to_set, list_elem_of_bind.
  firstorder.
Qed.

Lemma unique_signers_mono ms ms' : ms ⊆ ms' → unique_signers ms ⊆ unique_signers ms'.
Proof. intros H o. rewrite !elem_of_unique_signers. firstorder. Qed.

(** ** Committees *)
Record Operator := mkOperator {
  op_OperatorID : OperatorID;
  op_PubKey : bytes;
}.

Record CommitteeMember := mkCommitteeMember {
  cm_OperatorID : OperatorID;
  cm_FaultyNodes : Z;
  cm_Committee : list Operator;
}.

(** The committee as a set of operator ids. *)
Definition committee_ids (c : list Operator) : gset OperatorID :=
  list_to_set (op_OperatorID <$> c).

(** ** ssv-spec functions *)
Class SpecLib := {
  (* qbft.MsgContainer *)
  MsgContainer : Type;
  NewMsgContainer : MsgContainer;
  AddFirstMsgForSignerAndRound :
    MsgContainer → ProcessingMessage → MsgContainer * result goerr bool;
  AddMsg : MsgContainer → ProcessingMessage → MsgContainer * result goerr unit;
  MessagesForRound : MsgContainer → Round → list ProcessingMessage;
  AllMessages : MsgContainer → list ProcessingMessage;
  LongestUniqueSignersForRoundAndRoot :
    MsgContainer → Round → bytes → list OperatorID * list ProcessingMessage;
  (* quorums *)
  HasQuorum : CommitteeMember → list ProcessingMessage → bool;
  HasPartialQuorum : CommitteeMember → list ProcessingMessage → bool;
  cm_HasQuorum : CommitteeMember → nat → bool;
  (* messages *)
  EncodeMessage : Message → result goerr bytes;
  DecodeMessage : bytes → result goerr Message;
  NewProcessingMessage : SignedSSVMessage → result goerr ProcessingMessage;
  pm_Validate : ProcessingMessage → option goerr;
  RoundChangePrepared : Message → bool;
  MarshalJustifications : list SignedSSVMessage → result goerr (list bytes);
  GetRoundChangeJustifications : Message → result goerr (list SignedSSVMessage);
  GetPrepareJustifications : Message → result goerr (list SignedSSVMessage);
  (* signed messages *)
  CheckSignersInCommittee : SignedSSVMessage → list Operator → bool;
  MatchedSigners : SignedSSVMessage → list OperatorID → bool;
  Verify : SignedSSVMessage → list Operator → option goerr;
  Aggregate : SignedSSVMessage → SignedSSVMessage → result goerr SignedSSVMessage;
}.

(** What the node relies on. *)
Class SpecLibLaws `{SpecLib} : Prop := {
  container_new r : MessagesForRound NewMsgContainer r = [];
  container_add_first c m c' r :
    AddFirstMsgForSignerAndRound c m = (c', Ok true) →
    MessagesForRound c' r =
      if decide (pm_Round m = r) then MessagesForRound c r ++ [m]
      else MessagesForRound c r;
  container_add_first_dup c m c' r :
    AddFirstMsgForSignerAndRound c m = (c', Ok false) →
    MessagesForRound c' r = MessagesForRound c r;
  container_add_first_fail c m c' res r :
    AddFirstMsgForSignerAndRound c m = (c', res) → is_ok res = false →
    MessagesForRound c' r = MessagesForRound c r;
  container_add c m c' r :
    AddMsg c m = (c', Ok tt) →
    MessagesForRound c' r =
      if decide (pm_Round m = r) then MessagesForRound c r ++ [m]
      else MessagesForRound c r;
  container_all c m : m ∈ AllMessages c ↔ m ∈ MessagesForRound c (pm_Round m);
  container_longest c r root signers ms :
    LongestUniqueSignersForRoundAndRoot c r root = (signers, ms) →
    NoDup signers ∧ list_to_set signers = unique_signers ms ∧
    (∀ m, m ∈ ms → m ∈ MessagesForRound c r ∧ pm_Root m = root);
  (* 2f+1 of 3f+1, f+1 of 3f+1 *)
  cm_HasQuorum_spec cm n :
    cm_HasQuorum cm n = true ↔ 2 * cm_FaultyNodes cm + 1 ≤ Z.of_nat n;
  HasQuorum_spec cm ms :
    HasQuorum cm ms = cm_HasQuorum cm (size (unique_signers ms));
  HasPartialQuorum_spec cm ms :
    HasPartialQuorum cm ms = true ↔
    cm_FaultyNodes cm + 1 ≤ Z.of_nat (size (unique_signers ms));
  Encode_Decode m b : EncodeMessage m = Ok b → DecodeMessage b = Ok m;
  Decode_range b m :
    DecodeMessage b = Ok m →
    is_u64 (m_Height m) ∧ is_u64 (m_Round m) ∧ is_u64 (m_DataRound m);
  NewProcessingMessage_spec sm pm :
    NewProcessingMessage sm = Ok pm →
    SignedMessage pm = sm ∧
    ∃ sv, s_SSVMessage sm = Some sv ∧ DecodeMessage (sv_Data sv) = Ok (QBFTMessage pm);
  RoundChangePrepared_spec m :
    RoundChangePrepared m = true ↔
    m_MsgType m = RoundChangeMsgType ∧ m_DataRound m ≠ NoRound;
  Validate_unique_signers pm : pm_Validate pm = None → NoDup (pm_Signers pm);
  MatchedSigners_spec sm ids : MatchedSigners sm ids = true ↔ s_OperatorIDs sm ≡ₚ ids;
  CheckSignersInCommittee_spec sm c :
    CheckSignersInCommittee sm c = true ↔
    ∀ o, o ∈ s_OperatorIDs sm → o ∈ committee_ids c;
}.
