(* ===== verification/Instance.v ===== *)
(** * QBFT instance (protocol/v2/qbft/instance)

    One consensus instance: its state, the validation of every message type,
    the handlers that run on a valid message and on a round timeout, and the
    messages it creates.  Logging, tracing and metrics are left out; the
    broadcasts and the round-timer commands are the [Effect]s a method emits. *)

From stdpp Require Import base list gmap numbers strings sorting.
From S2P Require Import Prelude Sha256 SpecTypes.

(** ** Go idioms *)

(** [fmt.Errorf("ctx: %w", err)] on the error path. *)
Definition wrap {A} (ctx : string) (r : result goerr A) : result goerr A :=
  match r with Err e => Err (EWrap ctx e) | _ => r end.
(** [spectypes.WrapError(code, fmt.Errorf("ctx: %w", err))]. *)
Definition wrap_code {A} (c : ErrorCode) (ctx : string) (r : result goerr A) : result goerr A :=
  match r with Err e => Err (WrapError c (EWrap ctx e)) | _ => r end.
Lemma wrap_ok {A} ctx (r : result goerr A) a : wrap ctx r = Ok a ↔ r = Ok a.
Proof. destruct r; naive_solver. Qed.
Lemma wrap_code_ok {A} c ctx (r : result goerr A) a : wrap_code c ctx r = Ok a ↔ r = Ok a.
Proof. destruct r; naive_solver. Qed.

Ltac inv_wrap :=
  repeat first [ inv_ok1
               | match goal with
                 | H : wrap _ _ = Ok _ |- _ => apply wrap_ok in H
                 | H : wrap_code _ _ _ = Ok _ |- _ => apply wrap_code_ok in H
                 end ].

(** protocol/v2/qbft/messages.go *)
Abbreviation HashDataRoot data := (sha256 (bytes_of data)) (only parsing).

(** A [[56]byte] filled by [copy]. *)
Definition MessageID_of (identifier : bytes) : bytes :=
  take 56 (identifier ++ replicate 56 Byte.x00).
Definition zero_root : bytes := replicate 32 Byte.x00.

Definition ErrWrongMsgRound : goerr := ENew "wrong msg round".
Definition ErrNoProposalForCurrentRound : goerr :=
  ENew "did not receive proposal for current round".
Definition ErrWrongMsgHeight : goerr := ENew "wrong msg height".

Inductive Effect :=
| ESign (msg : SSVMessage)                     (* a call of the operator's signer *)
| EBroadcast (msg : SignedSSVMessage) (slot : Slot)
| ETimeoutForRound (slot : Slot) (r : Round)   (* the round timer of the duty at [slot] *)
| ETimerStop (slot : Slot).

Section instance.
Context {Lib : SpecLib}.

(** ** State *)
Record State := mkState {
  st_CommitteeMember : CommitteeMember;
  st_ID : bytes;
  st_Round : Round;
  st_Height : Height;
  st_LastPreparedRound : Round;
  st_LastPreparedValue : slice;
  st_ProposalAcceptedForCurrentRound : option ProcessingMessage;
  st_Decided : bool;
  st_DecidedValue : slice;
  st_ProposeContainer : MsgContainer;
  st_PrepareContainer : MsgContainer;
  st_CommitContainer : MsgContainer;
  st_RoundChangeContainer : MsgContainer;
}.

(** qbft.IConfig, with the network and signer as oracles that may answer
    differently after each emitted effect. *)
Record Config := mkConfig {
  GetProposerF : State → Round → OperatorID;
  BroadcastAtSlot : list Effect → SignedSSVMessage → Slot → option goerr;
  GetCutOffRound : Round;
}.

Record Instance := mkInstance {
  i_config : Config;
  i_signer : list Effect → SSVMessage → result goerr bytes;
  i_State : State;
  i_StartValue : slice;
  i_ValueChecker : option (slice → option goerr);   (* nil until started *)
  i_markedIrrelevant : bool;
}.

(** Field updates. *)
Definition with_State (f : State → State) (i : Instance) : Instance :=
  mkInstance (i_config i) (i_signer i) (f (i_State i)) (i_StartValue i)
    (i_ValueChecker i) (i_markedIrrelevant i).
Definition with_Start (v : slice) (c : slice → option goerr) (i : Instance) : Instance :=
  mkInstance (i_config i) (i_signer i) (i_State i) v (Some c) (i_markedIrrelevant i).
Definition with_Irrelevant (i : Instance) : Instance :=
  mkInstance (i_config i) (i_signer i) (i_State i) (i_StartValue i)
    (i_ValueChecker i) true.

Definition set_Round (r : Round) (s : State) : State :=
  mkState (st_CommitteeMember s) (st_ID s) r (st_Height s) (st_LastPreparedRound s)
    (st_LastPreparedValue s) (st_ProposalAcceptedForCurrentRound s) (st_Decided s)
    (st_DecidedValue s) (st_ProposeContainer s) (st_PrepareContainer s)
    (st_CommitContainer s) (st_RoundChangeContainer s).
Definition set_Proposal (p : option ProcessingMessage) (s : State) : State :=
  mkState (st_CommitteeMember s) (st_ID s) (st_Round s) (st_Height s) (st_LastPreparedRound s)
    (st_LastPreparedValue s) p (st_Decided s)
    (st_DecidedValue s) (st_ProposeContainer s) (st_PrepareContainer s)
    (st_CommitContainer s) (st_RoundChangeContainer s).
Definition set_LastPrepared (r : Round) (v : slice) (s : State) : State :=
  mkState (st_CommitteeMember s) (st_ID s) (st_Round s) (st_Height s) r
    v (st_ProposalAcceptedForCurrentRound s) (st_Decided s)
    (st_DecidedValue s) (st_ProposeContainer s) (st_PrepareContainer s)
    (st_CommitContainer s) (st_RoundChangeContainer s).
Definition set_Decided (r : Round) (v : slice) (s : State) : State :=
  mkState (st_CommitteeMember s) (st_ID s) r (st_Height s) (st_LastPreparedRound s)
    (st_LastPreparedValue s) (st_ProposalAcceptedForCurrentRound s) true
    v (st_ProposeContainer s) (st_PrepareContainer s)
    (st_CommitContainer s) (st_RoundChangeContainer s).
Definition set_ProposeContainer (c : MsgContainer) (s : State) : State :=
  mkState (st_CommitteeMember s) (st_ID s) (st_Round s) (st_Height s) (st_LastPreparedRound s)
    (st_LastPreparedValue s) (st_ProposalAcceptedForCurrentRound s) (st_Decided s)
    (st_DecidedValue s) c (st_PrepareContainer s)
    (st_CommitContainer s) (st_RoundChangeContainer s).
Definition set_PrepareContainer (c : MsgContainer) (s : State) : State :=
  mkState (st_CommitteeMember s) (st_ID s) (st_Round s) (st_Height s) (st_LastPreparedRound s)
    (st_LastPreparedValue s) (st_ProposalAcceptedForCurrentRound s) (st_Decided s)
    (st_DecidedValue s) (st_ProposeContainer s) c
    (st_CommitContainer s) (st_RoundChangeContainer s).
Definition set_CommitContainer (c : MsgContainer) (s : State) : State :=
  mkState (st_CommitteeMember s) (st_ID s) (st_Round s) (st_Height s) (st_LastPreparedRound s)
    (st_LastPreparedValue s) (st_ProposalAcceptedForCurrentRound s) (st_Decided s)
    (st_DecidedValue s) (st_ProposeContainer s) (st_PrepareContainer s)
    c (st_RoundChangeContainer s).
Definition set_RoundChangeContainer (c : MsgContainer) (s : State) : State :=
  mkState (st_CommitteeMember s) (st_ID s) (st_Round s) (st_Height s) (st_LastPreparedRound s)
    (st_LastPreparedValue s) (st_ProposalAcceptedForCurrentRound s) (st_Decided s)
    (st_DecidedValue s) (st_ProposeContainer s) (st_PrepareContainer s)
    (st_CommitContainer s) c.

(** ** The instance monad: the instance and everything emitted so far *)
Abbreviation ICtx := (Instance * list Effect)%type.
Abbreviation IM := (ST ICtx goerr).

Definition get_inst : IM Instance := λ c, (c, Ok c.1).
Definition emit (e : Effect) : IM unit := st_modify (λ c, (c.1, c.2 ++ [e])).
Definition modify_State (f : State → State) : IM unit :=
  st_modify (λ c, (with_State f c.1, c.2)).

(** [container.AddFirstMsgForSignerAndRound(msg)] on a container of the state. *)
Definition add_first (get : State → MsgContainer) (set : MsgContainer → State → State)
    (msg : ProcessingMessage) : IM bool := λ c,
  let '(ct, r) := AddFirstMsgForSignerAndRound (get (i_State c.1)) msg in
  ((with_State (set ct) c.1, c.2), r).

(** ** instance.go *)
Definition NewInstance (config : Config) (cm : CommitteeMember) (identifier : bytes)
    (height : Height) (signer : list Effect → SSVMessage → result goerr bytes) : Instance :=
  mkInstance config signer
    (mkState cm identifier FirstRound height NoRound None None false None
       NewMsgContainer NewMsgContainer NewMsgContainer NewMsgContainer)
    None None false.

Definition IsRelevant (i : Instance) : bool :=
  negb (i_markedIrrelevant i) && (st_Round (i_State i) <? GetCutOffRound (i_config i)).

Definition IsDecided (i : Instance) : bool * slice :=
  (st_Decided (i_State i), st_DecidedValue (i_State i)).

Definition GetHeight (i : Instance) : Height := st_Height (i_State i).

Abbreviation ProposerForRound i round := (GetProposerF (i_config i) (i_State i) round) (only parsing).

Definition Broadcast (msg : SignedSSVMessage) : IM unit :=
  i ← get_inst;
  if negb (IsRelevant i) then
    st_err (NewError InstanceStoppedProcessingMessagesErrorCode
              "instance is no longer considered relevant")
  else λ c,
    let slot := st_Height (i_State i) in
    ((c.1, c.2 ++ [EBroadcast msg slot]),
     of_check (BroadcastAtSlot (i_config i) c.2 msg slot)).

Definition MarkDecided (round : Round) (value : slice) : IM unit :=
  i ← get_inst;
  if st_Decided (i_State i) then st_err (ENew "instance has already decided")
  else modify_State (set_Decided round value) ;; emit (ETimerStop (GetHeight i)).

Definition MarkIrrelevant : IM unit :=
  i ← get_inst;
  st_modify (λ c, (with_Irrelevant c.1, c.2)) ;; emit (ETimerStop (GetHeight i)).

Definition bumpToRound (round : Round) : IM unit :=
  i ← get_inst;
  if st_Round (i_State i) <? round then
    modify_State (λ s, set_Round round (set_Proposal None s)) ;;
    i' ← get_inst;
    if IsRelevant i' then emit (ETimeoutForRound (GetHeight i') round) else mret tt
  else mret tt.

(** Rewrap the error of a method. *)
Definition wrap_m {S A} (ctx : string) (m : ST S goerr A) : ST S goerr A := λ c,
  let '(c', r) := m c in (c', wrap ctx r).

(** ** Signing (protocol/v2/types/operator.go) *)
Definition SignSSVMessage (ssvMsg : SSVMessage) : IM bytes := λ c,
  ((c.1, c.2 ++ [ESign ssvMsg]), i_signer c.1 c.2 ssvMsg).

Definition Sign (msg : Message) (operatorID : OperatorID) : IM SignedSSVMessage :=
  byts ← st_lift (wrap "could not encode message" (EncodeMessage msg));
  let ssvMsg := mkSSVMessage SSVConsensusMsgType (MessageID_of (m_Identifier msg)) byts in
  sig ← wrap_m "could not sign SSVMessage" (SignSSVMessage ssvMsg);
  mret (mkSigned [sig] [operatorID] (Some ssvMsg) None).

Definition with_FullData (v : slice) (m : SignedSSVMessage) : SignedSSVMessage :=
  mkSigned (s_Signatures m) (s_OperatorIDs m) (s_SSVMessage m) v.

(** ** prepare.go *)
Definition validSignedPrepareForHeightRoundAndRootIgnoreSignature
    (i : Instance) (msg : ProcessingMessage) (round : Round) (root : bytes)
    : result goerr unit :=
  fail_if (bool_decide (pm_Type msg ≠ PrepareMsgType)) (ENew "prepare msg type is wrong") ;;
  fail_if (negb (pm_Height msg =? st_Height (i_State i)))
    (WrapError WrongMessageHeightErrorCode ErrWrongMsgHeight) ;;
  fail_if (negb (pm_Round msg =? round))
    (NewRetryableError (WrapError WrongMessageRoundErrorCode ErrWrongMsgRound)) ;;
  wrap "prepareData invalid" (of_check (pm_Validate msg)) ;;
  fail_if (bool_decide (pm_Root msg ≠ root))
    (NewError ProposedDataMismatchErrorCode "proposed data mismatch") ;;
  fail_if (bool_decide (length (pm_Signers msg) ≠ 1%nat))
    (NewError MessageAllowsOneSignerOnlyErrorCode "signer not in committee") ;;
  fail_if (negb (CheckSignersInCommittee (SignedMessage msg)
                   (cm_Committee (st_CommitteeMember (i_State i)))))
    (NewError SignerIsNotInCommitteeErrorCode "signer not in committee").

Definition verify_signature (i : Instance) (msg : ProcessingMessage) : result goerr unit :=
  wrap_code MessageSignatureInvalidErrorCode "msg signature invalid"
    (of_check (Verify (SignedMessage msg) (cm_Committee (st_CommitteeMember (i_State i))))).

Definition validSignedPrepareForHeightRoundAndRootVerifySignature
    (i : Instance) (msg : ProcessingMessage) (round : Round) (root : bytes)
    : result goerr unit :=
  validSignedPrepareForHeightRoundAndRootIgnoreSignature i msg round root ;;
  verify_signature i msg.

Definition CreatePrepare (newRound : Round) (root : bytes) : IM SignedSSVMessage :=
  i ← get_inst;
  let s := i_State i in
  Sign (mkMessage PrepareMsgType (st_Height s) newRound (st_ID s) root NoRound [] [])
    (cm_OperatorID (st_CommitteeMember s)).

(** ** commit.go *)
Definition commitQuorumForRoundRoot (i : Instance) (root : bytes) (round : Round)
    : bool * list ProcessingMessage :=
  let '(signers, msgs) :=
    LongestUniqueSignersForRoundAndRoot (st_CommitContainer (i_State i)) round root in
  (cm_HasQuorum (st_CommitteeMember (i_State i)) (length signers), msgs).

Fixpoint aggregate_all (ret : SignedSSVMessage) (msgs : list ProcessingMessage)
    : result goerr SignedSSVMessage :=
  match msgs with
  | [] => Ok ret
  | m :: msgs =>
      ret ← wrap "could not aggregate commit msg" (Aggregate ret (SignedMessage m));
      aggregate_all ret msgs
  end.

Definition le_fst (p q : OperatorID * bytes) : Prop := p.1 ≤ q.1.
#[local] Instance le_fst_dec : RelDecision le_fst := λ p q, Z_le_dec p.1 q.1.

(** The sorting of (OperatorID, Signature) pairs; reading [Signatures[i]] for
    each operator panics when there are fewer signatures than operators. *)
Definition sort_signers (ret : SignedSSVMessage) : result goerr SignedSSVMessage :=
  let ids := s_OperatorIDs ret in
  let sigs := s_Signatures ret in
  if (length sigs <? length ids)%nat then Panic
  else
    let pairs := merge_sort le_fst (zip ids sigs) in
    Ok (mkSigned (pairs.*2 ++ drop (length ids) sigs) pairs.*1 (s_SSVMessage ret) (s_FullData ret)).

Definition aggregateCommitMsgs (msgs : list ProcessingMessage) (fullData : slice)
    : result goerr SignedSSVMessage :=
  match msgs with
  | [] => Err (NewError ZeroCommitMessagesErrorCode "can't aggregate zero commit msgs")
  | m :: rest =>
      ret ← aggregate_all (SignedMessage m) rest;
      sort_signers (with_FullData fullData ret)
  end.

Definition CreateCommit (root : bytes) : IM SignedSSVMessage :=
  i ← get_inst;
  let s := i_State i in
  Sign (mkMessage CommitMsgType (st_Height s) (st_Round s) (st_ID s) root NoRound [] [])
    (cm_OperatorID (st_CommitteeMember s)).

Definition baseCommitValidationIgnoreSignature (msg : ProcessingMessage) (height : Height)
    (operators : list Operator) : result goerr unit :=
  wrap_code CommitMessageInvalidErrorCode "signed commit invalid" (of_check (pm_Validate msg)) ;;
  fail_if (bool_decide (pm_Type msg ≠ CommitMsgType))
    (WrapError CommitMessageTypeWrongErrorCode (ENew "commit msg type is wrong")) ;;
  fail_if (negb (pm_Height msg =? height))
    (WrapError WrongMessageHeightErrorCode ErrWrongMsgHeight) ;;
  fail_if (negb (CheckSignersInCommittee (SignedMessage msg) operators))
    (NewError SignerIsNotInCommitteeErrorCode "signer not in committee").

Definition BaseCommitValidationVerifySignature (msg : ProcessingMessage) (height : Height)
    (operators : list Operator) : result goerr unit :=
  baseCommitValidationIgnoreSignature msg height operators ;;
  wrap_code MessageSignatureInvalidErrorCode "msg signature invalid"
    (of_check (Verify (SignedMessage msg) operators)).

(** The accepted proposal is dereferenced without a nil check: [BaseMsgValidation]
    has made it. *)
Definition validateCommit (i : Instance) (msg : ProcessingMessage) : result goerr unit :=
  baseCommitValidationIgnoreSignature msg (st_Height (i_State i))
    (cm_Committee (st_CommitteeMember (i_State i))) ;;
  fail_if (bool_decide (length (pm_Signers msg) ≠ 1%nat))
    (NewError MessageAllowsOneSignerOnlyErrorCode "msg allows 1 signer") ;;
  fail_if (negb (pm_Round msg =? st_Round (i_State i)))
    (NewRetryableError (WrapError WrongMessageRoundErrorCode ErrWrongMsgRound)) ;;
  match st_ProposalAcceptedForCurrentRound (i_State i) with
  | None => Panic
  | Some proposedMsg =>
      fail_if (bool_decide (pm_Root proposedMsg ≠ pm_Root msg))
        (NewError ProposedDataMismatchErrorCode "proposed data mismatch")
  end.

(** ** round_change.go: validation *)

(** Decoding of the justifications carried by a message. *)
Definition justifications_of (ctx : string) (signed : list SignedSSVMessage)
    : result goerr (list ProcessingMessage) :=
  collect (λ sm, wrap ctx (NewProcessingMessage sm)) signed.

Definition validRoundChangeForDataIgnoreSignature
    (i : Instance) (msg : ProcessingMessage) (round : Round) (fullData : slice)
    : result goerr unit :=
  fail_if (bool_decide (pm_Type msg ≠ RoundChangeMsgType))
    (ENew "round change msg type is wrong") ;;
  fail_if (negb (pm_Height msg =? st_Height (i_State i)))
    (WrapError WrongMessageHeightErrorCode ErrWrongMsgHeight) ;;
  fail_if (negb (pm_Round msg =? round))
    (NewRetryableError (WrapError WrongMessageRoundErrorCode ErrWrongMsgRound)) ;;
  fail_if (bool_decide (length (pm_Signers msg) ≠ 1%nat))
    (NewError MessageAllowsOneSignerOnlyErrorCode "msg allows 1 signer") ;;
  wrap "roundChange invalid" (of_check (pm_Validate msg)) ;;
  fail_if (negb (CheckSignersInCommittee (SignedMessage msg)
                   (cm_Committee (st_CommitteeMember (i_State i)))))
    (NewError SignerIsNotInCommitteeErrorCode "signer not in committee") ;;
  if RoundChangePrepared (QBFTMessage msg) then
    let r := HashDataRoot fullData in
    prepareMsgs ← justifications_of
      "could not create ProcessingMessage from prepare message in round change justification"
      (ignore_err (GetRoundChangeJustifications (QBFTMessage msg)));
    for_each (λ pm, wrap "round change justification invalid"
      (validSignedPrepareForHeightRoundAndRootVerifySignature i pm
         (m_DataRound (QBFTMessage msg)) (pm_Root msg))) prepareMsgs ;;
    fail_if (bool_decide (r ≠ pm_Root msg))
      (NewError RootHashInvalidErrorCode "H(data) != root") ;;
    fail_if (negb (HasQuorum (st_CommitteeMember (i_State i)) prepareMsgs))
      (NewError JustificationsNoQuorumInvalidErrorCode "no justifications quorum") ;;
    fail_if (round <? m_DataRound (QBFTMessage msg)) (ENew "prepared round > round")
  else Ok tt.

Definition validRoundChangeForDataVerifySignature
    (i : Instance) (msg : ProcessingMessage) (round : Round) (fullData : slice)
    : result goerr unit :=
  validRoundChangeForDataIgnoreSignature i msg round fullData ;;
  verify_signature i msg.

(** The loop carries the best message so far and its prepared round. *)
Definition highestPrepared_step (acc : option ProcessingMessage) (rc : ProcessingMessage)
    : option ProcessingMessage :=
  if negb (RoundChangePrepared (QBFTMessage rc)) then acc
  else match acc with
       | None => Some rc
       | Some ret =>
           if m_DataRound (QBFTMessage ret) <? m_DataRound (QBFTMessage rc)
           then Some rc else acc
       end.
Definition highestPrepared (roundChanges : list ProcessingMessage) : option ProcessingMessage :=
  fold_left highestPrepared_step roundChanges None.

Definition minRound (roundChangeMsgs : list ProcessingMessage) : Round :=
  fold_left (λ ret msg, if (ret =? NoRound) || (pm_Round msg <? ret) then pm_Round msg else ret)
    roundChangeMsgs NoRound.

(** ** proposal.go *)
Definition isProposalJustification (i : Instance)
    (roundChangeMsgs prepareMsgs : list ProcessingMessage) (round : Round) (fullData : slice)
    : result goerr unit :=
  match i_ValueChecker i with
  | None => Panic
  | Some check => wrap "proposal fullData invalid" (of_check (check fullData))
  end ;;
  if round =? FirstRound then Ok tt else
  for_each (λ rc, wrap "change round msg not valid"
    (validRoundChangeForDataVerifySignature i rc round fullData)) roundChangeMsgs ;;
  fail_if (negb (HasQuorum (st_CommitteeMember (i_State i)) roundChangeMsgs))
    (NewError RoundChangeNoQuorumErrorCode "change round has no quorum") ;;
  if negb (existsb (λ rc, RoundChangePrepared (QBFTMessage rc)) roundChangeMsgs) then Ok tt else
  fail_if (negb (HasQuorum (st_CommitteeMember (i_State i)) prepareMsgs))
    (ENew "prepares has no quorum") ;;
  match highestPrepared roundChangeMsgs with
  | None => Err (ENew "no highest prepared")
  | Some rcMsg =>
      fail_if (bool_decide (HashDataRoot fullData ≠ pm_Root rcMsg))
        (ENew "proposed data doesn't match highest prepared") ;;
      for_each (λ pm,
        match validSignedPrepareForHeightRoundAndRootVerifySignature i pm
                (m_DataRound (QBFTMessage rcMsg)) (pm_Root rcMsg) with
        | Err _ => Err (NewError PrepareMessageInvalidErrorCode "signed prepare not valid")
        | r => r
        end) prepareMsgs
  end.

Definition isValidProposal (i : Instance) (msg : ProcessingMessage) : result goerr unit :=
  fail_if (bool_decide (pm_Type msg ≠ ProposalMsgType)) (ENew "msg type is not proposal") ;;
  fail_if (negb (pm_Height msg =? st_Height (i_State i)))
    (WrapError WrongMessageHeightErrorCode ErrWrongMsgHeight) ;;
  fail_if (bool_decide (length (pm_Signers msg) ≠ 1%nat))
    (NewError MessageAllowsOneSignerOnlyErrorCode "msg allows 1 signer") ;;
  fail_if (negb (CheckSignersInCommittee (SignedMessage msg)
                   (cm_Committee (st_CommitteeMember (i_State i)))))
    (NewError SignerIsNotInCommitteeErrorCode "signer not in committee") ;;
  fail_if (negb (MatchedSigners (SignedMessage msg) [ProposerForRound i (pm_Round msg)]))
    (NewError ProposalLeaderInvalidErrorCode "proposal leader invalid") ;;
  wrap_code ProposalInvalidErrorCode "proposal invalid" (of_check (pm_Validate msg)) ;;
  fail_if (bool_decide (pm_Root msg ≠ HashDataRoot (s_FullData (SignedMessage msg))))
    (NewError RootHashInvalidErrorCode "H(data) != root") ;;
  roundChangeJustification ← justifications_of
    "could not create ProcessingMessage from round change justification"
    (ignore_err (GetRoundChangeJustifications (QBFTMessage msg)));
  prepareJustification ← justifications_of
    "could not create ProcessingMessage from prepare justification"
    (ignore_err (GetPrepareJustifications (QBFTMessage msg)));
  wrap "proposal not justified"
    (isProposalJustification i roundChangeJustification prepareJustification
       (pm_Round msg) (s_FullData (SignedMessage msg))) ;;
  if (bool_decide (st_ProposalAcceptedForCurrentRound (i_State i) = None)
      && (pm_Round msg =? st_Round (i_State i)))
     || (st_Round (i_State i) <? pm_Round msg)
  then Ok tt
  else Err (NewError ProposalInvalidErrorCode "proposal is not valid with current state").

Definition CreateProposal (fullData : slice) (roundChanges prepares : list ProcessingMessage)
    : IM SignedSSVMessage :=
  i ← get_inst;
  let s := i_State i in
  roundChangesData ← st_lift (wrap "could not marshal justifications"
    (MarshalJustifications (SignedMessage <$> roundChanges)));
  preparesData ← st_lift (wrap "could not marshal justifications"
    (MarshalJustifications (SignedMessage <$> prepares)));
  signedMsg ← wrap_m "could not wrap proposal message"
    (Sign (mkMessage ProposalMsgType (st_Height s) (st_Round s) (st_ID s)
             (HashDataRoot fullData) NoRound roundChangesData preparesData)
       (cm_OperatorID (st_CommitteeMember s)));
  mret (with_FullData fullData signedMsg).

(** ** Message validation (instance.go) *)
Definition BaseMsgValidation (i : Instance) (msg : ProcessingMessage) : result goerr unit :=
  of_check (pm_Validate msg) ;;
  let decided := bool_decide (pm_Type msg = CommitMsgType)
                 && cm_HasQuorum (st_CommitteeMember (i_State i)) (length (pm_Signers msg)) in
  fail_if (negb decided && (pm_Round msg <? st_Round (i_State i)))
    (NewError PastRoundErrorCode "past round") ;;
  match pm_Type msg with
  | ProposalMsgType => isValidProposal i msg
  | PrepareMsgType =>
      match st_ProposalAcceptedForCurrentRound (i_State i) with
      | None => Err (NewRetryableError
                  (WrapError NoProposalForCurrentRoundErrorCode ErrNoProposalForCurrentRound))
      | Some proposedMsg =>
          validSignedPrepareForHeightRoundAndRootIgnoreSignature i msg
            (st_Round (i_State i)) (pm_Root proposedMsg)
      end
  | CommitMsgType =>
      match st_ProposalAcceptedForCurrentRound (i_State i) with
      | None => Err (NewRetryableError
                  (WrapError NoProposalForCurrentRoundErrorCode ErrNoProposalForCurrentRound))
      | Some _ => validateCommit i msg
      end
  | RoundChangeMsgType =>
      validRoundChangeForDataIgnoreSignature i msg (pm_Round msg)
        (s_FullData (SignedMessage msg))
  | UnknownMsgType _ => Err (ENew "signed message type not supported")
  end.

(** ** round_change.go: creation *)
Definition getRoundChangeJustification (i : Instance) : list ProcessingMessage :=
  let s := i_State i in
  match st_LastPreparedValue s with
  | None => []
  | Some _ =>
      let r := HashDataRoot (st_LastPreparedValue s) in
      let ret := filter (λ msg,
        is_ok (validSignedPrepareForHeightRoundAndRootIgnoreSignature i msg
                 (st_LastPreparedRound s) r) = true)
        (MessagesForRound (st_PrepareContainer s) (st_LastPreparedRound s)) in
      if negb (HasQuorum (st_CommitteeMember s) ret) then [] else ret
  end.

(** (prepared round, its root, its value, the prepares that justify it) *)
Definition getRoundChangeData (i : Instance)
    : Round * bytes * slice * list ProcessingMessage :=
  let s := i_State i in
  if negb (st_LastPreparedRound s =? NoRound) && bool_decide (st_LastPreparedValue s ≠ None) then
    (st_LastPreparedRound s, HashDataRoot (st_LastPreparedValue s),
     st_LastPreparedValue s, getRoundChangeJustification i)
  else (NoRound, zero_root, None, []).

Definition CreateRoundChange (newRound : Round) : IM SignedSSVMessage :=
  i ← get_inst;
  let s := i_State i in
  let '(round, root, fullData, justifications) := getRoundChangeData i in
  justificationsData ← st_lift (wrap "could not marshal justifications"
    (MarshalJustifications (SignedMessage <$> justifications)));
  signedMsg ← wrap_m "could not sign round change message"
    (Sign (mkMessage RoundChangeMsgType (st_Height s) newRound (st_ID s)
             root round justificationsData [])
       (cm_OperatorID (st_CommitteeMember s)));
  mret (with_FullData fullData signedMsg).

(** ** Handlers *)

(** The leader's proposal for the first round; errors are logged and dropped. *)
Definition start_proposal (value : slice) : IM unit := λ c,
  match CreateProposal value [] [] c with
  | (c', Ok proposal) =>
      match Broadcast proposal c' with
      | (c'', Panic) => (c'', Panic)
      | (c'', _) => (c'', Ok tt)
      end
  | (c', Err _) => (c', Ok tt)
  | (c', Panic) => (c', Panic)
  end.

Definition Start (value : slice) (valueChecker : slice → option goerr) : IM unit :=
  i ← get_inst;
  let proposerID := ProposerForRound i FirstRound in
  st_modify (λ c, (with_Start value valueChecker c.1, c.2)) ;;
  emit (ETimeoutForRound (GetHeight i) FirstRound) ;;
  if proposerID =? cm_OperatorID (st_CommitteeMember (i_State i))
  then start_proposal value
  else mret tt.

Definition uponProposal (msg : ProcessingMessage) : IM unit :=
  addedMsg ← wrap_m "could not add proposal msg to container"
    (add_first st_ProposeContainer set_ProposeContainer msg);
  if negb addedMsg then mret tt else
  let msgRound := pm_Round msg in
  bumpToRound msgRound ;;
  i ← get_inst;
  if negb (IsRelevant i) then mret tt else
  modify_State (set_Proposal (Some msg)) ;;
  let r := HashDataRoot (s_FullData (SignedMessage msg)) in
  prepare ← wrap_m "could not create prepare msg" (CreatePrepare msgRound r);
  wrap_m "failed to broadcast prepare message" (Broadcast prepare).

Definition uponPrepare (msg : ProcessingMessage) : IM unit :=
  i ← get_inst;
  match st_ProposalAcceptedForCurrentRound (i_State i) with
  | None => st_lift Panic
  | Some proposal =>
      let proposedRoot := pm_Root proposal in
      let round := st_Round (i_State i) in
      let hadQuorumBefore := HasQuorum (st_CommitteeMember (i_State i))
        (MessagesForRound (st_PrepareContainer (i_State i)) round) in
      addedMsg ← wrap_m "could not add prepare msg to container"
        (add_first st_PrepareContainer set_PrepareContainer msg);
      if negb addedMsg then mret tt else
      if hadQuorumBefore then mret tt else
      i ← get_inst;
      if negb (HasQuorum (st_CommitteeMember (i_State i))
                 (MessagesForRound (st_PrepareContainer (i_State i)) round)) then mret tt else
      modify_State (set_LastPrepared round (s_FullData (SignedMessage proposal))) ;;
      commitMsg ← wrap_m "could not create commit msg" (CreateCommit proposedRoot);
      wrap_m "failed to broadcast commit message" (Broadcast commitMsg)
  end.

(** Whether the message completes the commit quorum, the decided value and the
    aggregated commit. *)
Definition not_decided : bool * slice * option SignedSSVMessage := (false, None, None).

Definition uponCommit (msg : ProcessingMessage)
    : IM (bool * slice * option SignedSSVMessage) :=
  i ← get_inst;
  let '(hadQuorumBefore, _) := commitQuorumForRoundRoot i (pm_Root msg) (pm_Round msg) in
  addMsg ← wrap_m "could not add commit msg to container"
    (add_first st_CommitContainer set_CommitContainer msg);
  if negb addMsg then mret not_decided else
  if (hadQuorumBefore : bool) then mret not_decided else
  i ← get_inst;
  let '(quorum, commitMsgs) := commitQuorumForRoundRoot i (pm_Root msg) (pm_Round msg) in
  if (quorum : bool) then
    match st_ProposalAcceptedForCurrentRound (i_State i) with
    | None => st_lift Panic
    | Some proposal =>
        let fullData := s_FullData (SignedMessage proposal) in
        agg ← st_lift (wrap "could not aggregate commit msgs"
                         (aggregateCommitMsgs commitMsgs fullData));
        mret (true, fullData, Some agg)
    end
  else mret not_decided.

Definition hasReceivedPartialQuorum (i : Instance) : bool * list ProcessingMessage :=
  let rc := filter (λ msg, st_Round (i_State i) < pm_Round msg)
              (AllMessages (st_RoundChangeContainer (i_State i))) in
  (HasPartialQuorum (st_CommitteeMember (i_State i)) rc, rc).

Definition isReceivedProposalJustification (i : Instance)
    (roundChanges prepares : list ProcessingMessage) (newRound : Round) (value : slice)
    : result goerr unit :=
  wrap "proposal not justified" (isProposalJustification i roundChanges prepares newRound value).

Definition isProposalJustificationForLeadingRound (i : Instance)
    (roundChangeMsg : ProcessingMessage)
    (roundChanges roundChangeJustifications : list ProcessingMessage)
    (value : slice) (newRound : Round) : result goerr unit :=
  isReceivedProposalJustification i roundChanges roundChangeJustifications
    (pm_Round roundChangeMsg) value ;;
  fail_if (negb (ProposerForRound i (pm_Round roundChangeMsg)
                 =? cm_OperatorID (st_CommitteeMember (i_State i)))) (ENew "not proposer") ;;
  let currentRoundProposal :=
    bool_decide (st_ProposalAcceptedForCurrentRound (i_State i) = None)
    && (st_Round (i_State i) =? newRound) in
  let futureRoundProposal := st_Round (i_State i) <? newRound in
  fail_if (negb currentRoundProposal && negb futureRoundProposal)
    (ENew "proposal round mismatch").

(** The loop over the container's round changes: the first one that justifies a
    proposal is returned with the value to propose. *)
Fixpoint find_justified (i : Instance) (newRound : Round)
    (roundChanges todo : list ProcessingMessage)
    : result goerr (option (ProcessingMessage * slice)) :=
  match todo with
  | [] => Ok None
  | crc :: todo =>
      let valueToPropose :=
        if RoundChangePrepared (QBFTMessage crc) then s_FullData (SignedMessage crc)
        else i_StartValue i in
      roundChangeJustification ← justifications_of
        "could not create ProcessingMessage from round change justification"
        (ignore_err (GetRoundChangeJustifications (QBFTMessage crc)));
      match isProposalJustificationForLeadingRound i crc roundChanges
              roundChangeJustification valueToPropose newRound with
      | Ok _ => Ok (Some (crc, valueToPropose))
      | Err _ => find_justified i newRound roundChanges todo
      | Panic => Panic
      end
  end.

Definition hasReceivedProposalJustificationForLeadingRound (i : Instance)
    (roundChangeMessage : ProcessingMessage)
    : result goerr (option (ProcessingMessage * slice)) :=
  let roundChanges := MessagesForRound (st_RoundChangeContainer (i_State i))
                        (pm_Round roundChangeMessage) in
  if negb (HasQuorum (st_CommitteeMember (i_State i)) roundChanges) then Ok None
  else find_justified i (pm_Round roundChangeMessage) roundChanges roundChanges.

Definition uponChangeRoundPartialQuorum (newRound : Round) : IM unit :=
  bumpToRound newRound ;;
  i ← get_inst;
  if negb (IsRelevant i) then mret tt else
  roundChange ← wrap_m "failed to create round change message" (CreateRoundChange newRound);
  wrap_m "failed to broadcast round change message" (Broadcast roundChange).

Definition uponRoundChange (msg : ProcessingMessage) : IM unit :=
  i ← get_inst;
  let hadQuorumBefore := HasQuorum (st_CommitteeMember (i_State i))
    (MessagesForRound (st_RoundChangeContainer (i_State i)) (pm_Round msg)) in
  addedMsg ← wrap_m "could not add round change msg to container"
    (add_first st_RoundChangeContainer set_RoundChangeContainer msg);
  if negb addedMsg then mret tt else
  if hadQuorumBefore then mret tt else
  i ← get_inst;
  justified ← st_lift (wrap "could not get proposal justification for leading round"
                         (hasReceivedProposalJustificationForLeadingRound i msg));
  match justified with
  | Some (justifiedRoundChangeMsg, valueToPropose) =>
      bumpToRound (pm_Round justifiedRoundChangeMsg) ;;
      i ← get_inst;
      if negb (IsRelevant i) then mret tt else
      roundChangeJustification ← st_lift (justifications_of
        "could not create ProcessingMessage from round change justification"
        (ignore_err (GetRoundChangeJustifications (QBFTMessage justifiedRoundChangeMsg))));
      proposal ← wrap_m "failed to create proposal"
        (CreateProposal valueToPropose
           (MessagesForRound (st_RoundChangeContainer (i_State i)) (st_Round (i_State i)))
           roundChangeJustification);
      wrap_m "failed to broadcast proposal message" (Broadcast proposal)
  | None =>
      let '(partialQuorum, rcs) := hasReceivedPartialQuorum i in
      if (partialQuorum : bool) then
        let newRound := minRound rcs in
        if newRound <=? st_Round (i_State i) then mret tt
        else uponChangeRoundPartialQuorum newRound
      else mret tt
  end.

(** timeout.go *)
Definition UponRoundTimeout : IM unit :=
  i ← get_inst;
  if negb (IsRelevant i) then
    st_err (WrapError TimeoutInstanceErrorCode (ENew "instance is no longer considered relevant"))
  else
    let newRound := st_Round (i_State i) +u 1 in
    bumpToRound newRound ;;
    i ← get_inst;
    if negb (IsRelevant i) then mret tt else
    roundChange ← wrap_m "could not generate round change msg" (CreateRoundChange newRound);
    wrap_m "failed to broadcast round change message" (Broadcast roundChange).

Definition ProcessMsg (msg : ProcessingMessage)
    : IM (bool * slice * option SignedSSVMessage) :=
  i ← get_inst;
  if negb (IsRelevant i) then
    st_err (NewError InstanceStoppedProcessingMessagesErrorCode
              "instance is no longer considered relevant")
  else
    st_lift (wrap "invalid signed message" (BaseMsgValidation i msg)) ;;
    match pm_Type msg with
    | ProposalMsgType => uponProposal msg ;; mret not_decided
    | PrepareMsgType => uponPrepare msg ;; mret not_decided
    | CommitMsgType =>
        res ← uponCommit msg;
        let '(decided, decidedValue, _) := res in
        if (decided : bool)
        then wrap_m "mark as decided" (MarkDecided (pm_Round msg) decidedValue) ;; mret res
        else mret res
    | RoundChangeMsgType => uponRoundChange msg ;; mret not_decided
    | UnknownMsgType _ => st_err (ENew "signed message type not supported")
    end.
End instance.
