(* ===== verification/Controller.v ===== *)
(** * QBFT controller (protocol/v2/qbft/controller)

    The controller of one message identifier: it starts an instance per height,
    keeps the most recent ones, routes messages and timeouts to them, and
    accepts decided messages for instances it has not followed. *)

From stdpp Require Import base list gmap numbers strings.
From S2P Require Import Prelude Sha256 SpecTypes Instance.

Definition InstancesDefaultCapacity : nat := 2.

Definition ErrFutureConsensusMsg : goerr := ENew "future consensus msg".
Definition ErrInstanceNotFound : goerr := ENew "instance not found".

Section controller.
Context {Lib : SpecLib}.

(** ** types.go: Instances *)
Definition FindInstance (ic : list Instance) (height : Height) : option Instance :=
  List.find (λ inst, GetHeight inst =? height) ic.

(** The index of the first stored instance with a smaller height. *)
Fixpoint indexToInsert (ic : list Instance) (height : Height) : nat :=
  match ic with
  | [] => 0
  | existing :: ic =>
      if GetHeight existing <? height then 0 else S (indexToInsert ic height)
  end.

Definition addNewInstance (cap : nat) (ic : list Instance) (inst : Instance) : list Instance :=
  let '(cap, ic) := if (cap =? 0)%nat then (InstancesDefaultCapacity, []) else (cap, ic) in
  let idx := indexToInsert ic (GetHeight inst) in
  if (idx =? length ic)%nat then
    if (length ic <? cap)%nat then ic ++ [inst] else ic
  else if (length ic =? cap)%nat then
    (* shift right, ejecting the last *)
    take idx ic ++ [inst] ++ take (length ic - S idx) (drop idx ic)
  else take idx ic ++ [inst] ++ drop idx ic.

(** Methods act on the stored instance: replace the one at [height]. *)
Fixpoint replace_instance (height : Height) (inst : Instance) (ic : list Instance)
    : list Instance :=
  match ic with
  | [] => []
  | x :: ic =>
      if GetHeight x =? height then inst :: ic
      else x :: replace_instance height inst ic
  end.

(** ** controller.go *)
Record Controller := mkController {
  c_Identifier : bytes;
  c_IdentifierFn : option (Height → bytes);
  c_LatestInstanceHeight : Height;
  c_RecentInstances : list Instance;
  c_cap : nat;
  c_CommitteeMember : CommitteeMember;
  c_OperatorSigner : list Effect → SSVMessage → result goerr bytes;
  c_config : Config;
}.

Definition with_instances (ic : list Instance) (c : Controller) : Controller :=
  mkController (c_Identifier c) (c_IdentifierFn c) (c_LatestInstanceHeight c) ic
    (c_cap c) (c_CommitteeMember c) (c_OperatorSigner c) (c_config c).
Definition with_latest (h : Height) (c : Controller) : Controller :=
  mkController (c_Identifier c) (c_IdentifierFn c) h (c_RecentInstances c)
    (c_cap c) (c_CommitteeMember c) (c_OperatorSigner c) (c_config c).

Abbreviation CCtx := (Controller * list Effect)%type.
Abbreviation CM := (ST CCtx goerr).

Definition get_ctrl : CM Controller := λ c, (c, Ok c.1).
Definition modify_ctrl (f : Controller → Controller) : CM unit :=
  st_modify (λ c, (f c.1, c.2)).

(** Run a method of a detached instance, emitting into the controller's log. *)
Definition run_on {A} (inst : Instance) (m : ST (Instance * list Effect) goerr A)
    : CM (Instance * A) := λ c,
  match m (inst, c.2) with
  | ((inst', out), Ok a) => ((c.1, out), Ok (inst', a))
  | ((_, out), Err e) => ((c.1, out), Err e)
  | ((_, out), Panic) => ((c.1, out), Panic)
  end.

(** Run a method of the stored instance at [height]; its mutations stay also
    when it fails. *)
Definition run_stored {A} (height : Height) (inst : Instance)
    (m : ST (Instance * list Effect) goerr A) : CM A := λ c,
  let '((inst', out), r) := m (inst, c.2) in
  ((with_instances (replace_instance height inst' (c_RecentInstances c.1)) c.1, out), r).

Definition NewController (identifier : bytes) (cm : CommitteeMember) (config : Config)
    (signer : list Effect → SSVMessage → result goerr bytes) : Controller :=
  mkController identifier None FirstHeight [] InstancesDefaultCapacity cm signer config.

Definition identifierAtHeight (c : Controller) (height : Height) : bytes :=
  match c_IdentifierFn c with
  | Some f => f height
  | None => c_Identifier c
  end.

Definition new_instance (c : Controller) (height : Height) : Instance :=
  NewInstance (c_config c) (c_CommitteeMember c) (identifierAtHeight c height) height
    (c_OperatorSigner c).

Definition markRecentInstancesIrrelevant : CM unit := λ c,
  ((with_instances (with_Irrelevant <$> c_RecentInstances c.1) c.1,
    c.2 ++ ((λ i, ETimerStop (GetHeight i)) <$> c_RecentInstances c.1)), Ok tt).

Definition startInstance (height : Height) (value : slice)
    (valueChecker : slice → option goerr) : CM Instance :=
  c ← get_ctrl;
  if height <? c_LatestInstanceHeight c then
    st_err (WrapError StartInstanceErrorCode
      (ENew "attempting to start an instance with a past height"))
  else if bool_decide (FindInstance (c_RecentInstances c) height ≠ None) then
    st_err (WrapError InstanceAlreadyRunningErrorCode (ENew "instance already running"))
  else
    markRecentInstancesIrrelevant ;;
    started ← run_on (new_instance c height) (Start value valueChecker);
    modify_ctrl (λ c, with_latest height
      (with_instances (addNewInstance (c_cap c) (c_RecentInstances c) started.1) c)) ;;
    mret started.1.

Definition StartNewInstance (height : Height) (value : slice)
    (valueChecker : slice → option goerr) : CM Instance :=
  st_lift (wrap "value invalid" (of_check (valueChecker value))) ;;
  startInstance height value valueChecker.

(** decided.go *)
Definition isDecidedMsg (c : Controller) (msg : ProcessingMessage) : bool :=
  cm_HasQuorum (c_CommitteeMember c) (length (pm_Signers msg))
  && bool_decide (pm_Type msg = CommitMsgType).

Definition ValidateDecided (c : Controller) (msg : ProcessingMessage) : result goerr unit :=
  fail_if (negb (isDecidedMsg c msg)) (ENew "not a decided msg") ;;
  wrap "invalid decided msg"
    (BaseCommitValidationVerifySignature msg (pm_Height msg)
       (cm_Committee (c_CommitteeMember c))) ;;
  fail_if (bool_decide (HashDataRoot (s_FullData (SignedMessage msg)) ≠ pm_Root msg))
    (NewError RootHashInvalidErrorCode "H(data) != root").

(** [inst.State.CommitContainer.AddMsg(msg)] *)
Definition add_commit (msg : ProcessingMessage) : ST (Instance * list Effect) goerr unit := λ c,
  let '(ct, r) := AddMsg (st_CommitContainer (i_State c.1)) msg in
  ((with_State (set_CommitContainer ct) c.1, c.2), r).

(** Mark as decided by a decided message and record it. *)
Definition decide_by (msg : ProcessingMessage) : ST (Instance * list Effect) goerr unit :=
  wrap_m "mark as decided" (MarkDecided (pm_Round msg) (s_FullData (SignedMessage msg))) ;;
  wrap_m "add message to commit-container" (add_commit msg).

Definition UponDecided (msg : ProcessingMessage) : CM (option SignedSSVMessage) :=
  c ← get_ctrl;
  st_lift (wrap "invalid decided msg" (ValidateDecided c msg)) ;;
  match FindInstance (c_RecentInstances c) (pm_Height msg) with
  | None =>
      fresh ← run_on (new_instance c (pm_Height msg)) (decide_by msg);
      modify_ctrl (λ c, with_instances
        (addNewInstance (c_cap c) (c_RecentInstances c) fresh.1) c) ;;
      (if c_LatestInstanceHeight c <? pm_Height msg
       then modify_ctrl (with_latest (pm_Height msg)) else mret tt) ;;
      mret (Some (SignedMessage msg))
  | Some inst =>
      if negb (IsDecided inst).1 then
        run_stored (pm_Height msg) inst (decide_by msg) ;;
        mret (Some (SignedMessage msg))
      else
        let '(signers, _) := LongestUniqueSignersForRoundAndRoot
          (st_CommitContainer (i_State inst)) (pm_Round msg) (pm_Root msg) in
        (if (length signers <? length (pm_Signers msg))%nat
         then run_stored (pm_Height msg) inst (add_commit msg) else mret tt) ;;
        mret None
  end.

Definition isFutureMessage (c : Controller) (msg : ProcessingMessage) : bool :=
  if (c_LatestInstanceHeight c =? FirstHeight)
     && bool_decide (FindInstance (c_RecentInstances c) (c_LatestInstanceHeight c) = None)
  then true
  else c_LatestInstanceHeight c <? pm_Height msg.

(** The failure of the broadcast is only logged. *)
Definition broadcastDecided (msg : SignedSSVMessage) (height : Height) : CM unit := λ c,
  ((c.1, c.2 ++ [EBroadcast msg height]), Ok tt).

Definition UponExistingInstanceMsg (msg : ProcessingMessage) : CM (option SignedSSVMessage) :=
  c ← get_ctrl;
  match FindInstance (c_RecentInstances c) (pm_Height msg) with
  | None => st_err (NewRetryableError ErrInstanceNotFound)
  | Some inst =>
      if (IsDecided inst).1 then
        st_err (NewError SkipConsensusMessageAsInstanceIsDecidedErrorCode
          "not processing consensus message since instance is already decided")
      else λ c,
        match run_stored (pm_Height msg) inst (ProcessMsg msg) c with
        | (c', Panic) => (c', Panic)
        | (c', Err e) =>
            (c', Err (if IsRetryable e then NewRetryableError e
                      else EWrap "could not process msg" e))
        | (c', Ok (decided, _, decidedMsg)) =>
            if negb decided then (c', Ok None)
            else match decidedMsg with
                 | None => (c', Panic)
                 | Some m => (broadcastDecided m (pm_Height msg) ;; mret (Some m)) c'
                 end
        end
  end.

Definition ctrl_ProcessMsg (signedMessage : SignedSSVMessage) : CM (option SignedSSVMessage) :=
  msg ← st_lift (wrap "could not create ProcessingMessage from signed message"
                   (NewProcessingMessage signedMessage));
  c ← get_ctrl;
  if bool_decide (identifierAtHeight c (pm_Height msg) ≠ m_Identifier (QBFTMessage msg)) then
    st_err (NewError MessageIdentifierInvalidErrorCode "message doesn't belong to Identifier")
  else if isDecidedMsg c msg then UponDecided msg
  else if isFutureMessage c msg then
    st_err (NewRetryableError (WrapError FutureMessageErrorCode ErrFutureConsensusMsg))
  else UponExistingInstanceMsg msg.

(** timer.go *)
Definition OnQBFTRoundTimeout (slot : Slot) (round : Round) : CM unit :=
  c ← get_ctrl;
  match FindInstance (c_RecentInstances c) slot with
  | None => st_err (ENew "instance is nil")
  | Some inst =>
      if round <? st_Round (i_State inst) then mret tt
      else if (IsDecided inst).1 then mret tt
      else wrap_m "failed to handle round timeout" (run_stored slot inst UponRoundTimeout)
  end.
End controller.
