(* ===== verification/Quorum.v ===== *)
(** * Quorum sizes (protocol/v2/types/ssvshare.go) and quorum intersection *)

From stdpp Require Import base gmap list numbers.
From S2P Require Import Prelude.

(** Go's truncated division and remainder on [uint64]; the subtraction wraps. *)
Abbreviation ComputeF committeeSize := ((committeeSize -u 1) `div` 3) (only parsing).

Definition ComputeQuorumAndPartialQuorum (committeeSize : Z) : Z * Z :=
  let f := ComputeF committeeSize in
  (f *u 2 +u 1, f +u 1).

Definition ValidCommitteeSize (committeeSize : Z) : bool :=
  let f := ComputeF committeeSize in
  ((committeeSize -u 1) `mod` 3 =? 0) && (1 <=? f) && (f <=? 4).

(** The committee sizes the node accepts, with their fault tolerance. *)
Lemma ValidCommitteeSize_spec n :
  is_u64 n →
  ValidCommitteeSize n = true ↔ n = 4 ∨ n = 7 ∨ n = 10 ∨ n = 13.
Proof.
  intros Hn. unfold ValidCommitteeSize.
  destruct (decide (n = 0)) as [->|Hz].
  { vm_compute. split; [done|lia]. }
  assert (u64 (n - 1) = n - 1) as -> by (apply u64_small; unfold is_u64 in *; lia).
  rewrite !andb_true_iff, Z.eqb_eq, !Z.leb_le. split.
  - intros [[Hm H1] H2].
    pose proof (Z.div_mod (n - 1) 3). lia.
  - intros [->|[->|[->| ->]]]; repeat split; try (vm_compute; congruence).
Qed.

Lemma ComputeQuorum_valid n :
  is_u64 n → ValidCommitteeSize n = true →
  let f := ComputeF n in
  n = 3 * f + 1 ∧ 1 ≤ f ≤ 4 ∧
  ComputeQuorumAndPartialQuorum n = (2 * f + 1, f + 1).
Proof.
  intros Hn Hv. apply ValidCommitteeSize_spec in Hv as [->|[->|[->| ->]]]; [|done..];
    vm_compute; repeat split; congruence.
Qed.

(** ** Intersection of quorums of a committee with few faulty members *)
Section intersection.
Context (C honest : gset Z) (f : Z).
Hypothesis C_size : Z.of_nat (size C) ≤ 3 * f + 1.
Hypothesis C_faulty : Z.of_nat (size (C ∖ honest)) ≤ f.

Definition is_quorum (Q : gset Z) : Prop := Q ⊆ C ∧ 2 * f + 1 ≤ Z.of_nat (size Q).

Lemma quorum_honest Q : Q ⊆ C → f + 1 ≤ Z.of_nat (size Q) → ∃ x, x ∈ Q ∧ x ∈ honest.
Proof using C_faulty.
  clear C_size. intros HQ Hs.
  destruct (decide (Q ∩ honest = ∅)) as [He|He].
  - exfalso. assert (Q ⊆ C ∖ honest) as Hsub by set_solver.
    apply subseteq_size in Hsub. lia.
  - apply set_choose_L in He as [x Hx]. exists x. set_solver.
Qed.

Lemma quorum_intersection Q1 Q2 :
  is_quorum Q1 → is_quorum Q2 → ∃ x, x ∈ Q1 ∧ x ∈ Q2 ∧ x ∈ honest.
Proof using C_faulty C_size.
  intros [H1 S1] [H2 S2].
  destruct (quorum_honest (Q1 ∩ Q2)) as [x Hx]; [set_solver| |exists x; set_solver].
  assert (size (Q1 ∪ Q2) + size (Q1 ∩ Q2) = size Q1 + size Q2)%nat as Hinc.
  { rewrite size_union_alt.
    assert (size Q2 = size (Q2 ∖ Q1) + size (Q1 ∩ Q2))%nat as ->; [|lia].
    rewrite <- size_union by set_solver. f_equal.
    apply set_eq. intros y. destruct (decide (y ∈ Q1)); set_solver. }
  assert (size (Q1 ∪ Q2) ≤ size C)%nat by (apply subseteq_size; set_solver).
  lia.
Qed.

Lemma quorum_has_honest Q : 0 ≤ f → is_quorum Q → ∃ x, x ∈ Q ∧ x ∈ honest.
Proof using C_faulty. clear C_size. intros ? [??]. apply quorum_honest; [done|lia]. Qed.
End intersection.
