(* ===== verification/History.v ===== *)
(** * What operators have signed, and why two decisions agree

    The safety argument of QBFT over the histories of the honest operators,
    independent of how a node keeps its state: [HistOK] lists what the instance
    guarantees of the messages one operator signs at a height ([InstanceInv.v]
    proves it), and [commit_quorums_agree] derives that no two values of one
    height gather a commit quorum. *)

From stdpp Require Import base list gmap numbers.
From S2P Require Import Prelude SpecTypes Instance Quorum.

Section history.
Context {Lib : SpecLib}.

(** The message [m] was handed to the operator's signer. *)
Definition signed (log : list Effect) (m : Message) : Prop :=
∃ sv, ESign sv ∈ log ∧ DecodeMessage (sv_Data sv) = Ok m.

Lemma signed_mono log log' m : log ⊆ log' → signed log m → signed log' m.
Proof. intros Hl (sv & Hin & Hd). exists sv. split; [by apply Hl|done]. Qed.

Definition is_prepare (h : Height) (r : Round) (root : bytes) (m : Message) : Prop :=
m_MsgType m = PrepareMsgType ∧ m_Height m = h ∧ m_Round m = r ∧ m_Root m = root.
Definition is_commit (h : Height) (r : Round) (root : bytes) (m : Message) : Prop :=
m_MsgType m = CommitMsgType ∧ m_Height m = h ∧ m_Round m = r ∧ m_Root m = root.
Definition is_round_change (h : Height) (r d : Round) (m : Message) : Prop :=
m_MsgType m = RoundChangeMsgType ∧ m_Height m = h ∧ m_Round m = r ∧ m_DataRound m = d.

Definition prepared_at log h r root : Prop := ∃ m, signed log m ∧ is_prepare h r root m.
Definition committed_at log h r root : Prop := ∃ m, signed log m ∧ is_commit h r root m.
Definition changed_to log h r d : Prop := ∃ m, signed log m ∧ is_round_change h r d m.

Lemma prepared_at_mono log log' h r root :
log ⊆ log' → prepared_at log h r root → prepared_at log' h r root.
Proof. intros Hl (m & ? & ?). exists m. eauto using signed_mono. Qed.
Lemma committed_at_mono log log' h r root :
log ⊆ log' → committed_at log h r root → committed_at log' h r root.
Proof. intros Hl (m & ? & ?). exists m. eauto using signed_mono. Qed.
Lemma changed_to_mono log log' h r d :
log ⊆ log' → changed_to log h r d → changed_to log' h r d.
Proof. intros Hl (m & ? & ?). exists m. eauto using signed_mono. Qed.

(** The committee, its honest members, the fault bound and the height. *)
Context (C honest : gset OperatorID) (f : Z) (h : Height).

(** The logs of all operators. *)
Abbreviation logs := (OperatorID → list Effect).
Definition logs_le (G G' : logs) : Prop := ∀ p, G p ⊆ G' p.

(** A quorum whose honest members prepared, respectively committed, the root. *)
Definition PrepQuorum (G : logs) (r : Round) (root : bytes) : Prop :=
∃ Q, is_quorum C f Q ∧ ∀ s, s ∈ Q → s ∈ honest → prepared_at (G s) h r root.
Definition ComQuorum (G : logs) (r : Round) (root : bytes) : Prop :=
∃ Q, is_quorum C f Q ∧ ∀ s, s ∈ Q → s ∈ honest → committed_at (G s) h r root.

(** Why preparing [root] in a round after the first was justified. *)
Definition Evidence (G : logs) (r : Round) (root : bytes) : Prop :=
∃ Q, is_quorum C f Q ∧
  ((∀ s, s ∈ Q → s ∈ honest → changed_to (G s) h r NoRound) ∨
   ∃ d, d < r ∧ PrepQuorum G d root ∧
     ∀ s, s ∈ Q → s ∈ honest → ∃ d', d' ≤ d ∧ changed_to (G s) h r d').

Lemma PrepQuorum_mono G G' r root : logs_le G G' → PrepQuorum G r root → PrepQuorum G' r root.
Proof. intros Hl (Q & ? & HQ). exists Q. split; [done|]. eauto using prepared_at_mono. Qed.
Lemma ComQuorum_mono G G' r root : logs_le G G' → ComQuorum G r root → ComQuorum G' r root.
Proof. intros Hl (Q & ? & HQ). exists Q. split; [done|]. eauto using committed_at_mono. Qed.
Lemma Evidence_mono G G' r root : logs_le G G' → Evidence G r root → Evidence G' r root.
Proof.
intros Hl (Q & ? & [HQ|(d & Hd & HP & HQ)]); exists Q; (split; [done|]).
- left. eauto using changed_to_mono.
- right. exists d. split; [done|]. split; [eauto using PrepQuorum_mono|].
  intros s Hs Hh. destruct (HQ s Hs Hh) as (d' & ? & ?). exists d'.
  eauto using changed_to_mono.
Qed.

(** What holds of the messages one honest operator signed at height [h]. *)
Record HistOK (log : list Effect) (G : logs) : Prop := {
hist_prepare_once r root root' :
  prepared_at log h r root → prepared_at log h r root' → root = root';
hist_commit_prepared r root :
  committed_at log h r root → FirstRound ≤ r ∧ PrepQuorum G r root;
hist_lock r r0 d root :
  changed_to log h r d → committed_at log h r0 root → r0 < r → r0 ≤ d;
hist_evidence r root :
  prepared_at log h r root → FirstRound < r → Evidence G r root;
}.

Lemma HistOK_mono log G G' : logs_le G G' → HistOK log G → HistOK log G'.
Proof.
intros Hl []. constructor; try done.
- intros r root Hc. destruct (hist_commit_prepared0 _ _ Hc). eauto using PrepQuorum_mono.
- eauto using Evidence_mono.
Qed.

(** ** The argument *)
Section argument.
Context (G : logs).
Hypothesis C_size : Z.of_nat (size C) ≤ 3 * f + 1.
Hypothesis C_faulty : Z.of_nat (size (C ∖ honest)) ≤ f.
Hypothesis f_nonneg : 0 ≤ f.
Hypothesis histories : ∀ p, p ∈ honest → HistOK (G p) G.

Lemma prep_quorums_agree r root root' :
  PrepQuorum G r root → PrepQuorum G r root' → root = root'.
Proof using C_faulty C_size histories.
  intros (Q & HQ & H1) (Q' & HQ' & H2).
  destruct (quorum_intersection C honest f C_size C_faulty Q Q' HQ HQ') as (x & ? & ? & Hx).
  eapply (hist_prepare_once _ _ (histories x Hx)); eauto.
Qed.

Lemma prep_quorum_member r root :
  PrepQuorum G r root → ∃ x, x ∈ honest ∧ prepared_at (G x) h r root.
Proof using C_faulty f_nonneg.
  intros (Q & HQ & H1).
  destruct (quorum_has_honest C honest f C_faulty Q f_nonneg HQ) as (x & ? & ?). eauto.
Qed.

Lemma com_quorum_prepared r root :
  ComQuorum G r root → FirstRound ≤ r ∧ PrepQuorum G r root.
Proof using C_faulty f_nonneg histories.
  intros (Q & HQ & H1).
  destruct (quorum_has_honest C honest f C_faulty Q f_nonneg HQ) as (x & ? & Hx).
  eapply (hist_commit_prepared _ _ (histories x Hx)); eauto.
Qed.

(** Once a commit quorum exists for a root, no honest operator prepares
    another root in a later round. *)
Lemma prepared_after_commit r0 root0 :
  ComQuorum G r0 root0 →
  ∀ r, r0 < r → ∀ p root, p ∈ honest → prepared_at (G p) h r root → root = root0.
Proof using C_faulty C_size f_nonneg histories.
  intros Hcom r. pose proof (com_quorum_prepared _ _ Hcom) as [Hr0 Hprep0].
  destruct Hcom as (Qc & HQc & Hc).
  induction r as [r IH] using (well_founded_induction (Z.lt_wf r0)).
  intros Hr p root Hp Hprep.
  assert (FirstRound < r) as Hr1 by lia.
  destruct (hist_evidence _ _ (histories p Hp) r root Hprep Hr1) as (Q & HQ & Hev).
  destruct (quorum_intersection C honest f C_size C_faulty Q Qc HQ HQc) as (s & HsQ & Hsc & Hs).
  pose proof (Hc s Hsc Hs) as Hcs.
  destruct Hev as [Hnone|(d & Hd & Hpq & Hlow)].
  - pose proof (hist_lock _ _ (histories s Hs) _ _ _ _ (Hnone s HsQ Hs) Hcs Hr).
    unfold NoRound, FirstRound in *. lia.
  - destruct (Hlow s HsQ Hs) as (d' & Hd' & Hch).
    pose proof (hist_lock _ _ (histories s Hs) _ _ _ _ Hch Hcs Hr) as Hlock.
    destruct (decide (d = r0)) as [->|Hne].
    + eauto using prep_quorums_agree.
    + destruct (prep_quorum_member _ _ Hpq) as (x & Hx & Hxp).
      eapply (IH d); eauto; lia.
Qed.

Lemma commit_quorums_agree r root r' root' :
  ComQuorum G r root → ComQuorum G r' root' → root = root'.
Proof using C_faulty C_size f_nonneg histories.
  intros H1 H2.
  pose proof (com_quorum_prepared _ _ H1) as [? P1].
  pose proof (com_quorum_prepared _ _ H2) as [? P2].
  destruct (Z.lt_total r r') as [Hlt|[->|Hlt]].
  - destruct (prep_quorum_member _ _ P2) as (x & Hx & Hxp).
    symmetry. eauto using prepared_after_commit.
  - eauto using prep_quorums_agree.
  - destruct (prep_quorum_member _ _ P1) as (x & Hx & Hxp).
    eauto using prepared_after_commit.
Qed.
End argument.
End history.
