(* ===== verification/InstanceInv.v ===== *)
(** * Invariant of a QBFT instance

    [LiveInv] relates the state of an undecided instance to the messages its
    operator has signed; every handler keeps it, and keeps the history
    properties [HistOK] on which agreement rests. *)

From stdpp Require Import base list gmap numbers strings.
From S2P Require Import Prelude Sha256 SpecTypes Instance Quorum History.

(** ** What a method adds to the log *)
Section log_facts.
Context {Lib : SpecLib} {Laws : SpecLibLaws}.

(** The log grows, and at most [m] is newly signed. *)
Definition adds (log log' : list Effect) (m : option Message) : Prop :=
  log ⊆ log' ∧ ∀ m', signed log' m' → signed log m' ∨ m = Some m'.

Lemma adds_refl log m : adds log log m.
Proof. split; [done|auto]. Qed.

Lemma adds_trans_none log log' log'' m :
  adds log log' m → adds log' log'' None → adds log log'' m.
Proof.
  intros [? H1] [? H2]. split; [set_solver|].
  intros m' [?|[=]]%H2. by apply H1.
Qed.

Lemma adds_none_trans log log' log'' m :
  adds log log' None → adds log' log'' m → adds log log'' m.
Proof.
  intros [? H1] [? H2]. split; [set_solver|].
  intros m' [Hs|?]%H2; [|auto]. apply H1 in Hs as [?|[=]]; auto.
Qed.

Lemma signed_app log e m :
  signed (log ++ [e]) m →
  signed log m ∨ ∃ sv, e = ESign sv ∧ DecodeMessage (sv_Data sv) = Ok m.
Proof.
  intros (sv & Hin & Hd). apply elem_of_app in Hin as [Hin|Hin].
  - left. by exists sv.
  - apply list_elem_of_singleton in Hin. right. by exists sv.
Qed.

Lemma adds_other log e : (∀ sv, e ≠ ESign sv) → adds log (log ++ [e]) None.
Proof.
  intros He. split; [set_solver|].
  intros m [?|(sv & ? & ?)]%signed_app; [auto|]. by destruct (He sv).
Qed.

Lemma adds_sign log sv m :
  DecodeMessage (sv_Data sv) = Ok m → adds log (log ++ [ESign sv]) (Some m).
Proof.
  intros Hd. split; [set_solver|].
  intros m' [?|(sv' & [= <-] & ?)]%signed_app; [auto|]. right. congruence.
Qed.

(** Each method leaves the instance alone and signs at most one message. *)
Lemma Sign_spec m o i log :
  ∃ log' r, Sign m o (i, log) = ((i, log'), r) ∧ adds log log' (Some m).
Proof.
  unfold Sign, mbind, st_bind, st_lift, SignSSVMessage, wrap_m.
  destruct (EncodeMessage m) as [b|e|] eqn:He; simpl; [|eauto using adds_refl..].
  destruct (i_signer _ _ _); simpl; (do 2 eexists; split; [reflexivity|]);
    apply adds_sign; by apply Encode_Decode.
Qed.

Lemma Broadcast_spec msg i log :
  ∃ log' r, Broadcast msg (i, log) = ((i, log'), r) ∧ adds log log' None.
Proof.
  unfold Broadcast, mbind, st_bind, get_inst; simpl.
  destruct (IsRelevant i); simpl; eauto using adds_refl.
  do 2 eexists; split; [reflexivity|]. by apply adds_other.
Qed.

Definition prepare_msg (i : Instance) (r : Round) (root : bytes) : Message :=
  mkMessage PrepareMsgType (st_Height (i_State i)) r (st_ID (i_State i)) root NoRound [] [].
Definition commit_msg (i : Instance) (root : bytes) : Message :=
  mkMessage CommitMsgType (st_Height (i_State i)) (st_Round (i_State i)) (st_ID (i_State i))
    root NoRound [] [].

Lemma CreatePrepare_spec r root i log :
  ∃ log' res, CreatePrepare r root (i, log) = ((i, log'), res) ∧
    adds log log' (Some (prepare_msg i r root)).
Proof. unfold CreatePrepare, mbind, st_bind, get_inst; simpl. apply Sign_spec. Qed.

Lemma CreateCommit_spec root i log :
  ∃ log' res, CreateCommit root (i, log) = ((i, log'), res) ∧
    adds log log' (Some (commit_msg i root)).
Proof. unfold CreateCommit, mbind, st_bind, get_inst; simpl. apply Sign_spec. Qed.

(** A created message and its broadcast. *)
Lemma create_broadcast_spec {m : option Message} ctx ctx'
    (create : ST (Instance * list Effect) goerr SignedSSVMessage) i log :
  (∃ log' res, create (i, log) = ((i, log'), res) ∧ adds log log' m) →
  ∃ log' res,
    (s ← wrap_m ctx create; wrap_m ctx' (Broadcast s)) (i, log) = ((i, log'), res) ∧
    adds log log' m.
Proof.
  intros (log1 & r1 & E1 & A1).
  unfold mbind, st_bind, wrap_m. rewrite E1.
  destruct r1 as [s|e|]; simpl; [|eauto..].
  destruct (Broadcast_spec s i log1) as (log2 & r2 & E2 & A2). rewrite E2.
  eauto using adds_trans_none.
Qed.

Lemma CreateRoundChange_spec r i log :
  ∃ log' res m, CreateRoundChange r (i, log) = ((i, log'), res) ∧
    adds log log' (Some m) ∧
    m_MsgType m = RoundChangeMsgType ∧ m_Height m = st_Height (i_State i) ∧
    m_Round m = r ∧ m_DataRound m = (getRoundChangeData i).1.1.1.
Proof.
  unfold CreateRoundChange, mbind, st_bind, get_inst; simpl.
  destruct (getRoundChangeData i) as [[[d root] fd] js]; simpl.
  set (M := λ jd, mkMessage RoundChangeMsgType (st_Height (i_State i)) r (st_ID (i_State i)) root d jd []).
  unfold st_lift, wrap. destruct (MarshalJustifications _) as [jd|e|]; simpl;
    [|exists log; eexists; exists (M []); eauto 10 using adds_refl..].
  unfold wrap_m.
  destruct (Sign_spec (M jd) (cm_OperatorID (st_CommitteeMember (i_State i))) i log)
    as (log1 & r1 & E1 & A1).
  fold (M jd). rewrite E1. destruct r1; simpl; (do 2 eexists; exists (M jd); eauto 10).
Qed.

Lemma CreateProposal_spec v rcs ps i log :
  ∃ log' res m, CreateProposal v rcs ps (i, log) = ((i, log'), res) ∧
    adds log log' (Some m) ∧
    m_MsgType m = ProposalMsgType ∧ m_Height m = st_Height (i_State i) ∧
    m_Round m = st_Round (i_State i).
Proof.
  unfold CreateProposal, mbind, st_bind, get_inst; simpl.
  set (M := λ rd pd, mkMessage ProposalMsgType (st_Height (i_State i)) (st_Round (i_State i))
    (st_ID (i_State i)) (HashDataRoot v) NoRound rd pd).
  unfold st_lift, wrap.
  destruct (MarshalJustifications _) as [rd|e|]; simpl;
    [|exists log; eexists; exists (M [] []); eauto 10 using adds_refl..].
  destruct (MarshalJustifications (SignedMessage <$> ps)) as [pd|e|]; simpl;
    [|exists log; eexists; exists (M [] []); eauto 10 using adds_refl..].
  unfold wrap_m. fold (M rd pd).
  destruct (Sign_spec (M rd pd) (cm_OperatorID (st_CommitteeMember (i_State i))) i log)
    as (log1 & r1 & E1 & A1).
  rewrite E1. destruct r1; simpl; (do 2 eexists; exists (M rd pd); eauto 10).
Qed.

Definition bumped (r : Round) (i : Instance) : Instance :=
  if st_Round (i_State i) <? r then with_State (λ s, set_Round r (set_Proposal None s)) i else i.

Lemma bumpToRound_spec r i log :
  ∃ log', bumpToRound r (i, log) = ((bumped r i, log'), Ok tt) ∧ adds log log' None.
Proof.
  unfold bumpToRound, bumped, mbind, st_bind, get_inst, modify_State, emit, st_modify; simpl.
  destruct (_ <? _); simpl; [|eauto using adds_refl].
  destruct (IsRelevant _); simpl; eexists; (split; [reflexivity|]);
    auto using adds_refl. by apply adds_other.
Qed.
End log_facts.

(** ** The invariant *)
Section invariant.
Context {Lib : SpecLib} {Laws : SpecLibLaws}.
Context (cm : CommitteeMember) (honest : gset OperatorID) (h : Height).
Context (G : OperatorID → list Effect).

Abbreviation C := (committee_ids (cm_Committee cm)).
Abbreviation f := (cm_FaultyNodes cm).
Abbreviation Hist log := (HistOK C honest f h log G).

(** A signed message whose honest signers did sign it. *)
Definition authentic (sm : SignedSSVMessage) : Prop :=
  ∀ s sv, s ∈ s_OperatorIDs sm → s ∈ honest → s_SSVMessage sm = Some sv → ESign sv ∈ G s.

(** A message of a container: its type, height and round, its signers are
    committee members and the honest ones signed it. *)
Definition msg_ok (t : MessageType) (r : Round) (pm : ProcessingMessage) : Prop :=
  pm_Type pm = t ∧ pm_Height pm = h ∧ pm_Round pm = r ∧
  ∀ s, s ∈ pm_Signers pm → s ∈ C ∧ (s ∈ honest → signed (G s) (QBFTMessage pm)).

Record LiveInv (i : Instance) (log : list Effect) : Prop := {
  live_cm : st_CommitteeMember (i_State i) = cm;
  live_height : st_Height (i_State i) = h;
  live_round : FirstRound ≤ st_Round (i_State i);
  live_checker chk : i_ValueChecker i = Some chk → chk None ≠ None;
  live_rounds m : signed log m → m_Height m = h → m_Round m ≤ st_Round (i_State i);
  live_proposal p :
    st_ProposalAcceptedForCurrentRound (i_State i) = Some p →
    pm_Root p = HashDataRoot (s_FullData (SignedMessage p)) ∧ s_FullData (SignedMessage p) ≠ None;
  live_prepare root :
    prepared_at log h (st_Round (i_State i)) root →
    st_ProposalAcceptedForCurrentRound (i_State i) ≠ None;
  live_prepares r pm :
    pm ∈ MessagesForRound (st_PrepareContainer (i_State i)) r →
    r ≤ st_Round (i_State i) ∧ msg_ok PrepareMsgType r pm;
  live_prepares_cur pm :
    pm ∈ MessagesForRound (st_PrepareContainer (i_State i)) (st_Round (i_State i)) →
    ∃ p, st_ProposalAcceptedForCurrentRound (i_State i) = Some p ∧ pm_Root pm = pm_Root p;
  live_commits r pm :
    pm ∈ MessagesForRound (st_CommitContainer (i_State i)) r → msg_ok CommitMsgType r pm;
  live_last_prepared :
    st_LastPreparedRound (i_State i) ≤ st_Round (i_State i) ∧
    (st_LastPreparedRound (i_State i) ≠ NoRound → st_LastPreparedValue (i_State i) ≠ None);
  live_locked r root : committed_at log h r root → r ≤ st_LastPreparedRound (i_State i);
}.

Definition IInv (i : Instance) (log : list Effect) : Prop := LiveInv i log ∧ Hist log.

(** Facts about extending the log. *)
Lemma adds_prepared log log' m r root :
  adds log log' m → prepared_at log' h r root →
  prepared_at log h r root ∨ ∃ m', m = Some m' ∧ is_prepare h r root m'.
Proof.
  intros [_ Ha] (m' & Hs & Hp). apply Ha in Hs as [Hs| ->]; [left|right]; eexists; eauto.
Qed.
Lemma adds_committed log log' m r root :
  adds log log' m → committed_at log' h r root →
  committed_at log h r root ∨ ∃ m', m = Some m' ∧ is_commit h r root m'.
Proof.
  intros [_ Ha] (m' & Hs & Hp). apply Ha in Hs as [Hs| ->]; [left|right]; eexists; eauto.
Qed.
Lemma adds_changed log log' m r d :
  adds log log' m → changed_to log' h r d →
  changed_to log h r d ∨ ∃ m', m = Some m' ∧ is_round_change h r d m'.
Proof.
  intros [_ Ha] (m' & Hs & Hp). apply Ha in Hs as [Hs| ->]; [left|right]; eexists; eauto.
Qed.

(** Signing a message that is not a prepare, commit or round change of this
    height, or signing nothing. *)
Lemma inv_add_neutral i log log' m :
  IInv i log → adds log log' m →
  (∀ m', m = Some m' → m_MsgType m' = ProposalMsgType ∧ m_Round m' ≤ st_Round (i_State i)) →
  IInv i log'.
Proof.
  intros [[] []] Ha Hm.
  assert (∀ r root, prepared_at log' h r root → prepared_at log h r root) as HP.
  { intros r root Hp. destruct (adds_prepared _ _ _ _ _ Ha Hp) as [?|(m' & -> & Hm')]; [done|].
    destruct (Hm m' eq_refl), Hm'. congruence. }
  assert (∀ r root, committed_at log' h r root → committed_at log h r root) as HC.
  { intros r root Hp. destruct (adds_committed _ _ _ _ _ Ha Hp) as [?|(m' & -> & Hm')]; [done|].
    destruct (Hm m' eq_refl), Hm'. congruence. }
  assert (∀ r root, changed_to log' h r root → changed_to log h r root) as HR.
  { intros r root Hp. destruct (adds_changed _ _ _ _ _ Ha Hp) as [?|(m' & -> & Hm')]; [done|].
    destruct (Hm m' eq_refl), Hm'. congruence. }
  split; constructor; eauto.
  intros m' Hs Hh. apply Ha in Hs as [?| ->]; [auto|]. by apply (Hm m').
Qed.

Lemma inv_add_none i log log' : IInv i log → adds log log' None → IInv i log'.
Proof. intros. eapply inv_add_neutral; eauto. by intros ? [=]. Qed.

(** Moving to a later round. *)
Lemma inv_bump r i log :
  IInv i log → IInv (bumped r i) log.
Proof.
  unfold bumped. destruct (Z.ltb_spec (st_Round (i_State i)) r) as [Hr|]; [|done].
  intros [[] Hh]. split; [|done]. constructor; simpl; try done.
  - lia.
  - intros m Hs Hmh. specialize (live_rounds0 m Hs Hmh). lia.
  - intros root (m & Hs & Hm). exfalso. destruct Hm as (? & Hmh & Hmr & ?).
    specialize (live_rounds0 m Hs Hmh). lia.
  - intros r' pm Hin. destruct (live_prepares0 r' pm Hin). split; [lia|done].
  - intros pm Hin. destruct (live_prepares0 _ _ Hin). lia.
  - split; [lia|]. apply live_last_prepared0.
Qed.

Lemma bumped_round r i : st_Round (i_State (bumped r i)) = Z.max (st_Round (i_State i)) r.
Proof.
  unfold bumped. destruct (Z.ltb_spec (st_Round (i_State i)) r); simpl; lia.
Qed.

(** Accepting a proposal for the current round. *)
Lemma inv_set_proposal p i log :
  IInv i log → st_ProposalAcceptedForCurrentRound (i_State i) = None →
  pm_Root p = HashDataRoot (s_FullData (SignedMessage p)) →
  s_FullData (SignedMessage p) ≠ None →
  IInv (with_State (set_Proposal (Some p)) i) log ∧
  ∀ root, ¬ prepared_at log h (st_Round (i_State i)) root.
Proof.
  intros [[] Hh] Hnone Hroot Hfd. split.
  - split; [|done]. constructor; simpl; try done.
    + by intros p' [= <-].
    + intros pm Hin. destruct (live_prepares_cur0 pm Hin) as (? & ? & _). congruence.
  - intros root Hp. by apply (live_prepare0 root Hp).
Qed.

(** Signing the prepare of the accepted proposal. *)
Lemma inv_add_prepare i log log' root :
  IInv i log →
  st_ProposalAcceptedForCurrentRound (i_State i) ≠ None →
  (∀ root, ¬ prepared_at log h (st_Round (i_State i)) root) →
  (FirstRound < st_Round (i_State i) → Evidence C honest f h G (st_Round (i_State i)) root) →
  adds log log' (Some (prepare_msg i (st_Round (i_State i)) root)) →
  IInv i log'.
Proof.
  intros [[] []] Hacc Hnew Hev Ha.
  assert (∀ r root', prepared_at log' h r root' → prepared_at log h r root' ∨
            (r = st_Round (i_State i) ∧ root' = root)) as HP.
  { intros r root' Hp. destruct (adds_prepared _ _ _ _ _ Ha Hp) as [?|(m' & [= <-] & Hm')]; [auto|].
    right. destruct Hm' as (_ & _ & ? & ?). simpl in *. auto. }
  assert (∀ r root, committed_at log' h r root → committed_at log h r root) as HC.
  { intros r root' Hp. destruct (adds_committed _ _ _ _ _ Ha Hp) as [?|(m' & [= <-] & Hm')]; [auto|].
    by destruct Hm'. }
  assert (∀ r root, changed_to log' h r root → changed_to log h r root) as HR.
  { intros r root' Hp. destruct (adds_changed _ _ _ _ _ Ha Hp) as [?|(m' & [= <-] & Hm')]; [auto|].
    by destruct Hm'. }
  split; constructor; eauto.
  - intros m' Hs Hh. apply Ha in Hs as [?|[= <-]]; [auto|]. simpl. lia.
  - intros r root1 root2 [H1|[-> ->]]%HP [H2|[? ->]]%HP; subst; eauto.
    + by destruct (Hnew root1).
    + by destruct (Hnew root2).
  - intros r root' [?|[-> ->]]%HP; eauto.
Qed.

(** Recording the prepared value and signing the commit. *)
Lemma inv_set_last_prepared i log p :
  IInv i log → st_ProposalAcceptedForCurrentRound (i_State i) = Some p →
  IInv (with_State (set_LastPrepared (st_Round (i_State i)) (s_FullData (SignedMessage p))) i) log.
Proof.
  intros [[] Hh] Hp. split; [|done]. constructor; simpl; try done.
  - split; [lia|]. intros _. by apply live_proposal0.
  - intros r root Hc. specialize (live_locked0 r root Hc). lia.
Qed.

Lemma inv_add_commit i log log' root :
  IInv i log →
  st_LastPreparedRound (i_State i) = st_Round (i_State i) →
  PrepQuorum C honest f h G (st_Round (i_State i)) root →
  adds log log' (Some (commit_msg i root)) →
  IInv i log'.
Proof.
  intros [[] []] Hlp Hpq Ha.
  assert (∀ r root', prepared_at log' h r root' → prepared_at log h r root') as HP.
  { intros r root' Hp. destruct (adds_prepared _ _ _ _ _ Ha Hp) as [?|(m' & [= <-] & Hm')]; [auto|].
    by destruct Hm'. }
  assert (∀ r root', committed_at log' h r root' → committed_at log h r root' ∨
            (r = st_Round (i_State i) ∧ root' = root)) as HC.
  { intros r root' Hp. destruct (adds_committed _ _ _ _ _ Ha Hp) as [?|(m' & [= <-] & Hm')]; [auto|].
    right. destruct Hm' as (_ & _ & ? & ?). simpl in *. auto. }
  assert (∀ r root, changed_to log' h r root → changed_to log h r root) as HR.
  { intros r root' Hp. destruct (adds_changed _ _ _ _ _ Ha Hp) as [?|(m' & [= <-] & Hm')]; [auto|].
    by destruct Hm'. }
  split; constructor; eauto.
  - intros m' Hs Hh. apply Ha in Hs as [?|[= <-]]; [auto|]. simpl. lia.
  - intros r root' [Hc|[-> ->]]%HC; [eauto|lia].
  - intros r root' [Hc|[-> ->]]%HC; [eauto|done].
  - intros r r0 d root' Hch%HR [Hc|[-> ->]]%HC Hlt; [eauto|].
    destruct Hch as (m & Hs & _ & Hmh & Hmr & _).
    specialize (live_rounds0 m Hs Hmh). lia.
Qed.

(** Signing a round change for a round reached by the instance. *)
Lemma inv_add_round_change i log log' m :
  IInv i log →
  m_MsgType m = RoundChangeMsgType → m_Round m ≤ st_Round (i_State i) →
  m_DataRound m = (getRoundChangeData i).1.1.1 →
  adds log log' (Some m) →
  IInv i log'.
Proof.
  intros [[] []] Hty Hr Hd Ha.
  assert (∀ r root', prepared_at log' h r root' → prepared_at log h r root') as HP.
  { intros r root' Hp. destruct (adds_prepared _ _ _ _ _ Ha Hp) as [?|(m' & [= <-] & Hm')]; [auto|].
    destruct Hm'. congruence. }
  assert (∀ r root', committed_at log' h r root' → committed_at log h r root') as HC.
  { intros r root' Hp. destruct (adds_committed _ _ _ _ _ Ha Hp) as [?|(m' & [= <-] & Hm')]; [auto|].
    destruct Hm'. congruence. }
  split; constructor; eauto.
  - intros m' Hs Hh. apply Ha in Hs as [?|[= <-]]; [auto|]. done.
  - intros r r0 d root' Hch Hc%HC Hlt.
    destruct (adds_changed _ _ _ _ _ Ha Hch) as [?|(m' & [= <-] & Hm')]; [eauto|].
    destruct Hm' as (_ & _ & _ & <-). rewrite Hd.
    unfold getRoundChangeData. pose proof (live_locked0 _ _ Hc) as Hle.
    pose proof (hist_commit_prepared _ _ Hc) as [? _].
    destruct live_last_prepared0 as [_ Hval].
    assert (st_LastPreparedRound (i_State i) ≠ NoRound) as Hne
      by (unfold NoRound, FirstRound in *; lia).
    rewrite (proj2 (Z.eqb_neq _ _) Hne), bool_decide_eq_true_2 by auto. done.
Qed.

(** ** Justifications *)

(** A signed message carried, directly or not, by another one. *)
Inductive nested : SignedSSVMessage → SignedSSVMessage → Prop :=
| nested_rc sm pm l sm' :
    NewProcessingMessage sm = Ok pm →
    GetRoundChangeJustifications (QBFTMessage pm) = Ok l → sm' ∈ l → nested sm sm'
| nested_prep sm pm l sm' :
    NewProcessingMessage sm = Ok pm →
    GetPrepareJustifications (QBFTMessage pm) = Ok l → sm' ∈ l → nested sm sm'.

(** The network delivers messages whose signatures were checked; a signature of
    an honest operator inside a justification verifies only if it is genuine. *)
Definition deliverable (sm : SignedSSVMessage) : Prop :=
  authentic sm ∧
  ∀ sm', nested sm sm' → Verify sm' (cm_Committee cm) = None → authentic sm'.

Lemma justifications_of_elem ctx sm pm rcs rc :
  NewProcessingMessage sm = Ok pm →
  justifications_of ctx (ignore_err (GetRoundChangeJustifications (QBFTMessage pm))) = Ok rcs →
  rc ∈ rcs → ∃ sm', NewProcessingMessage sm' = Ok rc ∧ nested sm sm'.
Proof.
  intros Hpm Hj Hin. apply collect_ok in Hj.
  apply list_elem_of_lookup in Hin as [k Hk].
  destruct (Forall2_lookup_r _ _ _ _ _ Hj Hk) as (sm' & Hk' & Hw%wrap_ok).
  exists sm'. split; [done|].
  destruct (GetRoundChangeJustifications (QBFTMessage pm)) as [l| |] eqn:Hl; try done.
  eapply nested_rc; eauto. by eapply list_elem_of_lookup_2.
Qed.

Lemma prepare_justifications_elem ctx sm pm rcs rc :
  NewProcessingMessage sm = Ok pm →
  justifications_of ctx (ignore_err (GetPrepareJustifications (QBFTMessage pm))) = Ok rcs →
  rc ∈ rcs → ∃ sm', NewProcessingMessage sm' = Ok rc ∧ nested sm sm'.
Proof.
  intros Hpm Hj Hin. apply collect_ok in Hj.
  apply list_elem_of_lookup in Hin as [k Hk].
  destruct (Forall2_lookup_r _ _ _ _ _ Hj Hk) as (sm' & Hk' & Hw%wrap_ok).
  exists sm'. split; [done|].
  destruct (GetPrepareJustifications (QBFTMessage pm)) as [l| |] eqn:Hl; try done.
  eapply nested_prep; eauto. by eapply list_elem_of_lookup_2.
Qed.

Lemma authentic_signed sm pm s :
  NewProcessingMessage sm = Ok pm → authentic sm → s ∈ pm_Signers pm → s ∈ honest →
  signed (G s) (QBFTMessage pm).
Proof.
  intros Hpm Ha Hs Hh. apply NewProcessingMessage_spec in Hpm as (<- & sv & Hsv & Hd).
  exists sv. split; [|done]. by apply (Ha s sv).
Qed.

Lemma pm_range sm pm :
  NewProcessingMessage sm = Ok pm → is_u64 (pm_Round pm) ∧ is_u64 (m_DataRound (QBFTMessage pm)).
Proof.
  intros (_ & sv & _ & Hd)%NewProcessingMessage_spec.
  apply Decode_range in Hd as (_ & ? & ?). done.
Qed.

(** The fold of [highestPrepared] finds a prepared message of maximal round. *)
Lemma highestPrepared_fold rcs acc :
  (∀ a, acc = Some a → RoundChangePrepared (QBFTMessage a) = true) →
  match fold_left highestPrepared_step rcs acc with
  | None => acc = None ∧ ∀ rc, rc ∈ rcs → RoundChangePrepared (QBFTMessage rc) = false
  | Some r =>
      (r ∈ rcs ∨ acc = Some r) ∧ RoundChangePrepared (QBFTMessage r) = true ∧
      (∀ a, acc = Some a → m_DataRound (QBFTMessage a) ≤ m_DataRound (QBFTMessage r)) ∧
      ∀ rc, rc ∈ rcs → RoundChangePrepared (QBFTMessage rc) = true →
        m_DataRound (QBFTMessage rc) ≤ m_DataRound (QBFTMessage r)
  end.
Proof.
  revert acc. induction rcs as [|rc rcs IH]; intros acc Hacc; simpl.
  - destruct acc as [a|].
    + split; [auto|]. split; [auto|]. split; [by intros ? [= <-]|]. by intros ? ?%elem_of_nil.
    + split; [done|]. by intros ? ?%elem_of_nil.
  - assert (∀ a, highestPrepared_step acc rc = Some a → RoundChangePrepared (QBFTMessage a) = true)
      as Hacc'.
    { unfold highestPrepared_step. destruct (RoundChangePrepared (QBFTMessage rc)) eqn:E; simpl.
      - destruct acc as [a|]; [destruct (_ <? _)|]; intros ? [= <-]; auto.
      - done. }
    specialize (IH _ Hacc').
    destruct (fold_left highestPrepared_step rcs (highestPrepared_step acc rc)) as [r|].
    + destruct IH as (Hr & Hp & Ha & Hall).
      unfold highestPrepared_step in Hr, Ha.
      destruct (RoundChangePrepared (QBFTMessage rc)) eqn:E; simpl in *.
      * destruct acc as [a|];
          [destruct (Z.ltb_spec (m_DataRound (QBFTMessage a)) (m_DataRound (QBFTMessage rc)))|];
          (split; [destruct Hr as [?|[= <-]]; rewrite elem_of_cons; auto|]); (split; [done|]);
          (split; [intros ? [= <-]; specialize (Ha _ eq_refl); lia|]);
          (intros rc' [->|?]%elem_of_cons Hrc'; [|auto]; specialize (Ha _ eq_refl); lia).
      * split; [rewrite elem_of_cons; naive_solver|]. split; [done|]. split; [done|].
        intros rc' [->|?]%elem_of_cons Hrc'; [congruence|auto].
    + destruct IH as (Hs & Hall).
      unfold highestPrepared_step in Hs.
      destruct (RoundChangePrepared (QBFTMessage rc)) eqn:E; simpl in *.
      * destruct acc as [a|]; [destruct (_ <? _)|]; done.
      * split; [done|]. intros rc' [->|?]%elem_of_cons; auto.
Qed.

Lemma highestPrepared_spec rcs rcMsg :
  highestPrepared rcs = Some rcMsg →
  rcMsg ∈ rcs ∧ RoundChangePrepared (QBFTMessage rcMsg) = true ∧
  ∀ rc, rc ∈ rcs → RoundChangePrepared (QBFTMessage rc) = true →
    m_DataRound (QBFTMessage rc) ≤ m_DataRound (QBFTMessage rcMsg).
Proof.
  intros Hh. pose proof (highestPrepared_fold rcs None ltac:(done)) as Hf.
  unfold highestPrepared in Hh. rewrite Hh in Hf.
  destruct Hf as ([?|[=]] & ? & _ & ?). done.
Qed.

(** ** What a successful validation means *)
Lemma valid_prepare_inv i pm r root u :
  validSignedPrepareForHeightRoundAndRootIgnoreSignature i pm r root = Ok u →
  pm_Type pm = PrepareMsgType ∧ pm_Height pm = st_Height (i_State i) ∧ pm_Round pm = r ∧
  pm_Root pm = root ∧ length (pm_Signers pm) = 1%nat ∧
  ∀ s, s ∈ pm_Signers pm → s ∈ committee_ids (cm_Committee (st_CommitteeMember (i_State i))).
Proof.
  unfold validSignedPrepareForHeightRoundAndRootIgnoreSignature. intros Hv. inv_wrap.
  repeat match goal with H : ¬ (_ ≠ _) |- _ => apply dec_stable in H end.
  split_and!; auto. by apply CheckSignersInCommittee_spec.
Qed.

Lemma valid_prepare_verified_inv i pm r root u :
  validSignedPrepareForHeightRoundAndRootVerifySignature i pm r root = Ok u →
  validSignedPrepareForHeightRoundAndRootIgnoreSignature i pm r root = Ok tt ∧
  Verify (SignedMessage pm) (cm_Committee (st_CommitteeMember (i_State i))) = None.
Proof.
  unfold validSignedPrepareForHeightRoundAndRootVerifySignature, verify_signature.
  intros Hv. inv_wrap. by destruct x.
Qed.

Lemma valid_round_change_inv i pm r fd u :
  validRoundChangeForDataVerifySignature i pm r fd = Ok u →
  pm_Type pm = RoundChangeMsgType ∧ pm_Height pm = st_Height (i_State i) ∧ pm_Round pm = r ∧
  (∀ s, s ∈ pm_Signers pm → s ∈ committee_ids (cm_Committee (st_CommitteeMember (i_State i)))) ∧
  Verify (SignedMessage pm) (cm_Committee (st_CommitteeMember (i_State i))) = None ∧
  (RoundChangePrepared (QBFTMessage pm) = true → m_DataRound (QBFTMessage pm) ≤ r).
Proof.
  unfold validRoundChangeForDataVerifySignature, validRoundChangeForDataIgnoreSignature,
    verify_signature.
  intros Hv. inv_wrap.
  repeat match goal with H : ¬ (_ ≠ _) |- _ => apply dec_stable in H end.
  split_and!; auto; [by apply CheckSignersInCommittee_spec|].
  intros Hp. rewrite Hp in *. inv_wrap. done.
Qed.

(** Quorums of valid messages. *)
Lemma quorum_of_signers msgs :
  HasQuorum cm msgs = true →
  (∀ m s, m ∈ msgs → s ∈ pm_Signers m → s ∈ C) →
  is_quorum C f (unique_signers msgs).
Proof.
  intros Hq Hin. split.
  - intros s (m & ? & ?)%elem_of_unique_signers. eauto.
  - rewrite HasQuorum_spec in Hq. by apply cm_HasQuorum_spec in Hq.
Qed.

Lemma prep_quorum_of_msgs msgs r root :
  HasQuorum cm msgs = true →
  (∀ m, m ∈ msgs → msg_ok PrepareMsgType r m ∧ pm_Root m = root) →
  PrepQuorum C honest f h G r root.
Proof.
  intros Hq Hok. exists (unique_signers msgs). split.
  - apply quorum_of_signers; [done|]. intros m s Hm Hs. by apply (Hok m Hm).
  - intros s (m & Hm & Hs)%elem_of_unique_signers Hh.
    destruct (Hok m Hm) as ((? & ? & ? & Hsig) & Hr). exists (QBFTMessage m).
    split; [by apply Hsig|]. by split_and!.
Qed.

Definition well_signed (msgs : list ProcessingMessage) : Prop :=
  ∀ m, m ∈ msgs → ∃ sm, NewProcessingMessage sm = Ok m ∧
    (Verify sm (cm_Committee cm) = None → authentic sm).

Lemma well_signed_verified msgs m s :
  well_signed msgs → m ∈ msgs → Verify (SignedMessage m) (cm_Committee cm) = None →
  s ∈ pm_Signers m → s ∈ honest → signed (G s) (QBFTMessage m).
Proof.
  intros Hw Hin Hver Hs Hh. destruct (Hw m Hin) as (sm & Hpm & Hau).
  rewrite (proj1 (NewProcessingMessage_spec _ _ Hpm)) in Hver.
  eapply authentic_signed; eauto.
Qed.

Lemma unprepared_no_round rc :
  pm_Type rc = RoundChangeMsgType → RoundChangePrepared (QBFTMessage rc) = false →
  m_DataRound (QBFTMessage rc) = NoRound.
Proof.
  intros Hty E. apply not_true_iff_false in E. rewrite RoundChangePrepared_spec in E.
  destruct (decide (m_DataRound (QBFTMessage rc) = NoRound)); [done|]. by destruct E.
Qed.

Lemma round_changes_inv i rcs r fd u :
  st_CommitteeMember (i_State i) = cm → st_Height (i_State i) = h → well_signed rcs →
  for_each (λ rc, wrap "change round msg not valid"
    (validRoundChangeForDataVerifySignature i rc r fd)) rcs = Ok u →
  ∀ rc, rc ∈ rcs →
    pm_Type rc = RoundChangeMsgType ∧
    (∀ s, s ∈ pm_Signers rc → s ∈ C ∧
       (s ∈ honest → changed_to (G s) h r (m_DataRound (QBFTMessage rc)))) ∧
    (RoundChangePrepared (QBFTMessage rc) = true → m_DataRound (QBFTMessage rc) ≤ r).
Proof.
  intros Hcm Hht Hrcs Hall rc Hin.
  pose proof (proj1 (for_each_ok _ _ _) Hall rc Hin) as Hv%wrap_ok.
  apply valid_round_change_inv in Hv as (? & Hh & ? & Hc & Hver & Hd).
  rewrite Hcm in *. rewrite Hht in Hh.
  split_and!; [done| |done]. intros s Hs. split; [auto|]. intros Hhon.
  exists (QBFTMessage rc). split; [by eapply well_signed_verified|]. by split_and!.
Qed.

Lemma prepares_quorum i preps r root u :
  st_CommitteeMember (i_State i) = cm → st_Height (i_State i) = h → well_signed preps →
  HasQuorum cm preps = true →
  for_each (λ pm,
    match validSignedPrepareForHeightRoundAndRootVerifySignature i pm r root with
    | Err _ => Err (NewError PrepareMessageInvalidErrorCode "signed prepare not valid")
    | r => r
    end) preps = Ok u →
  PrepQuorum C honest f h G r root.
Proof.
  intros Hcm Hht Hpreps Hq Hj. eapply prep_quorum_of_msgs; [exact Hq|]. intros m Hin.
  pose proof (proj1 (for_each_ok _ _ _) Hj m Hin) as Hv. simpl in Hv.
  destruct (validSignedPrepareForHeightRoundAndRootVerifySignature _ _ _ _) as [u'| |] eqn:Hv';
    [|done..].
  apply valid_prepare_verified_inv in Hv' as [Hv' Hver].
  apply valid_prepare_inv in Hv' as (? & Hh & ? & Hrt & _ & Hc).
  rewrite Hcm in *. rewrite Hht in Hh.
  split; [|done]. unfold msg_ok. split_and!; auto.
  intros s Hs. split; [auto|]. intros Hhon. by eapply well_signed_verified.
Qed.

Section with_histories.
Hypothesis C_faulty : Z.of_nat (size (C ∖ honest)) ≤ f.
Hypothesis f_nonneg : 0 ≤ f.
Hypothesis histories : ∀ p, p ∈ honest → Hist (G p).

Lemma justification_evidence i rcs preps r fd u :
  st_CommitteeMember (i_State i) = cm → st_Height (i_State i) = h →
  (∀ chk, i_ValueChecker i = Some chk → chk None ≠ None) →
  well_signed rcs → well_signed preps →
  isProposalJustification i rcs preps r fd = Ok u →
  fd ≠ None ∧ (FirstRound < r → Evidence C honest f h G r (HashDataRoot fd)).
Proof using C_faulty Laws f_nonneg histories.
  intros Hcm Hht Hchk Hrcs Hpreps Hj. unfold isProposalJustification in Hj.
  apply bind_ok in Hj as ([] & Hvc & Hj).
  split.
  { destruct (i_ValueChecker i) as [chk|]; [|done]. inv_wrap.
    intros ->. by apply (Hchk chk). }
  intros Hr. destruct (Z.eqb_spec r FirstRound) as [->|Hne]; [lia|].
  apply bind_ok in Hj as ([] & Hall & Hj).
  apply bind_ok in Hj as ([] & Hq & Hj). rewrite Hcm in Hq, Hj. inv_wrap.
  pose proof (round_changes_inv i rcs r fd _ Hcm Hht Hrcs Hall) as Hrc.
  assert (is_quorum C f (unique_signers rcs)) as HQ.
  { apply quorum_of_signers; [done|]. intros m s Hm Hs. by apply (Hrc m Hm). }
  destruct (negb _) eqn:Hprep.
  - exists (unique_signers rcs). split; [done|]. left.
    intros s (rc & Hin & Hs)%elem_of_unique_signers Hhon.
    destruct (Hrc rc Hin) as (Hty & Hsig & _). destruct (Hsig s Hs) as [_ Hch].
    rewrite (unprepared_no_round rc) in Hch; auto.
    apply negb_true_iff, not_true_iff_false in Hprep. apply not_true_iff_false. contradict Hprep.
    apply existsb_exists. exists rc. split; [by apply list_elem_of_In|done].
  - apply bind_ok in Hj as ([] & Hq2 & Hj). inv_wrap.
    destruct (highestPrepared rcs) as [rcm|] eqn:Hhp; [|done].
    apply highestPrepared_spec in Hhp as (Hrcm & Hpr & Hmax).
    apply bind_ok in Hj as ([] & Hroot & Hj). inv_wrap. apply dec_stable in Hroot.
    pose proof (prepares_quorum i preps _ _ _ Hcm Hht Hpreps Hq2 Hj) as HPQ.
    rewrite <- Hroot in HPQ.
    pose proof (proj2 (proj2 (Hrc rcm Hrcm)) Hpr) as Hdle.
    destruct (decide (m_DataRound (QBFTMessage rcm) = r)) as [Heq|Hneq].
    + (* the prepares are of this very round: an honest one was justified before *)
      rewrite Heq in HPQ.
      destruct (prep_quorum_member C honest f h G C_faulty f_nonneg _ _ HPQ) as (x & Hx & Hxp).
      exact (hist_evidence _ _ _ _ _ _ (histories x Hx) _ _ Hxp Hr).
    + exists (unique_signers rcs). split; [done|]. right.
      exists (m_DataRound (QBFTMessage rcm)). split; [lia|]. split; [done|].
      intros s (rc & Hin & Hs)%elem_of_unique_signers Hhon.
      destruct (Hrc rc Hin) as (Hty & Hsig & _). destruct (Hsig s Hs) as [_ Hch].
      exists (m_DataRound (QBFTMessage rc)). split; [|auto].
      destruct (RoundChangePrepared (QBFTMessage rc)) eqn:E; [auto|].
      rewrite (unprepared_no_round rc) by auto.
      destruct (Hrcs rcm Hrcm) as (sm & Hpm & _). apply pm_range in Hpm as [_ ?].
      unfold is_u64, NoRound in *. lia.
Qed.

Lemma valid_proposal_inv i sm msg u :
  st_CommitteeMember (i_State i) = cm → st_Height (i_State i) = h →
  (∀ chk, i_ValueChecker i = Some chk → chk None ≠ None) →
  NewProcessingMessage sm = Ok msg → deliverable sm →
  isValidProposal i msg = Ok u →
  pm_Root msg = HashDataRoot (s_FullData (SignedMessage msg)) ∧
  s_FullData (SignedMessage msg) ≠ None ∧
  (st_ProposalAcceptedForCurrentRound (i_State i) = None ∧ pm_Round msg = st_Round (i_State i)
   ∨ st_Round (i_State i) < pm_Round msg) ∧
  (FirstRound < pm_Round msg →
   Evidence C honest f h G (pm_Round msg) (HashDataRoot (s_FullData (SignedMessage msg)))).
Proof using C_faulty Laws f_nonneg histories.
  intros Hcm Hht Hchk Hpm [_ Hdel] Hv. unfold isValidProposal in Hv.
  repeat (apply bind_ok in Hv as (? & ? & Hv)); inv_wrap.
  repeat match goal with H : ¬ (_ ≠ _) |- _ => apply dec_stable in H end.
  destruct (_ || _) eqn:Hcond; [|done].
  edestruct (justification_evidence i) as [Hfd Hev]; eauto.
  { intros m Hm. destruct (justifications_of_elem _ _ _ _ m Hpm ltac:(eassumption) Hm)
      as (sm' & ? & ?). eauto. }
  { intros m Hm. destruct (prepare_justifications_elem _ _ _ _ m Hpm ltac:(eassumption) Hm)
      as (sm' & ? & ?). eauto. }
  split_and!; auto.
  apply orb_true_iff in Hcond as [[? ?]%andb_true_iff|?]; inv_ok; auto.
Qed.

(** ** The handlers keep the invariant *)

(** The outcome of a method run on [(i, log)]. *)
Definition kept {A} (log : list Effect) (out : Instance * list Effect * result goerr A) : Prop :=
  IInv out.1.1 out.1.2 ∧ log ⊆ out.1.2.

Lemma kept_added {A} log log' i (r : result goerr A) :
  IInv i log' → log ⊆ log' → kept log ((i, log'), r).
Proof. by split. Qed.

(** Containers the invariant does not constrain. *)
Lemma inv_set_proposes c i log : IInv i log → IInv (with_State (set_ProposeContainer c) i) log.
Proof. intros [[] ?]. split; [|done]. by constructor. Qed.
Lemma inv_set_round_changes c i log :
  IInv i log → IInv (with_State (set_RoundChangeContainer c) i) log.
Proof. intros [[] ?]. split; [|done]. by constructor. Qed.

Lemma add_first_spec get set msg i log :
  ∃ ct r, add_first get set msg (i, log) = ((with_State (set ct) i, log), r) ∧
    AddFirstMsgForSignerAndRound (get (i_State i)) msg = (ct, r).
Proof.
  unfold add_first. simpl. destruct (AddFirstMsgForSignerAndRound _ _) as [ct r]. eauto.
Qed.

Lemma uponProposal_kept i log sm msg u :
  IInv i log → NewProcessingMessage sm = Ok msg → deliverable sm →
  isValidProposal i msg = Ok u →
  kept log (uponProposal msg (i, log)).
Proof using C_faulty Laws f_nonneg histories.
  intros Hi Hpm Hdel Hv.
  edestruct (valid_proposal_inv i sm msg u) as (Hroot & Hfd & Hst & Hev); eauto; try apply Hi.
  unfold uponProposal, mbind, st_bind. unfold wrap_m at 1.
  destruct (add_first_spec st_ProposeContainer set_ProposeContainer msg i log)
    as (ct & r & -> & _).
  apply (inv_set_proposes ct) in Hi.
  destruct r as [[]| |]; simpl; try by apply kept_added.
  destruct (bumpToRound_spec (pm_Round msg) (with_State (set_ProposeContainer ct) i) log)
    as (log1 & -> & Ha1).
  apply (inv_bump (pm_Round msg)) in Hi.
  assert (st_ProposalAcceptedForCurrentRound
            (i_State (bumped (pm_Round msg) (with_State (set_ProposeContainer ct) i))) = None ∧
          st_Round (i_State (bumped (pm_Round msg) (with_State (set_ProposeContainer ct) i)))
            = pm_Round msg) as [Hnone Hrd].
  { unfold bumped. simpl. destruct (Z.ltb_spec (st_Round (i_State i)) (pm_Round msg)); [done|].
    simpl. destruct Hst as [[? ?]|?]; [done|lia]. }
  set (i1 := bumped _ _) in *. simpl.
  pose proof (inv_add_none _ _ _ Hi Ha1) as Hi1.
  destruct (IsRelevant i1); simpl; [|by apply kept_added, Ha1].
  destruct (inv_set_proposal msg i1 log1 Hi1 Hnone Hroot Hfd) as [Hi2 Hnew].
  set (i2 := with_State _ i1) in *.
  destruct (create_broadcast_spec "could not create prepare msg"
    "failed to broadcast prepare message" _ _ _ (CreatePrepare_spec (pm_Round msg)
      (HashDataRoot (s_FullData (SignedMessage msg))) i2 log1)) as (log2 & r2 & E & Ha2).
  unfold mbind, st_bind in E. rewrite E. apply kept_added; [|by etrans; [apply Ha1|apply Ha2]].
  eapply (inv_add_prepare i2); eauto; simpl; rewrite ?Hrd; auto.
Qed.

Lemma add_first_elem c m c' r pm rd :
  AddFirstMsgForSignerAndRound c m = (c', r) → pm ∈ MessagesForRound c' rd →
  pm ∈ MessagesForRound c rd ∨ (pm = m ∧ rd = pm_Round m).
Proof.
  intros Ha Hin. destruct r as [[]|e|].
  - rewrite (container_add_first _ _ _ _ Ha) in Hin.
    destruct (decide (pm_Round m = rd)) as [<-|]; [|auto].
    apply elem_of_app in Hin as [?|?%list_elem_of_singleton]; auto.
  - rewrite (container_add_first_dup _ _ _ _ Ha) in Hin. auto.
  - rewrite (container_add_first_fail _ _ _ _ _ Ha) in Hin; auto.
  - rewrite (container_add_first_fail _ _ _ _ _ Ha) in Hin; auto.
Qed.

Lemma inv_set_prepares i log p msg ct r :
  IInv i log → st_ProposalAcceptedForCurrentRound (i_State i) = Some p →
  msg_ok PrepareMsgType (st_Round (i_State i)) msg → pm_Root msg = pm_Root p →
  AddFirstMsgForSignerAndRound (st_PrepareContainer (i_State i)) msg = (ct, r) →
  IInv (with_State (set_PrepareContainer ct) i) log.
Proof.
  intros [[] Hh] Hp Hok Hroot Ha. split; [|done]. constructor; simpl; try done.
  - intros rd pm Hin. destruct (add_first_elem _ _ _ _ _ _ Ha Hin) as [?|[-> ->]]; [auto|].
    assert (pm_Round msg = st_Round (i_State i)) as -> by apply Hok. split; [lia|done].
  - intros pm Hin. destruct (add_first_elem _ _ _ _ _ _ Ha Hin) as [?|[-> Hr]]; [auto|]. eauto.
Qed.

Lemma inv_set_commits i log msg ct r :
  IInv i log → msg_ok CommitMsgType (pm_Round msg) msg →
  AddFirstMsgForSignerAndRound (st_CommitContainer (i_State i)) msg = (ct, r) →
  IInv (with_State (set_CommitContainer ct) i) log.
Proof.
  intros [[] Hh] Hok Ha. split; [|done]. constructor; simpl; try done.
  intros rd pm Hin. destruct (add_first_elem _ _ _ _ _ _ Ha Hin) as [?|[-> ->]]; auto.
Qed.

Lemma uponPrepare_kept i log sm msg p u :
  IInv i log → NewProcessingMessage sm = Ok msg → deliverable sm →
  st_ProposalAcceptedForCurrentRound (i_State i) = Some p →
  validSignedPrepareForHeightRoundAndRootIgnoreSignature i msg
    (st_Round (i_State i)) (pm_Root p) = Ok u →
  kept log (uponPrepare msg (i, log)).
Proof using Laws.
  intros Hi Hpm [Hau _] Hp Hv.
  assert (msg_ok PrepareMsgType (st_Round (i_State i)) msg ∧ pm_Root msg = pm_Root p) as [Hok Hroot].
  { apply valid_prepare_inv in Hv as (? & Hh & ? & Hrt & _ & Hc). split; [|done].
    destruct Hi as [[] _]. rewrite live_cm0 in Hc. rewrite live_height0 in Hh.
    unfold msg_ok. split_and!; auto. intros s Hs. split; [auto|]. eauto using authentic_signed. }
  unfold uponPrepare, mbind, st_bind, get_inst at 1. simpl. rewrite Hp. unfold wrap_m at 1.
  destruct (add_first_spec st_PrepareContainer set_PrepareContainer msg i log)
    as (ct & r & -> & Ha).
  apply (inv_set_prepares i log p msg ct r) in Hi; [|done..].
  set (i1 := with_State _ i) in *.
  destruct r as [[]| |]; simpl; try by apply kept_added.
  destruct (HasQuorum _ _); simpl; [by apply kept_added|].
  destruct (HasQuorum _ (MessagesForRound ct _)) eqn:Hq; simpl; [|by apply kept_added].
  change (st_Round (i_State i)) with (st_Round (i_State i1)) in *.
  assert (PrepQuorum C honest f h G (st_Round (i_State i1)) (pm_Root p)) as HPQ.
  { change ct with (st_PrepareContainer (i_State i1)) in Hq.
    destruct Hi as [[] _]. simpl in live_cm0. rewrite live_cm0 in Hq.
    eapply prep_quorum_of_msgs; [exact Hq|].
    intros m Hm. split; [by apply live_prepares0|].
    destruct (live_prepares_cur0 m Hm) as (p' & Hp' & ->). simpl in Hp'. congruence. }
  apply (inv_set_last_prepared i1 log p) in Hi; [|done].
  set (i2 := with_State (set_LastPrepared _ _) i1) in *.
  destruct (create_broadcast_spec "could not create commit msg"
    "failed to broadcast commit message" _ _ _ (CreateCommit_spec (pm_Root p) i2 log))
    as (log2 & r2 & E & Ha2).
  unfold mbind, st_bind in E. rewrite E. apply kept_added; [|apply Ha2].
  by eapply (inv_add_commit i2).
Qed.

(** The aggregated commit carries the decided value. *)
Lemma aggregateCommitMsgs_FullData msgs fd agg :
  aggregateCommitMsgs msgs fd = Ok agg → s_FullData agg = fd.
Proof.
  destruct msgs as [|m msgs]; simpl; [done|]. intros Hag. inv_ok.
  unfold sort_signers in Hag. destruct (_ <? _)%nat; [done|]. by injection Hag as <-.
Qed.

(** A commit quorum collected in the commit container. *)
Lemma com_quorum_of_container i log r root msgs :
  LiveInv i log → commitQuorumForRoundRoot i root r = (true, msgs) →
  ComQuorum C honest f h G r root.
Proof.
  unfold commitQuorumForRoundRoot. intros [] Hq.
  destruct (LongestUniqueSignersForRoundAndRoot _ _ _) as [signers ms] eqn:Hl.
  injection Hq as Hq <-.
  apply container_longest in Hl as (Hnd & Hset & Hms).
  rewrite live_cm0 in Hq. apply cm_HasQuorum_spec in Hq.
  assert (∀ s, s ∈ (list_to_set signers : gset OperatorID) →
    s ∈ C ∧ (s ∈ honest → committed_at (G s) h r root)) as Hs.
  { rewrite Hset. intros s (m & Hm & Hs)%elem_of_unique_signers.
    destruct (Hms m Hm) as [Hin Hroot].
    destruct (live_commits0 r m Hin) as (? & ? & ? & Hsig). destruct (Hsig s Hs) as [? Hsg].
    split; [done|]. intros Hhon. exists (QBFTMessage m). split; [auto|]. by split_and!. }
  exists (list_to_set signers). split.
  - split; [intros s ?; by apply Hs|]. rewrite size_list_to_set by done. lia.
  - intros s ? ?. by apply Hs.
Qed.

(** What a decision rests on. *)
Definition decision (v : slice) (m : option SignedSSVMessage) : Prop :=
  (∃ agg, m = Some agg ∧ s_FullData agg = v) ∧
  ∃ r, ComQuorum C honest f h G r (HashDataRoot v).

Lemma validateCommit_inv i msg u :
  validateCommit i msg = Ok u →
  pm_Type msg = CommitMsgType ∧ pm_Height msg = st_Height (i_State i) ∧
  pm_Round msg = st_Round (i_State i) ∧
  (∀ s, s ∈ pm_Signers msg → s ∈ committee_ids (cm_Committee (st_CommitteeMember (i_State i)))) ∧
  ∃ p, st_ProposalAcceptedForCurrentRound (i_State i) = Some p ∧ pm_Root p = pm_Root msg.
Proof.
  unfold validateCommit, baseCommitValidationIgnoreSignature. intros Hv. inv_wrap.
  destruct (st_ProposalAcceptedForCurrentRound (i_State i)) as [p|]; [|done]. inv_wrap.
  repeat match goal with H : ¬ (_ ≠ _) |- _ => apply dec_stable in H end.
  split_and!; eauto. by apply CheckSignersInCommittee_spec.
Qed.

Lemma uponCommit_kept i log sm msg u :
  IInv i log → NewProcessingMessage sm = Ok msg → deliverable sm →
  validateCommit i msg = Ok u →
  kept log (uponCommit msg (i, log)) ∧
  ∀ v m, (uponCommit msg (i, log)).2 = Ok (true, v, m) → decision v m.
Proof using Laws.
  intros Hi Hpm [Hau _] (Hty & Hht & Hrd & Hc & p & Hp & Hroot)%validateCommit_inv.
  assert (msg_ok CommitMsgType (pm_Round msg) msg) as Hok.
  { destruct Hi as [[] _]. rewrite live_cm0 in Hc. rewrite live_height0 in Hht.
    unfold msg_ok. split_and!; auto. intros s Hs. split; [auto|]. eauto using authentic_signed. }
  unfold uponCommit, mbind, st_bind, get_inst at 1. simpl.
  destruct (commitQuorumForRoundRoot i (pm_Root msg) (pm_Round msg)) as [had ?].
  unfold wrap_m.
  destruct (add_first_spec st_CommitContainer set_CommitContainer msg i log)
    as (ct & r & -> & Ha).
  apply (inv_set_commits i log msg ct r) in Hi; [|done..].
  set (i1 := with_State _ i) in *.
  destruct r as [[]| |]; simpl; try (split; [by apply kept_added|done]).
  destruct had; simpl; [split; [by apply kept_added|done]|].
  destruct (commitQuorumForRoundRoot i1 (pm_Root msg) (pm_Round msg)) as [q cms] eqn:Hq.
  destruct q; simpl; [|split; [by apply kept_added|done]].
  rewrite Hp. unfold st_lift.
  destruct (wrap _ _) as [agg| |] eqn:Hagg; simpl; (split; [by apply kept_added|]); [|done..].
  intros v m [= <- <-]. inv_wrap. split; [eauto using aggregateCommitMsgs_FullData|].
  exists (pm_Round msg). destruct Hi as [Hl _].
  pose proof (live_proposal _ _ Hl p Hp) as [<- _]. rewrite Hroot.
  by eapply com_quorum_of_container.
Qed.

(** A round change created at a reached round. *)
Lemma create_round_change_kept i log log0 r ctx ctx' :
  IInv i log → r ≤ st_Round (i_State i) → log0 ⊆ log →
  kept log0 ((s ← wrap_m ctx (CreateRoundChange r); wrap_m ctx' (Broadcast s)) (i, log)).
Proof using Laws.
  intros Hi Hr Hl. destruct (CreateRoundChange_spec r i log) as (l1 & r1 & m & E & Ha & ? & ? & ? & ?).
  destruct (create_broadcast_spec (m := Some m) ctx ctx' (CreateRoundChange r) i log
    ltac:(eauto)) as (log2 & r2 & E2 & Ha2).
  rewrite E2. apply kept_added; [|by etrans; [|apply Ha2]].
  eapply inv_add_round_change; eauto. lia.
Qed.

Lemma uponChangeRoundPartialQuorum_kept i log r :
  IInv i log → kept log (uponChangeRoundPartialQuorum r (i, log)).
Proof using Laws.
  intros Hi. unfold uponChangeRoundPartialQuorum. unfold mbind at 1, st_bind at 1.
  destruct (bumpToRound_spec r i log) as (log1 & -> & Ha1).
  apply (inv_bump r) in Hi. pose proof (inv_add_none _ _ _ Hi Ha1) as Hi1.
  unfold mbind at 1, st_bind at 1. simpl.
  destruct (IsRelevant _); simpl; [|by apply kept_added, Ha1].
  apply create_round_change_kept; [done| |apply Ha1]. rewrite bumped_round. lia.
Qed.

Lemma UponRoundTimeout_kept i log : IInv i log → kept log (UponRoundTimeout (i, log)).
Proof using Laws.
  intros Hi. unfold UponRoundTimeout. unfold mbind at 1, st_bind at 1. simpl.
  destruct (IsRelevant i); simpl; [|by apply kept_added].
  set (r := u64 _). unfold mbind at 1, st_bind at 1.
  destruct (bumpToRound_spec r i log) as (log1 & -> & Ha1).
  apply (inv_bump r) in Hi. pose proof (inv_add_none _ _ _ Hi Ha1) as Hi1.
  unfold mbind at 1, st_bind at 1. simpl.
  destruct (IsRelevant _); simpl; [|by apply kept_added, Ha1].
  apply create_round_change_kept; [done| |apply Ha1]. rewrite bumped_round. lia.
Qed.

Lemma create_proposal_kept i log log0 v rcs ps ctx ctx' :
  IInv i log → log0 ⊆ log →
  kept log0 ((s ← wrap_m ctx (CreateProposal v rcs ps); wrap_m ctx' (Broadcast s)) (i, log)).
Proof using Laws.
  intros Hi Hl.
  destruct (CreateProposal_spec v rcs ps i log) as (l1 & r1 & m & E & Ha & ? & ? & ?).
  destruct (create_broadcast_spec (m := Some m) ctx ctx' (CreateProposal v rcs ps) i log
    ltac:(eauto)) as (log2 & r2 & E2 & Ha2).
  rewrite E2. apply kept_added; [|by etrans; [|apply Ha2]].
  eapply inv_add_neutral; eauto. intros m' [= <-]. split; [done|lia].
Qed.

Lemma uponRoundChange_kept i log msg : IInv i log → kept log (uponRoundChange msg (i, log)).
Proof using Laws.
  intros Hi. unfold uponRoundChange. unfold mbind at 1, st_bind at 1. simpl.
  unfold mbind at 1, st_bind at 1. unfold wrap_m at 1.
  destruct (add_first_spec st_RoundChangeContainer set_RoundChangeContainer msg i log)
    as (ct & r & -> & _).
  apply (inv_set_round_changes ct) in Hi. set (i1 := with_State _ i) in *.
  destruct r as [[]| |]; simpl; try by apply kept_added.
  destruct (HasQuorum _ _); simpl; [by apply kept_added|].
  unfold mbind at 1, st_bind at 1. simpl. unfold mbind at 1, st_bind at 1, st_lift at 1.
  destruct (wrap _ _) as [[[rc v]|]| |]; simpl; try by apply kept_added.
  - unfold mbind at 1, st_bind at 1.
    destruct (bumpToRound_spec (pm_Round rc) i1 log) as (log1 & -> & Ha1).
    apply (inv_bump (pm_Round rc)) in Hi. pose proof (inv_add_none _ _ _ Hi Ha1) as Hi1.
    unfold mbind at 1, st_bind at 1. simpl.
    destruct (IsRelevant _); simpl; [|by apply kept_added, Ha1].
    unfold mbind at 1, st_bind at 1, st_lift.
    destruct (justifications_of _ _); simpl; try by apply kept_added, Ha1.
    apply create_proposal_kept; [done|apply Ha1].
  - destruct (HasPartialQuorum _ _); simpl; [|by apply kept_added].
    destruct (_ <=? _); simpl; [by apply kept_added|].
    by apply uponChangeRoundPartialQuorum_kept.
Qed.

(** ** The whole instance *)

(** An instance stays inside the invariant until it has decided; a decided
    instance signs nothing. *)
Definition InstInv (i : Instance) (log : list Effect) : Prop :=
  st_Height (i_State i) = h ∧ (st_Decided (i_State i) = true ∨ LiveInv i log).

Lemma kept_inst {A} log (out : Instance * list Effect * result goerr A) :
  kept log out → InstInv out.1.1 out.1.2 ∧ Hist out.1.2 ∧ log ⊆ out.1.2.
Proof. intros [[Hl Hh] Hle]. split_and!; auto. split; [apply Hl|auto]. Qed.

(** A handler followed by a constant result. *)
Lemma kept_then {A B} (m : ST (Instance * list Effect) goerr A) (b : B) i log :
  kept log (m (i, log)) → kept log ((m ;; mret b) (i, log)) ∧
  ∀ x, ((m ;; mret b) (i, log)).2 = Ok x → x = b.
Proof.
  unfold mbind, st_bind. destruct (m (i, log)) as [[i' log'] [a|e|]]; intros Hk; simpl.
  - split; [by apply kept_added; apply Hk|]. by intros x [= <-].
  - split; [by apply kept_added; apply Hk|done].
  - split; [by apply kept_added; apply Hk|done].
Qed.

Lemma MarkDecided_spec r v i log :
  st_Decided (i_State i) = false →
  MarkDecided r v (i, log) =
    ((with_State (set_Decided r v) i, log ++ [ETimerStop (GetHeight i)]), Ok tt).
Proof. intros Hd. unfold MarkDecided, mbind, st_bind. simpl. by rewrite Hd. Qed.

Lemma Hist_add_other log e : (∀ sv, e ≠ ESign sv) → Hist log → Hist (log ++ [e]).
Proof.
  intros He [].
  assert (∀ m, signed (log ++ [e]) m → signed log m) as Hs.
  { intros m Hm. destruct (adds_other log e He) as [_ Ha]. by destruct (Ha m Hm). }
  assert (∀ r root, prepared_at (log ++ [e]) h r root → prepared_at log h r root) as HP
    by (intros r root (m & ? & ?); exists m; auto).
  assert (∀ r root, committed_at (log ++ [e]) h r root → committed_at log h r root) as HC
    by (intros r root (m & ? & ?); exists m; auto).
  assert (∀ r root, changed_to (log ++ [e]) h r root → changed_to log h r root) as HR
    by (intros r root (m & ? & ?); exists m; auto).
  constructor; eauto.
Qed.

Lemma uponCommit_undecided msg i log :
  st_Decided (i_State i) = false → st_Decided (i_State (uponCommit msg (i, log)).1.1) = false.
Proof.
  intros Hd. unfold uponCommit, mbind, st_bind, wrap_m. simpl.
  destruct (commitQuorumForRoundRoot i _ _) as [had ?].
  destruct (add_first_spec st_CommitContainer set_CommitContainer msg i log)
    as (ct & r & -> & Ha).
  destruct r as [[]| |]; simpl; try done.
  destruct had; simpl; [done|].
  destruct (commitQuorumForRoundRoot _ _ _) as [[] cms]; simpl; [|done].
  destruct (st_ProposalAcceptedForCurrentRound _); simpl; [|done].
  unfold st_lift. by destruct (wrap _ _).
Qed.

Definition processed (log : list Effect)
    (out : Instance * list Effect * result goerr (bool * slice * option SignedSSVMessage)) : Prop :=
  InstInv out.1.1 out.1.2 ∧ Hist out.1.2 ∧ log ⊆ out.1.2 ∧
  ∀ v m, out.2 = Ok (true, v, m) → decision v m.

Lemma ProcessMsg_inv i log sm msg :
  IInv i log → st_Decided (i_State i) = false →
  NewProcessingMessage sm = Ok msg → deliverable sm →
  processed log (ProcessMsg msg (i, log)).
Proof using C_faulty Laws f_nonneg histories.
  intros Hi Hnd Hpm Hdel. unfold ProcessMsg.
  unfold mbind at 1, st_bind at 1. simpl.
  destruct (kept_inst log ((i, log), Ok tt : result goerr unit)) as (HI0 & HH0 & Hle0);
    [by apply kept_added|].
  destruct (IsRelevant i); simpl; [|by split_and!].
  unfold mbind at 1, st_bind at 1, st_lift.
  destruct (wrap _ _) as [[]| |] eqn:Hv; simpl; [|by split_and!..].
  apply wrap_ok in Hv. unfold BaseMsgValidation in Hv.
  apply bind_ok in Hv as ([] & _ & Hv). apply bind_ok in Hv as ([] & _ & Hv).
  assert (∀ m : ST (Instance * list Effect) goerr unit, kept log (m (i, log)) →
    processed log ((m ;; mret not_decided) (i, log))) as Hthen.
  { intros m Hk. destruct (kept_then m not_decided i log Hk) as [Hk' Hr].
    destruct (kept_inst _ _ Hk') as (? & ? & ?). split_and!; auto.
    intros v m' Hres. by apply Hr in Hres. }
  destruct (pm_Type msg) eqn:Hty.
  - apply Hthen. eauto using uponProposal_kept.
  - destruct (st_ProposalAcceptedForCurrentRound (i_State i)) as [p|] eqn:Hp; [|done].
    apply Hthen. eauto using uponPrepare_kept.
  - destruct (st_ProposalAcceptedForCurrentRound (i_State i)) as [p|] eqn:Hp; [|done].
    destruct (uponCommit_kept i log sm msg _ Hi Hpm Hdel Hv) as [Hk Hdec].
    destruct (kept_inst _ _ Hk) as (HI & HH & Hle).
    unfold mbind at 1, st_bind at 1.
    pose proof (uponCommit_undecided msg i log Hnd) as Hnd'.
    destruct (uponCommit msg (i, log)) as [[i' log'] [[[d v] m]| |]]; simpl in *; [|by split_and!..].
    destruct d; simpl; [|by split_and!].
    unfold mbind, st_bind, wrap_m. rewrite MarkDecided_spec by done. simpl. split_and!.
    + split; [apply HI|by left].
    + by apply Hist_add_other.
    + set_solver.
    + intros v' m' [= <- <-]. auto.
  - apply Hthen. eauto using uponRoundChange_kept.
  - by split_and!.
Qed.

(** ** Starting an instance *)

(** Before an instance has run at [h], at most first-round proposals were signed
    there. *)
Definition fresh (log : list Effect) : Prop :=
  ∀ m, signed log m → m_Height m = h → m_MsgType m = ProposalMsgType ∧ m_Round m ≤ FirstRound.

Lemma fresh_no_vote log :
  fresh log → (∀ r root, ¬ prepared_at log h r root) ∧
              (∀ r root, ¬ committed_at log h r root) ∧ (∀ r d, ¬ changed_to log h r d).
Proof.
  intros Hf. split_and!; intros r x (m & Hs & Hty & Hh & _); destruct (Hf m Hs Hh); congruence.
Qed.

Lemma fresh_Hist log : fresh log → Hist log.
Proof.
  intros (HP & HC & HR)%fresh_no_vote.
  constructor; intros.
  - by destruct (HP r root).
  - by destruct (HC r root).
  - by destruct (HR r d).
  - by destruct (HP r root).
Qed.

Lemma fresh_mono_adds log log' : fresh log → adds log log' None → fresh log'.
Proof. intros Hf [_ Ha] m Hs Hh. apply Ha in Hs as [?|[=]]. auto. Qed.

Lemma inv_new i log chk :
  st_CommitteeMember (i_State i) = cm → st_Height (i_State i) = h →
  st_Round (i_State i) = FirstRound → st_LastPreparedRound (i_State i) = NoRound →
  st_ProposalAcceptedForCurrentRound (i_State i) = None →
  st_PrepareContainer (i_State i) = NewMsgContainer →
  st_CommitContainer (i_State i) = NewMsgContainer →
  i_ValueChecker i = Some chk → chk None ≠ None →
  fresh log → IInv i log.
Proof.
  intros Hcm Hh Hr Hlp Hp Hpc Hcc Hc Hchk Hf. split; [|by apply fresh_Hist].
  pose proof (fresh_no_vote _ Hf) as (HP & HC & _).
  constructor; rewrite ?Hr, ?Hlp, ?Hp, ?Hpc, ?Hcc; try done.
  - by intros ? [= <-]%(eq_trans (eq_sym Hc)).
  - intros m Hs Hm. by apply Hf.
  - intros root Hpr. by destruct (HP _ _ Hpr).
  - intros r pm. by rewrite container_new, elem_of_nil.
  - intros pm. by rewrite container_new, elem_of_nil.
  - intros r pm. by rewrite container_new, elem_of_nil.
  - intros r root Hcr. by destruct (HC _ _ Hcr).
Qed.

Lemma start_proposal_kept v i log : IInv i log → kept log (start_proposal v (i, log)).
Proof.
  intros Hi. unfold start_proposal.
  destruct (CreateProposal_spec v [] [] i log) as (l1 & r1 & m & -> & Ha & ? & ? & ?).
  assert (IInv i l1) as Hi1.
  { eapply inv_add_neutral; eauto. intros m' [= <-]. split; [done|lia]. }
  destruct r1 as [p| |]; try by apply kept_added, Ha.
  destruct (Broadcast_spec p i l1) as (l2 & r2 & -> & Ha2).
  assert (IInv i l2) by eauto using inv_add_none.
  destruct r2; apply kept_added; try done; by etrans; [apply Ha|apply Ha2].
Qed.

(** A started instance; when the start fails, the log still holds at most a
    first-round proposal more. *)
Lemma Start_inv config identifier signer v chk log :
  chk None ≠ None → fresh log →
  kept log (Start v chk (NewInstance config cm identifier h signer, log)).
Proof.
  intros Hchk Hf. unfold Start, mbind, st_bind, emit, st_modify. simpl.
  set (i := with_Start _ _ _). set (log1 := log ++ _).
  assert (adds log log1 None) as Ha by by apply adds_other.
  assert (IInv i log1) as Hi by (eapply inv_new; eauto using fresh_mono_adds).
  destruct (_ =? _); simpl; [|by apply kept_added, Ha].
  destruct (start_proposal_kept v i log1 Hi) as [? ?].
  destruct (start_proposal v (i, log1)) as [[i2 log2] r2].
  apply kept_added; [done|]. by etrans; [apply Ha|].
Qed.

Lemma Start_fresh config identifier signer v chk log :
  fresh log → fresh (Start v chk (NewInstance config cm identifier h signer, log)).1.2.
Proof.
  intros Hf. unfold Start, mbind, st_bind, emit, st_modify. simpl.
  set (i := with_Start _ _ _). set (log1 := log ++ _).
  assert (fresh log1) as Hf1.
  { eapply fresh_mono_adds; [exact Hf|]. by apply adds_other. }
  destruct (_ =? _); simpl; [|done]. unfold start_proposal.
  destruct (CreateProposal_spec v [] [] i log1) as (l1 & r1 & m & -> & Ha & Hty & Hh & Hr).
  assert (fresh l1) as Hf2.
  { intros m' Hs Hm. apply Ha in Hs as [?|[= <-]]; [auto|]. split; [done|].
    rewrite Hr. simpl. lia. }
  destruct r1 as [p| |]; [|done..].
  destruct (Broadcast_spec p i l1) as (l2 & r2 & -> & Ha2).
  destruct r2; simpl; eauto using fresh_mono_adds.
Qed.
End with_histories.
End invariant.
