(* ===== verification/InstanceFrame.v ===== *)
(** * What an instance leaves alone

    Whatever its outcome, a method of an instance keeps the instance's height,
    only extends the log, and signs messages of that height only.  The proofs
    follow the monadic structure of the methods with the hints of [framed]. *)

From stdpp Require Import base list gmap numbers strings.
From S2P Require Import Prelude Sha256 SpecTypes Instance Quorum History InstanceInv.

Create HintDb framed discriminated.

Section frame.
Context {Lib : SpecLib} {Laws : SpecLibLaws}.
Abbreviation IM := (ST (Instance * list Effect) goerr).

(** [log'] extends [log] with signatures of height [hi] only. *)
Definition signs_only (hi : Height) (log log' : list Effect) : Prop :=
  log ⊆ log' ∧ ∀ m, signed log' m → signed log m ∨ m_Height m = hi.

Lemma signs_only_refl hi log : signs_only hi log log.
Proof. split; auto. Qed.
Lemma signs_only_trans hi log log' log'' :
  signs_only hi log log' → signs_only hi log' log'' → signs_only hi log log''.
Proof.
  intros [? H1] [? H2]. split; [by etrans|].
  intros m [?|?]%H2; auto.
Qed.
Lemma adds_signs_only hi log log' m :
  adds log log' m → (∀ m', m = Some m' → m_Height m' = hi) → signs_only hi log log'.
Proof. intros [? Ha] Hm. split; [done|]. intros m' [?|?]%Ha; auto. Qed.

Definition framed {A} (hi : Height) (m : IM A) : Prop :=
  ∀ i log, st_Height (i_State i) = hi →
    st_Height (i_State (m (i, log)).1.1) = hi ∧ signs_only hi log (m (i, log)).1.2.

Lemma framed_bind {A B} hi (m : IM A) (k : A → IM B) :
  framed hi m → (∀ a, framed hi (k a)) → framed hi (m ≫= k).
Proof.
  intros Hm Hk i log Hi. destruct (Hm i log Hi) as [Hh Hs].
  unfold mbind, st_bind. destruct (m (i, log)) as [[i' log'] [a|e|]]; simpl in *; [|done..].
  destruct (Hk a i' log' Hh). split; [done|]. eauto using signs_only_trans.
Qed.
Lemma framed_get {B} hi (k : Instance → IM B) :
  (∀ i, st_Height (i_State i) = hi → framed hi (k i)) → framed hi (get_inst ≫= k).
Proof. intros Hk i log Hi. by apply (Hk i Hi). Qed.
Lemma framed_ret {A} hi (a : A) : framed hi (mret a).
Proof. intros i log Hi. simpl. auto using signs_only_refl. Qed.
Lemma framed_lift {A} hi (r : result goerr A) : framed hi (st_lift r).
Proof. intros i log Hi. simpl. auto using signs_only_refl. Qed.
Lemma framed_err {A} hi e : framed (A := A) hi (st_err e).
Proof. intros i log Hi. simpl. auto using signs_only_refl. Qed.
Lemma framed_wrap {A} hi ctx (m : IM A) : framed hi m → framed hi (wrap_m ctx m).
Proof.
  intros Hm i log Hi. unfold wrap_m. specialize (Hm i log Hi).
  by destruct (m (i, log)) as [[] ?].
Qed.
Lemma framed_modify_State hi g :
  (∀ s, st_Height (g s) = st_Height s) → framed hi (modify_State g).
Proof. intros Hg i log Hi. simpl. rewrite Hg. auto using signs_only_refl. Qed.
Lemma framed_modify hi g :
  (∀ i, st_Height (i_State (g i)) = st_Height (i_State i)) →
  framed hi (st_modify (λ c, (g c.1, c.2))).
Proof. intros Hg i log Hi. simpl. rewrite Hg. auto using signs_only_refl. Qed.
Lemma framed_emit hi e : (∀ sv, e ≠ ESign sv) → framed hi (emit e).
Proof.
  intros He i log Hi. simpl. split; [done|].
  eapply adds_signs_only; [by apply adds_other|done].
Qed.
Lemma framed_add_first hi get set msg :
  (∀ c s, st_Height (set c s) = st_Height s) → framed hi (add_first get set msg).
Proof.
  intros Hset i log Hi. destruct (add_first_spec get set msg i log) as (ct & r & -> & _).
  simpl. rewrite Hset. auto using signs_only_refl.
Qed.
Lemma framed_Sign hi m o : m_Height m = hi → framed hi (Sign m o).
Proof.
  intros Hm i log Hi. destruct (Sign_spec m o i log) as (l & r & -> & Ha). split; [done|].
  eapply adds_signs_only; [done|]. by intros ? [= <-].
Qed.
Lemma framed_Broadcast hi m : framed hi (Broadcast m).
Proof.
  intros i log Hi. destruct (Broadcast_spec m i log) as (l & r & -> & Ha). split; [done|].
  by eapply adds_signs_only.
Qed.
Lemma framed_CreateProposal hi v rcs ps : framed hi (CreateProposal v rcs ps).
Proof.
  intros i log Hi. destruct (CreateProposal_spec v rcs ps i log) as (l & r & m & -> & Ha & _ & ? & _).
  split; [done|]. eapply adds_signs_only; [done|]. intros ? [= <-]. congruence.
Qed.
Lemma framed_CreateRoundChange hi r : framed hi (CreateRoundChange r).
Proof.
  intros i log Hi. destruct (CreateRoundChange_spec r i log) as (l & res & m & -> & Ha & _ & ? & _).
  split; [done|]. eapply adds_signs_only; [done|]. intros ? [= <-]. congruence.
Qed.
Lemma framed_if {A} hi (b : bool) (m m' : IM A) :
  framed hi m → framed hi m' → framed hi (if b then m else m').
Proof. by destruct b. Qed.

#[local] Hint Resolve framed_ret framed_lift framed_err framed_wrap framed_modify_State
  framed_modify framed_emit framed_add_first framed_Sign framed_Broadcast
  framed_CreateProposal framed_CreateRoundChange framed_if : framed.
#[local] Hint Extern 1 (framed _ (get_inst ≫= _)) => apply framed_get; intros : framed.
#[local] Hint Extern 2 (framed _ (_ ≫= _)) => apply framed_bind; [|intros] : framed.
#[local] Hint Extern 1 (framed _ (let '(_, _) := ?x in _)) => destruct x : framed.
#[local] Hint Extern 1 (framed _ (match ?x with _ => _ end)) => destruct x : framed.
#[local] Hint Extern 0 (_ ≠ _) => discriminate : framed.
#[local] Hint Extern 0 (_ = _) => first [reflexivity|assumption] : framed.

Lemma framed_bump hi r : framed hi (bumpToRound r).
Proof. unfold bumpToRound. eauto 20 with framed. Qed.
#[local] Hint Resolve framed_bump : framed.
Lemma framed_MarkDecided hi r v : framed hi (MarkDecided r v).
Proof. unfold MarkDecided. eauto 20 with framed. Qed.
#[local] Hint Resolve framed_MarkDecided : framed.
Lemma framed_uponProposal hi msg : framed hi (uponProposal msg).
Proof. unfold uponProposal, CreatePrepare. eauto 30 with framed. Qed.
Lemma framed_uponPrepare hi msg : framed hi (uponPrepare msg).
Proof. unfold uponPrepare, CreateCommit. eauto 30 with framed. Qed.
Lemma framed_uponCommit hi msg : framed hi (uponCommit msg).
Proof. unfold uponCommit. eauto 30 with framed. Qed.
Lemma framed_uponChangeRoundPartialQuorum hi r : framed hi (uponChangeRoundPartialQuorum r).
Proof. unfold uponChangeRoundPartialQuorum. eauto 30 with framed. Qed.
#[local] Hint Resolve framed_uponProposal framed_uponPrepare framed_uponCommit
  framed_uponChangeRoundPartialQuorum : framed.
Lemma framed_uponRoundChange hi msg : framed hi (uponRoundChange msg).
Proof. unfold uponRoundChange. eauto 30 with framed. Qed.
#[local] Hint Resolve framed_uponRoundChange : framed.

Lemma framed_ProcessMsg hi msg : framed hi (ProcessMsg msg).
Proof. unfold ProcessMsg. eauto 30 with framed. Qed.
Lemma framed_UponRoundTimeout hi : framed hi UponRoundTimeout.
Proof. unfold UponRoundTimeout. eauto 30 with framed. Qed.
Lemma framed_start_proposal hi v : framed hi (start_proposal v).
Proof.
  intros i log Hi. unfold start_proposal.
  destruct (framed_CreateProposal hi v [] [] i log Hi) as [Hh Hs].
  destruct (CreateProposal v [] [] (i, log)) as [[i1 log1] [p| |]]; [|done..]. simpl in *.
  destruct (framed_Broadcast hi p i1 log1 Hh) as [Hh2 Hs2].
  destruct (Broadcast p (i1, log1)) as [[i2 log2] []]; simpl in *; eauto using signs_only_trans.
Qed.
#[local] Hint Resolve framed_start_proposal : framed.
Lemma framed_Start hi v chk : framed hi (Start v chk).
Proof.
  unfold Start. apply framed_get. intros i Hi. apply framed_bind; [by apply framed_modify|].
  eauto 30 with framed.
Qed.
End frame.
