(* ===== verification/ControllerInv.v ===== *)
(** * Invariant of the QBFT controller

    First the container of recent instances: insertion is a sorted insertion
    followed by a cut to the capacity, so the newest heights are kept.  Then
    the invariant [NodeInv] of a controller and its log at one height, kept by
    every operation of the controller: a height is never run twice, and what is
    signed at it satisfies [HistOK]. *)

From stdpp Require Import base list gmap numbers strings sorting.
From S2P Require Import Prelude Sha256 SpecTypes Instance Controller Quorum History InstanceInv.
From S2P Require Import InstanceFrame.

(** ** The container of recent instances *)
Section store.
Context {Lib : SpecLib}.

(** Stored by strictly decreasing height. *)
Definition newer (a b : Instance) : Prop := GetHeight b < GetHeight a.
Abbreviation sorted ic := (StronglySorted newer ic).

(** The position before the first older instance. *)
Definition sorted_insert (inst : Instance) (ic : list Instance) : list Instance :=
  take (indexToInsert ic (GetHeight inst)) ic ++
  inst :: drop (indexToInsert ic (GetHeight inst)) ic.

Lemma indexToInsert_le ic hh : (indexToInsert ic hh ≤ length ic)%nat.
Proof. induction ic as [|x ic IH]; simpl; [done|]. destruct (_ <? _); lia. Qed.

Lemma addNewInstance_take cap ic inst :
  cap ≠ 0%nat → (length ic ≤ cap)%nat →
  addNewInstance cap ic inst = take cap (sorted_insert inst ic).
Proof.
  intros Hc Hl. unfold addNewInstance, sorted_insert.
  destruct (Nat.eqb_spec cap 0); [done|].
  pose proof (indexToInsert_le ic (GetHeight inst)) as Hle.
  set (k := indexToInsert ic (GetHeight inst)) in *.
  destruct (Nat.eqb_spec k (length ic)) as [->|Hk].
  - rewrite (take_ge ic (length ic)), (drop_ge ic) by lia. destruct (Nat.ltb_spec (length ic) cap).
    + symmetry. apply take_ge. rewrite length_app. simpl. lia.
    + by rewrite take_app_le, take_ge by lia.
  - destruct (Nat.eqb_spec (length ic) cap) as [<-|].
    + rewrite take_app_ge; rewrite length_take, Nat.min_l by lia; [|lia].
      f_equal. replace (length ic - k)%nat with (S (length ic - S k)) by lia. done.
    + symmetry. apply take_ge. rewrite length_app. simpl. rewrite length_take, length_drop. lia.
Qed.

Lemma sorted_insert_elem inst ic x : x ∈ sorted_insert inst ic ↔ x = inst ∨ x ∈ ic.
Proof.
  unfold sorted_insert. set (k := indexToInsert ic _).
  rewrite elem_of_app, elem_of_cons. rewrite <- (take_drop k ic) at 3. rewrite elem_of_app.
  naive_solver.
Qed.

Lemma sorted_insert_cons inst x ic :
  sorted_insert inst (x :: ic) =
    if GetHeight x <? GetHeight inst then inst :: x :: ic else x :: sorted_insert inst ic.
Proof. unfold sorted_insert. simpl. by destruct (_ <? _). Qed.

Lemma sorted_insert_sorted inst ic :
  sorted ic → (∀ x, x ∈ ic → GetHeight x ≠ GetHeight inst) → sorted (sorted_insert inst ic).
Proof.
  induction 1 as [|x ic Hs IH Hall]; intros Hne.
  - repeat constructor.
  - rewrite sorted_insert_cons. rewrite Forall_forall in Hall.
    destruct (Z.ltb_spec (GetHeight x) (GetHeight inst)).
    + constructor; [by constructor; [done|apply Forall_forall]|].
      apply Forall_forall. intros y [->|Hy]%elem_of_cons; [done|].
      specialize (Hall y Hy). unfold newer in *. lia.
    + constructor; [apply IH; set_solver|]. apply Forall_forall.
      intros y [->|Hy]%sorted_insert_elem; [|auto].
      specialize (Hne x ltac:(set_solver)). unfold newer. lia.
Qed.

(** What a cut drops is older than everything kept. *)
Lemma sorted_cut cap ic x :
  sorted ic → cap ≠ 0%nat → x ∈ ic →
  x ∈ take cap ic ∨ ∃ y, y ∈ take cap ic ∧ GetHeight x < GetHeight y.
Proof.
  intros Hs Hc Hx. destruct ic as [|y ic]; [by apply elem_of_nil in Hx|].
  destruct cap as [|cap]; [done|]. simpl.
  apply StronglySorted_inv in Hs as [_ Hall]. rewrite Forall_forall in Hall.
  apply elem_of_cons in Hx as [->|Hx]; [left; set_solver|].
  right. exists y. split; [set_solver|]. by apply Hall.
Qed.

Lemma sorted_take n ic : sorted ic → sorted (take n ic).
Proof.
  intros Hs. revert n. induction Hs as [|x ic Hs IH Hall]; intros [|n]; simpl; try constructor.
  - auto.
  - by apply Forall_take.
Qed.

(** A stored instance is found by its height, which no other one has. *)
Lemma FindInstance_Some ic hh i :
  FindInstance ic hh = Some i → i ∈ ic ∧ GetHeight i = hh.
Proof.
  unfold FindInstance. intros (Hin & He%Z.eqb_eq)%List.find_some.
  by rewrite list_elem_of_In.
Qed.
Lemma FindInstance_None ic hh : FindInstance ic hh = None ↔ ∀ i, i ∈ ic → GetHeight i ≠ hh.
Proof.
  unfold FindInstance. split.
  - intros Hf i Hi%list_elem_of_In. pose proof (List.find_none _ _ Hf i Hi) as Hn.
    by apply Z.eqb_neq.
  - intros Hne. destruct (List.find _ _) as [i|] eqn:E; [|done].
    apply FindInstance_Some in E as [? ?]. exfalso. by eapply Hne.
Qed.

Lemma replace_instance_elem hh inst ic x :
  sorted ic → x ∈ replace_instance hh inst ic →
  (x = inst ∧ ∃ y, y ∈ ic ∧ GetHeight y = hh) ∨ (x ∈ ic ∧ GetHeight x ≠ hh).
Proof.
  induction 1 as [|y ic Hs IH Hall]; simpl; [by intros ?%elem_of_nil|].
  rewrite Forall_forall in Hall.
  destruct (Z.eqb_spec (GetHeight y) hh) as [He|Hne]; intros [->|Hx]%elem_of_cons.
  - left. split; [done|]. exists y. split; [set_solver|done].
  - right. split; [set_solver|]. specialize (Hall x Hx). unfold newer in Hall. lia.
  - right. set_solver.
  - destruct (IH Hx) as [(? & z & ? & ?)|[? ?]]; [left|right]; set_solver.
Qed.

Lemma replace_instance_sorted hh inst ic :
  GetHeight inst = hh → sorted ic → sorted (replace_instance hh inst ic).
Proof.
  intros Hi. induction 1 as [|y ic Hs IH Hall]; simpl; [constructor|].
  destruct (Z.eqb_spec (GetHeight y) hh) as [He|Hne].
  - constructor; [done|]. unfold newer in *. by rewrite Hi, <- He.
  - constructor; [done|]. rewrite Forall_forall in *. intros x Hx.
    destruct (replace_instance_elem _ _ _ _ Hs Hx) as [(-> & z & Hz & ?)|[? _]]; [|auto].
    specialize (Hall z Hz). unfold newer in *. lia.
Qed.

Lemma replace_instance_heights hh inst ic :
  GetHeight inst = hh → GetHeight <$> replace_instance hh inst ic = GetHeight <$> ic.
Proof.
  intros Hi. induction ic as [|y ic IH]; simpl; [done|].
  destruct (Z.eqb_spec (GetHeight y) hh); simpl; f_equal; [congruence|done].
Qed.

Lemma sorted_irrelevant ic : sorted ic → sorted (with_Irrelevant <$> ic).
Proof.
  induction 1 as [|x ic Hss IH Hall]; simpl; [constructor|].
  constructor; [done|]. by apply Forall_fmap.
Qed.
End store.

(** ** The controller at one height *)
Section node.
Context {Lib : SpecLib} {Laws : SpecLibLaws}.
Context (cm : CommitteeMember) (honest : gset OperatorID) (h : Height).
Context (G : OperatorID → list Effect).

Abbreviation C := (committee_ids (cm_Committee cm)).
Abbreviation f := (cm_FaultyNodes cm).
Abbreviation Hist log := (HistOK C honest f h log G).
Abbreviation InstInv := (InstInv cm honest h G).

Record StoreOK (c : Controller) : Prop := {
  store_cap : c_cap c ≠ 0%nat;
  store_length : (length (c_RecentInstances c) ≤ c_cap c)%nat;
  store_sorted : StronglySorted newer (c_RecentInstances c);
  store_latest i : i ∈ c_RecentInstances c → GetHeight i ≤ c_LatestInstanceHeight c;
  store_empty : c_RecentInstances c = [] → c_LatestInstanceHeight c = FirstHeight;
  store_present : c_RecentInstances c ≠ [] →
    ∃ i, i ∈ c_RecentInstances c ∧ GetHeight i = c_LatestInstanceHeight c;
}.

(** Storing a new instance, the latest height following. *)
Definition store_new (inst : Instance) (c : Controller) : Controller :=
  with_latest (Z.max (c_LatestInstanceHeight c) (GetHeight inst))
    (with_instances (addNewInstance (c_cap c) (c_RecentInstances c) inst) c).

Lemma store_new_elem inst c x :
  StoreOK c → x ∈ c_RecentInstances (store_new inst c) → x = inst ∨ x ∈ c_RecentInstances c.
Proof.
  intros [] Hx. simpl in Hx. rewrite addNewInstance_take in Hx by done.
  apply sorted_insert_elem. by eapply (subseteq_take (c_cap c)).
Qed.

Lemma store_new_cut inst c x :
  StoreOK c → (∀ y, y ∈ c_RecentInstances c → GetHeight y ≠ GetHeight inst) →
  x = inst ∨ x ∈ c_RecentInstances c →
  x ∈ c_RecentInstances (store_new inst c) ∨
  ∃ y, y ∈ c_RecentInstances (store_new inst c) ∧ GetHeight x < GetHeight y.
Proof.
  intros [] Hne Hx. simpl. rewrite addNewInstance_take by done.
  apply sorted_cut; [by apply sorted_insert_sorted|done|]. by apply sorted_insert_elem.
Qed.

Lemma store_new_ok inst c :
  StoreOK c → (∀ y, y ∈ c_RecentInstances c → GetHeight y ≠ GetHeight inst) →
  FirstHeight ≤ GetHeight inst → StoreOK (store_new inst c).
Proof.
  intros Hok Hne Hpos. pose proof Hok as [].
  assert (∃ y, y ∈ c_RecentInstances (store_new inst c) ∧
    GetHeight y = c_LatestInstanceHeight (store_new inst c)) as Hpres.
  { assert (∃ x, (x = inst ∨ x ∈ c_RecentInstances c) ∧
      GetHeight x = c_LatestInstanceHeight (store_new inst c)) as (x & Hx & Hl).
    { simpl. destruct (Z.max_spec (c_LatestInstanceHeight c) (GetHeight inst)) as [[? ->]|[? ->]];
        [by eauto|]. destruct (decide (c_RecentInstances c = [])) as [E|E].
      - rewrite (store_empty0 E) in *. exists inst. split; [auto|]. lia.
      - destruct (store_present0 E) as (x & ? & ?). eauto. }
    destruct (store_new_cut inst c x Hok Hne Hx) as [?|(y & Hy & Hlt)]; [eauto|].
    exfalso. rewrite Hl in Hlt. simpl in Hlt.
    destruct (store_new_elem _ _ _ Hok Hy) as [->|Hy']; [lia|]. specialize (store_latest0 y Hy'). lia. }
  constructor; try done.
  - simpl. rewrite addNewInstance_take by done. rewrite length_take. lia.
  - simpl. rewrite addNewInstance_take by done.
    by apply sorted_take, sorted_insert_sorted.
  - intros i Hi. simpl. destruct (store_new_elem _ _ _ Hok Hi) as [->|Hi']; [lia|].
    specialize (store_latest0 i Hi'). lia.
  - intros E. rewrite E in Hpres. destruct Hpres as (y & ?%elem_of_nil & _). done.
Qed.

Lemma heights_elem (ic ic' : list Instance) x :
  GetHeight <$> ic' = GetHeight <$> ic → x ∈ ic' → ∃ y, y ∈ ic ∧ GetHeight y = GetHeight x.
Proof.
  intros He Hx. pose proof (list_elem_of_fmap_2 GetHeight _ _ Hx) as Hh.
  rewrite He in Hh. apply list_elem_of_fmap in Hh as (y & ? & ?). eauto.
Qed.

(** Changes of the stored instances that keep their heights. *)
Lemma store_same_heights ic c :
  StoreOK c → GetHeight <$> ic = GetHeight <$> c_RecentInstances c →
  StronglySorted newer ic → StoreOK (with_instances ic c).
Proof.
  intros [] He Hs.
  assert (length ic = length (c_RecentInstances c)) as Hl
    by (rewrite <- (length_fmap GetHeight ic), He; apply length_fmap).
  constructor; simpl; try done.
  - lia.
  - intros i Hi. destruct (heights_elem _ _ _ He Hi) as (y & Hy & <-). auto.
  - intros ->. apply store_empty0. by destruct (c_RecentInstances c).
  - intros Hne. destruct store_present0 as (i & Hi & Hh).
    { intros E. rewrite E in Hl. by destruct ic. }
    destruct (heights_elem _ _ _ (eq_sym He) Hi) as (y & ? & ?). exists y. split; [done|lia].
Qed.

(** What holds of a node at height [h]. *)
Record NodeInv (c : Controller) (log : list Effect) : Prop := {
  node_cm : c_CommitteeMember c = cm;
  node_store : StoreOK c;
  node_hist : Hist log;
  node_inst i : i ∈ c_RecentInstances c → GetHeight i = h → InstInv i log;
  node_fresh : (∀ i, i ∈ c_RecentInstances c → GetHeight i ≠ h) →
    c_LatestInstanceHeight c ≤ h → fresh h log;
}.

(** Signing at another height. *)
Section other_height.
Context (hi : Height) (log log' : list Effect).
Hypothesis Hs : signs_only hi log log'.
Hypothesis Hne : hi ≠ h.

Lemma signed_frame m : signed log' m → m_Height m = h → signed log m.
Proof using All. intros [?|?]%Hs ?; [done|congruence]. Qed.

Lemma fresh_frame : fresh h log → fresh h log'.
Proof using All. intros Hf m Hm Hh. apply Hf; [|done]. by apply signed_frame. Qed.
Lemma prepared_frame r root : prepared_at log' h r root → prepared_at log h r root.
Proof using All. intros (m & Hm & ? & ? & ?). exists m. split; [by apply signed_frame|done]. Qed.
Lemma committed_frame r root : committed_at log' h r root → committed_at log h r root.
Proof using All. intros (m & Hm & ? & ? & ?). exists m. split; [by apply signed_frame|done]. Qed.
Lemma changed_frame r d : changed_to log' h r d → changed_to log h r d.
Proof using All. intros (m & Hm & ? & ? & ?). exists m. split; [by apply signed_frame|done]. Qed.

Lemma Hist_frame : Hist log → Hist log'.
Proof using All.
  intros []. constructor; eauto using prepared_frame, committed_frame, changed_frame.
Qed.
Lemma InstInv_frame i : InstInv i log → InstInv i log'.
Proof using All.
  intros [Hh [?|[]]]; (split; [done|]); [by left|right].
  constructor; eauto using prepared_frame, committed_frame, signed_frame.
Qed.
End other_height.

(** Running a method of a stored instance. *)
Lemma node_run_stored {A} hi inst (m : ST (Instance * list Effect) goerr A) c log :
  NodeInv c log → FindInstance (c_RecentInstances c) hi = Some inst → framed hi m →
  (hi = h → InstInv (m (inst, log)).1.1 (m (inst, log)).1.2 ∧ Hist (m (inst, log)).1.2) →
  NodeInv (run_stored hi inst m (c, log)).1.1 (run_stored hi inst m (c, log)).1.2 ∧
  log ⊆ (run_stored hi inst m (c, log)).1.2 ∧
  (run_stored hi inst m (c, log)).2 = (m (inst, log)).2.
Proof.
  intros [] [Hin Hht]%FindInstance_Some Hf Hh.
  unfold run_stored. destruct (Hf inst log Hht) as [Hht' Hs]. simpl.
  destruct (m (inst, log)) as [[inst' log'] r]. simpl in *.
  split; [|split; [apply Hs|done]].
  assert (StoreOK (with_instances (replace_instance hi inst' (c_RecentInstances c)) c)) as Hst.
  { apply store_same_heights; [done|by apply replace_instance_heights|].
    by apply replace_instance_sorted, node_store0. }
  constructor; try done.
  - destruct (decide (hi = h)) as [->|Hne]; [by apply Hh|]. by eapply Hist_frame.
  - intros i Hi Hih. simpl in Hi.
    destruct (replace_instance_elem _ _ _ _ (store_sorted _ node_store0) Hi) as [(-> & _)|[Hi' Hne]].
    + apply Hh. rewrite <- Hih. symmetry. exact Hht'.
    + eapply InstInv_frame; [done|congruence|]. auto.
  - intros Hnone Hl. simpl in *.
    assert (∀ i, i ∈ c_RecentInstances c → GetHeight i ≠ h) as Hnone'.
    { intros i Hi. destruct (heights_elem _ _ _
        (eq_sym (replace_instance_heights hi inst' (c_RecentInstances c) Hht')) Hi)
        as (y & Hy & <-). auto. }
    eapply (fresh_frame hi log); auto. intros ->. by apply (Hnone' inst).
Qed.

(** Storing an instance at a height that has none. *)
Lemma node_store_new inst c log log' :
  NodeInv c log → (∀ y, y ∈ c_RecentInstances c → GetHeight y ≠ GetHeight inst) →
  FirstHeight ≤ GetHeight inst → signs_only (GetHeight inst) log log' →
  (GetHeight inst = h → InstInv inst log' ∧ Hist log') →
  NodeInv (store_new inst c) log'.
Proof.
  intros [] Hnew Hpos Hs Hh. constructor; try done.
  - by apply store_new_ok.
  - destruct (decide (GetHeight inst = h)) as [He|Hne]; [by apply Hh|]. by eapply Hist_frame.
  - intros i Hi Hih. destruct (store_new_elem _ _ _ node_store0 Hi) as [->|Hi']; [by apply Hh|].
    eapply InstInv_frame; [done| |auto]. intros E. apply (Hnew i Hi'). congruence.
  - intros Hnone Hl.
    assert (∀ x, x = inst ∨ x ∈ c_RecentInstances c → GetHeight x ≠ h) as Hgone.
    { intros x Hx Hxh. destruct (store_new_cut inst c x node_store0 Hnew Hx) as [Hx'|(y & Hy & Hlt)].
      - by apply (Hnone x).
      - pose proof (store_latest _ (store_new_ok inst c node_store0 Hnew Hpos) y Hy). lia. }
    eapply (fresh_frame (GetHeight inst) log); [done|auto|].
    apply node_fresh0; [auto|]. simpl in Hl. lia.
Qed.

(** [markRecentInstancesIrrelevant] changes neither states nor heights. *)
Lemma node_mark_irrelevant c log :
  NodeInv c log →
  NodeInv (markRecentInstancesIrrelevant (c, log)).1.1 (markRecentInstancesIrrelevant (c, log)).1.2 ∧
  log ⊆ (markRecentInstancesIrrelevant (c, log)).1.2.
Proof.
  intros []. simpl. set (evs := (λ i, ETimerStop (GetHeight i)) <$> c_RecentInstances c).
  assert (∀ m, signed (log ++ evs) m → signed log m) as Hsg.
  { intros m (sv & [Hin|Hin]%elem_of_app & Hd); [by exists sv|].
    by apply list_elem_of_fmap in Hin as (? & [=] & _). }
  assert (∀ hi, signs_only hi log (log ++ evs)) as Hs by (split; [set_solver|auto]).
  split; [|set_solver].
  assert (∀ r root, prepared_at (log ++ evs) h r root → prepared_at log h r root) as HP
    by (intros r root (m & ? & ?); exists m; auto).
  assert (∀ r root, committed_at (log ++ evs) h r root → committed_at log h r root) as HC
    by (intros r root (m & ? & ?); exists m; auto).
  assert (∀ r d, changed_to (log ++ evs) h r d → changed_to log h r d) as HR
    by (intros r root (m & ? & ?); exists m; auto).
  constructor; try done.
  - apply store_same_heights; [done| |].
    + rewrite <- list_fmap_compose. by apply list_fmap_ext.
    + by apply sorted_irrelevant, node_store0.
  - destruct node_hist0. constructor; eauto.
  - simpl. intros i (i0 & -> & Hi)%list_elem_of_fmap Hih.
    destruct (node_inst0 i0 Hi Hih) as [? [?|[]]]; (split; [done|]); [by left|right].
    constructor; eauto.
  - simpl. intros Hnone Hl m Hm Hh. apply node_fresh0; auto.
    intros i Hi. apply (Hnone (with_Irrelevant i)). by apply list_elem_of_fmap_2.
Qed.

(** ** The operations of the controller keep the invariant *)
Definition node_kept {A} (log : list Effect) (out : Controller * list Effect * result goerr A) : Prop :=
  NodeInv out.1.1 out.1.2 ∧ log ⊆ out.1.2.

Lemma node_same {A} c log (r : result goerr A) : NodeInv c log → node_kept log ((c, log), r).
Proof. by split. Qed.

(** Signing first-round proposals at a height without instance. *)
Lemma node_log c log log' hi :
  NodeInv c log → (∀ y, y ∈ c_RecentInstances c → GetHeight y ≠ hi) → signs_only hi log log' →
  (hi = h → fresh h log') → NodeInv c log'.
Proof.
  intros [] Hnew Hs Hf. destruct (decide (hi = h)) as [->|Hne].
  - constructor; auto. { by apply fresh_Hist, Hf. } intros i Hi Hih. by destruct (Hnew i Hi).
  - constructor; auto.
    + by eapply Hist_frame.
    + intros i Hi Hih. eapply InstInv_frame; eauto.
    + intros. eapply fresh_frame; eauto.
Qed.

Lemma startInstance_kept hi v chk c log :
  NodeInv c log → FirstHeight ≤ hi → chk None ≠ None →
  node_kept log (startInstance hi v chk (c, log)).
Proof using Laws.
  intros HN Hpos Hchk. unfold startInstance. unfold mbind at 1, st_bind at 1. simpl.
  destruct (Z.ltb_spec hi (c_LatestInstanceHeight c)) as [|Hl]; [by apply node_same|].
  destruct (bool_decide _) eqn:Hfind; [by apply node_same|].
  apply bool_decide_eq_false, dec_stable in Hfind. rewrite FindInstance_None in Hfind.
  unfold mbind at 1, st_bind at 1.
  destruct (node_mark_irrelevant c log HN) as [HN1 Hle1].
  assert (c_LatestInstanceHeight (markRecentInstancesIrrelevant (c, log)).1.1
    = c_LatestInstanceHeight c) as Hlat by done.
  assert (∀ y, y ∈ c_RecentInstances (markRecentInstancesIrrelevant (c, log)).1.1 →
    GetHeight y ≠ hi) as Hnone.
  { simpl. intros y (i & -> & Hi)%list_elem_of_fmap. by apply (Hfind i). }
  destruct (markRecentInstancesIrrelevant (c, log)) as [[c1 log1] r1] eqn:E1.
  injection E1 as _ _ <-. simpl in *.
  assert (new_instance c hi = NewInstance (c_config c) cm (identifierAtHeight c hi) hi
    (c_OperatorSigner c)) as Hni.
  { unfold new_instance. by rewrite (node_cm _ _ HN). }
  unfold mbind, st_bind, run_on. simpl. rewrite Hni. set (i0 := NewInstance _ _ _ _ _).
  destruct (framed_Start hi v chk i0 log1 eq_refl) as [Hih Hs].
  assert (hi = h → fresh h log1) as Hf1.
  { intros ->. apply HN1; [done|]. by rewrite Hlat. }
  assert (hi = h → fresh h (Start v chk (i0, log1)).1.2) as Hf2.
  { intros E. specialize (Hf1 E). subst i0. rewrite E. by apply (Start_fresh cm honest). }
  assert (hi = h → InstInv (Start v chk (i0, log1)).1.1 (Start v chk (i0, log1)).1.2 ∧
                   Hist (Start v chk (i0, log1)).1.2) as HI2.
  { intros E. specialize (Hf1 E). subst i0. rewrite E.
    edestruct kept_inst as (? & ? & ?); [by apply Start_inv|]. done. }
  destruct (Start v chk (i0, log1)) as [[i2 log2] r2]. simpl in *.
  assert (log ⊆ log2) as Hle by (etrans; [exact Hle1|apply Hs]).
  destruct r2 as [[]| |]; simpl; (split; [simpl|done]).
  - assert (GetHeight i2 = hi) as Hi2 by done.
    replace (with_latest hi _) with (store_new i2 c1).
    2:{ unfold store_new. f_equal. rewrite Hi2, Hlat. lia. }
    eapply node_store_new; eauto; by rewrite Hi2.
  - eapply node_log; eauto.
  - eapply node_log; eauto.
Qed.

Lemma StartNewInstance_kept hi v chk c log :
  NodeInv c log → FirstHeight ≤ hi → chk None ≠ None →
  node_kept log (StartNewInstance hi v chk (c, log)).
Proof using Laws.
  intros HN Hpos Hchk. unfold StartNewInstance, mbind, st_bind, st_lift. simpl.
  destruct (wrap _ _) as [[]| |]; [|by apply node_same..]. by apply startInstance_kept.
Qed.

Lemma OnQBFTRoundTimeout_kept slot round c log :
  NodeInv c log → node_kept log (OnQBFTRoundTimeout slot round (c, log)).
Proof using Laws.
  intros HN. unfold OnQBFTRoundTimeout, mbind, st_bind. simpl.
  destruct (FindInstance _ _) as [inst|] eqn:Hfind; [|by apply node_same].
  destruct (_ <? _); [by apply node_same|].
  destruct (st_Decided (i_State inst)) eqn:Hd; [by apply node_same|].
  edestruct (node_run_stored slot inst UponRoundTimeout c log HN Hfind) as (H1 & H2 & _).
  { apply framed_UponRoundTimeout. }
  { intros ->. pose proof (FindInstance_Some _ _ _ Hfind) as [Hin Hih].
    destruct (node_inst _ _ HN inst Hin Hih) as [_ [?|Hlive]]; [congruence|].
    destruct (kept_inst cm honest h G log (UponRoundTimeout (inst, log))) as (? & ? & _); [|done].
    apply UponRoundTimeout_kept. split; [done|apply HN]. }
  unfold wrap_m. by destruct (run_stored _ _ _ _) as [[c' log'] r].
Qed.

(** Deciding by a message. *)
Lemma add_commit_state msg i log :
  ∃ ct r, add_commit msg (i, log) = ((with_State (set_CommitContainer ct) i, log), r).
Proof. unfold add_commit. simpl. destruct (AddMsg _ _). eauto. Qed.

Lemma framed_add_commit hi msg : framed hi (add_commit msg).
Proof.
  intros i log Hi. destruct (add_commit_state msg i log) as (ct & r & ->).
  split; [done|apply signs_only_refl].
Qed.

Lemma framed_decide_by hi msg : framed hi (decide_by msg).
Proof.
  unfold decide_by. apply framed_bind; [apply framed_wrap, framed_MarkDecided|]. intros _.
  apply framed_wrap, framed_add_commit.
Qed.

Lemma decide_by_inv msg i log :
  st_Height (i_State i) = h → st_Decided (i_State i) = false → Hist log →
  InstInv (decide_by msg (i, log)).1.1 (decide_by msg (i, log)).1.2 ∧
  Hist (decide_by msg (i, log)).1.2.
Proof.
  intros Hh Hd HH. unfold decide_by, mbind, st_bind, wrap_m.
  rewrite MarkDecided_spec by done. simpl.
  destruct (add_commit_state msg
    (with_State (set_Decided (pm_Round msg) (s_FullData (SignedMessage msg))) i)
    (log ++ [ETimerStop (GetHeight i)])) as (ct & r & ->). simpl.
  split; [split; [done|by left]|]. by apply Hist_add_other.
Qed.

(** A decided message is a commit quorum. *)
Lemma ValidateDecided_quorum c sm msg u :
  c_CommitteeMember c = cm → NewProcessingMessage sm = Ok msg →
  (Verify sm (cm_Committee cm) = None → authentic honest G sm) →
  ValidateDecided c msg = Ok u →
  ComQuorum C honest f (pm_Height msg) G (pm_Round msg)
    (HashDataRoot (s_FullData (SignedMessage msg))).
Proof.
  intros Hcm Hpm Hau Hv.
  unfold ValidateDecided, isDecidedMsg, BaseCommitValidationVerifySignature,
    baseCommitValidationIgnoreSignature in Hv. rewrite Hcm in Hv. inv_wrap.
  repeat match goal with H : ¬ (_ ≠ _) |- _ => apply dec_stable in H end.
  match goal with H : _ && _ = true |- _ => apply andb_true_iff in H as [Hq _] end.
  match goal with H : CheckSignersInCommittee _ _ = true |- _ =>
    rewrite CheckSignersInCommittee_spec in H; rename H into Hin end.
  match goal with H : pm_Validate _ = None |- _ => apply Validate_unique_signers in H as Hnd end.
  match goal with H : Verify _ _ = None |- _ =>
    rewrite (proj1 (NewProcessingMessage_spec _ _ Hpm)) in H; apply Hau in H; clear Hau; rename H into Hau end.
  apply cm_HasQuorum_spec in Hq.
  exists (list_to_set (pm_Signers msg)). split.
  - split; [intros s Hs; apply Hin; by apply elem_of_list_to_set in Hs|].
    rewrite size_list_to_set by done. lia.
  - intros s Hs%elem_of_list_to_set Hhon. exists (QBFTMessage msg).
    split; [by eapply authentic_signed|]. by split_and!.
Qed.

Lemma decide_by_adds msg i log :
  st_Decided (i_State i) = false → adds log (decide_by msg (i, log)).1.2 None.
Proof.
  intros Hd. unfold decide_by, mbind, st_bind, wrap_m. rewrite MarkDecided_spec by done. simpl.
  destruct (add_commit_state msg
    (with_State (set_Decided (pm_Round msg) (s_FullData (SignedMessage msg))) i)
    (log ++ [ETimerStop (GetHeight i)])) as (ct & r & ->). simpl. by apply adds_other.
Qed.

Lemma node_silent c log log' : NodeInv c log → adds log log' None → NodeInv c log'.
Proof.
  intros [] Ha. assert (signs_only (h + 1) log log') as Hs by by eapply adds_signs_only.
  assert (h + 1 ≠ h) as Hne by lia.
  constructor; auto.
  - by eapply Hist_frame.
  - intros i Hi Hih. eapply InstInv_frame; eauto.
  - intros. eapply fresh_frame; eauto.
Qed.

Lemma UponDecided_kept sm msg c log :
  NodeInv c log → NewProcessingMessage sm = Ok msg →
  node_kept log (UponDecided msg (c, log)).
Proof using Laws.
  intros HN Hpm. unfold UponDecided. unfold mbind at 1, st_bind at 1. simpl.
  unfold mbind at 1, st_bind at 1, st_lift at 1.
  destruct (wrap _ _) as [[]| |]; [|by apply node_same..].
  destruct (FindInstance _ _) as [inst|] eqn:Hfind.
  - destruct (st_Decided (i_State inst)) eqn:Hd; simpl.
    + destruct (LongestUniqueSignersForRoundAndRoot _ _ _) as [signers ?].
      unfold mbind, st_bind. destruct (_ <? _)%nat; [|by apply node_same].
      edestruct (node_run_stored _ inst (add_commit msg) c log HN Hfind) as (H1 & H2 & _).
      { apply framed_add_commit. }
      { intros E. pose proof (FindInstance_Some _ _ _ Hfind) as [Hin Hih].
        destruct (add_commit_state msg inst log) as (ct & r & ->). simpl.
        split; [|apply HN]. split; [by rewrite <- E|by left]. }
      destruct (run_stored _ _ _ _) as [[c' log'] []]; by split.
    + unfold mbind, st_bind.
      edestruct (node_run_stored _ inst (decide_by msg) c log HN Hfind) as (H1 & H2 & _).
      { apply framed_decide_by. }
      { intros E. pose proof (FindInstance_Some _ _ _ Hfind) as [Hin Hih].
        apply decide_by_inv; [by rewrite <- E|done|apply HN]. }
      destruct (run_stored _ _ _ _) as [[c' log'] []]; by split.
  - rewrite FindInstance_None in Hfind. unfold mbind, st_bind, run_on. simpl.
    set (i0 := new_instance c (pm_Height msg)).
    destruct (framed_decide_by (pm_Height msg) msg i0 log eq_refl) as [Hih Hs].
    assert (pm_Height msg = h → InstInv (decide_by msg (i0, log)).1.1 (decide_by msg (i0, log)).1.2
       ∧ Hist (decide_by msg (i0, log)).1.2) as HI.
    { intros E. apply decide_by_inv; [done|done|apply HN]. }
    assert (FirstHeight ≤ pm_Height msg) as Hpos.
    { apply NewProcessingMessage_spec in Hpm as (_ & sv & _ & [[? _] _]%Decode_range).
      unfold FirstHeight, pm_Height. lia. }
    pose proof (decide_by_adds msg i0 log eq_refl) as Ha.
    destruct (decide_by msg (i0, log)) as [[i1 log1] r]. simpl in *.
    assert (GetHeight i1 = pm_Height msg) as Hi1 by done.
    destruct r as [[]| |]; simpl.
    + assert (NodeInv (store_new i1 c) log1) as HN1.
      { apply (node_store_new i1 c log); rewrite ?Hi1; auto. }
      unfold store_new in HN1. rewrite Hi1 in HN1.
      destruct (Z.ltb_spec (c_LatestInstanceHeight c) (pm_Height msg)); simpl.
      * rewrite Z.max_r in HN1 by lia. split; [done|apply Hs].
      * rewrite Z.max_l in HN1 by lia. split; [|apply Hs]. by destruct c.
    + split; [by eapply node_silent|apply Hs].
    + split; [by eapply node_silent|apply Hs].
Qed.

Lemma UponDecided_decision sm msg c log d :
  NodeInv c log → NewProcessingMessage sm = Ok msg → deliverable cm honest G sm →
  (UponDecided msg (c, log)).2 = Ok (Some d) → pm_Height msg = h →
  ∃ r, ComQuorum C honest f h G r (HashDataRoot (s_FullData d)).
Proof using Laws.
  intros HN Hpm [Hau _] Hd Hh. unfold UponDecided in Hd. unfold mbind at 1, st_bind at 1 in Hd.
  simpl in Hd. unfold mbind at 1, st_bind at 1, st_lift at 1 in Hd.
  destruct (wrap _ _) as [[]| |] eqn:Hv; [|done..]. apply wrap_ok in Hv.
  apply (ValidateDecided_quorum c sm msg) in Hv; [|apply HN|done|done].
  assert (d = SignedMessage msg) as ->; [|rewrite Hh in Hv; eauto].
  clear Hv. destruct (FindInstance _ _) as [inst|].
  - destruct (st_Decided (i_State inst)); simpl in Hd.
    + destruct (LongestUniqueSignersForRoundAndRoot _ _ _). unfold mbind, st_bind in Hd.
      destruct (_ <? _)%nat; [|done]. by destruct (run_stored _ _ _ _) as [[] []].
    + unfold mbind, st_bind in Hd. destruct (run_stored _ _ _ _) as [[] []]; [|done..].
      by injection Hd as <-.
  - unfold mbind, st_bind, run_on in Hd. simpl in Hd.
    destruct (decide_by _ _) as [[] []]; simpl in Hd; [|done..].
    destruct (_ <? _); by injection Hd as <-.
Qed.

Section deliver.
Hypothesis C_faulty : Z.of_nat (size (C ∖ honest)) ≤ f.
Hypothesis f_nonneg : 0 ≤ f.
Hypothesis histories : ∀ p, p ∈ honest → Hist (G p).

Lemma UponExistingInstanceMsg_kept sm msg c log :
  NodeInv c log → NewProcessingMessage sm = Ok msg → deliverable cm honest G sm →
  node_kept log (UponExistingInstanceMsg msg (c, log)) ∧
  ∀ d, (UponExistingInstanceMsg msg (c, log)).2 = Ok (Some d) → pm_Height msg = h →
    ∃ r, ComQuorum C honest f h G r (HashDataRoot (s_FullData d)).
Proof using C_faulty Laws f_nonneg histories.
  intros HN Hpm Hdel. unfold UponExistingInstanceMsg, mbind, st_bind. simpl.
  destruct (FindInstance _ _) as [inst|] eqn:Hfind; [|by split; [apply node_same|]].
  destruct (st_Decided (i_State inst)) eqn:Hd; [by split; [apply node_same|]|].
  assert (pm_Height msg = h → processed cm honest h G log (ProcessMsg msg (inst, log))) as HP.
  { intros E. pose proof (FindInstance_Some _ _ _ Hfind) as [Hin Hih]. rewrite E in Hih.
    destruct (node_inst _ _ HN inst Hin Hih) as [_ [?|Hlive]]; [congruence|].
    eapply ProcessMsg_inv; eauto. split; [done|apply HN]. }
  edestruct (node_run_stored _ inst (ProcessMsg msg) c log HN Hfind) as (H1 & H2 & H3).
  { apply framed_ProcessMsg. }
  { intros E. by destruct (HP E) as (? & ? & _). }
  destruct (run_stored _ _ _ _) as [[c' log'] r]. simpl in H1, H2, H3. subst r.
  destruct (ProcessMsg msg (inst, log)) as [[i' l'] [[[decided v] m]| |]]; simpl in *;
    [|by split..].
  destruct decided; simpl; [|by split]. destruct m as [d|]; [|by split]. simpl.
  split.
  - split; simpl; [|set_solver]. eapply node_silent; [done|]. by apply adds_other.
  - intros d' [= <-] E. destruct (HP E) as (_ & _ & _ & Hdec).
    destruct (Hdec v (Some d) eq_refl) as [(? & [= <-] & <-) ?]. done.
Qed.

Lemma ctrl_ProcessMsg_kept sm c log :
  NodeInv c log → deliverable cm honest G sm →
  node_kept log (ctrl_ProcessMsg sm (c, log)) ∧
  ∀ msg d, NewProcessingMessage sm = Ok msg → (ctrl_ProcessMsg sm (c, log)).2 = Ok (Some d) →
    pm_Height msg = h → ∃ r, ComQuorum C honest f h G r (HashDataRoot (s_FullData d)).
Proof using C_faulty Laws f_nonneg histories.
  intros HN Hdel. unfold ctrl_ProcessMsg, mbind, st_bind, st_lift. simpl.
  destruct (NewProcessingMessage sm) as [msg| |] eqn:Hpm; simpl; [|by split; [apply node_same|]..].
  destruct (bool_decide _); [by split; [apply node_same|]|].
  destruct (isDecidedMsg c msg).
  { split; [by eapply UponDecided_kept|]. intros msg' d [= <-] ? ?. by eapply UponDecided_decision. }
  destruct (isFutureMessage c msg); [by split; [apply node_same|]|].
  destruct (UponExistingInstanceMsg_kept sm msg c log HN Hpm Hdel) as [? Hd]. split; [done|].
  intros msg' d [= <-]. apply Hd.
Qed.
End deliver.
End node.
