(* ===== verification/Agreement.v ===== *)
(** * Agreement in a committee

    A committee of operators, some of them honest, that run a controller each.
    An honest node starts instances, is told of round timeouts and receives
    messages; the adversary chooses when, and what the messages are, except
    that it cannot make an honest operator appear to have signed what it did
    not sign.  Every reachable state satisfies [NodeInv] at every height, so no
    two decisions of one height differ. *)

From stdpp Require Import base list gmap numbers strings relations sorting.
From S2P Require Import Prelude Sha256 SpecTypes Instance Controller Quorum History InstanceInv.
From S2P Require Import InstanceFrame ControllerInv.

(** Evidence only accumulates. *)
Section mono.
Context {Lib : SpecLib} {Laws : SpecLibLaws}.
Context (cm : CommitteeMember) (honest : gset OperatorID) (h : Height).
Context (G G' : OperatorID → list Effect) (Hle : logs_le G G').

Lemma msg_ok_mono t r pm : msg_ok cm honest h G t r pm → msg_ok cm honest h G' t r pm.
Proof using Hle.
  intros (? & ? & ? & Hs). split_and!; auto. intros s Hin. destruct (Hs s Hin) as [? Hsg].
  split; [done|]. intros Hh. eapply signed_mono; [apply Hle|auto].
Qed.

Lemma InstInv_mono i log : InstInv cm honest h G i log → InstInv cm honest h G' i log.
Proof using Hle.
  intros [? [?|[]]]; (split; [done|]); [by left|right]. constructor; auto.
  - intros r pm Hpm. destruct (live_prepares r pm Hpm). eauto using msg_ok_mono.
  - eauto using msg_ok_mono.
Qed.

Lemma NodeInv_mono c log : NodeInv cm honest h G c log → NodeInv cm honest h G' c log.
Proof using Hle.
  intros []. constructor; eauto using HistOK_mono, InstInv_mono.
Qed.
End mono.

Section network.
Context {Lib : SpecLib} {Laws : SpecLibLaws}.
Context (ops : list Operator) (f : Z) (honest : gset OperatorID).

Definition member (p : OperatorID) : CommitteeMember := mkCommitteeMember p f ops.
Abbreviation C := (committee_ids ops).

(** A controller and everything it has emitted. *)
Abbreviation Node := (Controller * list Effect)%type.

(** The nodes by operator, and the decisions that [ProcessMsg] reported: who,
    at which height, with which value. *)
Record Net := mkNet {
  nodes : OperatorID → Node;
  decisions : list (OperatorID * Height * slice);
}.
Definition logs_of (net : Net) : OperatorID → list Effect := λ p, (nodes net p).2.
Definition set_node (p : OperatorID) (n : Node) (net : Net) : Net :=
  mkNet (λ q, if decide (q = p) then n else nodes net q) (decisions net).
Definition decided_of (p : OperatorID) (sm : SignedSSVMessage)
    (r : result goerr (option SignedSSVMessage)) : list (OperatorID * Height * slice) :=
  match NewProcessingMessage sm, r with
  | Ok msg, Ok (Some d) => [(p, pm_Height msg, s_FullData d)]
  | _, _ => []
  end.

(** Nothing has happened; the identifier, the configuration and the signer of
    each controller are arbitrary. *)
Definition with_IdentifierFn (fn : option (Height → bytes)) (c : Controller) : Controller :=
  mkController (c_Identifier c) fn (c_LatestInstanceHeight c) (c_RecentInstances c)
    (c_cap c) (c_CommitteeMember c) (c_OperatorSigner c) (c_config c).
Definition initial (net : Net) : Prop :=
  decisions net = [] ∧
  ∀ p, p ∈ honest → ∃ identifier fn config signer,
    nodes net p = (with_IdentifierFn fn (NewController identifier (member p) config signer), []).

Inductive step (net : Net) : Net → Prop :=
| step_start p height value checker :
    p ∈ honest → is_u64 height → checker None ≠ None →
    step net (set_node p (StartNewInstance height value checker (nodes net p)).1 net)
| step_timeout p slot round :
    p ∈ honest →
    step net (set_node p (OnQBFTRoundTimeout slot round (nodes net p)).1 net)
| step_deliver p sm :
    p ∈ honest → deliverable (member p) honest (logs_of net) sm →
    let out := ctrl_ProcessMsg sm (nodes net p) in
    step net (mkNet (nodes (set_node p out.1 net))
                (decided_of p sm out.2 ++ decisions net)).

Definition reachable (net : Net) : Prop := ∃ net0, initial net0 ∧ rtc step net0 net.

(** ** The invariant of the network *)
Hypothesis C_faulty : Z.of_nat (size (C ∖ honest)) ≤ f.
Hypothesis f_nonneg : 0 ≤ f.

Definition NetInv (net : Net) : Prop :=
  (∀ p h, p ∈ honest →
     NodeInv (member p) honest h (logs_of net) (nodes net p).1 (nodes net p).2) ∧
  ∀ p h v, (p, h, v) ∈ decisions net →
    ∃ r, ComQuorum C honest f h (logs_of net) r (HashDataRoot v).

Lemma NetInv_histories net h p :
  NetInv net → p ∈ honest → HistOK C honest f h (logs_of net p) (logs_of net).
Proof using Type. intros [HN _] Hp. by apply (node_hist _ _ _ _ _ _ (HN p h Hp)). Qed.

Lemma initial_inv net : initial net → NetInv net.
Proof using Type.
  intros [Hd Hi]. split; [|rewrite Hd; by intros ? ? ? ?%elem_of_nil].
  intros p h Hp. destruct (Hi p Hp) as (id & fn & cfg & sg & ->).
  assert (fresh h []) as Hf by (intros m (sv & ?%elem_of_nil & _); done).
  constructor; simpl; try done.
  - constructor; simpl; try done; [lia|constructor|by intros ? ?%elem_of_nil].
  - by apply (fresh_Hist (member p)).
  - by intros ? ?%elem_of_nil.
Qed.

(** One node moves, against the logs before its move. *)
Lemma set_node_inv p (n : Node) ds net :
  NetInv net → (nodes net p).2 ⊆ n.2 →
  (∀ h, NodeInv (member p) honest h (logs_of net) n.1 n.2) →
  (∀ q h v, (q, h, v) ∈ ds → (q, h, v) ∈ decisions net ∨
     ∃ r, ComQuorum C honest f h (logs_of net) r (HashDataRoot v)) →
  NetInv (mkNet (nodes (set_node p n net)) ds).
Proof using Type.
  intros [HN HD] Hle Hn Hds.
  assert (logs_le (logs_of net) (logs_of (mkNet (nodes (set_node p n net)) ds))) as Hll.
  { intros q. unfold logs_of, set_node. simpl. by destruct (decide (q = p)) as [->|]. }
  split; simpl.
  - intros q h Hq. apply (NodeInv_mono _ _ _ _ _ Hll).
    destruct (decide (q = p)) as [->|]; auto.
  - intros q h v Hin. destruct (Hds q h v Hin) as [Hold|(r & Hr)].
    + destruct (HD q h v Hold) as (r & Hr). eauto using ComQuorum_mono.
    + eauto using ComQuorum_mono.
Qed.

Lemma step_inv net net' : NetInv net → step net net' → NetInv net'.
Proof using C_faulty Laws f_nonneg.
  intros HI Hstep. pose proof HI as [HN _]. destruct Hstep as
    [p height value checker Hp Hh Hchk|p slot round Hp|p sm Hp Hdel out].
  - specialize (HN p). destruct (nodes net p) as [c log] eqn:E.
    assert (∀ h, node_kept (member p) honest h (logs_of net) log
      (StartNewInstance height value checker (c, log))) as Hk.
    { intros h. apply StartNewInstance_kept; [by apply HN| |done]. unfold FirstHeight. apply Hh. }
    apply set_node_inv; [done|rewrite E; apply (Hk 0)|apply Hk|auto].
  - specialize (HN p). destruct (nodes net p) as [c log] eqn:E.
    assert (∀ h, node_kept (member p) honest h (logs_of net) log
      (OnQBFTRoundTimeout slot round (c, log))) as Hk.
    { intros h. apply OnQBFTRoundTimeout_kept. by apply HN. }
    apply set_node_inv; [done|rewrite E; apply (Hk 0)|apply Hk|auto].
  - subst out. specialize (HN p). destruct (nodes net p) as [c log] eqn:E.
    assert (∀ h, node_kept (member p) honest h (logs_of net) log (ctrl_ProcessMsg sm (c, log)) ∧
      ∀ msg d, NewProcessingMessage sm = Ok msg →
        (ctrl_ProcessMsg sm (c, log)).2 = Ok (Some d) → pm_Height msg = h →
        ∃ r, ComQuorum C honest f h (logs_of net) r (HashDataRoot (s_FullData d))) as Hk.
    { intros h. apply (ctrl_ProcessMsg_kept (member p)); auto.
      intros q Hq. by apply NetInv_histories. }
    apply set_node_inv; [done|rewrite E; apply (Hk 0)|apply Hk|].
    intros q h v [Hin|Hin]%elem_of_app; [|auto]. right. revert Hin.
    unfold decided_of. destruct (NewProcessingMessage sm) as [msg| |]; try by intros ?%elem_of_nil.
    destruct (ctrl_ProcessMsg sm (c, log)).2 as [[d|]| |] eqn:Er; try by intros ?%elem_of_nil.
    intros [= -> -> ->]%list_elem_of_singleton. by eapply (Hk (pm_Height msg)).
Qed.

Lemma reachable_inv net : reachable net → NetInv net.
Proof using C_faulty Laws f_nonneg.
  intros (net0 & Hi & Hs). apply initial_inv in Hi.
  induction Hs; eauto using step_inv.
Qed.

(** A height at which the node has voted is not started again. *)
Definition voted (log : list Effect) (h : Height) : Prop :=
  ∃ m, signed log m ∧ m_Height m = h ∧ m_MsgType m ≠ ProposalMsgType.

Lemma voted_not_fresh log h : voted log h → ¬ fresh h log.
Proof using Type. intros (m & Hs & Hh & Hty) Hf. by destruct (Hf m Hs Hh). Qed.

Lemma voted_start_fails p h v chk c log G :
  NodeInv (member p) honest h G c log → voted log h →
  (startInstance h v chk (c, log)).1 = (c, log) ∧
  ∃ e, (startInstance h v chk (c, log)).2 = Err e.
Proof using Type.
  intros [] Hv. unfold startInstance, mbind, st_bind. simpl.
  destruct (Z.ltb_spec h (c_LatestInstanceHeight c)) as [|Hl]; [by eauto|].
  destruct (bool_decide _) eqn:Hf; [by eauto|].
  apply bool_decide_eq_false, dec_stable in Hf. rewrite FindInstance_None in Hf.
  exfalso. by apply (voted_not_fresh _ _ Hv), node_fresh.
Qed.

(** ** What holds of every reachable network *)
Section safety.
Context (net : Net).
Hypothesis Hreach : reachable net.

(** C1. Agreement: in a committee of a valid size with at most [ComputeF] faulty
    members, two decisions reported by honest nodes for one height carry values
    with the same root, whatever the adversary delivers and in whatever order. *)
Theorem agreement p q h v w :
  NoDup (op_OperatorID <$> ops) → ValidCommitteeSize (Z.of_nat (length ops)) = true →
  is_u64 (Z.of_nat (length ops)) → f = ComputeF (Z.of_nat (length ops)) →
  (p, h, v) ∈ decisions net → (q, h, w) ∈ decisions net →
  HashDataRoot v = HashDataRoot w.
Proof using C_faulty Hreach Laws f_nonneg.
  intros Hnd Hval Hu Hf Hv Hw. pose proof (reachable_inv _ Hreach) as HI.
  destruct (ComputeQuorum_valid _ Hu Hval) as (Hn & _ & _). rewrite <- Hf in Hn.
  assert (Z.of_nat (size C) ≤ 3 * f + 1) as Hsize.
  { unfold committee_ids. rewrite size_list_to_set by done. rewrite length_fmap. lia. }
  destruct (proj2 HI _ _ _ Hv) as (r1 & H1). destruct (proj2 HI _ _ _ Hw) as (r2 & H2).
  eapply (commit_quorums_agree C honest f h (logs_of net)); eauto.
  intros x Hx. by apply NetInv_histories.
Qed.

(** C2. No equivocation: an honest operator never hands its signer prepares for
    two different roots of one height and round. *)
Theorem prepares_once p h r root root' :
  p ∈ honest → prepared_at (logs_of net p) h r root → prepared_at (logs_of net p) h r root' →
  root = root'.
Proof using C_faulty Hreach Laws f_nonneg.
  intros Hp. apply (hist_prepare_once _ _ _ _ _ _ (NetInv_histories _ h p (reachable_inv _ Hreach) Hp)).
Qed.

(** C3. A commit is signed only after a quorum prepared: for every commit of an
    honest operator there is a quorum of committee members whose honest members
    all signed a prepare for the same height, round and root. *)
Theorem commits_prepared p h r root :
  p ∈ honest → committed_at (logs_of net p) h r root →
  ∃ Q : gset OperatorID, Q ⊆ C ∧ 2 * f + 1 ≤ Z.of_nat (size Q) ∧
    ∀ s, s ∈ Q → s ∈ honest → prepared_at (logs_of net s) h r root.
Proof using C_faulty Hreach Laws f_nonneg.
  intros Hp Hc.
  destruct (hist_commit_prepared _ _ _ _ _ _
    (NetInv_histories _ h p (reachable_inv _ Hreach) Hp) _ _ Hc) as (_ & Q & [? ?] & ?). eauto.
Qed.

(** C4. The lock: an honest operator that committed in round [r0] reports a
    prepared round of at least [r0] in every round change to a later round. *)
Theorem round_change_locked p h r r0 d root :
  p ∈ honest → changed_to (logs_of net p) h r d → committed_at (logs_of net p) h r0 root →
  r0 < r → r0 ≤ d.
Proof using C_faulty Hreach Laws f_nonneg.
  intros Hp. apply (hist_lock _ _ _ _ _ _ (NetInv_histories _ h p (reachable_inv _ Hreach) Hp)).
Qed.

(** C5. No height is run twice: once an honest node has signed a prepare, commit
    or round change at a height, starting an instance at that height fails with
    an error and changes nothing, also after the instance was evicted. *)
Theorem no_restart p h v chk :
  p ∈ honest → voted (logs_of net p) h →
  (startInstance h v chk (nodes net p)).1 = nodes net p ∧
  ∃ e, (startInstance h v chk (nodes net p)).2 = Err e.
Proof using C_faulty Hreach Laws f_nonneg.
  intros Hp. destruct (reachable_inv _ Hreach) as [HN _]. specialize (HN p h Hp).
  unfold logs_of in *. destruct (nodes net p) as [c log]. by eapply voted_start_fails.
Qed.

(** C20. The recent instances of an honest controller are stored by strictly
    decreasing height, at most the capacity of them, and the newest one is the
    one of [LatestInstanceHeight]. *)
Theorem recent_instances_ordered p :
  p ∈ honest →
  let c := (nodes net p).1 in
  StronglySorted newer (c_RecentInstances c) ∧
  (length (c_RecentInstances c) ≤ c_cap c)%nat ∧
  match c_RecentInstances c with
  | [] => c_LatestInstanceHeight c = FirstHeight
  | i :: _ => GetHeight i = c_LatestInstanceHeight c
  end.
Proof using C_faulty Hreach Laws f_nonneg.
  intros Hp. simpl. destruct (reachable_inv _ Hreach) as [HN _].
  destruct (node_store _ _ _ _ _ _ (HN p 0 Hp)). clear HN.
  destruct (nodes net p) as [c log]. simpl in *. split_and!; [done..|].
  destruct (c_RecentInstances c) as [|i ic]; [auto|].
  destruct store_present as (j & [->|Hj]%elem_of_cons & Hh); [done|done|].
  apply StronglySorted_inv in store_sorted as [_ Hall]. rewrite Forall_forall in Hall.
  specialize (Hall j Hj). specialize (store_latest i ltac:(set_solver)). unfold newer in Hall. lia.
Qed.
End safety.
End network.
