(* ===== verification/SpecRef.v ===== *)
(** * A reference implementation of the ssv-spec interface

    An executable instance of [SpecLib] that satisfies [SpecLibLaws]: messages
    are serialised in a self-delimiting format, containers are lists, and a
    signature is a token of the operator.  It shows that the laws assumed of
    the library are consistent, and runs the concrete scenarios. *)

From stdpp Require Import base strings list gmap numbers.
From S2P Require Import Prelude SpecTypes.

(** ** Serialisation

    A self-delimiting format: what was put is read back and the rest is left. *)
Class Serial (A : Type) := {
  put : A → bytes;
  get : bytes → option (A * bytes);
  get_put a rest : get (put a ++ rest) = Some (a, rest);
}.

#[global] Instance byte_serial : Serial Byte.byte.
Proof.
  refine {|
    put b := [b];
    get l := match l with [] => None | b :: l => Some (b, l) end
  |}.
  done. Defined.

#[global] Instance prod_serial `{Serial A, Serial B} : Serial (A * B).
Proof.
  refine {|
    put p := put p.1 ++ put p.2;
    get l := '(a, l) ← get l; '(b, l) ← get l; Some ((a, b), l)
  |}.
  intros [a b] rest. simpl. by rewrite <- app_assoc, get_put; simpl; rewrite get_put. Defined.

#[global] Instance option_serial `{Serial A} : Serial (option A).
Proof.
  refine {|
    put o := match o with None => [Byte.x00] | Some a => Byte.x01 :: put a end;
    get l := match l with
             | Byte.x00 :: l => Some (None, l)
             | Byte.x01 :: l => '(a, l) ← get l; Some (Some a, l)
             | _ => None
             end
  |}.
  intros [a|] rest; simpl; [by rewrite get_put|done]. Defined.

(** Each element is announced by a one byte; the fuel bounds the elements. *)
Fixpoint put_list `{Serial A} (l : list A) : bytes :=
  match l with [] => [Byte.x00] | a :: l => Byte.x01 :: put a ++ put_list l end.
Fixpoint get_list `{Serial A} (fuel : nat) (b : bytes) : option (list A * bytes) :=
  match fuel, b with
  | _, Byte.x00 :: b => Some ([], b)
  | S fuel, Byte.x01 :: b => '(a, b) ← get b; '(l, b) ← get_list fuel b; Some (a :: l, b)
  | _, _ => None
  end.
Lemma get_put_list `{Serial A} (l : list A) fuel rest :
  (length l ≤ fuel)%nat → get_list fuel (put_list l ++ rest) = Some (l, rest).
Proof.
  revert fuel. induction l as [|a l IH]; intros [|fuel] Hl; simpl in *; try done; [lia|].
  rewrite <- app_assoc, get_put. simpl. by rewrite IH by lia.
Qed.
Lemma put_list_length `{Serial A} (l : list A) : (length l ≤ length (put_list l))%nat.
Proof. induction l as [|a l IH]; simpl; [lia|]. rewrite length_app. lia. Qed.
#[global] Instance list_serial `{Serial A} : Serial (list A).
Proof.
  refine {|
    put := put_list;
    get b := get_list (length b) b
  |}.
 
  intros l rest. apply get_put_list. rewrite length_app.
  pose proof (put_list_length l). lia.
Defined.

(** Numbers by their binary digits. *)
Fixpoint put_pos (p : positive) : bytes :=
  match p with
  | xH => [Byte.x02]
  | xO p => Byte.x00 :: put_pos p
  | xI p => Byte.x01 :: put_pos p
  end.
Fixpoint get_pos (b : bytes) : option (positive * bytes) :=
  match b with
  | Byte.x02 :: b => Some (xH, b)
  | Byte.x00 :: b => '(p, b) ← get_pos b; Some (xO p, b)
  | Byte.x01 :: b => '(p, b) ← get_pos b; Some (xI p, b)
  | _ => None
  end.
#[global] Instance Z_serial : Serial Z.
Proof.
  refine {|
    put z := match z with
             | 0 => [Byte.x00] | Z.pos p => Byte.x01 :: put_pos p | Z.neg p => Byte.x02 :: put_pos p
             end;
    get b := match b with
             | Byte.x00 :: b => Some (0, b)
             | Byte.x01 :: b => '(p, b) ← get_pos b; Some (Z.pos p, b)
             | Byte.x02 :: b => '(p, b) ← get_pos b; Some (Z.neg p, b)
             | _ => None
             end
  |}.
 
  assert (∀ p rest, get_pos (put_pos p ++ rest) = Some (p, rest)) as Hp
    by (induction p as [p IH|p IH|]; intros rest; simpl; rewrite ?IH; done).
  intros [|p|p] rest; simpl; by rewrite ?Hp.
Defined.

(** Through an isomorphism. *)
Definition iso_serial `{Serial B} {A} (to : A → B) (from : B → A) (Hft : ∀ a, from (to a) = a)
    : Serial A.
Proof.
  refine {| put a := put (to a); get l := '(b, l) ← get l; Some (from b, l) |}.
  intros a rest. rewrite get_put. simpl. by rewrite Hft.
Defined.

#[global] Instance MessageType_serial : Serial MessageType.
Proof.
  refine (iso_serial (B := Z)
    (λ t, match t with
          | ProposalMsgType => 0 | PrepareMsgType => 1 | CommitMsgType => 2
          | RoundChangeMsgType => 3 | UnknownMsgType n => if n <? 0 then n else n + 4 end)
    (λ n, if n <? 0 then UnknownMsgType n else
          if n =? 0 then ProposalMsgType else if n =? 1 then PrepareMsgType else
          if n =? 2 then CommitMsgType else if n =? 3 then RoundChangeMsgType
          else UnknownMsgType (n - 4)) _).
  intros [| | | |n]; try done. destruct (Z.ltb_spec n 0) as [Hn|Hn].
  - by rewrite (proj2 (Z.ltb_lt _ _) Hn).
  - repeat match goal with |- context [if ?b then _ else _] => destruct b eqn:?; try lia end.
    f_equal. lia.
Defined.

#[global] Instance Message_serial : Serial Message.
Proof.
  refine (iso_serial
    (λ m, (m_MsgType m, m_Height m, m_Round m, m_DataRound m, m_Identifier m, m_Root m,
           m_RoundChangeJustification m, m_PrepareJustification m))
    (λ '(t, h, r, d, id, root, rc, pj), mkMessage t h r id root d rc pj) _).
  by intros [].
Defined.

#[global] Instance SSVMsgType_serial : Serial SSVMsgType.
Proof.
  refine (iso_serial (B := Z)
    (λ t, match t with
          | SSVConsensusMsgType => 0 | SSVPartialSignatureMsgType => 1 | SSVEventMsgType => 2
          | UnknownSSVMsgType n => if n <? 0 then n else n + 3 end)
    (λ n, if n <? 0 then UnknownSSVMsgType n else
          if n =? 0 then SSVConsensusMsgType else if n =? 1 then SSVPartialSignatureMsgType else
          if n =? 2 then SSVEventMsgType else UnknownSSVMsgType (n - 3)) _).
  intros [| | |n]; try done. destruct (Z.ltb_spec n 0) as [Hn|Hn].
  - by rewrite (proj2 (Z.ltb_lt _ _) Hn).
  - repeat match goal with |- context [if ?b then _ else _] => destruct b eqn:?; try lia end.
    f_equal. lia.
Defined.

#[global] Instance SSVMessage_serial : Serial SSVMessage.
Proof.
  refine (iso_serial (λ m, (sv_MsgType m, sv_MsgID m, sv_Data m))
    (λ '(t, i, d), mkSSVMessage t i d) _).
  by intros [].
Defined.

#[global] Instance SignedSSVMessage_serial : Serial SignedSSVMessage.
Proof.
  refine (iso_serial (λ m, (s_Signatures m, s_OperatorIDs m, s_SSVMessage m, s_FullData m))
    (λ '(s, o, m, d), mkSigned s o m d) _).
  by intros [].
Defined.

Definition ser `{Serial A} (a : A) : bytes := put a.
Definition deser `{Serial A} (b : bytes) : option A :=
  '(a, rest) ← get b; match rest with [] => Some a | _ => None end.
#[global] Arguments ser : simpl never.
#[global] Arguments deser : simpl never.
Lemma deser_ser `{Serial A} (a : A) : deser (ser a) = Some a.
Proof.
  unfold deser, ser. rewrite <- (app_nil_r (put a)), get_put. done.
Qed.

(** ** Messages *)
Definition in_range (m : Message) : bool :=
  bool_decide (is_u64 (m_Height m)) && bool_decide (is_u64 (m_Round m))
  && bool_decide (is_u64 (m_DataRound m)).

Definition ref_Encode (m : Message) : result goerr bytes :=
  if in_range m then Ok (ser m) else Err (ENew "value out of range").
Definition ref_Decode (b : bytes) : result goerr Message :=
  match deser b with
  | Some m => if in_range m then Ok m else Err (ENew "value out of range")
  | None => Err (ENew "malformed message")
  end.
Definition ref_NewPM (sm : SignedSSVMessage) : result goerr ProcessingMessage :=
  match s_SSVMessage sm with
  | None => Err (ENew "nil SSVMessage")
  | Some sv => m ← ref_Decode (sv_Data sv); Ok (mkPM sm m)
  end.
Definition ref_Justifications (bs : list bytes) : result goerr (list SignedSSVMessage) :=
  collect (λ b, match deser b with
                | Some sm => Ok sm | None => Err (ENew "malformed justification") end) bs.

(** The token by which an operator signs. *)
Definition ref_signature (o : OperatorID) : bytes := ser o.
Definition ref_Verify (sm : SignedSSVMessage) (ops : list Operator) : option goerr :=
  if decide (s_Signatures sm = ref_signature <$> s_OperatorIDs sm ∧
             Forall (λ o, o ∈ committee_ids ops) (s_OperatorIDs sm))
  then None else Some (ENew "signature invalid").
Definition ref_Aggregate (a b : SignedSSVMessage) : result goerr SignedSSVMessage :=
  if existsb (λ o, bool_decide (o ∈ s_OperatorIDs a)) (s_OperatorIDs b)
  then Err (ENew "duplicate signers")
  else Ok (mkSigned (s_Signatures a ++ s_Signatures b) (s_OperatorIDs a ++ s_OperatorIDs b)
             (s_SSVMessage a) (s_FullData a)).

(** ** Containers *)
Definition ref_for_round (c : list ProcessingMessage) (r : Round) : list ProcessingMessage :=
  filter (λ m, pm_Round m = r) c.
Definition ref_AddFirst (c : list ProcessingMessage) (m : ProcessingMessage)
    : list ProcessingMessage * result goerr bool :=
  if decide (pm_Signers m ∈ (pm_Signers <$> ref_for_round c (pm_Round m)))
  then (c, Ok false) else (c ++ [m], Ok true).

(** Messages of the round and root, skipping those that repeat a signer. *)
Definition ref_longest (c : list ProcessingMessage) (r : Round) (root : bytes)
    : list OperatorID * list ProcessingMessage :=
  foldr (λ m '(signers, ms),
    if decide (pm_Root m = root ∧ NoDup (pm_Signers m ++ signers))
    then (pm_Signers m ++ signers, m :: ms) else (signers, ms)) ([], []) (ref_for_round c r).

#[global] Instance ref_lib : SpecLib := {|
  MsgContainer := list ProcessingMessage;
  NewMsgContainer := [];
  AddFirstMsgForSignerAndRound := ref_AddFirst;
  AddMsg c m := (c ++ [m], Ok tt);
  MessagesForRound := ref_for_round;
  AllMessages c := c;
  LongestUniqueSignersForRoundAndRoot := ref_longest;
  HasQuorum cm ms := 2 * cm_FaultyNodes cm + 1 <=? Z.of_nat (size (unique_signers ms));
  HasPartialQuorum cm ms := cm_FaultyNodes cm + 1 <=? Z.of_nat (size (unique_signers ms));
  cm_HasQuorum cm n := 2 * cm_FaultyNodes cm + 1 <=? Z.of_nat n;
  EncodeMessage := ref_Encode;
  DecodeMessage := ref_Decode;
  NewProcessingMessage := ref_NewPM;
  pm_Validate pm := if decide (NoDup (pm_Signers pm)) then None else Some (ENew "non unique signer");
  RoundChangePrepared m :=
    bool_decide (m_MsgType m = RoundChangeMsgType) && negb (m_DataRound m =? NoRound);
  MarshalJustifications sms := Ok (ser <$> sms);
  GetRoundChangeJustifications m := ref_Justifications (m_RoundChangeJustification m);
  GetPrepareJustifications m := ref_Justifications (m_PrepareJustification m);
  CheckSignersInCommittee sm ops :=
    bool_decide (Forall (λ o, o ∈ committee_ids ops) (s_OperatorIDs sm));
  MatchedSigners sm ids := bool_decide (s_OperatorIDs sm ≡ₚ ids);
  Verify := ref_Verify;
  Aggregate := ref_Aggregate;
|}.

Lemma in_range_spec m :
  in_range m = true → is_u64 (m_Height m) ∧ is_u64 (m_Round m) ∧ is_u64 (m_DataRound m).
Proof.
  unfold in_range. rewrite !andb_true_iff, !bool_decide_eq_true. tauto.
Qed.

Lemma ref_for_round_app c m r :
  ref_for_round (c ++ [m]) r =
    if decide (pm_Round m = r) then ref_for_round c r ++ [m] else ref_for_round c r.
Proof.
  unfold ref_for_round. rewrite list.filter_app, list.filter_cons, list.filter_nil.
  destruct (decide (pm_Round m = r)); [done|]. by rewrite app_nil_r.
Qed.

Lemma ref_longest_spec c r root signers ms :
  ref_longest c r root = (signers, ms) →
  NoDup signers ∧ list_to_set signers = unique_signers ms ∧
  ∀ m, m ∈ ms → m ∈ ref_for_round c r ∧ pm_Root m = root.
Proof.
  unfold ref_longest. revert signers ms.
  induction (ref_for_round c r) as [|m l IH]; simpl; intros signers ms Hf.
  - injection Hf as <- <-. split_and!; [constructor|done|by intros ? ?%elem_of_nil].
  - destruct (foldr _ _ l) as [signers' ms']. destruct (IH _ _ eq_refl) as (Hn & Hs & Hm).
    destruct (decide _) as [[? ?]|]; injection Hf as <- <-.
    + split_and!; [done| |].
      * unfold unique_signers in *. simpl. by rewrite !list_to_set_app_L, Hs.
      * intros m' [->|Hin]%elem_of_cons; [set_solver|]. destruct (Hm m' Hin). set_solver.
    + split_and!; [done..|]. intros m' Hin. destruct (Hm m' Hin). set_solver.
Qed.

#[global] Instance ref_laws : SpecLibLaws.
Proof.
  constructor; simpl.
  - done.
  - intros c m c' r. unfold ref_AddFirst. destruct (decide _); intros [= <-].
    apply ref_for_round_app.
  - intros c m c' r. unfold ref_AddFirst. by destruct (decide _); intros [= <-].
  - intros c m c' res r. unfold ref_AddFirst. by destruct (decide _); intros [= <- <-].
  - intros c m c' r [= <-]. apply ref_for_round_app.
  - intros c m. unfold ref_for_round. rewrite list_elem_of_filter. tauto.
  - apply ref_longest_spec.
  - intros cm n. by rewrite Z.leb_le.
  - done.
  - intros cm ms. by rewrite Z.leb_le.
  - intros m b. unfold ref_Encode, ref_Decode. destruct (in_range m) eqn:E; intros [= <-].
    by rewrite deser_ser, E.
  - intros b m. unfold ref_Decode. destruct (deser b) as [m'|]; [|done].
    destruct (in_range m') eqn:E; intros [= <-]. by apply in_range_spec.
  - intros sm pm. unfold ref_NewPM. destruct (s_SSVMessage sm) as [sv|]; [|done].
    intros (m & Hm & [= <-])%bind_ok. simpl. eauto.
  - intros m. rewrite andb_true_iff, bool_decide_eq_true, negb_true_iff, Z.eqb_neq. done.
  - intros pm. by destruct (decide _).
  - intros sm ids. by rewrite bool_decide_eq_true.
  - intros sm c. rewrite bool_decide_eq_true, list.Forall_forall. done.
Qed.
