(* ===== verification/Scenario.v ===== *)
(** * Executable scenarios

    A runner for the network of [Agreement.v] over the reference library: it
    plays a script of starts, timeouts and deliveries, checking before each
    delivery that it is permitted, so that what it computes is reachable. *)

From stdpp Require Import base list gmap numbers strings relations.
From S2P Require Import Prelude Sha256 SpecTypes SpecRef Instance Controller Quorum History.
From S2P Require Import InstanceInv InstanceFrame ControllerInv Agreement.

#[global] Instance Effect_eq_dec : EqDecision Effect.
Proof. solve_decision. Defined.

Inductive Action :=
| AStart (p : OperatorID) (height : Height) (value : slice)
| ATimeout (p : OperatorID) (slot : Slot) (round : Round)
| ADeliver (p q : OperatorID) (k : nat)           (* to [p], the [k]-th broadcast of [q] *)
| AInject (p : OperatorID) (sm : SignedSSVMessage). (* to [p], any message *)

(** Accepts every value but nil. *)
Definition not_nil (v : slice) : option goerr :=
  match v with None => Some (ENew "nil value") | Some _ => None end.

Definition broadcasts (log : list Effect) : list SignedSSVMessage :=
  omap (λ e, match e with EBroadcast m _ => Some m | _ => None end) log.

Section runner.
Context (ops : list Operator) (f : Z) (honest : gset OperatorID).

Definition authentic_b (G : OperatorID → list Effect) (sm : SignedSSVMessage) : bool :=
  match s_SSVMessage sm with
  | None => true
  | Some sv => forallb (λ s, bool_decide (s ∉ honest) || bool_decide (ESign sv ∈ G s))
                 (s_OperatorIDs sm)
  end.
Definition nested_of (sm : SignedSSVMessage) : list SignedSSVMessage :=
  match NewProcessingMessage sm with
  | Ok pm => ignore_err (GetRoundChangeJustifications (QBFTMessage pm)) ++
             ignore_err (GetPrepareJustifications (QBFTMessage pm))
  | _ => []
  end.
Definition deliverable_b (G : OperatorID → list Effect) (sm : SignedSSVMessage) : bool :=
  authentic_b G sm && forallb (authentic_b G) (nested_of sm).

Lemma authentic_b_sound G sm : authentic_b G sm = true → authentic honest G sm.
Proof.
  unfold authentic_b, authentic. intros Ha s sv Hs Hh Hsv. rewrite Hsv in Ha.
  apply Is_true_true in Ha. rewrite forallb_True, Forall_forall in Ha.
  specialize (Ha s Hs). apply Is_true_true, orb_true_iff in Ha.
  rewrite !bool_decide_eq_true in Ha. by destruct Ha.
Qed.

Lemma deliverable_b_sound p G sm :
  deliverable_b G sm = true → deliverable (member ops f p) honest G sm.
Proof.
  intros [Ha Hn]%andb_true_iff. split; [by apply authentic_b_sound|].
  intros sm' Hnest _. apply authentic_b_sound.
  apply Is_true_true in Hn. rewrite forallb_True, Forall_forall in Hn.
  apply Is_true_true, Hn. unfold nested_of.
  destruct Hnest as [sm pm l sm' -> -> Hin|sm pm l sm' -> -> Hin]; simpl; set_solver.
Qed.

Definition deliver_b (p : OperatorID) (sm : SignedSSVMessage) (net : Net) : option Net :=
  if bool_decide (p ∈ honest) && deliverable_b (logs_of net) sm then
    let out := ctrl_ProcessMsg sm (nodes net p) in
    Some (mkNet (nodes (set_node p out.1 net)) (decided_of p sm out.2 ++ decisions net))
  else None.

Definition act (a : Action) (net : Net) : option Net :=
  match a with
  | AStart p height value =>
      if bool_decide (p ∈ honest) && bool_decide (is_u64 height)
      then Some (set_node p (StartNewInstance height value not_nil (nodes net p)).1 net)
      else None
  | ATimeout p slot round =>
      if bool_decide (p ∈ honest)
      then Some (set_node p (OnQBFTRoundTimeout slot round (nodes net p)).1 net)
      else None
  | ADeliver p q k => sm ← broadcasts (logs_of net q) !! k; deliver_b p sm net
  | AInject p sm => deliver_b p sm net
  end.

Fixpoint play (script : list Action) (net : Net) : option Net :=
  match script with
  | [] => Some net
  | a :: script => net' ← act a net; play script net'
  end.

Lemma deliver_b_sound p sm net net' :
  deliver_b p sm net = Some net' → step ops f honest net net'.
Proof.
  unfold deliver_b. destruct (_ && _) eqn:E; [|done]. intros [= <-].
  apply andb_true_iff in E as [Hp%bool_decide_eq_true Hd].
  apply (step_deliver ops f honest net p sm Hp). by apply deliverable_b_sound.
Qed.

Lemma act_sound a net net' : act a net = Some net' → step ops f honest net net'.
Proof.
  destruct a as [p hh v|p slot r|p q k|p sm]; simpl.
  - destruct (_ && _) eqn:E; [|done]. intros [= <-].
    apply andb_true_iff in E as [?%bool_decide_eq_true ?%bool_decide_eq_true].
    by apply step_start.
  - destruct (bool_decide _) eqn:E; [|done]. intros [= <-].
    apply bool_decide_eq_true in E. by apply step_timeout.
  - intros (sm & _ & Hd)%bind_Some. by eapply deliver_b_sound.
  - apply deliver_b_sound.
Qed.

Lemma play_sound script net net' :
  play script net = Some net' → rtc (step ops f honest) net net'.
Proof.
  revert net. induction script as [|a script IH]; simpl; intros net.
  - intros [= ->]. done.
  - intros (net1 & ?%act_sound & ?)%bind_Some. eauto using rtc_l.
Qed.
End runner.

(** ** A committee of four, one of them faulty *)
Definition four : list Operator := (λ o, mkOperator o []) <$> [1; 2; 3; 4].
Definition honest3 : gset OperatorID := {[1; 2; 3]}.

(** Operator [r mod 4 + 1] leads round [r]. *)
Definition demo_config : Config := mkConfig (λ _ r, r `mod` 4 + 1) (λ _ _ _, None) 12.
Definition demo_signer (p : OperatorID) : list Effect → SSVMessage → result goerr bytes :=
  λ _ _, Ok (ref_signature p).
Definition demo_id : bytes := replicate 56 Byte.x07.
Definition demo_init : Net :=
  mkNet (λ p, (with_IdentifierFn None
           (NewController demo_id (member four 1 p) demo_config (demo_signer p)), [])) [].

Lemma demo_initial : initial four 1 honest3 demo_init.
Proof. split; [done|]. intros p _. unfold demo_init; simpl. eauto 10. Qed.

(** Height 9: operator 2 leads round 1 and proposes; all prepare and commit. *)
Definition demo_value : slice := Some [Byte.x2a].
Definition to_all (q : OperatorID) (k : nat) : list Action :=
  (λ p, ADeliver p q k) <$> [1; 2; 3].
Definition happy_script : list Action :=
  [AStart 1 9 demo_value; AStart 2 9 demo_value; AStart 3 9 demo_value]
  ++ to_all 2 0                               (* the proposal *)
  ++ to_all 1 0 ++ to_all 2 1 ++ to_all 3 0   (* the prepares *)
  ++ to_all 1 1 ++ to_all 2 2 ++ to_all 3 1.  (* the commits *)

Definition happy_net : option Net := play honest3 happy_script demo_init.

Definition happy : Net := default demo_init happy_net.

(** The same committee loses the commits of round 1, times out, and the leader
    of round 2 proposes the prepared value again, justified by round changes. *)
Definition recovery_script : list Action :=
  [AStart 1 9 demo_value; AStart 2 9 demo_value; AStart 3 9 (Some [Byte.x55])]
  ++ to_all 2 0                               (* the proposal of round 1 *)
  ++ to_all 1 0 ++ to_all 2 1 ++ to_all 3 0   (* its prepares *)
  ++ [ATimeout 1 9 1; ATimeout 2 9 1; ATimeout 3 9 1]
  ++ to_all 1 2 ++ to_all 2 3 ++ to_all 3 2   (* the round changes *)
  ++ to_all 3 3                               (* the proposal of round 2 *)
  ++ to_all 1 3 ++ to_all 2 4 ++ to_all 3 4   (* its prepares *)
  ++ to_all 1 4 ++ to_all 2 5 ++ to_all 3 5.  (* its commits *)
Definition recovery_net : option Net := play honest3 recovery_script demo_init.
Definition recovery : Net := default demo_init recovery_net.

Lemma play_reachable script net :
  play honest3 script demo_init = Some net → reachable four 1 honest3 net.
Proof. intros Hp. exists demo_init. split; [apply demo_initial|]. by eapply play_sound. Qed.

Lemma play_default script :
  is_Some (play honest3 script demo_init) →
  reachable four 1 honest3 (default demo_init (play honest3 script demo_init)).
Proof.
  intros [net E]. rewrite E. by eapply play_reachable.
Qed.

Lemma happy_reachable : reachable four 1 honest3 happy.
Proof. apply (play_default happy_script). apply (bool_decide_unpack _). by vm_compute. Qed.
Lemma recovery_reachable : reachable four 1 honest3 recovery.
Proof. apply (play_default recovery_script). apply (bool_decide_unpack _). by vm_compute. Qed.

(** ** Deciding what was signed *)
Definition signed_messages (log : list Effect) : list Message :=
  omap (λ e, match e with
             | ESign sv => match DecodeMessage (sv_Data sv) with Ok m => Some m | _ => None end
             | _ => None end) log.

Lemma signed_messages_sound log m : m ∈ signed_messages log → signed log m.
Proof.
  intros (e & He & Hm)%list_elem_of_omap. destruct e as [sv| | |]; try done.
  exists sv. destruct (DecodeMessage (sv_Data sv)) as [m'| |]; [|done..]. by injection Hm as <-.
Qed.

#[global] Instance is_prepare_dec h r root m : Decision (is_prepare h r root m).
Proof. unfold is_prepare. apply _. Defined.
#[global] Instance is_commit_dec h r root m : Decision (is_commit h r root m).
Proof. unfold is_commit. apply _. Defined.
#[global] Instance is_round_change_dec h r d m : Decision (is_round_change h r d m).
Proof. unfold is_round_change. apply _. Defined.

Lemma signed_such (P : Message → Prop) `{∀ m, Decision (P m)} log :
  existsb (λ m, bool_decide (P m)) (signed_messages log) = true → ∃ m, signed log m ∧ P m.
Proof.
  intros (m & Hin & Hm%bool_decide_eq_true)%existsb_exists. exists m.
  split; [|done]. by apply signed_messages_sound, list_elem_of_In.
Qed.
