(* ===== verification/Witnesses.v ===== *)
(** * Witnesses of the consensus theorems

    The safety theorems of [Agreement.v] applied to concrete reachable networks
    of the reference library. *)

From stdpp Require Import base list gmap numbers strings sorting.
From S2P Require Import Prelude Sha256 SpecTypes SpecRef Instance Controller Quorum History.
From S2P Require Import InstanceInv InstanceFrame ControllerInv Agreement Scenario.

Definition demo_root : bytes := HashDataRoot demo_value.

Lemma four_faulty : Z.of_nat (size (committee_ids four ∖ honest3)) ≤ 1.
Proof. by vm_compute. Qed.

(** Membership in a computed list. *)
Ltac elem_vm := apply list_elem_of_In; vm_compute; tauto.
Ltac signed_vm := apply (signed_such _); vm_compute; reflexivity.

Lemma agreement_witness :
  ∃ v w, (1, 9, v) ∈ decisions recovery ∧ (3, 9, w) ∈ decisions recovery ∧
    HashDataRoot v = HashDataRoot w.
Proof.
  exists demo_value, demo_value.
  assert ((1, 9, demo_value) ∈ decisions recovery) as H1 by elem_vm.
  assert ((3, 9, demo_value) ∈ decisions recovery) as H3 by elem_vm.
  split; [exact H1|]. split; [exact H3|].
  refine (agreement four 1 honest3 four_faulty _ recovery recovery_reachable
    1 3 9 demo_value demo_value _ _ _ _ H1 H3).
  - lia.
  - apply (bool_decide_unpack _). by vm_compute.
  - reflexivity.
  - apply (bool_decide_unpack _). by vm_compute.
  - reflexivity.
Defined.

Lemma prepares_once_witness :
  prepared_at (logs_of recovery 3) 9 2 demo_root ∧ demo_root = demo_root.
Proof.
  assert (prepared_at (logs_of recovery 3) 9 2 demo_root) as H by signed_vm.
  split; [exact H|].
  refine (prepares_once four 1 honest3 four_faulty _ recovery recovery_reachable
    3 9 2 demo_root demo_root _ H H); [lia|].
  apply (bool_decide_unpack _). by vm_compute.
Defined.

Lemma commits_prepared_witness :
  committed_at (logs_of recovery 1) 9 2 demo_root ∧
  ∃ Q : gset OperatorID, Q ⊆ committee_ids four ∧ 3 ≤ Z.of_nat (size Q) ∧
    ∀ s, s ∈ Q → s ∈ honest3 → prepared_at (logs_of recovery s) 9 2 demo_root.
Proof.
  assert (committed_at (logs_of recovery 1) 9 2 demo_root) as H by signed_vm.
  split; [exact H|].
  refine (commits_prepared four 1 honest3 four_faulty _ recovery recovery_reachable
    1 9 2 demo_root _ H); [lia|].
  apply (bool_decide_unpack _). by vm_compute.
Defined.

Lemma round_change_locked_witness :
  changed_to (logs_of recovery 2) 9 2 1 ∧ committed_at (logs_of recovery 2) 9 1 demo_root ∧ 1 ≤ 1.
Proof.
  assert (changed_to (logs_of recovery 2) 9 2 1) as H1 by signed_vm.
  assert (committed_at (logs_of recovery 2) 9 1 demo_root) as H2 by signed_vm.
  split; [exact H1|]. split; [exact H2|].
  refine (round_change_locked four 1 honest3 four_faulty _ recovery recovery_reachable
    2 9 2 1 1 demo_root _ H1 H2 _); [lia| |lia].
  apply (bool_decide_unpack _). by vm_compute.
Defined.

Lemma no_restart_witness :
  voted (logs_of recovery 2) 9 ∧
  (startInstance 9 demo_value not_nil (nodes recovery 2)).1 = nodes recovery 2 ∧
  ∃ e, (startInstance 9 demo_value not_nil (nodes recovery 2)).2 = Err e.
Proof.
  assert (voted (logs_of recovery 2) 9) as H.
  { destruct (signed_such (is_commit 9 1 demo_root) (logs_of recovery 2)) as (m & Hs & Hm).
    - by vm_compute.
    - exists m. destruct Hm as (Hty & Hh & _). split; [done|]. split; [done|]. by rewrite Hty. }
  split; [exact H|].
  refine (no_restart four 1 honest3 four_faulty _ recovery recovery_reachable
    2 9 demo_value not_nil _ H); [lia|].
  apply (bool_decide_unpack _). by vm_compute.
Defined.

Lemma recent_instances_ordered_witness :
  StronglySorted newer (c_RecentInstances (nodes recovery 1).1).
Proof.
  refine (proj1 (recent_instances_ordered four 1 honest3 four_faulty _ recovery recovery_reachable
    1 _)); [lia|].
  apply (bool_decide_unpack _). by vm_compute.
Defined.
