(* ===== verification/Network.v ===== *)
(** * Beacon clock and fork schedules (networkconfig/beacon.go, network.go)

    Slots, epochs and times of a beacon network, its fork schedule, and the
    SSV forks on top of it.  A [time.Time] is a number of nanoseconds; slots and
    epochs are [uint64] values, durations [int64] values.  Divisions by a
    configuration value panic when it is zero, as in Go. *)

From stdpp Require Import base list gmap numbers strings sorting.
From S2P Require Import Prelude SpecTypes.

Abbreviation Time := Z (only parsing).
Abbreviation Duration := Z (only parsing).

(** Go's integer division. *)
Definition div_u64 (a b : Z) : result goerr Z := if b =? 0 then Panic else Ok (a / b).
Definition mod_u64 (a b : Z) : result goerr Z := if b =? 0 then Panic else Ok (a `mod` b).
Definition div_i64 (a b : Z) : result goerr Z := if b =? 0 then Panic else Ok (i64 (Z.quot a b)).

(** [t.Sub(u)] saturates. *)
Definition time_Sub (t u : Time) : Duration := Z.max (- 2 ^ 63) (Z.min max_i64 (t - u)).

(** ** Fork data of the beacon chain *)
Inductive DataVersion :=
| DataVersionPhase0 | DataVersionAltair | DataVersionBellatrix | DataVersionCapella
| DataVersionDeneb | DataVersionElectra | DataVersionFulu | DataVersionGloas
| DataVersionOther (n : Z).

#[global] Instance DataVersion_eq_dec : EqDecision DataVersion.
Proof. solve_decision. Defined.
#[global] Instance DataVersion_countable : Countable DataVersion.
Proof.
  refine (inj_countable' (λ v, match v with
    | DataVersionPhase0 => inl 0%nat | DataVersionAltair => inl 1%nat
    | DataVersionBellatrix => inl 2%nat | DataVersionCapella => inl 3%nat
    | DataVersionDeneb => inl 4%nat | DataVersionElectra => inl 5%nat
    | DataVersionFulu => inl 6%nat | DataVersionGloas => inl 7%nat
    | DataVersionOther n => inr n end)
    (λ s, match s with
    | inl 0%nat => DataVersionPhase0 | inl 1%nat => DataVersionAltair
    | inl 2%nat => DataVersionBellatrix | inl 3%nat => DataVersionCapella
    | inl 4%nat => DataVersionDeneb | inl 5%nat => DataVersionElectra
    | inl 6%nat => DataVersionFulu | inl _ => DataVersionGloas
    | inr n => DataVersionOther n end) _).
  by intros [].
Defined.

Record Fork := mkFork {
  PreviousVersion : bytes;
  CurrentVersion : bytes;
  fork_Epoch : Epoch;
}.
#[global] Instance Fork_eq_dec : EqDecision Fork.
Proof. solve_decision. Defined.

(** The fields of [Beacon] that its methods read. *)
Record Beacon := mkBeacon {
  b_Name : string;
  SlotDuration : Duration;
  SlotsPerEpoch : Z;
  EpochsPerSyncCommitteePeriod : Z;
  SyncCommitteeSize : Z;
  SyncCommitteeSubnetCount : Z;
  TargetAggregatorsPerSyncSubcommittee : Z;
  TargetAggregatorsPerCommittee : Z;
  GenesisForkVersion : bytes;
  GenesisTime : Time;
  GenesisValidatorsRoot : bytes;
  Forks : gmap DataVersion Fork;
}.

Definition FarFutureEpoch : Epoch := max_u64.

Section beacon.
Context (b : Beacon).

Definition TimeAtSlot (slot : Slot) : result goerr Time :=
  if max_i64 <? slot then Panic
  else Ok (GenesisTime b + (slot *i SlotDuration b)).

(** [SlotStartTime] and [TimeAtSlot] have the same body. *)
Definition SlotStartTime (slot : Slot) : result goerr Time :=
  if max_i64 <? slot then Panic
  else
    let durationSinceGenesisStart := slot *i SlotDuration b in
    Ok (GenesisTime b + durationSinceGenesisStart).


Definition EstimatedSlotAtTime (time : Time) : result goerr Slot :=
  if time <? GenesisTime b then Panic
  else
    q ← div_i64 (time_Sub time (GenesisTime b)) (SlotDuration b);
    Ok (u64 q).

Definition EstimatedEpochAtSlot (slot : Slot) : result goerr Epoch :=
  div_u64 slot (SlotsPerEpoch b).

Definition IsFirstSlotOfEpoch (slot : Slot) : result goerr bool :=
  r ← mod_u64 slot (SlotsPerEpoch b); Ok (r =? 0).

Definition EstimatedSyncCommitteePeriodAtEpoch (epoch : Epoch) : result goerr Z :=
  div_u64 epoch (EpochsPerSyncCommitteePeriod b).

Definition FirstEpochOfSyncPeriod (period : Z) : Epoch :=
  period *u EpochsPerSyncCommitteePeriod b.

Definition FirstSlotAtEpoch (epoch : Epoch) : Slot := epoch *u SlotsPerEpoch b.




(** ** Forks *)
Definition IsGloas (epoch : Epoch) : bool :=
  match Forks b !! DataVersionGloas with
  | Some fork => fork_Epoch fork <=? epoch
  | None => false
  end.

Definition IsGloasAtSlot (slot : Slot) : result goerr bool :=
  epoch ← EstimatedEpochAtSlot slot; Ok (IsGloas epoch).

(** The zero [Fork] has epoch 0. *)
Definition GloasForkEpoch : Epoch * bool :=
  match Forks b !! DataVersionGloas with
  | Some fork => (fork_Epoch fork, true)
  | None => (0, false)
  end.


Definition IntervalDuration (slot : Slot) : result goerr Duration :=
  gloas ← IsGloasAtSlot slot;
  div_i64 (SlotDuration b) (if gloas : bool then 4 else 3).

Definition fork_versions : list DataVersion :=
  [DataVersionPhase0; DataVersionAltair; DataVersionBellatrix; DataVersionCapella;
   DataVersionDeneb; DataVersionElectra; DataVersionFulu; DataVersionGloas].

(** The loop, with the active version and fork found so far. *)
Fixpoint ForkAtEpoch_loop (epoch : Epoch) (active : option (DataVersion * Fork))
    (versions : list DataVersion) : result goerr (DataVersion * Fork) :=
  match versions with
  | [] => match active with Some a => Ok a | None => Panic end
  | v :: versions =>
      match Forks b !! v with
      | None => ForkAtEpoch_loop epoch active versions
      | Some fork =>
          if epoch <? fork_Epoch fork then
            match active with Some a => Ok a | None => Panic end
          else ForkAtEpoch_loop epoch (Some (v, fork)) versions
      end
  end.
Definition ForkAtEpoch (epoch : Epoch) : result goerr (DataVersion * Fork) :=
  ForkAtEpoch_loop epoch None fork_versions.

Definition ForkAtVersion (version : DataVersion) : option Fork := Forks b !! version.
End beacon.

(** ** Comparing two fork schedules *)
Inductive ForkDiff :=
| DifferentForks (version : DataVersion) (ours theirs : Fork)
| ForkScheduleLag (version : DataVersion) (ours theirs : Fork).

(** The schedule of one version: an unscheduled fork is the far-future one. *)
Definition schedule (forks : gmap DataVersion Fork) (version : DataVersion) : Fork * bool :=
  match forks !! version with
  | Some fork => if fork_Epoch fork =? FarFutureEpoch
                 then (mkFork (replicate 4 Byte.x00) (replicate 4 Byte.x00) FarFutureEpoch, false)
                 else (fork, true)
  | None => (mkFork (replicate 4 Byte.x00) (replicate 4 Byte.x00) FarFutureEpoch, false)
  end.

Section same_forks.
(** The numeric value of a version, by which the keys are sorted. *)
Context (version_num : DataVersion → Z).
Definition version_le (v w : DataVersion) : Prop := version_num v ≤ version_num w.
#[local] Instance version_le_dec : RelDecision version_le :=
  λ v w, Z_le_dec (version_num v) (version_num w).

Fixpoint assertSameForks_loop (ours theirs : gmap DataVersion Fork) (currentEpoch : Epoch)
    (lag : option ForkDiff) (versions : list DataVersion) : option ForkDiff :=
  match versions with
  | [] => lag
  | version :: versions =>
      let '(mine, mineScheduled) := schedule ours version in
      let '(other, otherScheduled) := schedule theirs version in
      if (negb mineScheduled && negb otherScheduled) || bool_decide (mine = other) then
        assertSameForks_loop ours theirs currentEpoch lag versions
      else if (mineScheduled && (fork_Epoch mine <=? currentEpoch))
           || (otherScheduled && (fork_Epoch other <=? currentEpoch)) then
        Some (DifferentForks version mine other)
      else
        assertSameForks_loop ours theirs currentEpoch
          (match lag with None => Some (ForkScheduleLag version mine other) | _ => lag end) versions
  end.

Definition assertSameForks (ours theirs : gmap DataVersion Fork) (currentEpoch : Epoch)
    : option ForkDiff :=
  assertSameForks_loop ours theirs currentEpoch None
    (merge_sort version_le (elements (dom ours ∪ dom theirs))).
End same_forks.

(** ** The SSV network on top of a beacon network *)
Record NetCfg := mkNetCfg {
  n_Beacon : Beacon;
  DomainType : bytes;
  NextDomainType : bytes;
  Boole : Epoch;            (* Forks.Boole; math.MaxUint64 when not scheduled *)
}.

Definition boolePriorWindowEpochs : Epoch := 1.
Definition booleSubsequentWindowLateSlots : Slot := 2.
Definition gloasPriorWindowEpochs : Epoch := 1.

Section network_cfg.
Context (n : NetCfg).
Abbreviation b := (n_Beacon n).

Definition BooleForkAtEpoch (epoch : Epoch) : bool := Boole n <=? epoch.
Definition BooleForkScheduled : bool := negb (Boole n =? max_u64).
Definition BooleForkAtSlot (slot : Slot) : result goerr bool :=
  epoch ← EstimatedEpochAtSlot b slot; Ok (BooleForkAtEpoch epoch).

Definition DomainTypeAtSlot (slot : Slot) : result goerr bytes :=
  boole ← BooleForkAtSlot slot;
  Ok (if boole : bool then NextDomainType n else DomainType n).

(** [BooleFork()] at the time [now]. *)
Definition BooleFork (now : Time) : result goerr bool :=
  slot ← EstimatedSlotAtTime b now;
  epoch ← EstimatedEpochAtSlot b slot;
  Ok (BooleForkAtEpoch epoch).

Definition maxEpochConvertibleToSlot : result goerr Epoch := div_u64 max_u64 (SlotsPerEpoch b).

(** [Validate()] at the time [now]. *)
Definition Validate (now : Time) : result goerr unit :=
  fail_if (SlotsPerEpoch b =? 0) (ENew "slots per epoch must be positive") ;;
  if BooleForkScheduled then
    maxEpoch ← maxEpochConvertibleToSlot;
    fail_if (maxEpoch <? Boole n) (ENew "boole fork epoch overflows slot conversion") ;;
    booleForkActive ← (if now <? GenesisTime b then Ok false else BooleFork now);
    fail_if (bool_decide (NextDomainType n = DomainType n) && negb booleForkActive)
      (ENew "boole fork is scheduled but NextDomainType equals DomainType")
  else Ok tt.

Definition inBoolePriorWindowWithEpochs (slot : Slot) (windowEpochs : Epoch) : result goerr bool :=
  let priorWindowStartEpoch :=
    if windowEpochs <=? Boole n then Boole n -u windowEpochs else 0 in
  epoch ← EstimatedEpochAtSlot b slot;
  if priorWindowStartEpoch <=? epoch
  then boole ← BooleForkAtSlot slot; Ok (negb boole)
  else Ok false.
Definition inBoolePriorWindow (slot : Slot) : result goerr bool :=
  inBoolePriorWindowWithEpochs slot boolePriorWindowEpochs.

Definition inBooleSubsequentWindowWithSlots (slot windowSlots : Slot) : result goerr bool :=
  if Boole n =? 0 then Ok false
  else if SlotsPerEpoch b =? 0 then Ok false
  else
    maxEpoch ← maxEpochConvertibleToSlot;
    if maxEpoch <? Boole n then Ok false
    else
      let start := FirstSlotAtEpoch b (Boole n) in
      let end_ := start +u windowSlots in
      Ok ((start <=? slot) && (slot <? end_)).
Definition inBooleSubsequentWindow (slot : Slot) : result goerr bool :=
  inBooleSubsequentWindowWithSlots slot (SlotsPerEpoch b +u booleSubsequentWindowLateSlots).

Definition InBooleTransitionWindow (slot : Slot) : result goerr bool :=
  prior ← inBoolePriorWindow slot;
  if prior : bool then Ok true else inBooleSubsequentWindow slot.

Definition InGloasPriorWindow (slot : Slot) : result goerr bool :=
  let '(gloasEpoch, ok) := GloasForkEpoch b in
  if negb ok then Ok false
  else
    let priorWindowStart :=
      if gloasPriorWindowEpochs <=? gloasEpoch then gloasEpoch -u gloasPriorWindowEpochs else 0 in
    epoch ← EstimatedEpochAtSlot b slot;
    Ok ((priorWindowStart <=? epoch) && (epoch <? gloasEpoch)).
End network_cfg.

(** ** Slots, epochs and times *)
Section clock.
Context (b : Beacon).
Hypothesis spe_pos : 0 < SlotsPerEpoch b.

Lemma FirstSlotAtEpoch_exact e :
  0 ≤ e → e * SlotsPerEpoch b ≤ max_u64 → FirstSlotAtEpoch b e = e * SlotsPerEpoch b.
Proof. intros. unfold FirstSlotAtEpoch. apply u64_small. unfold is_u64. nia. Qed.

Lemma EstimatedEpochAtSlot_eq slot :
  EstimatedEpochAtSlot b slot = Ok (slot / SlotsPerEpoch b).
Proof.
  unfold EstimatedEpochAtSlot, div_u64. destruct (Z.eqb_spec (SlotsPerEpoch b) 0); [lia|done].
Qed.

(** The slots of an epoch. *)
Lemma epoch_of_slot_iff slot e :
  0 ≤ e → (e + 1) * SlotsPerEpoch b ≤ max_u64 →
  EstimatedEpochAtSlot b slot = Ok e ↔
  FirstSlotAtEpoch b e ≤ slot < FirstSlotAtEpoch b (e + 1).
Proof.
  intros He Hmax. rewrite EstimatedEpochAtSlot_eq, !FirstSlotAtEpoch_exact by nia.
  pose proof (Z.div_mod slot (SlotsPerEpoch b) ltac:(lia)) as Hdm.
  pose proof (Z.mod_pos_bound slot (SlotsPerEpoch b) spe_pos).
  split.
  - intros [= <-]. nia.
  - intros [H1 H2]. f_equal. symmetry. apply Z.div_unique with (slot - e * SlotsPerEpoch b); nia.
Qed.

Hypothesis dur_pos : 0 < SlotDuration b.

Lemma TimeAtSlot_exact slot :
  0 ≤ slot → slot * SlotDuration b ≤ max_i64 →
  TimeAtSlot b slot = Ok (GenesisTime b + slot * SlotDuration b).
Proof.
  intros Hs Hm. unfold TimeAtSlot. destruct (Z.ltb_spec max_i64 slot); [nia|].
  rewrite i64_small; [done|]. unfold is_i64. nia.
Qed.

(** The slot whose interval contains a time. *)
Lemma EstimatedSlotAtTime_exact t :
  GenesisTime b ≤ t → t - GenesisTime b ≤ max_i64 →
  EstimatedSlotAtTime b t = Ok ((t - GenesisTime b) / SlotDuration b).
Proof.
  intros Hg Hm. unfold EstimatedSlotAtTime. destruct (Z.ltb_spec t (GenesisTime b)); [lia|].
  unfold div_i64. destruct (Z.eqb_spec (SlotDuration b) 0); [lia|]. cbn -[Z.pow u64 i64].
  assert (time_Sub t (GenesisTime b) = t - GenesisTime b) as ->.
  { unfold time_Sub, max_i64 in *. lia. }
  rewrite Z.quot_div_nonneg by lia.
  assert (0 ≤ (t - GenesisTime b) / SlotDuration b ≤ max_i64) as Hq.
  { split; [apply Z.div_pos; lia|]. etrans; [apply Z.div_le_upper_bound with (q := t - GenesisTime b)|]; nia. }
  rewrite i64_small, u64_small; [done| |]; unfold is_u64, is_i64, max_u64, max_i64 in *; lia.
Qed.

Lemma slot_of_time_iff t slot :
  GenesisTime b ≤ t → t - GenesisTime b ≤ max_i64 → 0 ≤ slot →
  EstimatedSlotAtTime b t = Ok slot ↔
  GenesisTime b + slot * SlotDuration b ≤ t < GenesisTime b + (slot + 1) * SlotDuration b.
Proof.
  intros Hg Hm Hs. rewrite EstimatedSlotAtTime_exact by done.
  pose proof (Z.div_mod (t - GenesisTime b) (SlotDuration b) ltac:(lia)).
  pose proof (Z.mod_pos_bound (t - GenesisTime b) (SlotDuration b) dur_pos).
  split; [intros [= <-]; nia|].
  intros [H1 H2]. f_equal. symmetry.
  apply Z.div_unique with (t - GenesisTime b - slot * SlotDuration b); nia.
Qed.
End clock.

(** ** The active fork *)
Section forks.
Context (b : Beacon).

(** The forks the schedule carries, in the order of the versions. *)
Definition carried (versions : list DataVersion) : list (DataVersion * Fork) :=
  omap (λ v, pair v <$> Forks b !! v) versions.
Definition ascending (l : list (DataVersion * Fork)) : Prop :=
  StronglySorted (λ p q, fork_Epoch p.2 ≤ fork_Epoch q.2) l.

(** The last fork whose epoch has come. *)
Definition started (epoch : Epoch) (l : list (DataVersion * Fork)) : list (DataVersion * Fork) :=
  filter (λ p, fork_Epoch p.2 ≤ epoch) l.

Lemma started_none epoch l (p : DataVersion * Fork) :
  epoch < fork_Epoch p.2 → Forall (λ q : DataVersion * Fork, fork_Epoch p.2 ≤ fork_Epoch q.2) l → started epoch l = [].
Proof.
  intros He Hall. unfold started. induction Hall as [|q l Hq Hall IH]; [done|].
  rewrite filter_cons_False; [done|]. lia.
Qed.

Lemma ForkAtEpoch_loop_spec epoch active versions :
  ascending (carried versions) →
  ForkAtEpoch_loop b epoch active versions =
    match last (started epoch (carried versions)) with
    | Some p => Ok p
    | None => match active with Some a => Ok a | None => Panic end
    end.
Proof.
  revert active. induction versions as [|v vs IH]; intros active Hasc; simpl; [done|].
  unfold carried in *. simpl in *. destruct (Forks b !! v) as [fork|] eqn:Hv; simpl in *; [|by apply IH].
  apply StronglySorted_inv in Hasc as [Hasc Hall].
  destruct (Z.ltb_spec epoch (fork_Epoch fork)) as [Hlt|Hle].
  - unfold started. rewrite filter_cons_False by (simpl; lia).
    change (filter _ ?l) with (started epoch l).
    by rewrite (started_none epoch _ (v, fork)) by done.
  - rewrite IH by done. unfold started. rewrite filter_cons_True by done.
    rewrite last_cons. by destruct (last _).
Qed.

Lemma last_started_gloas epoch fork :
  ascending (carried fork_versions) → Forks b !! DataVersionGloas = Some fork →
  fork_Epoch fork ≤ epoch →
  last (started epoch (carried fork_versions)) = Some (DataVersionGloas, fork).
Proof.
  intros _ Hg Hle. change fork_versions with (take 7 fork_versions ++ [DataVersionGloas]).
  unfold carried. rewrite omap_app. simpl omap at 2. rewrite Hg. simpl.
  unfold started. rewrite filter_app, filter_cons_True, filter_nil by done. apply last_snoc.
Qed.
End forks.

(** ** Equal schedules *)
Section same_forks_facts.
Context (ours theirs : gmap DataVersion Fork) (cur : Epoch).

Definition same_schedule (v : DataVersion) : Prop := schedule ours v = schedule theirs v.
(** The fork is active at the current epoch on one of the sides. *)
Definition active_on_either (v : DataVersion) : Prop :=
  (∃ fork, schedule ours v = (fork, true) ∧ fork_Epoch fork ≤ cur) ∨
  (∃ fork, schedule theirs v = (fork, true) ∧ fork_Epoch fork ≤ cur).

Lemma schedule_epoch forks v fork s :
  schedule forks v = (fork, s) → (s = true ↔ fork_Epoch fork ≠ FarFutureEpoch).
Proof.
  unfold schedule. destruct (forks !! v) as [fk|]; [destruct (Z.eqb_spec (fork_Epoch fk) FarFutureEpoch)|];
    intros [= <- <-]; simpl; naive_solver.
Qed.

Lemma schedule_unscheduled forks v : (schedule forks v).2 = false →
  schedule forks v = (mkFork (replicate 4 Byte.x00) (replicate 4 Byte.x00) FarFutureEpoch, false).
Proof.
  unfold schedule. destruct (forks !! v) as [fk|]; [destruct (fork_Epoch fk =? FarFutureEpoch)|]; done.
Qed.

(** The test of the loop is equality of the schedules. *)
Lemma skip_iff v mine ms other os :
  schedule ours v = (mine, ms) → schedule theirs v = (other, os) →
  (negb ms && negb os) || bool_decide (mine = other) = true ↔ same_schedule v.
Proof.
  intros Ho Ht. unfold same_schedule.
  pose proof (schedule_unscheduled ours v) as Uo. pose proof (schedule_unscheduled theirs v) as Ut.
  pose proof (schedule_epoch _ _ _ _ Ho) as Eo. pose proof (schedule_epoch _ _ _ _ Ht) as Et.
  rewrite Ho, Ht in *. simpl in *.
  rewrite orb_true_iff, andb_true_iff, !negb_true_iff, bool_decide_eq_true.
  destruct ms, os; split; naive_solver.
Qed.

Definition diff_ok (dom_done : list DataVersion) (r : option ForkDiff) : Prop :=
  match r with
  | None => ∀ v, v ∈ dom_done → same_schedule v
  | Some (DifferentForks v mine other) =>
      ¬ same_schedule v ∧ active_on_either v ∧
      mine = (schedule ours v).1 ∧ other = (schedule theirs v).1
  | Some (ForkScheduleLag v mine other) =>
      ¬ same_schedule v ∧ (∀ w, w ∈ dom_done → active_on_either w → same_schedule w) ∧
      mine = (schedule ours v).1 ∧ other = (schedule theirs v).1
  end.

Lemma active_b_iff v mine ms other os :
  schedule ours v = (mine, ms) → schedule theirs v = (other, os) →
  (ms && (fork_Epoch mine <=? cur)) || (os && (fork_Epoch other <=? cur)) = true ↔
  active_on_either v.
Proof.
  intros Ho Ht. unfold active_on_either. rewrite Ho, Ht.
  rewrite orb_true_iff, !andb_true_iff, !Z.leb_le. naive_solver.
Qed.

Lemma assertSameForks_loop_spec done_ lag versions :
  (∀ v m o, lag ≠ Some (DifferentForks v m o)) → diff_ok done_ lag →
  diff_ok (done_ ++ versions) (assertSameForks_loop ours theirs cur lag versions).
Proof.
  revert done_ lag. induction versions as [|v vs IH]; intros done_ lag Hlag Hd; simpl.
  { by rewrite app_nil_r. }
  destruct (schedule ours v) as [mine ms] eqn:Ho, (schedule theirs v) as [other os] eqn:Ht.
  pose proof (skip_iff _ _ _ _ _ Ho Ht) as Hskip.
  pose proof (active_b_iff _ _ _ _ _ Ho Ht) as Hact.
  rewrite (cons_middle v done_ vs), (assoc_L app).
  destruct (_ || bool_decide _) eqn:E1.
  - apply IH; [done|]. destruct lag as [[| ]|]; simpl in *; [by edestruct Hlag|set_solver..].
  - assert (¬ same_schedule v) as Hdiff by (rewrite <- Hskip; congruence).
    destruct ((ms && _) || _) eqn:E2.
    { unfold diff_ok. rewrite Ho, Ht. naive_solver. }
    assert (¬ active_on_either v) as Hna by (rewrite <- Hact; congruence).
    apply IH; [by destruct lag as [[]|]|].
    destruct lag as [[| ]|]; unfold diff_ok in *; [by edestruct Hlag|set_solver|].
    rewrite Ho, Ht. split_and!; [done| |done..]. set_solver.
Qed.
End same_forks_facts.

(** ** Properties *)

(** Round trip between slots and times: as long as the offset from genesis fits an
    [int64], every time within the duration of a slot is estimated to lie in that
    slot, and [TimeAtSlot] is its first instant. *)
Theorem slot_time_round_trip b slot d :
  0 < SlotDuration b → 0 ≤ slot → slot * SlotDuration b + d ≤ max_i64 → 0 ≤ d < SlotDuration b →
  ∃ t, TimeAtSlot b slot = Ok t ∧ EstimatedSlotAtTime b (t + d) = Ok slot.
Proof.
  intros Hd Hs Hm Hr. eexists. split; [apply TimeAtSlot_exact; nia|].
  apply slot_of_time_iff; nia.
Qed.

(** Round trip between slots and epochs: the slots estimated to lie in an epoch
    are exactly those from its first slot up to the first slot of the next one. *)
Theorem slot_epoch_round_trip b slot e :
  0 < SlotsPerEpoch b → 0 ≤ e → (e + 1) * SlotsPerEpoch b ≤ max_u64 →
  EstimatedEpochAtSlot b slot = Ok e ↔ FirstSlotAtEpoch b e ≤ slot < FirstSlotAtEpoch b (e + 1).
Proof. intros. by apply epoch_of_slot_iff. Qed.

(** [ForkAtEpoch] returns the last fork of an ascending schedule whose epoch has
    come, panics exactly when there is none, and agrees with [IsGloas]. *)
Theorem ForkAtEpoch_correct b epoch :
  ascending (carried b fork_versions) →
  ForkAtEpoch b epoch = match last (started epoch (carried b fork_versions)) with
                        | Some p => Ok p | None => Panic end ∧
  (IsGloas b epoch = true ↔ ∃ fork, ForkAtEpoch b epoch = Ok (DataVersionGloas, fork)).
Proof.
  intros Hasc. unfold ForkAtEpoch. rewrite ForkAtEpoch_loop_spec by done. split; [done|].
  unfold IsGloas. split.
  - destruct (Forks b !! DataVersionGloas) as [fork|] eqn:Hg; [|done]. intros He%Z.leb_le.
    rewrite (last_started_gloas b epoch fork) by done. eauto.
  - intros [fork Hf]. destruct (last _) as [[v fk]|] eqn:Hl; [|done]. injection Hf as -> ->.
    apply last_Some_elem_of in Hl. unfold started in Hl.
    apply list_elem_of_filter in Hl as [He Hin].
    apply list_elem_of_omap in Hin as (v & _ & Hv).
    destruct (Forks b !! v) as [fk|] eqn:Hg; [|done]. injection Hv as -> ->.
    rewrite Hg. by apply Z.leb_le.
Qed.

(** [assertSameForks] reports nothing exactly when every version is scheduled
    identically on both sides (unscheduled and omitted forks being the same), a
    chain split only for a version that differs and is active on one side, and a
    schedule lag only when every active version is scheduled identically. *)
Theorem assertSameForks_correct version_num ours theirs cur :
  match assertSameForks version_num ours theirs cur with
  | None => ∀ v, same_schedule ours theirs v
  | Some (DifferentForks v _ _) =>
      ¬ same_schedule ours theirs v ∧ active_on_either ours theirs cur v
  | Some (ForkScheduleLag v _ _) =>
      ¬ same_schedule ours theirs v ∧
      ∀ w, active_on_either ours theirs cur w → same_schedule ours theirs w
  end.
Proof.
  unfold assertSameForks. set (vs := merge_sort _ _).
  assert (∀ v, v ∉ vs → same_schedule ours theirs v) as Hout.
  { intros v Hv. unfold vs in Hv. rewrite merge_sort_Permutation, elem_of_elements in Hv.
    rewrite not_elem_of_union, !not_elem_of_dom in Hv.
    destruct Hv as [H1 H2]. unfold same_schedule, schedule. by rewrite H1, H2. }
  pose proof (assertSameForks_loop_spec ours theirs cur [] None vs ltac:(done)
    ltac:(by intros ? ?%elem_of_nil)) as Hok. simpl in Hok.
  destruct (assertSameForks_loop _ _ _ _ _) as [[v m o|v m o]|]; simpl in Hok.
  - tauto.
  - destruct Hok as (? & Hall & _). split; [done|]. intros w Hw.
    destruct (decide (w ∈ vs)); auto.
  - intros v. destruct (decide (v ∈ vs)); auto.
Qed.

(** The Boole transition window is one interval of slots: from one epoch before
    the fork until an epoch and two slots after it. *)
Lemma boole_transition_window n slot :
  let spe := SlotsPerEpoch (n_Beacon n) in
  0 < spe → 0 < Boole n → (Boole n + 1) * spe + 2 ≤ max_u64 →
  InBooleTransitionWindow n slot =
    Ok (bool_decide ((Boole n - 1) * spe ≤ slot < (Boole n + 1) * spe + 2)).
Proof.
  intros spe Hs Hb Hm.
  assert (u64 (spe + 2) = spe + 2) as Hw by (apply u64_small; unfold is_u64; nia).
  assert (FirstSlotAtEpoch (n_Beacon n) (Boole n) = Boole n * spe) as Hf
    by (apply FirstSlotAtEpoch_exact; fold spe; nia).
  assert (u64 (Boole n * spe + (spe + 2)) = (Boole n + 1) * spe + 2) as He
    by (rewrite u64_small; [|unfold is_u64]; nia).
  assert (u64 (Boole n - 1) = Boole n - 1) as Hp by (apply u64_small; unfold is_u64; nia).
  assert (Boole n ≤ max_u64 / spe) as Hmax by (apply Z.div_le_lower_bound; nia).
  unfold InBooleTransitionWindow, inBoolePriorWindow, inBoolePriorWindowWithEpochs, BooleForkAtSlot,
    BooleForkAtEpoch, inBooleSubsequentWindow, inBooleSubsequentWindowWithSlots,
    maxEpochConvertibleToSlot, boolePriorWindowEpochs, booleSubsequentWindowLateSlots.
  rewrite EstimatedEpochAtSlot_eq by done. fold spe.
  rewrite (proj2 (Z.leb_le 1 (Boole n))) by lia. rewrite Hp, Hw, Hf, He. simpl.
  destruct (Z.eqb_spec (Boole n) 0); [lia|]. destruct (Z.eqb_spec spe 0); [lia|].
  unfold div_u64. destruct (Z.eqb_spec spe 0); [lia|]. simpl.
  destruct (Z.ltb_spec (max_u64 / spe) (Boole n)); [lia|].
  pose proof (Z.div_mod slot spe ltac:(lia)). pose proof (Z.mod_pos_bound slot spe Hs).
  destruct (Z.leb_spec (Boole n - 1) (slot / spe)); simpl.
  - destruct (Z.leb_spec (Boole n) (slot / spe)); simpl; f_equal.
    + destruct (Z.leb_spec (Boole n * spe) slot); [|nia]. simpl.
      destruct (Z.ltb_spec slot ((Boole n + 1) * spe + 2)); symmetry;
        [apply bool_decide_eq_true|apply bool_decide_eq_false]; nia.
    + symmetry. apply bool_decide_eq_true. nia.
  - destruct (Z.leb_spec (Boole n * spe) slot); [nia|]. simpl. f_equal.
    symmetry. apply bool_decide_eq_false. nia.
Qed.
