(* ===== verification/Proposer.v ===== *)
(** * Leader election (protocol/v2/qbft/round_robin_proposer.go)

    The round-robin leader of a height and round, before and after the Boole
    fork, with the machine arithmetic of its index; an empty committee panics. *)

From stdpp Require Import base list gmap numbers sorting strings.
From S2P Require Import Prelude SpecTypes Network.

(** [slices.IsSorted] on operator ids. *)
Fixpoint IsSorted (l : list OperatorID) : bool :=
  match l with
  | [] => true
  | x :: l' => match l' with [] => true | y :: _ => (x <=? y) && IsSorted l' end
  end.

(** [l[index]] *)
Definition index_at {A} (l : list A) (index : Z) : result goerr A :=
  match l !! Z.to_nat index with Some x => Ok x | None => Panic end.

Definition roundRobinProposerPreBooleFork (height : Height) (round : Round)
    (committee : list OperatorID) : result goerr OperatorID :=
  let len := Z.of_nat (length committee) in
  firstRoundIndex ← (if negb (height =? FirstHeight)
                     then m ← mod_u64 height len; Ok (0 +u m) else Ok 0);
  index ← mod_u64 ((firstRoundIndex +u round) -u FirstRound) len;
  index_at committee index.

Definition RoundRobinProposer (height : Height) (round : Round)
    (committee : list OperatorID) (netCfg : NetCfg) : result goerr OperatorID :=
  let committee := if negb (IsSorted committee) then merge_sort Z.le committee else committee in
  ethEpoch ← EstimatedEpochAtSlot (n_Beacon netCfg) height;
  let len := Z.of_nat (length committee) in
  firstRoundIndex ← (if negb (height =? FirstHeight)
                     then m ← mod_u64 height len; Ok (0 +u m) else Ok 0);
  index ← mod_u64 (((firstRoundIndex +u round) -u FirstRound) +u ethEpoch) len;
  index_at committee index.

Definition Proposer (height : Height) (round : Round)
    (committee : list OperatorID) (netCfg : NetCfg) : result goerr OperatorID :=
  boole ← BooleForkAtSlot netCfg height;
  if boole : bool then RoundRobinProposer height round committee netCfg
  else roundRobinProposerPreBooleFork height round committee.

(** ** The index *)
Section index.
Context (committee : list OperatorID).
Abbreviation len := (Z.of_nat (length committee)).
Hypothesis nonempty : 0 < len.
Hypothesis small : len ≤ max_u64.

(** The index without wrap-around: [k] is the offset added to the height. *)
Definition leader_at (height k : Z) : result goerr OperatorID :=
  index_at committee ((height + k) `mod` len).

Lemma first_index height :
  0 ≤ height →
  (if negb (height =? FirstHeight) then m ← mod_u64 height len; Ok (0 +u m) else Ok 0)
    = Ok (height `mod` len) :> result goerr Z.
Proof.
  intros Hh. unfold FirstHeight, mod_u64. destruct (Z.eqb_spec height 0) as [->|]; simpl.
  - done.
  - destruct (Z.eqb_spec len 0); [lia|]. simpl. f_equal. apply u64_small.
    pose proof (Z.mod_pos_bound height len nonempty). unfold is_u64. lia.
Qed.

Lemma preBoole_leader height round :
  0 ≤ height → FirstRound ≤ round → len + round ≤ max_u64 →
  roundRobinProposerPreBooleFork height round committee = leader_at height (round - FirstRound).
Proof.
  intros Hh Hr Hm. unfold roundRobinProposerPreBooleFork, leader_at, FirstRound in *. rewrite first_index by done.
  pose proof (Z.mod_pos_bound height len nonempty).
  cbn -[u64]. rewrite (u64_small (_ + round)) by (unfold is_u64; lia).
  rewrite u64_small by (unfold is_u64; lia). unfold mod_u64.
  destruct (Z.eqb_spec len 0); [lia|]. cbn. f_equal.
  rewrite <- (Z.add_mod_idemp_l height) by lia. f_equal. lia.
Qed.
End index.

Lemma index_at_elem {A} (l : list A) k :
  0 ≤ k < Z.of_nat (length l) → ∃ x, index_at l k = Ok x ∧ l !! Z.to_nat k = Some x.
Proof.
  intros Hk. unfold index_at. destruct (lookup_lt_is_Some_2 l (Z.to_nat k)) as [x Hx]; [lia|].
  rewrite Hx. eauto.
Qed.

(** The sorted committee is the same for every order of the committee. *)
Lemma IsSorted_spec l : IsSorted l = true ↔ Sorted Z.le l.
Proof.
  induction l as [|x [|y l] IH].
  - split; [constructor|done].
  - split; [repeat constructor|done].
  - change (IsSorted (x :: y :: l)) with ((x <=? y) && IsSorted (y :: l)).
    rewrite andb_true_iff, IH, Z.leb_le. split.
    + intros [? ?]. constructor; [done|]. by constructor.
    + inversion 1 as [|? ? ? Hd]; subst. by inversion Hd.
Qed.

Definition sorted_committee (committee : list OperatorID) : list OperatorID :=
  if negb (IsSorted committee) then merge_sort Z.le committee else committee.

Lemma sorted_committee_spec committee :
  sorted_committee committee ≡ₚ committee ∧ Sorted Z.le (sorted_committee committee).
Proof.
  unfold sorted_committee. destruct (IsSorted committee) eqn:E; simpl.
  - split; [done|]. by apply IsSorted_spec.
  - split; [apply merge_sort_Permutation|apply Sorted_merge_sort; apply _].
Qed.

Lemma sorted_committee_perm c c' : c ≡ₚ c' → sorted_committee c = sorted_committee c'.
Proof.
  intros Hp. destruct (sorted_committee_spec c) as [P1 S1].
  destruct (sorted_committee_spec c') as [P2 S2].
  apply (Sorted_unique Z.le); [done..|]. by rewrite P1, P2.
Qed.

Lemma RoundRobin_leader height round committee netCfg :
  0 < Z.of_nat (length committee) → 0 < SlotsPerEpoch (n_Beacon netCfg) →
  0 ≤ height → FirstRound ≤ round →
  Z.of_nat (length committee) + round + height ≤ max_u64 →
  RoundRobinProposer height round committee netCfg =
    leader_at (sorted_committee committee) height
      (round - FirstRound + height / SlotsPerEpoch (n_Beacon netCfg)).
Proof.
  intros Hl Hs Hh Hr Hm. unfold RoundRobinProposer. fold (sorted_committee committee).
  assert (length (sorted_committee committee) = length committee) as Hlen
    by apply Permutation_length, sorted_committee_spec.
  rewrite EstimatedEpochAtSlot_eq by done. cbn -[u64 mod_u64].
  unfold leader_at, FirstRound in *. rewrite first_index by (rewrite ?Hlen; lia). cbn -[u64 mod_u64].
  rewrite Hlen. set (n := Z.of_nat (length committee)) in *.
  pose proof (Z.mod_pos_bound height n Hl).
  assert (0 ≤ height / SlotsPerEpoch (n_Beacon netCfg) ≤ height) as He.
  { split; [apply Z.div_pos; lia|]. apply Z.div_le_upper_bound; nia. }
  rewrite (u64_small (_ + round)) by (unfold is_u64; lia).
  rewrite (u64_small (_ - 1)) by (unfold is_u64; lia).
  rewrite u64_small by (unfold is_u64; lia).
  unfold mod_u64. destruct (Z.eqb_spec n 0); [lia|]. cbn. f_equal.
  rewrite <- (Z.add_mod_idemp_l height) by lia. f_equal. lia.
Qed.

(** ** A rotation visits every member once *)
Lemma rotation_lookup {A} (l : list A) (s : Z) :
  0 < Z.of_nat (length l) →
  collect (λ k : nat, index_at l ((s + Z.of_nat k) `mod` Z.of_nat (length l))) (seq 0 (length l))
  = Ok (drop (Z.to_nat (s `mod` Z.of_nat (length l))) l ++
        take (Z.to_nat (s `mod` Z.of_nat (length l))) l).
Proof.
  intros Hl. set (n := Z.of_nat (length l)) in *. set (d := Z.to_nat (s `mod` n)).
  pose proof (Z.mod_pos_bound s n Hl) as Hb.
  apply collect_ok. apply Forall2_same_length_lookup. split.
  { rewrite length_seq, length_app, length_drop, length_take. lia. }
  intros i k y Hk Hy. apply lookup_seq in Hk as [-> Hi].
  assert ((s + Z.of_nat i) `mod` n =
    if decide (i < length l - d)%nat then Z.of_nat (d + i) else Z.of_nat (i - (length l - d)))%Z as Hmod.
  { rewrite <- Z.add_mod_idemp_l by lia. replace (s `mod` n) with (Z.of_nat d) by lia.
    destruct (decide _).
    - rewrite Z.mod_small; lia.
    - symmetry. apply Z.mod_unique with 1; lia. }
  simpl. unfold index_at. rewrite Hmod. destruct (decide _) as [Hlt|Hge]; rewrite Nat2Z.id.
  - rewrite lookup_app_l in Hy by (rewrite length_drop; lia).
    rewrite lookup_drop in Hy. by rewrite Hy.
  - rewrite lookup_app_r in Hy by (rewrite length_drop; lia).
    rewrite length_drop, lookup_take_lt in Hy by lia. by rewrite Hy.
Qed.

Lemma collect_ext {E A B} (f g : A → result E B) l :
  (∀ x, x ∈ l → f x = g x) → collect f l = collect g l.
Proof.
  induction l as [|x l IH]; intros Hfg; simpl; [done|].
  rewrite Hfg, IH by set_solver. done.
Qed.

Lemma leaders_rotate (c : list OperatorID) s n :
  0 < Z.of_nat (length c) → n = length c →
  ∃ leaders, collect (λ k : nat, index_at c ((s + Z.of_nat k) `mod` Z.of_nat (length c))) (seq 0 n)
    = Ok leaders ∧ leaders ≡ₚ c.
Proof.
  intros Hl ->. rewrite rotation_lookup by done. eexists. split; [done|].
  rewrite Permutation_app_comm. by rewrite take_drop.
Qed.

(** ** Properties *)

(** C25. Fair rotation: before and after the Boole fork, in as many consecutive
    rounds of a height as the committee has members, every member leads exactly
    once. *)
Theorem proposer_rotation height round committee netCfg :
  0 < Z.of_nat (length committee) → 0 < SlotsPerEpoch (n_Beacon netCfg) →
  0 ≤ height → FirstRound ≤ round →
  2 * Z.of_nat (length committee) + round + height ≤ max_u64 →
  ∃ leaders,
    collect (λ k : nat, Proposer height (round + Z.of_nat k) committee netCfg)
      (seq 0 (length committee)) = Ok leaders ∧ leaders ≡ₚ committee.
Proof.
  intros Hl Hs Hh Hr Hm. unfold Proposer, BooleForkAtSlot. rewrite EstimatedEpochAtSlot_eq by done.
  cbn -[Z.of_nat]. destruct (BooleForkAtEpoch _ _).
  - destruct (sorted_committee_spec committee) as [Hp _]. pose proof (Permutation_length Hp) as Hlen.
    destruct (leaders_rotate (sorted_committee committee)
      (height + (round - FirstRound + height / SlotsPerEpoch (n_Beacon netCfg)))
      (length committee)) as (leaders & Hc & HP); [lia|done|].
    exists leaders. split; [|by rewrite HP]. rewrite <- Hc. apply collect_ext.
    intros k [_ Hk]%elem_of_seq. rewrite RoundRobin_leader by lia. unfold leader_at. do 2 f_equal. lia.
  - destruct (leaders_rotate committee (height + (round - FirstRound)) (length committee))
      as (leaders & Hc & HP); [done..|].
    exists leaders. split; [|done]. rewrite <- Hc. apply collect_ext.
    intros k [_ Hk]%elem_of_seq. rewrite preBoole_leader by (unfold FirstRound in *; lia). unfold leader_at. do 2 f_equal. lia.
Qed.
Definition demo_net (boole : Epoch) : NetCfg :=
  mkNetCfg (mkBeacon "demo" 12000000000 32 256 512 4 16 16 [] 0 [] ∅) [] [] boole.
Lemma proposer_rotation_witness :
  ∃ leaders, collect (λ k : nat, Proposer 70 (1 + Z.of_nat k) [4; 9; 2; 7] (demo_net 1)) (seq 0 4)
    = Ok leaders ∧ leaders ≡ₚ [4; 9; 2; 7].
Proof.
  apply (proposer_rotation 70 1 [4; 9; 2; 7] (demo_net 1)); unfold FirstRound, max_u64; simpl; lia.
Defined.

(** After the Boole fork the leader does not depend on the order in which the
    committee is listed, so nodes that hold the same committee agree on it. *)
Theorem proposer_order_independent height round committee committee' netCfg :
  committee ≡ₚ committee' →
  RoundRobinProposer height round committee netCfg =
  RoundRobinProposer height round committee' netCfg.
Proof.
  intros Hp. unfold RoundRobinProposer.
  change (if negb (IsSorted committee) then merge_sort Z.le committee else committee)
    with (sorted_committee committee).
  change (if negb (IsSorted committee') then merge_sort Z.le committee' else committee')
    with (sorted_committee committee').
  by rewrite (sorted_committee_perm _ _ Hp).
Qed.

(** The first leader moves by one member from a height to the next, and by two
    when the next height starts an epoch, as documented. *)
Theorem proposer_next_height height round committee netCfg :
  let spe := SlotsPerEpoch (n_Beacon netCfg) in
  0 < Z.of_nat (length committee) → 0 < spe → 0 ≤ height → FirstRound ≤ round →
  Z.of_nat (length committee) + round + height + 2 ≤ max_u64 →
  RoundRobinProposer (height + 1) round committee netCfg =
  RoundRobinProposer height (round + (if (height + 1) `mod` spe =? 0 then 2 else 1)) committee netCfg.
Proof.
  intros spe Hl Hs Hh Hr Hm.
  assert ((height + 1) / spe = height / spe + if (height + 1) `mod` spe =? 0 then 1 else 0) as Hdiv.
  { pose proof (Z.div_mod height spe ltac:(lia)). pose proof (Z.mod_pos_bound height spe Hs).
    pose proof (Z.div_mod (height + 1) spe ltac:(lia)) as H1.
    pose proof (Z.mod_pos_bound (height + 1) spe Hs).
    destruct (Z.eqb_spec ((height + 1) `mod` spe) 0) as [He|He]; nia. }
  rewrite !RoundRobin_leader by (fold spe; destruct (_ =? _); lia). unfold leader_at. fold spe.
  rewrite Hdiv. do 2 f_equal. destruct (_ =? _); lia.
Qed.

