(* ===== verification/RoundTimer.v ===== *)
(** * Round timers (protocol/v2/qbft/roundtimer/timer.go)

    When rounds time out, which round is expected at a time, how far an
    instance of a role goes, and the concurrent timer that delivers the
    timeouts.  Durations are [int64] nanoseconds with wrap-around. *)

From stdpp Require Import base list gmap numbers strings relations.
From S2P Require Import Prelude SpecTypes Network.

Definition Second : Duration := 1000000000.
Definition Minute : Duration := 60 * Second.

Abbreviation QuickTimeoutThreshold := 8 (only parsing).
Abbreviation QuickTimeout := (2 * Second) (only parsing).
Abbreviation DefaultProposerQuickTimeout := (1500 * 1000000) (only parsing).
Abbreviation SlowTimeout := (2 * Minute) (only parsing).

(** utils/casts *)
Definition DurationFromUint64 (t : Z) : Duration := if max_i64 <? t then max_i64 else t.

Definition MaxRound (role : RunnerRole) : Round * bool :=
  match role with
  | RoleCommittee | RoleAggregatorCommittee | RoleAggregator => (12, true)
  | RoleProposer => (2, true)
  | RoleSyncCommitteeContribution => (6, true)
  | _ => (0, false)
  end.

(** [specqbft.CutoffRound] is a constant of ssv-spec. *)
Definition CutOffRoundFor (CutOffRound : Round) (role : RunnerRole) : Round :=
  let '(maxRound, ok) := MaxRound role in
  if ok && (maxRound +u 1 <? CutOffRound) then maxRound +u 1 else CutOffRound.

Definition defaultQuickTimeoutForRole (role : RunnerRole) : Duration :=
  if bool_decide (role = RoleProposer) then DefaultProposerQuickTimeout else QuickTimeout.

Definition round1HeadStart (role : RunnerRole) (intervalDuration : Duration) : Duration :=
  match role with
  | RoleCommittee => intervalDuration
  | RoleAggregator | RoleSyncCommitteeContribution | RoleAggregatorCommittee => 2 *i intervalDuration
  | _ => 0
  end.

Definition roundTimeoutForRound (role : RunnerRole) (intervalDuration quick : Duration)
    (round : Round) : Duration :=
  let headStart := round1HeadStart role intervalDuration in
  if round <=? QuickTimeoutThreshold then
    headStart +i (DurationFromUint64 round *i quick)
  else
    let quickPortion := DurationFromUint64 QuickTimeoutThreshold *i quick in
    let slowPortion := DurationFromUint64 (round -u QuickTimeoutThreshold) *i SlowTimeout in
    (headStart +i quickPortion) +i slowPortion.

Definition EstimatedRoundAt (role : RunnerRole) (intervalDuration timeIntoSlot : Duration) : Round :=
  let elapsed := timeIntoSlot -i round1HeadStart role intervalDuration in
  if elapsed <? 0 then FirstRound
  else
    let quick := defaultQuickTimeoutForRole role in
    let quickEnd := DurationFromUint64 QuickTimeoutThreshold *i quick in
    if elapsed <? quickEnd then FirstRound +u u64 (i64 (Z.quot elapsed quick))
    else
      let slowElapsed := elapsed -i quickEnd in
      (FirstRound +u QuickTimeoutThreshold) +u u64 (i64 (Z.quot slowElapsed SlowTimeout)).

Abbreviation RoundRelativeRole role := (bool_decide (role = RoleProposer)) (only parsing).

(** [t.quickTimeout()] of a timer with the legacy flag. *)
Definition quickTimeout (role : RunnerRole) (legacyProposerRoundTimeout : bool) : Duration :=
  if bool_decide (role = RoleProposer) && legacyProposerRoundTimeout then QuickTimeout
  else defaultQuickTimeoutForRole role.

(** [t.RoundTimeout(round)] evaluated at the time [now]. *)
Definition RoundTimeout (b : Beacon) (role : RunnerRole) (legacy : bool) (slot : Slot)
    (now : Time) (round : Round) : result goerr Duration :=
  if RoundRelativeRole role then
    Ok (if round <=? QuickTimeoutThreshold then quickTimeout role legacy else SlowTimeout)
  else
    dutyStartTime ← SlotStartTime b slot;
    interval ← IntervalDuration b slot;
    Ok (time_Sub (dutyStartTime + roundTimeoutForRound role interval (quickTimeout role legacy) round)
          now).

(** ** The timer

    Several goroutines share a timer: callers of [TimeoutForRound] and [Stop],
    and the goroutines started by [time.AfterFunc].  Each of them checks or
    cancels the context first and then runs a section under the mutex; the steps
    below are these sections, so every interleaving of them is a run. *)
Record Timer := mkTimer {
  t_cancelled : bool;           (* ctx.Err() != nil *)
  t_round : Round;
  t_armed : option Round;       (* the pending time.AfterFunc *)
  t_entering : list Round;      (* TimeoutForRound calls past their context check *)
  t_fired : list Round;         (* callbacks that started *)
  t_checked : list Round;       (* callbacks past their context check *)
  t_armings : list Round;       (* what has been armed so far, newest first *)
  t_delivered : list Round;     (* the calls of t.callback, newest first *)
}.

(** [New] *)
Definition NewTimer : Timer := mkTimer false NoRound None [] [] [] [] [].

Inductive tstep : Timer → Timer → Prop :=
(* TimeoutForRound: the context check *)
| ts_enter c r a en fi ch ar de round :
    c = false →
    tstep (mkTimer c r a en fi ch ar de) (mkTimer c r a (round :: en) fi ch ar de)
(* TimeoutForRound: stop the previous timer and arm the new one *)
| ts_arm c r a en1 en2 fi ch ar de round :
    tstep (mkTimer c r a (en1 ++ round :: en2) fi ch ar de)
          (mkTimer c round (Some round) (en1 ++ en2) fi ch (round :: ar) de)
(* the runtime starts the callback of the pending timer *)
| ts_fire c r round en fi ch ar de :
    tstep (mkTimer c r (Some round) en fi ch ar de)
          (mkTimer c r None en (round :: fi) ch ar de)
(* callback: the context check *)
| ts_check_ok r a en fi1 fi2 ch ar de round :
    tstep (mkTimer false r a en (fi1 ++ round :: fi2) ch ar de)
          (mkTimer false r a en (fi1 ++ fi2) (round :: ch) ar de)
| ts_check_cancelled r a en fi1 fi2 ch ar de round :
    tstep (mkTimer true r a en (fi1 ++ round :: fi2) ch ar de)
          (mkTimer true r a en (fi1 ++ fi2) ch ar de)
(* callback: the stale-round guard under the lock *)
| ts_stale c r a en fi ch1 ch2 ar de round :
    r ≠ round →
    tstep (mkTimer c r a en fi (ch1 ++ round :: ch2) ar de)
          (mkTimer c r a en fi (ch1 ++ ch2) ar de)
| ts_deliver c r a en fi ch1 ch2 ar de round :
    r = round →
    tstep (mkTimer c r a en fi (ch1 ++ round :: ch2) ar de)
          (mkTimer c r a en fi (ch1 ++ ch2) ar (round :: de))
(* Stop: cancel the context, then stop the timer *)
| ts_cancel c r a en fi ch ar de :
    tstep (mkTimer c r a en fi ch ar de) (mkTimer true r a en fi ch ar de)
| ts_stop_timer r a en fi ch ar de :
    tstep (mkTimer true r a en fi ch ar de) (mkTimer true r None en fi ch ar de).

(** How often a round occurs. *)
Definition occurs (round : Round) (l : list Round) : nat := length (filter (eq round) l).

Lemma occurs_app x l l' : occurs x (l ++ l') = (occurs x l + occurs x l')%nat.
Proof. unfold occurs. by rewrite filter_app, length_app. Qed.
Lemma occurs_cons x y l : occurs x (y :: l) = ((if decide (x = y) then 1 else 0) + occurs x l)%nat.
Proof. unfold occurs. rewrite filter_cons. by destruct (decide (x = y)). Qed.

Lemma occurs_nil x : occurs x [] = 0%nat.
Proof. done. Qed.
Create Rewrite HintDb occurs.
#[local] Hint Rewrite occurs_app occurs_cons occurs_nil : occurs.

(** Every callback on its way, and every delivery, is a distinct arming. *)
Record TimerInv (t : Timer) : Prop := {
  timer_account round :
    (occurs round (t_delivered t) + occurs round (t_checked t) + occurs round (t_fired t)
     + occurs round (option_list (t_armed t)) ≤ occurs round (t_armings t))%nat;
  timer_current : t_armings t ≠ [] → head (t_armings t) = Some (t_round t);
}.

Lemma NewTimer_inv : TimerInv NewTimer.
Proof. by constructor. Qed.

Lemma tstep_inv t t' : tstep t t' → TimerInv t → TimerInv t'.
Proof.
  intros Hs [Ha Hc].
  destruct Hs; constructor; simpl in *; try done; intros round'; specialize (Ha round');
    autorewrite with occurs in *; lia.
Qed.

Lemma timer_run_inv t : rtc tstep NewTimer t → TimerInv t.
Proof.
  assert (∀ t0, rtc tstep t0 t → TimerInv t0 → TimerInv t) as H
    by (induction 1; eauto using tstep_inv).
  intros Hr. eapply H; [done|]. apply NewTimer_inv.
Qed.

(** Cancelling lasts, and a cancelled timer lets no further callback pass. *)
Definition silenced (t : Timer) : Prop := t_cancelled t = true ∧ t_checked t = [].

Lemma silenced_step t t' : tstep t t' → silenced t →
  silenced t' ∧ t_delivered t' = t_delivered t.
Proof.
  intros Hs [Hc He]. destruct Hs; simpl in *; try done.
  - by destruct ch1.
  - by destruct ch1.
Qed.

(** ** Durations without overflow *)
Section durations.
Context (role : RunnerRole) (interval : Duration).

Definition head_start : Z :=
  match role with
  | RoleCommittee => interval
  | RoleAggregator | RoleSyncCommitteeContribution | RoleAggregatorCommittee => 2 * interval
  | _ => 0
  end.

(** The piecewise linear timeout of a round. *)
Definition timeout_at (quick : Z) (round : Z) : Z :=
  head_start + (if round <=? 8 then round * quick else 8 * quick + (round - 8) * SlowTimeout).

Hypothesis interval_ok : 0 ≤ interval ≤ 2 ^ 60.

Lemma head_start_exact : round1HeadStart role interval = head_start ∧ 0 ≤ head_start ≤ 2 ^ 61.
Proof using interval_ok.
  unfold round1HeadStart, head_start.
  destruct role; split; try lia; apply i64_small; unfold is_i64, max_i64; lia.
Qed.

Lemma quick_bounds : 0 < defaultQuickTimeoutForRole role ≤ QuickTimeout.
Proof using Type.
  unfold defaultQuickTimeoutForRole, Second.
  destruct (bool_decide _); lia.
Qed.

Lemma roundTimeout_exact quick round :
  0 < quick ≤ QuickTimeout → 0 ≤ round → round ≤ 2 ^ 20 →
  roundTimeoutForRound role interval quick round = timeout_at quick round.
Proof using interval_ok.
  intros Hq Hr Hm. unfold roundTimeoutForRound, timeout_at.
  destruct head_start_exact as [-> Hh].
  unfold Minute, Second, DurationFromUint64 in *.
  assert (∀ x, 0 ≤ x ≤ 2 ^ 62 → i64 x = x) as Hi
    by (intros; apply i64_small; unfold is_i64, max_i64; lia).
  destruct (Z.leb_spec round 8).
  - destruct (Z.ltb_spec max_i64 round); [unfold max_i64 in *; lia|].
    rewrite (Hi (round * quick)) by nia. rewrite Hi by nia. done.
  - rewrite (u64_small (round - 8)) by (unfold is_u64, max_u64; lia).
    destruct (Z.ltb_spec max_i64 8); [unfold max_i64 in *; lia|].
    destruct (Z.ltb_spec max_i64 (round - 8)); [unfold max_i64 in *; lia|].
    rewrite (Hi (8 * quick)) by nia. rewrite (Hi ((round - 8) * _)) by nia.
    rewrite (Hi (head_start + 8 * quick)) by nia. rewrite Hi by nia. lia.
Qed.

Lemma estimated_exact t :
  0 ≤ t ≤ 2 ^ 55 →
  EstimatedRoundAt role interval t =
    let elapsed := t - head_start in
    let quick := defaultQuickTimeoutForRole role in
    if elapsed <? 0 then 1
    else if elapsed <? 8 * quick then 1 + elapsed / quick
    else 9 + (elapsed - 8 * quick) / SlowTimeout.
Proof using interval_ok.
  intros Ht. unfold EstimatedRoundAt, FirstRound.
  destruct head_start_exact as [-> Hh]. pose proof quick_bounds as Hq.
  set (quick := defaultQuickTimeoutForRole role) in *.
  unfold Minute, Second in *.
  assert (∀ x, - 2 ^ 62 ≤ x ≤ 2 ^ 62 → i64 x = x) as Hi
    by (intros; apply i64_small; unfold is_i64, max_i64; lia).
  assert (∀ x, 0 ≤ x ≤ 2 ^ 62 → u64 x = x) as Hu
    by (intros; apply u64_small; unfold is_u64, max_u64; lia).
  assert (DurationFromUint64 8 = 8) as -> by done.
  rewrite (Hi (t - head_start)) by lia. rewrite (Hi (8 * quick)) by lia. cbv zeta.
  destruct (Z.ltb_spec (t - head_start) 0); [done|].
  destruct (Z.ltb_spec (t - head_start) (8 * quick)).
  - rewrite Z.quot_div_nonneg by lia.
    assert (0 ≤ (t - head_start) / quick ≤ 2 ^ 55)
      by (split; [apply Z.div_pos|apply Z.div_le_upper_bound]; nia).
    rewrite Hi, (Hu ((t - head_start) / quick)), Hu by lia. lia.
  - rewrite (Hi (t - head_start - 8 * quick)) by lia. rewrite Z.quot_div_nonneg by lia.
    set (q := (t - head_start - 8 * quick) / _).
    assert (0 ≤ q ≤ 2 ^ 55)
      by (unfold q; split; [apply Z.div_pos|apply Z.div_le_upper_bound]; nia).
    rewrite (Hu (1 + 8)) by lia. rewrite Hi, (Hu q), Hu by lia. lia.
Qed.

(** The estimated round is the one whose time it is. *)
Lemma estimated_between t :
  0 ≤ t ≤ 2 ^ 55 →
  let r := EstimatedRoundAt role interval t in
  let quick := defaultQuickTimeoutForRole role in
  1 ≤ r ≤ 2 ^ 20 ∧ t < timeout_at quick r ∧ (1 < r → timeout_at quick (r - 1) ≤ t).
Proof using interval_ok.
  intros Ht. cbv zeta. rewrite estimated_exact by done. pose proof quick_bounds as Hq.
  destruct head_start_exact as [_ Hh].
  set (quick := defaultQuickTimeoutForRole role) in *. cbv zeta. unfold timeout_at.
  unfold Minute, Second in *.
  destruct (Z.ltb_spec (t - head_start) 0); [simpl; lia|].
  destruct (Z.ltb_spec (t - head_start) (8 * quick)).
  - set (q := (t - head_start) / quick).
    pose proof (Z.div_mod (t - head_start) quick ltac:(lia)) as Hdm.
    pose proof (Z.mod_pos_bound (t - head_start) quick ltac:(lia)). fold q in Hdm.
    assert (0 ≤ q < 8) by nia.
    destruct (Z.leb_spec (1 + q) 8), (Z.leb_spec (1 + q - 1) 8); nia.
  - set (q := (t - head_start - 8 * quick) / (2 * (60 * 1000000000))).
    pose proof (Z.div_mod (t - head_start - 8 * quick) (2 * (60 * 1000000000)) ltac:(lia)) as Hdm.
    pose proof (Z.mod_pos_bound (t - head_start - 8 * quick) (2 * (60 * 1000000000)) ltac:(lia)).
    fold q in Hdm. assert (0 ≤ q < 2 ^ 19) by lia.
    destruct (Z.leb_spec (9 + q) 8), (Z.leb_spec (9 + q - 1) 8); lia.
Qed.
End durations.

(** ** Properties *)

(** [EstimatedRoundAt] inverts [roundTimeoutForRound]: for every role, the round
    it estimates at a time into the slot (up to a year) has not timed out yet and
    the round before it has. *)
Theorem estimated_round_aligned role interval t :
  0 ≤ interval ≤ 2 ^ 60 → 0 ≤ t ≤ 2 ^ 55 →
  let r := EstimatedRoundAt role interval t in
  let quick := defaultQuickTimeoutForRole role in
  FirstRound ≤ r ∧ t < roundTimeoutForRound role interval quick r ∧
  (FirstRound < r → roundTimeoutForRound role interval quick (r - 1) ≤ t).
Proof.
  intros Hi Ht. cbv zeta. pose proof (estimated_between role interval Hi t Ht) as Hb.
  cbv zeta in Hb. destruct Hb as (Hr & H1 & H2). pose proof (quick_bounds role).
  unfold FirstRound. rewrite !roundTimeout_exact by lia. split; [lia|]. split; [done|]. auto.
Qed.

(** Timeouts come in the order of the rounds: a later round times out strictly
    later into the slot. *)
Theorem round_timeouts_increase role interval quick r r' :
  0 ≤ interval ≤ 2 ^ 60 → 0 < quick ≤ QuickTimeout → 0 ≤ r < r' → r' ≤ 2 ^ 20 →
  roundTimeoutForRound role interval quick r < roundTimeoutForRound role interval quick r'.
Proof.
  intros Hi Hq Hr Hm. rewrite !roundTimeout_exact by lia. unfold timeout_at, Minute, Second.
  destruct (Z.leb_spec r 8), (Z.leb_spec r' 8); nia.
Qed.

(** An instance never works in a round that message validation refuses: every
    round below the cutoff of a role with a consensus phase is at most its maximal
    round, and the cutoff never exceeds the cluster-wide one. *)
Theorem cutoff_within_max_round CutOffRound role :
  CutOffRoundFor CutOffRound role ≤ CutOffRound ∧
  ((MaxRound role).2 = true → (MaxRound role).1 + 1 < CutOffRound →
   ∀ round, round < CutOffRoundFor CutOffRound role ↔ round ≤ (MaxRound role).1).
Proof.
  unfold CutOffRoundFor. destruct (MaxRound role) as [m ok] eqn:E. simpl.
  assert (u64 (m + 1) = m + 1) as Hu.
  { apply u64_small. unfold is_u64, max_u64. destruct role; injection E as <- <-; lia. }
  rewrite Hu. split.
  - destruct (ok && _) eqn:Hc; [|lia]. apply andb_true_iff in Hc as [_ Hc%Z.ltb_lt]. lia.
  - intros -> Hlt round. simpl. rewrite (proj2 (Z.ltb_lt _ _) Hlt). lia.
Qed.

(** C26. Timeouts are not delivered twice nor late: in every run of the timer, each
    round is delivered at most as often as it was armed, and a delivered round is
    the most recently armed one, whatever the interleaving of [TimeoutForRound],
    [Stop] and the callbacks. *)
Theorem timer_delivers_current t t' :
  rtc tstep NewTimer t → tstep t t' →
  (∀ round, occurs round (t_delivered t') ≤ occurs round (t_armings t'))%nat ∧
  (t_delivered t' ≠ t_delivered t →
   ∃ round, t_delivered t' = round :: t_delivered t ∧ head (t_armings t) = Some round).
Proof.
  intros Hr Hs. pose proof (timer_run_inv t Hr) as Ht.
  pose proof (tstep_inv t t' Hs Ht) as [Ha' _]. split.
  { intros round. specialize (Ha' round). lia. }
  destruct Ht as [Ha Hc]. destruct Hs; simpl in *; try done. intros _. subst.
  eexists. split; [reflexivity|]. apply Hc. intros ->.
  specialize (Ha round). autorewrite with occurs in Ha. rewrite decide_True in Ha by done. lia.
Qed.
Lemma timer_delivers_current_witness :
  ∃ t t', rtc tstep NewTimer t ∧ tstep t t' ∧ t_delivered t' = [2] ∧
    (occurs 2 (t_delivered t') ≤ occurs 2 (t_armings t'))%nat.
Proof.
  exists (mkTimer false 2 None [] [] [2] [2] []), (mkTimer false 2 None [] [] [] [2] [2]).
  assert (rtc tstep NewTimer (mkTimer false 2 None [] [] [2] [2] [])) as Hr.
  { eapply rtc_l; [apply (ts_enter false NoRound None [] [] [] [] [] 2 eq_refl)|].
    eapply rtc_l; [apply (ts_arm false NoRound None [] [] [] [] [] [] 2)|].
    eapply rtc_l; [apply (ts_fire false 2 2)|].
    eapply rtc_l; [apply (ts_check_ok 2 None [] [] [])|]. apply rtc_refl. }
  assert (tstep (mkTimer false 2 None [] [] [2] [2] []) (mkTimer false 2 None [] [] [] [2] [2])) as Hs
    by apply (ts_deliver false 2 None [] [] [] [] [2] [] 2 eq_refl).
  split; [exact Hr|]. split; [exact Hs|]. split; [reflexivity|].
  exact (proj1 (timer_delivers_current _ _ Hr Hs) 2).
Defined.

(** A stopped timer falls silent: once its context is cancelled and no callback is
    past its context check, it never delivers again. *)
Theorem timer_silent_after_stop t t' :
  t_cancelled t = true → t_checked t = [] → rtc tstep t t' → t_delivered t' = t_delivered t.
Proof.
  intros Hc He Hr. assert (silenced t) as Hs by by split. clear Hc He.
  induction Hr as [|t1 t2 t3 Hstep _ IH]; [done|].
  destruct (silenced_step _ _ Hstep Hs) as [Hs2 <-]. auto.
Qed.
