(* ===== verification/Subnets.v ===== *)
(** * Subnets and topics (network/commons/subnets.go)

    The 128 gossip subnets: their topic names before and after the Boole fork,
    the subnet of a committee, the topic whitelist around the fork, and the
    bitset of subnets a node subscribes to. *)

From stdpp Require Import base list gmap numbers strings sorting.
From Stdlib Require Import Strings.Byte Strings.Ascii.
From Stdlib Require Import Numbers.DecimalString Numbers.DecimalN.
From S2P Require Import Prelude Sha256 SpecTypes Network.
Open Scope string_scope.
Open Scope list_scope.
Open Scope Z_scope.

(** ** Go's string functions *)
Fixpoint TrimPrefix_opt (p s : string) : option string :=
  match p, s with
  | EmptyString, _ => Some s
  | String c p', String d s' => if decide (c = d) then TrimPrefix_opt p' s' else None
  | _, _ => None
  end.
Definition HasPrefix (s p : string) : bool := bool_decide (is_Some (TrimPrefix_opt p s)).
Definition TrimPrefix (s p : string) : string := default s (TrimPrefix_opt p s).

(** [strings.Cut] on one character. *)
Fixpoint cut (c : ascii) (s : string) : option (string * string) :=
  match s with
  | EmptyString => None
  | String d s' =>
      if decide (d = c) then Some (EmptyString, s')
      else '(a, b) ← cut c s'; Some (String d a, b)
  end.
Fixpoint SplitN (s : string) (c : ascii) (n : nat) : list string :=
  match n with
  | O => []
  | S O => [s]
  | S n' => match cut c s with
            | None => [s]
            | Some (a, b) => a :: SplitN b c n'
            end
  end.

(** [fmt.Sprintf "%d"] and [strconv.ParseUint(s, 10, 64)]. *)
Definition Sprint_d (n : Z) : string := NilEmpty.string_of_uint (N.to_uint (Z.to_N n)).
Definition ParseUint (s : string) : result string Z :=
  if decide (s = "") then Err "invalid syntax"
  else match NilEmpty.uint_of_string s with
       | None => Err "invalid syntax"
       | Some d => let n := Z.of_N (N.of_uint d) in
                   if decide (max_u64 < n) then Err "value out of range" else Ok n
       end.

(** ** Topics *)
Abbreviation SubnetsCount := 128 (only parsing).
Definition byteCount : nat := Z.to_nat (SubnetsCount / 8).
Abbreviation UnknownSubnetId := (max_u64).
Definition UnknownSubnet : string := "unknown".
Definition topicPrefix : string := "ssv.v2".
Definition topicRoot : string := "/ssv".
Definition booleTopicFork : string := "boole".

Definition SubnetTopicID (subnet : Z) : string :=
  if decide (subnet = UnknownSubnetId) then UnknownSubnet else Sprint_d subnet.

Abbreviation GetTopicFullName baseName := (topicPrefix +:+ "." +:+ baseName) (only parsing).

Definition BooleTopic (networkName : string) (subnet : Z) : string :=
  if decide (subnet = UnknownSubnetId)
  then topicRoot +:+ "/" +:+ networkName +:+ "/" +:+ booleTopicFork +:+ "/" +:+ UnknownSubnet
  else topicRoot +:+ "/" +:+ networkName +:+ "/" +:+ booleTopicFork +:+ "/" +:+ Sprint_d subnet.

Definition slash : ascii := "/"%char.

Definition ParseTopicSubnet (topicName : string) : result string (Z * bool) :=
  if HasPrefix topicName (topicPrefix +:+ ".") then
    let trimmed := TrimPrefix topicName (topicPrefix +:+ ".") in
    subnet ← ParseUint trimmed;
    Ok (subnet, false)
  else if HasPrefix topicName (topicRoot +:+ "/") then
    let remainder := TrimPrefix topicName (topicRoot +:+ "/") in
    match SplitN remainder slash 3 with
    | [_; p1; p2] =>
        if bool_decide (p1 ≠ booleTopicFork) || bool_decide (p2 = "")
        then Err "invalid topic format"
        else subnet ← ParseUint p2; Ok (subnet, true)
    | _ => Err "invalid topic format"
    end
  else Err "invalid topic format".

Definition AlanCommitteeSubnet (cid : list byte) : Z :=
  be_word cid `mod` SubnetsCount.

(** binary.LittleEndian.PutUint64/PutUint32 *)
Definition le_bytes (n : nat) (z : Z) : list byte := rev (be_bytes n z).

(** The hash of an operator ID, as a number (big.Int.SetBytes of the hash of the
    eight little-endian bytes). *)
Definition operator_hash (id : Z) : Z := be_word (sha256 (le_bytes 8 id)).

(** One turn of the loop over committee[1:]. *)
Definition lowest_step (lowest id : Z) : Z :=
  let hashNum := operator_hash id in
  if hashNum <? lowest then hashNum else lowest.

Definition BooleCommitteeSubnet (committee : list Z) : Z :=
  match committee with
  | [] => UnknownSubnetId
  | id0 :: rest => foldl lowest_step (operator_hash id0) rest `mod` SubnetsCount
  end.

(** The loop of [Topics]; [name] is netCfg.SSV.Name. *)
Definition subnet_numbers : list Z := Z.of_nat <$> seq 0 (Z.to_nat SubnetsCount).
#[global] Arguments subnet_numbers : simpl never.
Definition topics_loop (name : string) (includeAlan : bool) : list string :=
  mjoin ((λ subnet,
    (if includeAlan then [GetTopicFullName (SubnetTopicID subnet)] else [])
      ++ [BooleTopic name subnet]) <$> subnet_numbers).
Definition Topics (name : string) (netCfg : NetCfg) (slot : Z) : result goerr (list string) :=
  boole ← BooleForkAtSlot netCfg slot;
  includeAlan ← (if negb boole then Ok true else InBooleTransitionWindow netCfg slot);
  Ok (topics_loop name includeAlan).

(** ** The subscription bitset: [byteCount] bytes *)
Abbreviation Subnets := (list Z).
Definition wf_byte (b : Z) : Prop := 0 ≤ b < 256.
Definition wf_Subnets (s : Subnets) : Prop := length s = byteCount ∧ Forall wf_byte s.

Definition ZeroSubnets : Subnets := replicate byteCount 0x00.
Definition AllSubnets : Subnets := replicate byteCount 0xFF.

Definition byte_at (s : Subnets) (i : Z) : Z := default 0 (s !! Z.to_nat i).

(** Go's and-not [&^] and shift of the byte 1 (bitIndex < 8). *)
Definition IsSet (s : Subnets) (i : Z) : bool :=
  if SubnetsCount <=? i then false
  else let byteIndex := i / 8 in
       let bitIndex := i `mod` 8 in
       negb (Z.land (byte_at s byteIndex) (Z.shiftl 1 bitIndex) =? 0).

Definition subnet_Set (s : Subnets) (i : Z) : Subnets :=
  if SubnetsCount <=? i then s
  else let byteIndex := i / 8 in
       let bitIndex := i `mod` 8 in
       <[Z.to_nat byteIndex := Z.lor (byte_at s byteIndex) (Z.shiftl 1 bitIndex)]> s.

Definition subnet_Clear (s : Subnets) (i : Z) : Subnets :=
  if SubnetsCount <=? i then s
  else let byteIndex := i / 8 in
       let bitIndex := i `mod` 8 in
       <[Z.to_nat byteIndex := Z.ldiff (byte_at s byteIndex) (Z.shiftl 1 bitIndex)]> s.

(** [SubnetList] walks the bytes and their eight bits; the guard on [byteIdx]
    never breaks the loop, as the array has [byteCount] bytes. *)
Fixpoint byte_list (byteIdx : nat) (b : Z) (bits : list nat) : list Z :=
  match bits with
  | [] => []
  | bitIdx :: bits' =>
      let bit := Z.shiftl 1 (Z.of_nat bitIdx) in
      (if Z.land b bit =? bit then [Z.of_nat byteIdx * 8 + Z.of_nat bitIdx] else [])
        ++ byte_list byteIdx b bits'
  end.
Fixpoint SubnetList_from (byteIdx : nat) (s : Subnets) : list Z :=
  match s with
  | [] => []
  | b :: s' =>
      if SubnetsCount <=? Z.of_nat byteIdx then []
      else byte_list byteIdx b (seq 0 8) ++ SubnetList_from (S byteIdx) s'
  end.
Definition SubnetList (s : Subnets) : list Z := SubnetList_from 0 s.

(** math/bits.OnesCount8 *)
Definition OnesCount8 (b : Z) : Z :=
  Z.of_nat (length (filter (λ i, Z.testbit b (Z.of_nat i) = true) (seq 0 8))).
Definition ActiveCount (s : Subnets) : Z := foldl (λ active b, active + OnesCount8 b) 0 s.

Definition ToMap (s : Subnets) : gmap Z bool :=
  foldl (λ m i, <[i := IsSet s i]> m) ∅ subnet_numbers.

Fixpoint shared_loop (s other : Subnets) (n : Z) (shared : list Z) (todo : list Z) : list Z :=
  match todo with
  | [] => shared
  | i :: todo' =>
      if IsSet s i && IsSet other i then
        let shared' := shared ++ [i] in
        if Z.of_nat (length shared') =? n then shared'
        else shared_loop s other n shared' todo'
      else shared_loop s other n shared todo'
  end.
Definition SharedSubnetsN (s other : Subnets) (n : Z) : list Z :=
  shared_loop s other (if n <=? 0 then SubnetsCount else n) [] subnet_numbers.
Definition SharedSubnets (s other : Subnets) : list Z := SharedSubnetsN s other 0.

Definition DiffSubnets (s other : Subnets) : Subnets * Subnets :=
  (zip_with Z.ldiff other s, zip_with Z.ldiff s other).

(** encoding/hex *)
Definition hex_digit (d : Z) : ascii :=
  ascii_of_N (Z.to_N (if d <? 10 then 48 + d else 87 + d)).
Fixpoint StringHex (s : Subnets) : string :=
  match s with
  | [] => ""
  | b :: s' => String (hex_digit (Z.shiftr b 4)) (String (hex_digit (Z.land b 15)) (StringHex s'))
  end.
Definition from_hex (c : ascii) : option Z :=
  let n := Z.of_N (N_of_ascii c) in
  if (48 <=? n) && (n <=? 57) then Some (n - 48)
  else if (97 <=? n) && (n <=? 102) then Some (n - 87)
  else if (65 <=? n) && (n <=? 70) then Some (n - 55)
  else None.
Fixpoint hex_DecodeString (s : string) : result string (list Z) :=
  match s with
  | EmptyString => Ok []
  | String c (String d s') =>
      match from_hex c, from_hex d with
      | Some h, Some l => r ← hex_DecodeString s'; Ok (Z.lor (Z.shiftl h 4) l :: r)
      | _, _ => Err "invalid byte"
      end
  | String _ EmptyString => Err "odd length hex string"
  end.

Definition SubnetsFromString (subnetsStr : string) : result string Subnets :=
  if decide (String.length subnetsStr = 0%nat) then Ok ZeroSubnets
  else
    data ← hex_DecodeString (TrimPrefix subnetsStr "0x");
    if decide (length data ≠ byteCount) then Err "invalid subnets length" else Ok data.

(** ** Committee identifiers (protocol/v2/types/ssvshare.go)

    [slices.Sort] sorts the caller's slice in place: the first component is what
    the argument holds afterwards. *)
Definition sort_ids (ids : list Z) : list Z := merge_sort Z.le ids.
Definition ComputeCommitteeID (committee : list Z) : list Z * list byte :=
  let sorted := sort_ids committee in
  let bs := mjoin ((λ v, le_bytes 4 (v `mod` 2 ^ 32)) <$> sorted) in
  (sorted, sha256 bs).

#[local] Opaque sha256.
#[local] Opaque operator_hash.

(** ** Topic names *)
Lemma TrimPrefix_opt_app p s : TrimPrefix_opt p (p +:+ s) = Some s.
Proof. induction p as [|c p IH]; [done|]. simpl. by rewrite decide_True. Qed.

Lemma HasPrefix_app p s : HasPrefix (p +:+ s) p = true.
Proof. unfold HasPrefix. rewrite TrimPrefix_opt_app. done. Qed.
Lemma TrimPrefix_app p s : TrimPrefix (p +:+ s) p = s.
Proof. unfold TrimPrefix. by rewrite TrimPrefix_opt_app. Qed.

Fixpoint has_char (c : ascii) (s : string) : bool :=
  match s with EmptyString => false | String d s' => bool_decide (d = c) || has_char c s' end.

Lemma cut_app c a b : has_char c a = false → cut c (a +:+ String c b) = Some (a, b).
Proof.
  induction a as [|d a IH]; simpl; intros H; [by rewrite decide_True|].
  apply orb_false_iff in H as [Hd%bool_decide_eq_false Ha].
  rewrite decide_False by done. rewrite (IH Ha). done.
Qed.

Lemma ParseUint_Sprint n : is_u64 n → ParseUint (Sprint_d n) = Ok n.
Proof.
  intros [Hn Hm]. unfold ParseUint, Sprint_d.
  assert (N.of_uint (N.to_uint (Z.to_N n)) = Z.to_N n) as Ho by apply DecimalN.Unsigned.of_to.
  destruct (decide _) as [He|_].
  - exfalso. pose proof (NilEmpty.usu (N.to_uint (Z.to_N n))) as Hu. rewrite He in Hu.
    injection Hu as Hu. destruct (Z.to_N n) as [|q]; [done|].
    simpl in Hu. by apply (DecimalPos.Unsigned.to_uint_nonnil q).
  - rewrite NilEmpty.usu, Ho, Z2N.id by lia. by rewrite decide_False by lia.
Qed.

Lemma Sprint_nonempty n : is_u64 n → Sprint_d n ≠ "".
Proof. intros Hn He. pose proof (ParseUint_Sprint n Hn) as H. by rewrite He in H. Qed.

Lemma parse_boole_topic name tail :
  has_char slash name = false → tail ≠ "" →
  ParseTopicSubnet (topicRoot +:+ "/" +:+ name +:+ "/" +:+ booleTopicFork +:+ "/" +:+ tail) =
    (subnet ← ParseUint tail; Ok (subnet, true)).
Proof.
  intros Hn Ht. unfold ParseTopicSubnet.
  change (topicRoot +:+ "/" +:+ ?x) with ((topicRoot +:+ "/") +:+ x).
  rewrite HasPrefix_app, TrimPrefix_app. simpl HasPrefix at 1. cbv match.
  unfold SplitN.
  rewrite (cut_app slash name (booleTopicFork +:+ "/" +:+ tail) Hn : cut slash (name +:+ "/" +:+ _) = _).
  rewrite (cut_app slash booleTopicFork tail eq_refl : cut slash (booleTopicFork +:+ "/" +:+ _) = _).
  by rewrite (bool_decide_false (tail = "")).
Qed.

(** Topic names determine their subnet and fork: parsing the name made for a
    subnet gives that subnet back, with the fork of the naming scheme, and the names
    of the unknown subnet are refused in both schemes. *)
Theorem topic_round_trip name subnet :
  is_u64 subnet → has_char slash name = false →
  (subnet ≠ UnknownSubnetId →
     ParseTopicSubnet (GetTopicFullName (SubnetTopicID subnet)) = Ok (subnet, false) ∧
     ParseTopicSubnet (BooleTopic name subnet) = Ok (subnet, true)) ∧
  is_ok (ParseTopicSubnet (GetTopicFullName (SubnetTopicID UnknownSubnetId))) = false ∧
  is_ok (ParseTopicSubnet (BooleTopic name UnknownSubnetId)) = false.
Proof.
  intros Hs Hn. split; [|split; [done|]].
  - intros Hu. unfold SubnetTopicID, BooleTopic. rewrite !decide_False by done. split.
    + unfold ParseTopicSubnet.
      change (topicPrefix +:+ "." +:+ ?x) with ((topicPrefix +:+ ".") +:+ x).
      by rewrite HasPrefix_app, TrimPrefix_app, ParseUint_Sprint.
    + rewrite parse_boole_topic by auto using Sprint_nonempty. by rewrite ParseUint_Sprint.
  - unfold BooleTopic. rewrite decide_True by done. by rewrite parse_boole_topic.
Qed.

(** ** Subnet of a committee *)
Definition keep_lowest (h : Z → Z) (lo id : Z) : Z := if h id <? lo then h id else lo.

Lemma keep_lowest_spec h lo ids :
  foldl (keep_lowest h) lo ids ∈ lo :: (h <$> ids) ∧
  (∀ x, x ∈ lo :: (h <$> ids) → foldl (keep_lowest h) lo ids ≤ x).
Proof.
  revert lo. induction ids as [|id ids IH]; intros lo; simpl.
  - split; [set_solver|]. intros x Hx. assert (x = lo) as -> by set_solver. lia.
  - destruct (IH (keep_lowest h lo id)) as [Hin Hle]. unfold keep_lowest in *.
    destruct (Z.ltb_spec (h id) lo) as [Hlt|Hge]; (split; [set_solver|]);
      intros x [->|[->|Hx]%elem_of_cons]%elem_of_cons;
      first [apply Hle; by right | etrans; [apply Hle; by left|lia]].
Qed.

Lemma lowest_spec id0 ids :
  ∃ id, id ∈ id0 :: ids ∧ foldl lowest_step (operator_hash id0) ids = operator_hash id ∧
    ∀ id', id' ∈ id0 :: ids → operator_hash id ≤ operator_hash id'.
Proof.
  change lowest_step with (keep_lowest operator_hash). generalize operator_hash. intros h.
  destruct (keep_lowest_spec h (h id0) ids) as [Hin Hle].
  change (h id0 :: (h <$> ids)) with (h <$> (id0 :: ids)) in Hin, Hle.
  apply list_elem_of_fmap in Hin as (id & Hid & Hin). rewrite Hid in Hle.
  exists id. split_and!; [done..|]. intros id' Hid'. apply Hle. by apply list_elem_of_fmap_2.
Qed.

Lemma BooleCommitteeSubnet_spec ids subnet :
  ids ≠ [] →
  BooleCommitteeSubnet ids = subnet ↔
  ∃ id, id ∈ ids ∧ subnet = operator_hash id `mod` SubnetsCount ∧
        ∀ id', id' ∈ ids → operator_hash id ≤ operator_hash id'.
Proof.
  destruct ids as [|id0 ids]; [done|]. intros _. unfold BooleCommitteeSubnet.
  destruct (lowest_spec id0 ids) as (id & Hin & -> & Hmin).
  generalize dependent operator_hash. intros h Hmin. split.
  - intros <-. by exists id.
  - intros (i & Hi & -> & Hmin'). f_equal. apply Z.le_antisymm; auto.
Qed.

Lemma sort_ids_perm ids1 ids2 : ids1 ≡ₚ ids2 → sort_ids ids1 = sort_ids ids2.
Proof.
  intros Hp. unfold sort_ids.
  apply (StronglySorted_unique Z.le); [apply StronglySorted_merge_sort; apply _..|].
  by rewrite !merge_sort_Permutation.
Qed.

(** C27. The subnet of a committee depends neither on the order of its operators nor on
    repeated ones after the Boole fork, on their order before it, and it is always one
    of the 128 subnets; only the empty committee has none. *)
Theorem committee_subnet_order_independent ids1 ids2 :
  ids1 ≠ [] →
  (list_to_set ids1 =@{gset Z} list_to_set ids2 →
     BooleCommitteeSubnet ids1 = BooleCommitteeSubnet ids2) ∧
  (ids1 ≡ₚ ids2 → ComputeCommitteeID ids1 = ComputeCommitteeID ids2) ∧
  0 ≤ BooleCommitteeSubnet ids1 < SubnetsCount ∧
  0 ≤ AlanCommitteeSubnet (ComputeCommitteeID ids1).2 < SubnetsCount ∧
  BooleCommitteeSubnet [] = UnknownSubnetId.
Proof.
  intros Hne. split; [|split; [|split; [|split; [|done]]]].
  - intros Hs. symmetry.
    assert (∀ id, id ∈ ids1 ↔ id ∈ ids2) as Hiff
      by (intros id; rewrite <-!(elem_of_list_to_set (C:=gset Z)), Hs; done).
    destruct (proj1 (BooleCommitteeSubnet_spec ids1 _ Hne) eq_refl) as (id & Hin & Heq & Hmin).
    apply BooleCommitteeSubnet_spec.
    { intros ->. apply Hiff, not_elem_of_nil in Hin. done. }
    exists id. rewrite <-Hiff. split; [done|]. split; [done|].
    intros id' Hid'. apply Hmin. by apply Hiff.
  - intros Hp. unfold ComputeCommitteeID. by rewrite (sort_ids_perm _ _ Hp).
  - destruct ids1; [done|]. by apply Z.mod_pos_bound.
  - by apply Z.mod_pos_bound.
Qed.
Lemma committee_subnet_order_independent_witness :
  BooleCommitteeSubnet [1;2;3;4] = BooleCommitteeSubnet [4;3;2;1] ∧
  ComputeCommitteeID [1;2;3;4] = ComputeCommitteeID [4;3;2;1].
Proof.
  assert ([1;2;3;4] ≡ₚ [4;3;2;1]) as Hp by (apply (Permutation_rev [1;2;3;4])).
  destruct (committee_subnet_order_independent [1;2;3;4] [4;3;2;1] ltac:(done)) as (H1 & H2 & _).
  split; [apply H1; set_solver|apply H2, Hp].
Defined.

Lemma sort_ids_mod k ids :
  StronglySorted Z.le ids → sort_ids ((λ v, v + k) <$> ids) = (λ v, v + k) <$> ids.
Proof.
  intros Hs. unfold sort_ids. apply (StronglySorted_unique Z.le);
    [apply StronglySorted_merge_sort; apply _| |by rewrite merge_sort_Permutation].
  induction Hs as [|x l Hs IH Hx]; [constructor|]. simpl. constructor; [done|].
  rewrite Forall_fmap. eapply Forall_impl; [exact Hx|]. simpl. lia.
Qed.

(** A committee identifier keeps only the low 32 bits of each operator ID: two
    committees whose IDs differ by 2^32 have the same identifier. *)
Theorem committee_id_truncates ids :
  StronglySorted Z.le ids →
  (ComputeCommitteeID ((λ v, v + 2 ^ 32) <$> ids)).2 = (ComputeCommitteeID ids).2.
Proof.
  intros Hs. unfold ComputeCommitteeID. rewrite sort_ids_mod by done.
  replace (sort_ids ids) with ids; cbn [snd].
  - do 2 f_equal. rewrite <-list_fmap_compose. apply list_fmap_ext. intros _ v _. simpl.
    f_equal. rewrite <-(Z.mul_1_l (2 ^ 32)) at 1. by rewrite Z.mod_add.
  - symmetry. pose proof (sort_ids_mod 0 ids Hs) as H.
    assert ((λ v, v + 0) <$> ids = ids) as Hid by (rewrite <-(list_fmap_id ids) at 2;
      apply list_fmap_ext; intros; simpl; lia). by rewrite Hid in H.
Qed.

(** ** The topic whitelist *)
Lemma subnet_numbers_elem i : i ∈ subnet_numbers ↔ 0 ≤ i < SubnetsCount.
Proof.
  unfold subnet_numbers. rewrite list_elem_of_fmap. split.
  - intros (k & -> & Hk%elem_of_seq). lia.
  - intros Hi. exists (Z.to_nat i). rewrite elem_of_seq. lia.
Qed.

Lemma topics_loop_elem name alan topic :
  topic ∈ topics_loop name alan ↔
  ∃ i, 0 ≤ i < SubnetsCount ∧
    ((alan = true ∧ topic = GetTopicFullName (SubnetTopicID i)) ∨ topic = BooleTopic name i).
Proof.
  unfold topics_loop. rewrite list_elem_of_join. split.
  - intros (l & Hin & (i & -> & Hi%subnet_numbers_elem)%list_elem_of_fmap).
    exists i. split; [done|]. destruct alan; set_solver.
  - intros (i & Hi & Hc). eexists. split; cycle 1.
    + apply list_elem_of_fmap. exists i. split; [reflexivity|by apply subnet_numbers_elem].
    + destruct Hc as [[-> ->]| ->]; [by left|apply elem_of_app; right; by left].
Qed.

Lemma Topics_eq name n slot :
  let spe := SlotsPerEpoch (n_Beacon n) in
  0 < spe → 0 < Boole n → (Boole n + 1) * spe + 2 ≤ max_u64 → 0 ≤ slot →
  Topics name n slot = Ok (topics_loop name (bool_decide (slot < (Boole n + 1) * spe + 2))).
Proof.
  intros spe Hs Hb Hm Hslot. unfold Topics, BooleForkAtSlot, BooleForkAtEpoch.
  rewrite EstimatedEpochAtSlot_eq by done. fold spe. simpl.
  rewrite boole_transition_window by done. fold spe.
  pose proof (Z.div_mod slot spe ltac:(lia)). pose proof (Z.mod_pos_bound slot spe Hs).
  destruct (Z.leb_spec (Boole n) (slot / spe)); simpl; do 2 f_equal.
  - apply bool_decide_ext. nia.
  - symmetry. apply bool_decide_eq_true. nia.
Qed.

(** The whitelist at a slot holds every Boole topic always, and the Alan topics exactly
    up to an epoch and two slots after the Boole fork. *)
Theorem topics_whitelist name n slot subnet :
  let spe := SlotsPerEpoch (n_Beacon n) in
  0 < spe → 0 < Boole n → (Boole n + 1) * spe + 2 ≤ max_u64 →
  0 ≤ slot → 0 ≤ subnet < SubnetsCount →
  ∃ topics, Topics name n slot = Ok topics ∧ BooleTopic name subnet ∈ topics ∧
    (GetTopicFullName (SubnetTopicID subnet) ∈ topics ↔ slot < (Boole n + 1) * spe + 2).
Proof.
  intros spe Hs Hb Hm Hslot Hsub. rewrite Topics_eq by done. fold spe.
  eexists. split; [done|]. split; rewrite topics_loop_elem; [by eauto|].
  split; [|intros Hlt; exists subnet; split; [done|]; left; split; [by apply bool_decide_eq_true|done]].
  intros (i & _ & [[?%bool_decide_eq_true _]|Heq]); [done|].
  unfold BooleTopic in Heq. by destruct (decide _).
Qed.

(** ** The subscription bitset *)
Lemma land_bit b k : 0 ≤ k → negb (Z.land b (Z.shiftl 1 k) =? 0) = Z.testbit b k.
Proof.
  intros Hk. rewrite Z.shiftl_1_l. destruct (Z.testbit b k) eqn:Hb.
  - apply negb_true_iff, Z.eqb_neq. intros H0.
    apply (f_equal (λ z, Z.testbit z k)) in H0.
    rewrite Z.land_spec, Hb, Z.pow2_bits_true, Z.bits_0 in H0 by done. done.
  - apply negb_false_iff, Z.eqb_eq, Z.bits_inj'. intros m Hm.
    rewrite Z.land_spec, Z.bits_0, Z.pow2_bits_eqb by done.
    destruct (Z.eqb_spec k m) as [<-|]; [by rewrite Hb|by rewrite andb_false_r].
Qed.

Lemma land_bit_eq b k : 0 ≤ k → (Z.land b (Z.shiftl 1 k) =? Z.shiftl 1 k) = Z.testbit b k.
Proof.
  intros Hk. rewrite <-land_bit by done. rewrite Z.shiftl_1_l.
  destruct (Z.testbit b k) eqn:Hb.
  - assert (Z.land b (2 ^ k) = 2 ^ k) as ->.
    { apply Z.bits_inj'. intros m Hm. rewrite Z.land_spec, Z.pow2_bits_eqb by done.
      destruct (Z.eqb_spec k m) as [<-|]; [by rewrite Hb|by rewrite andb_false_r]. }
    rewrite Z.eqb_refl. symmetry. apply negb_true_iff, Z.eqb_neq. lia.
  - pose proof (land_bit b k Hk) as H. rewrite Hb, Z.shiftl_1_l in H.
    rewrite H. apply negb_false_iff in H. apply Z.eqb_eq in H. rewrite H.
    apply Z.eqb_neq. lia.
Qed.

Lemma IsSet_testbit s i :
  0 ≤ i → IsSet s i = (i <? SubnetsCount) && Z.testbit (byte_at s (i / 8)) (i `mod` 8).
Proof.
  intros Hi. unfold IsSet. rewrite Z.leb_antisym.
  destruct (i <? SubnetsCount); [|done]. simpl. apply land_bit. apply Z.mod_pos_bound. lia.
Qed.

Lemma byte_index_lt i : 0 ≤ i < SubnetsCount → (Z.to_nat (i / 8) < byteCount)%nat.
Proof.
  intros [H0 H1]. assert (i / 8 < 16) by (apply Z.div_lt_upper_bound; lia).
  change byteCount with 16%nat. assert (0 ≤ i / 8) by (by apply Z.div_pos). lia.
Qed.

Lemma byte_at_insert s k v j :
  (Z.to_nat k < length s)%nat → 0 ≤ k → 0 ≤ j →
  byte_at (<[Z.to_nat k := v]> s) j = if decide (k = j) then v else byte_at s j.
Proof.
  intros Hk ? ?. unfold byte_at. destruct (decide (k = j)) as [->|].
  - by rewrite list_lookup_insert_eq.
  - by rewrite list_lookup_insert_ne by lia.
Qed.

(** Changing the byte that holds bit [i] by an operation [f] on bits. *)
Lemma IsSet_update (f : Z → Z → Z) (g : bool → bool → bool) s i j :
  (∀ a b k, Z.testbit (f a b) k = g (Z.testbit a k) (Z.testbit b k)) →
  (∀ a, g a false = a) →
  wf_Subnets s → 0 ≤ i < SubnetsCount → 0 ≤ j →
  IsSet (<[Z.to_nat (i / 8) := f (byte_at s (i / 8)) (Z.shiftl 1 (i `mod` 8))]> s) j =
  if decide (i = j) then g (IsSet s j) true else IsSet s j.
Proof.
  intros Hf Hg [Hl _] Hi Hj. rewrite !IsSet_testbit by done.
  destruct (Z.ltb_spec j SubnetsCount) as [Hj'|]; simpl; [|by rewrite decide_False by lia].
  pose proof (byte_index_lt i Hi). pose proof (byte_index_lt j ltac:(lia)).
  pose proof (Z.mod_pos_bound i 8 ltac:(lia)). pose proof (Z.mod_pos_bound j 8 ltac:(lia)).
  pose proof (Z.div_mod i 8 ltac:(lia)). pose proof (Z.div_mod j 8 ltac:(lia)).
  pose proof (Z.div_pos i 8 ltac:(lia) ltac:(lia)). pose proof (Z.div_pos j 8 ltac:(lia) ltac:(lia)).
  rewrite byte_at_insert by lia. destruct (decide (i / 8 = j / 8)) as [He|He].
  - rewrite Hf, Z.shiftl_1_l, Z.pow2_bits_eqb, He by lia.
    destruct (Z.eqb_spec (i `mod` 8) (j `mod` 8)).
    + by rewrite decide_True by lia.
    + rewrite decide_False by (intros ->; done). apply Hg.
  - rewrite decide_False by (intros ->; done). done.
Qed.

Lemma IsSet_Set s i j :
  wf_Subnets s → 0 ≤ i → 0 ≤ j →
  IsSet (subnet_Set s i) j = (bool_decide (i = j) && (i <? SubnetsCount)) || IsSet s j.
Proof.
  intros Hs Hi Hj. unfold subnet_Set. rewrite Z.leb_antisym.
  destruct (Z.ltb_spec i SubnetsCount); simpl.
  - rewrite (IsSet_update Z.lor orb); [|apply Z.lor_spec|by intros []|done|lia|done].
    rewrite andb_true_r. destruct (decide (i = j)) as [->|].
    + rewrite bool_decide_true by done. by rewrite orb_true_r.
    + by rewrite bool_decide_false.
  - by rewrite andb_false_r.
Qed.

Lemma IsSet_Clear s i j :
  wf_Subnets s → 0 ≤ i → 0 ≤ j →
  IsSet (subnet_Clear s i) j = IsSet s j && negb (bool_decide (i = j)).
Proof.
  intros Hs Hi Hj. unfold subnet_Clear. rewrite Z.leb_antisym.
  destruct (Z.ltb_spec i SubnetsCount); simpl.
  - rewrite (IsSet_update Z.ldiff (λ a b, a && negb b));
      [|apply Z.ldiff_spec|by intros []|done|lia|done].
    destruct (decide (i = j)) as [->|].
    + by rewrite bool_decide_true.
    + by rewrite bool_decide_false, andb_true_r.
  - destruct (bool_decide_reflect (i = j)) as [<-|]; [|by rewrite andb_true_r].
    rewrite IsSet_testbit by done. destruct (Z.ltb_spec i SubnetsCount); [lia|done].
Qed.

Lemma wf_byte_bits b : 0 ≤ b → (∀ k, 8 ≤ k → Z.testbit b k = false) → wf_byte b.
Proof.
  intros Hb Hk. split; [done|]. destruct (decide (b = 0)) as [->|]; [lia|].
  destruct (decide (8 ≤ Z.log2 b)) as [Hl|Hl].
  - pose proof (Z.bit_log2 b ltac:(lia)). by rewrite Hk in *.
  - apply (Z.log2_lt_pow2 b 8); lia.
Qed.
Lemma wf_byte_high b k : wf_byte b → 8 ≤ k → Z.testbit b k = false.
Proof.
  intros Hb Hk. destruct (decide (b = 0)) as [->|]; [apply Z.bits_0|].
  apply Z.bits_above_log2; [unfold wf_byte in Hb; lia|].
  enough (Z.log2 b < 8) by lia. apply Z.log2_lt_pow2; unfold wf_byte in Hb; lia.
Qed.

Lemma wf_byte_at s i : wf_Subnets s → wf_byte (byte_at s i).
Proof.
  intros [_ Hf]. unfold byte_at. destruct (s !! Z.to_nat i) eqn:E; simpl; [|unfold wf_byte; lia].
  by eapply Forall_lookup_1.
Qed.

Lemma wf_Set s i : 0 ≤ i → wf_Subnets s → wf_Subnets (subnet_Set s i).
Proof.
  intros Hi Hs. unfold subnet_Set. destruct (_ <=? _); [done|].
  pose proof (wf_byte_at s (i / 8) Hs). pose proof (Z.mod_pos_bound i 8 ltac:(lia)).
  destruct Hs as [Hl Hf]. split; [by rewrite length_insert|].
  apply Forall_insert; [done|]. rewrite Z.shiftl_1_l. apply wf_byte_bits.
  - apply Z.lor_nonneg. unfold wf_byte in *. split; [lia|apply Z.pow_nonneg; lia].
  - intros k Hk. rewrite Z.lor_spec, wf_byte_high, Z.pow2_bits_eqb by (done || lia).
    apply Z.eqb_neq. lia.
Qed.
Lemma wf_Clear s i : 0 ≤ i → wf_Subnets s → wf_Subnets (subnet_Clear s i).
Proof.
  intros Hi Hs. unfold subnet_Clear. destruct (_ <=? _); [done|].
  pose proof (wf_byte_at s (i / 8) Hs). destruct Hs as [Hl Hf]. split; [by rewrite length_insert|].
  apply Forall_insert; [done|]. apply wf_byte_bits.
  - apply Z.ldiff_nonneg. unfold wf_byte in *. lia.
  - intros k Hk. by rewrite Z.ldiff_spec, wf_byte_high.
Qed.

Lemma filter_agree {A} (P Q : A → Prop) `{∀ x, Decision (P x), ∀ x, Decision (Q x)} (l : list A) :
  (∀ x, x ∈ l → P x ↔ Q x) → filter P l = filter Q l.
Proof.
  induction l as [|x l IH]; [done|]. intros Hl. rewrite !filter_cons, IH by set_solver.
  destruct (Hl x ltac:(by left)). by destruct (decide (P x)), (decide (Q x)); try tauto.
Qed.

(** The subnets whose bits are set in the bytes [s] that start at byte [k]. *)
Definition bit_in (k : nat) (s : Subnets) (i : Z) : Prop :=
  Z.testbit (byte_at s (i / 8 - Z.of_nat k)) (i `mod` 8) = true.
#[global] Instance bit_in_dec k s i : Decision (bit_in k s i).
Proof. unfold bit_in. apply _. Defined.

Lemma byte_list_spec k b s l :
  (∀ j, j ∈ l → (j < 8)%nat) →
  byte_list k b l = filter (bit_in k (b :: s)) ((λ j, Z.of_nat (8 * k + j)) <$> l).
Proof.
  induction l as [|j l IH]; [done|]. intros Hl. cbn [byte_list fmap list_fmap].
  rewrite land_bit_eq, filter_cons, IH by (set_solver || lia).
  assert (j < 8)%nat as Hj by set_solver.
  assert (Z.of_nat (8 * k + j) = Z.of_nat j + Z.of_nat k * 8) as Hk by lia.
  assert (bit_in k (b :: s) (Z.of_nat (8 * k + j)) ↔ Z.testbit b (Z.of_nat j) = true) as Hbit.
  { unfold bit_in. rewrite Hk, Z.div_add, Z.mod_add, Z.div_small, Z.mod_small by lia.
    by rewrite Z.add_0_l, Z.sub_diag. }
  destruct (decide (bit_in k (b :: s) _)) as [Hb|Hb]; rewrite Hbit in Hb.
  - rewrite Hb. simpl. f_equal. lia.
  - destruct (Z.testbit b _); [done|]. done.
Qed.

Lemma SubnetList_from_spec k s :
  (k + length s ≤ 128)%nat →
  SubnetList_from k s = filter (bit_in k s) (Z.of_nat <$> seq (8 * k) (8 * length s)).
Proof.
  revert k. induction s as [|b s IH]; intros k Hk; [by rewrite Nat.mul_0_r|].
  cbn [SubnetList_from]. cbn [length] in *.
  destruct (Z.leb_spec SubnetsCount (Z.of_nat k)); [lia|].
  replace (8 * S (length s))%nat with (8 + 8 * length s)%nat by lia.
  rewrite seq_app, fmap_app, filter_app, IH by lia.
  rewrite (byte_list_spec k b s) by (intros j ?%elem_of_seq; lia). f_equal.
  - f_equal. pose proof (fmap_add_seq (8 * k) 0 8) as Hseq. rewrite Nat.add_0_r in Hseq.
    by rewrite <-Hseq, <-list_fmap_compose.
  - replace (8 * k + 8)%nat with (8 * S k)%nat by lia. apply filter_agree.
    intros x (j & -> & Hj%elem_of_seq)%list_elem_of_fmap. unfold bit_in, byte_at.
    assert (Z.of_nat (S k) ≤ Z.of_nat j / 8) by (apply Z.div_le_lower_bound; lia).
    replace (Z.to_nat (Z.of_nat j / 8 - Z.of_nat k))
      with (S (Z.to_nat (Z.of_nat j / 8 - Z.of_nat (S k)))) by lia. done.
Qed.

Lemma SubnetList_filter s :
  wf_Subnets s → SubnetList s = filter (λ i, IsSet s i = true) subnet_numbers.
Proof.
  intros [Hl _]. unfold SubnetList. rewrite SubnetList_from_spec by (rewrite Hl; compute; lia).
  rewrite Hl. change (8 * byteCount)%nat with (Z.to_nat SubnetsCount).
  apply filter_agree. intros i Hi%(subnet_numbers_elem i). unfold bit_in.
  rewrite IsSet_testbit by lia. rewrite Z.sub_0_r.
  destruct (Z.ltb_spec i SubnetsCount); [done|lia].
Qed.

Lemma SubnetList_elem s i :
  wf_Subnets s → i ∈ SubnetList s ↔ 0 ≤ i ∧ IsSet s i = true.
Proof.
  intros Hs. rewrite SubnetList_filter, list_elem_of_filter, subnet_numbers_elem by done.
  split; [naive_solver|]. intros [Hi Hset]. split; [done|]. split; [done|].
  rewrite IsSet_testbit in Hset by done. destruct (Z.ltb_spec i SubnetsCount); done.
Qed.

Lemma Subnets_ext s1 s2 :
  wf_Subnets s1 → wf_Subnets s2 →
  (∀ i, 0 ≤ i < SubnetsCount → IsSet s1 i = IsSet s2 i) → s1 = s2.
Proof.
  intros H1 H2 He. apply (list_eq_same_length _ _ byteCount); [apply H2|apply H1|].
  intros k x y Hk Hx Hy. pose proof (Forall_lookup_1 _ _ _ _ (proj2 H1) Hx) as Hwx.
  pose proof (Forall_lookup_1 _ _ _ _ (proj2 H2) Hy) as Hwy.
  apply Z.bits_inj'. intros m Hm. destruct (decide (8 ≤ m)) as [|Hm8].
  { by rewrite !wf_byte_high. }
  change byteCount with 16%nat in Hk.
  assert (IsSet s1 (m + Z.of_nat k * 8) = IsSet s2 (m + Z.of_nat k * 8)) as Hi
    by (apply He; lia).
  rewrite !IsSet_testbit, Z.div_add, Z.mod_add, Z.div_small, Z.mod_small in Hi by lia.
  destruct (Z.ltb_spec (m + Z.of_nat k * 8) SubnetsCount); [|lia].
  unfold byte_at in Hi. rewrite Z.add_0_l, Nat2Z.id, Hx, Hy in Hi. done.
Qed.

Lemma foldl_Set s l :
  wf_Subnets s → Forall (λ i, 0 ≤ i) l →
  wf_Subnets (foldl subnet_Set s l) ∧
  ∀ i, 0 ≤ i < SubnetsCount →
    IsSet (foldl subnet_Set s l) i = bool_decide (i ∈ l) || IsSet s i.
Proof.
  intros Hs Hl. revert s Hs. induction Hl as [|j l Hj Hl IH]; intros s Hs; simpl; [done|].
  destruct (IH _ (wf_Set s j Hj Hs)) as [Hw Hi]. split; [done|].
  intros i Hlt. rewrite Hi, IsSet_Set by (done || lia). apply eq_bool_prop_intro.
  destruct (Z.ltb_spec j SubnetsCount); rewrite ?andb_true_r, ?andb_false_r;
    rewrite !orb_True, !bool_decide_spec, elem_of_cons; [naive_solver|].
  simpl. split; [naive_solver|]. intros [[->|?]|?]; [lia|tauto..].
Qed.

Lemma foldl_Clear s l :
  wf_Subnets s → Forall (λ i, 0 ≤ i) l →
  wf_Subnets (foldl subnet_Clear s l) ∧
  ∀ i, 0 ≤ i < SubnetsCount →
    IsSet (foldl subnet_Clear s l) i = IsSet s i && negb (bool_decide (i ∈ l)).
Proof.
  intros Hs Hl. revert s Hs. induction Hl as [|j l Hj Hl IH]; intros s Hs; simpl.
  - split; [done|]. intros i _. by rewrite andb_true_r.
  - destruct (IH _ (wf_Clear s j Hj Hs)) as [Hw Hi]. split; [done|].
    intros i Hlt. rewrite Hi, IsSet_Clear by (done || lia). rewrite <-andb_assoc. f_equal.
    rewrite <-negb_orb. f_equal. apply eq_bool_prop_intro.
    rewrite orb_True, !bool_decide_spec, elem_of_cons. naive_solver.
Qed.

Lemma wf_diff s1 s2 : wf_Subnets s1 → wf_Subnets s2 → wf_Subnets (zip_with Z.ldiff s1 s2).
Proof.
  intros [H1 F1] [H2 F2]. split; [rewrite length_zip_with; lia|].
  apply Forall_lookup. intros k z Hz. apply lookup_zip_with_Some in Hz as (x & y & -> & Hx & Hy).
  pose proof (Forall_lookup_1 _ _ _ _ F1 Hx) as Wx. apply wf_byte_bits.
  - apply Z.ldiff_nonneg. unfold wf_byte in Wx. lia.
  - intros m Hm. by rewrite Z.ldiff_spec, wf_byte_high.
Qed.

Lemma IsSet_diff s1 s2 i :
  wf_Subnets s1 → wf_Subnets s2 → 0 ≤ i →
  IsSet (zip_with Z.ldiff s1 s2) i = IsSet s1 i && negb (IsSet s2 i).
Proof.
  intros [H1 _] [H2 _] Hi. rewrite !IsSet_testbit by done.
  destruct (Z.ltb_spec i SubnetsCount); simpl; [|done].
  pose proof (byte_index_lt i ltac:(done)) as Hk.
  destruct (lookup_lt_is_Some_2 s1 (Z.to_nat (i / 8))) as [x Hx]; [lia|].
  destruct (lookup_lt_is_Some_2 s2 (Z.to_nat (i / 8))) as [y Hy]; [lia|].
  unfold byte_at. rewrite lookup_zip_with, Hx, Hy. simpl. apply Z.ldiff_spec.
Qed.

(** The difference of two subscriptions is exact: the subnets to add are those only
    the new one has and the subnets to remove those only the old one has, in increasing
    order, and subscribing to the first and unsubscribing from the second, one subnet at
    a time, turns the old subscription into the new one. *)
Theorem subscription_update s other added removed :
  wf_Subnets s → wf_Subnets other → DiffSubnets s other = (added, removed) →
  SubnetList added = filter (λ i, IsSet other i = true ∧ IsSet s i = false) subnet_numbers ∧
  SubnetList removed = filter (λ i, IsSet s i = true ∧ IsSet other i = false) subnet_numbers ∧
  foldl subnet_Clear (foldl subnet_Set s (SubnetList added)) (SubnetList removed) = other.
Proof.
  intros Hs Ho [= <- <-]. pose proof (wf_diff _ _ Ho Hs) as Ha. pose proof (wf_diff _ _ Hs Ho) as Hr.
  assert (∀ d, wf_Subnets d → Forall (λ i, 0 ≤ i) (SubnetList d)) as Hpos.
  { intros d Hd. apply Forall_forall. by intros i [? _]%SubnetList_elem. }
  split_and!.
  1,2: rewrite SubnetList_filter by done; apply filter_agree; intros i Hi%subnet_numbers_elem;
    rewrite IsSet_diff by (done || lia); rewrite andb_true_iff, negb_true_iff; done.
  destruct (foldl_Set s _ Hs (Hpos _ Ha)) as [Hw1 Hi1].
  destruct (foldl_Clear _ _ Hw1 (Hpos _ Hr)) as [Hw2 Hi2].
  apply Subnets_ext; [done..|]. intros i Hi. rewrite Hi2, Hi1 by done.
  rewrite (bool_decide_ext _ _ (SubnetList_elem _ i Ha)), (bool_decide_ext _ _ (SubnetList_elem _ i Hr)).
  rewrite !IsSet_diff by (done || lia).
  destruct (IsSet s i), (IsSet other i); simpl; repeat case_bool_decide; naive_solver.
Qed.

(** ** Hexadecimal form *)
Lemma from_hex_digit d : 0 ≤ d < 16 → from_hex (hex_digit d) = Some d.
Proof.
  intros Hd. assert (d ∈ Z.of_nat <$> seq 0 16) as Hin.
  { apply list_elem_of_fmap. exists (Z.to_nat d). rewrite elem_of_seq. lia. }
  assert (Forall (λ d, from_hex (hex_digit d) = Some d) (Z.of_nat <$> seq 0 16)) as Hall
    by by repeat constructor.
  by apply (proj1 (Forall_forall _ _) Hall).
Qed.

Lemma nibbles b : wf_byte b → Z.lor (Z.shiftl (Z.shiftr b 4) 4) (Z.land b 15) = b ∧
  0 ≤ Z.shiftr b 4 < 16 ∧ 0 ≤ Z.land b 15 < 16.
Proof.
  intros Hb. unfold wf_byte in Hb. change 15 with (Z.ones 4).
  rewrite Z.land_ones, Z.shiftr_div_pow2 by lia. change (2 ^ 4) with 16.
  pose proof (Z.mod_pos_bound b 16 ltac:(lia)). pose proof (Z.div_mod b 16 ltac:(lia)).
  assert (0 ≤ b / 16 < 16) by (split; [apply Z.div_pos; lia|apply Z.div_lt_upper_bound; lia]).
  split; [|done]. pose proof (Z.add_lor_land (b `mod` 16) (Z.shiftl (b / 16) 4)) as Hsum.
  rewrite Z.lor_comm. assert (Z.land (b `mod` 16) (Z.shiftl (b / 16) 4) = 0) as Hz.
  { apply Z.bits_inj'. intros m Hm. rewrite Z.land_spec, Z.bits_0.
    destruct (decide (m < 4)).
    - rewrite Z.shiftl_spec_low by lia. apply andb_false_r.
    - change 16 with (2 ^ 4). by rewrite Z.mod_pow2_bits_high by lia. }
  rewrite Z.shiftl_mul_pow2 in * by lia. change (2 ^ 4) with 16 in *. lia.
Qed.

Lemma hex_round_trip s : Forall wf_byte s → hex_DecodeString (StringHex s) = Ok s.
Proof.
  induction 1 as [|b s Hb Hs IH]; [done|]. cbn [StringHex hex_DecodeString].
  destruct (nibbles b Hb) as (Hn & H1 & H2). rewrite !from_hex_digit, IH by done.
  simpl. by rewrite Hn.
Qed.

Lemma hex_digit_not_x d : 0 ≤ d < 16 → hex_digit d ≠ "x"%char.
Proof. intros Hd Hx. pose proof (from_hex_digit d Hd) as H. by rewrite Hx in H. Qed.

(** The text form of a subscription, which nodes exchange, is read back to the same
    subscription, with or without the 0x prefix. *)
Theorem subnets_hex_round_trip s :
  wf_Subnets s →
  SubnetsFromString (StringHex s) = Ok s ∧ SubnetsFromString ("0x" +:+ StringHex s) = Ok s.
Proof.
  intros [Hl Hs]. unfold SubnetsFromString. split.
  - destruct s as [|b s]; [done|].
    assert (TrimPrefix (StringHex (b :: s)) "0x" = StringHex (b :: s)) as ->.
    { unfold TrimPrefix. cbn [StringHex TrimPrefix_opt]. destruct (decide _); [|done].
      apply Forall_inv in Hs as Hb. destruct (nibbles b Hb) as (_ & _ & H2).
      rewrite decide_False; [done|]. intros Heq. by apply (hex_digit_not_x _ H2). }
    rewrite decide_False by done. rewrite hex_round_trip by done. simpl.
    by rewrite decide_False by (intros []; done).
  - rewrite decide_False by done. rewrite TrimPrefix_app, hex_round_trip by done. simpl.
    by rewrite decide_False by (intros []; done).
Qed.

(** ** Counting and sharing *)
Lemma shared_loop_spec s other n shared todo :
  Z.of_nat (length shared) < n →
  shared_loop s other n shared todo =
    take (Z.to_nat n)
      (shared ++ filter (λ i, IsSet s i = true ∧ IsSet other i = true) todo).
Proof.
  revert shared. induction todo as [|i todo IH]; intros shared Hn; cbn [shared_loop].
  { rewrite app_nil_r, take_ge by lia. done. }
  rewrite filter_cons. destruct (IsSet s i), (IsSet other i); cbn [andb];
    [|by rewrite decide_False by naive_solver; apply IH..].
  rewrite decide_True by done. rewrite length_app. simpl.
  destruct (Z.eqb_spec (Z.of_nat (length shared + 1)) n) as [<-|].
  - rewrite Nat2Z.id, (cons_middle i shared (filter _ todo)), app_assoc, take_app_length'; [done|].
    by rewrite length_app.
  - rewrite IH by (rewrite length_app; simpl; lia). by rewrite <-app_assoc.
Qed.

Lemma byte_list_length k b l :
  Forall (λ j, 0 ≤ Z.of_nat j) l →
  length (byte_list k b l) = length (filter (λ i, Z.testbit b (Z.of_nat i) = true) l).
Proof.
  induction 1 as [|j l Hj Hl IH]; [done|]. cbn [byte_list].
  rewrite land_bit_eq, length_app, filter_cons, IH by done.
  destruct (Z.testbit b (Z.of_nat j)); [by rewrite decide_True|by rewrite decide_False].
Qed.

Lemma ActiveCount_from k s acc :
  (k + length s ≤ 128)%nat →
  foldl (λ active b, active + OnesCount8 b) acc s = acc + Z.of_nat (length (SubnetList_from k s)).
Proof.
  revert k acc. induction s as [|b s IH]; intros k acc Hk; [simpl; lia|].
  cbn [SubnetList_from foldl]. cbn [length] in Hk.
  destruct (Z.leb_spec SubnetsCount (Z.of_nat k)); [lia|].
  rewrite (IH (S k)) by lia. rewrite length_app, byte_list_length by (apply Forall_forall; lia).
  unfold OnesCount8. lia.
Qed.

(** The subnets two nodes share are exactly those set on both sides, in increasing
    order and cut at the requested number (zero or less asks for all of them), and the
    count of active subnets is the length of the subnet list. *)
Theorem shared_subnets_exact s other n :
  wf_Subnets s → wf_Subnets other →
  let both := filter (λ i, IsSet s i = true ∧ IsSet other i = true) subnet_numbers in
  SharedSubnets s other = both ∧
  SharedSubnetsN s other n = (if n <=? 0 then both else take (Z.to_nat n) both) ∧
  ActiveCount s = Z.of_nat (length (SubnetList s)).
Proof.
  intros Hs Ho both.
  assert (shared_loop s other SubnetsCount [] subnet_numbers = both) as Hall.
  { rewrite shared_loop_spec by done. apply take_ge. unfold both.
    etrans; [apply length_filter|]. done. }
  split_and!.
  - unfold SharedSubnets, SharedSubnetsN. rewrite Z.leb_refl. apply Hall.
  - unfold SharedSubnetsN. destruct (Z.leb_spec n 0); [apply Hall|].
    rewrite shared_loop_spec by (simpl; lia). done.
  - unfold ActiveCount. rewrite (ActiveCount_from 0); [done|]. rewrite (proj1 Hs). compute. lia.
Qed.

