(* ===== verification/DutyStore.v ===== *)
(** * The duty store (operator/duties/dutystore)

    The node caches the duties it fetched from the beacon node: attester,
    proposer and PTC duties per epoch, sync committee duties per period and the
    number of voluntary exits per slot and key.  Every method holds the store's
    mutex for its whole body, so methods are atomic state transitions.  The
    beacon types ([D]) are not part of the repository and stay abstract; a Go
    map is iterated in no fixed order, so the lists below are used through
    their elements only. *)

From stdpp Require Import base list gmap numbers.
From S2P Require Import Prelude SpecTypes.
Open Scope Z_scope.

Section duties.
Context {D : Type}.

Record StoreDuty := mkStoreDuty {
  sd_Slot : Slot;
  sd_ValidatorIndex : ValidatorIndex;
  sd_Duty : option D;       (* a pointer *)
  sd_InCommittee : bool;
}.

Abbreviation descriptors := (gmap ValidatorIndex StoreDuty).

Record Duties := mkDuties {
  d_m : gmap Epoch (gmap Slot descriptors);
  d_stale : gset Epoch;
}.

Definition NewDuties : Duties := mkDuties ∅ ∅.

Definition CommitteeSlotDuties (epoch : Epoch) (slot : Slot) (d : Duties) : list (option D) :=
  match d_m d !! epoch with
  | None => []
  | Some slotMap =>
      match slotMap !! slot with
      | None => []
      | Some descriptorMap =>
          sd_Duty <$> filter (λ descriptor, sd_InCommittee descriptor = true)
                        (map_to_list descriptorMap).*2
      end
  end.

Definition ValidatorDuty (epoch : Epoch) (slot : Slot) (validatorIndex : ValidatorIndex)
    (d : Duties) : option D :=
  match d_m d !! epoch with
  | None => None
  | Some slotMap =>
      match slotMap !! slot with
      | None => None
      | Some descriptorMap =>
          match descriptorMap !! validatorIndex with
          | None => None
          | Some descriptor => sd_Duty descriptor
          end
      end
  end.

Definition SlotIndices (epoch : Epoch) (slot : Slot) (d : Duties) : list ValidatorIndex :=
  match d_m d !! epoch with
  | None => []
  | Some slotMap =>
      match slotMap !! slot with
      | None => []
      | Some descriptorMap => (map_to_list descriptorMap).*1
      end
  end.

(** Ranging over the nil map of a missing epoch does nothing. *)
Definition EpochDuties (epoch : Epoch) (d : Duties) : list StoreDuty :=
  mjoin ((λ descriptorMap, (map_to_list descriptorMap).*2) <$>
         (map_to_list (default ∅ (d_m d !! epoch))).*2).

(** One turn of the loop of [Set]. *)
Definition set_duty (mapped : gmap Slot descriptors) (duty : StoreDuty) : gmap Slot descriptors :=
  let mapped := match mapped !! sd_Slot duty with
                | None => <[sd_Slot duty := ∅]> mapped
                | Some _ => mapped
                end in
  <[sd_Slot duty :=
      <[sd_ValidatorIndex duty := duty]> (default ∅ (mapped !! sd_Slot duty))]> mapped.

Definition duties_Set (epoch : Epoch) (duties : list StoreDuty) (d : Duties) : Duties :=
  let mapped := foldl set_duty ∅ duties in
  mkDuties (<[epoch := mapped]> (d_m d)) (d_stale d ∖ {[epoch]}).

Definition EraseEpochData (epoch : Epoch) (d : Duties) : Duties :=
  mkDuties (delete epoch (d_m d)) (d_stale d ∖ {[epoch]}).

Definition EraseBefore (epoch : Epoch) (d : Duties) : Duties :=
  mkDuties (filter (λ p, ¬ (p.1 < epoch)) (d_m d)) (filter (λ cached, ¬ (cached < epoch)) (d_stale d)).

Definition duties_Clear (d : Duties) : Duties := mkDuties ∅ ∅.

Definition IsEpochSet (epoch : Epoch) (d : Duties) : bool :=
  bool_decide (is_Some (d_m d !! epoch)).

Definition MarkEpochsStale (epochs : list Epoch) (d : Duties) : Duties :=
  mkDuties (d_m d) (foldl (λ stale epoch, stale ∪ {[epoch]}) (d_stale d) epochs).

Definition IsEpochStale (epoch : Epoch) (d : Duties) : bool := bool_decide (epoch ∈ d_stale d).

(** ** What the store promises about an epoch

    The abstract view of one epoch: the list of the last completed fetch, unless
    erased since, and whether it was marked stale since. *)
Inductive DutyOp :=
| OpSet (epoch : Epoch) (duties : list StoreDuty)
| OpErase (epoch : Epoch)
| OpEraseBefore (epoch : Epoch)
| OpClear
| OpMarkStale (epochs : list Epoch).

Definition run_op (d : Duties) (op : DutyOp) : Duties :=
  match op with
  | OpSet epoch duties => duties_Set epoch duties d
  | OpErase epoch => EraseEpochData epoch d
  | OpEraseBefore epoch => EraseBefore epoch d
  | OpClear => duties_Clear d
  | OpMarkStale epochs => MarkEpochsStale epochs d
  end.

Record EpochView := mkView { ev_duties : option (list StoreDuty); ev_stale : bool }.

Definition view_op (epoch : Epoch) (v : EpochView) (op : DutyOp) : EpochView :=
  match op with
  | OpSet e duties => if decide (e = epoch) then mkView (Some duties) false else v
  | OpErase e => if decide (e = epoch) then mkView None false else v
  | OpEraseBefore e => if decide (epoch < e) then mkView None false else v
  | OpClear => mkView None false
  | OpMarkStale es => if decide (epoch ∈ es) then mkView (ev_duties v) true else v
  end.

(** The last duty of a fetched list for a slot and a validator. *)
Definition assigned (slot : Slot) (idx : ValidatorIndex) (duties : list StoreDuty) : option StoreDuty :=
  list.last (filter (λ d, sd_Slot d = slot ∧ sd_ValidatorIndex d = idx) duties).

Definition find_duty (slot : Slot) (idx : ValidatorIndex) (m : gmap Slot descriptors)
    : option StoreDuty := m !! slot ≫= λ dm, dm !! idx.

Lemma find_set_duty m duty slot idx :
  find_duty slot idx (set_duty m duty) =
    if decide (sd_Slot duty = slot ∧ sd_ValidatorIndex duty = idx) then Some duty
    else find_duty slot idx m.
Proof.
  unfold find_duty, set_duty.
  destruct (decide (sd_Slot duty = slot)) as [<-|Hs].
  - rewrite lookup_insert_eq. simpl. destruct (decide (sd_ValidatorIndex duty = idx)) as [<-|Hi].
    + rewrite lookup_insert_eq. by rewrite decide_True.
    + rewrite lookup_insert_ne, decide_False by naive_solver.
      destruct (m !! sd_Slot duty) eqn:E; simpl; [by rewrite E|by rewrite lookup_insert_eq].
  - rewrite lookup_insert_ne, decide_False by naive_solver.
    destruct (m !! sd_Slot duty); [done|]. by rewrite lookup_insert_ne.
Qed.

Lemma find_foldl_set m duties slot idx :
  find_duty slot idx (foldl set_duty m duties) =
    match assigned slot idx duties with Some d => Some d | None => find_duty slot idx m end.
Proof.
  revert m. induction duties as [|d duties IH]; intros m; simpl; [done|].
  rewrite IH, find_set_duty. unfold assigned. rewrite filter_cons.
  destruct (decide _) as [Hd|Hd]; [|done]. rewrite last_cons.
  by destruct (list.last _).
Qed.

(** The relation of the store with the views of its epochs. *)
Definition epoch_agrees (d : Duties) (epoch : Epoch) (v : EpochView) : Prop :=
  IsEpochSet epoch d = bool_decide (is_Some (ev_duties v)) ∧
  IsEpochStale epoch d = ev_stale v ∧
  ∀ slot idx,
    (d_m d !! epoch ≫= find_duty slot idx) = (ev_duties v ≫= assigned slot idx).

Lemma MarkEpochsStale_elem epochs stale epoch :
  epoch ∈ foldl (λ stale epoch, stale ∪ {[epoch]}) stale epochs ↔
  epoch ∈@{gset Epoch} stale ∨ epoch ∈ epochs.
Proof. revert stale. induction epochs as [|e es IH]; intros stale; simpl; [set_solver|]. rewrite IH. set_solver. Qed.

Lemma run_op_agrees d epoch v op :
  epoch_agrees d epoch v → epoch_agrees (run_op d op) epoch (view_op epoch v op).
Proof.
  intros (Hset & Hst & Hd). unfold epoch_agrees, IsEpochSet, IsEpochStale in *.
  destruct op as [e ds|e|e| |es]; simpl.
  - destruct (decide (e = epoch)) as [->|Hne]; simpl.
    + rewrite lookup_insert_eq. split_and!; [done| |].
      * apply bool_decide_eq_false. set_solver.
      * intros slot idx. simpl. rewrite find_foldl_set. by destruct (assigned slot idx ds).
    + rewrite lookup_insert_ne by done. split_and!; [done| |done].
      rewrite <-Hst. apply bool_decide_ext. set_solver.
  - destruct (decide (e = epoch)) as [->|Hne]; simpl.
    + rewrite lookup_delete_eq. split_and!; [done| |done]. apply bool_decide_eq_false. set_solver.
    + rewrite lookup_delete_ne by done. split_and!; [done| |done].
      rewrite <-Hst. apply bool_decide_ext. set_solver.
  - destruct (decide (epoch < e)) as [Hlt|Hge]; simpl.
    + rewrite map_lookup_filter_None_2 by (right; simpl; lia).
      split_and!; [done| |done]. apply bool_decide_eq_false. rewrite elem_of_filter. lia.
    + assert (filter (λ p, ¬ p.1 < e) (d_m d) !! epoch = d_m d !! epoch) as ->.
      { apply option_eq. intros x. rewrite map_lookup_filter_Some. simpl. tauto. }
      split_and!; [done| |done]. rewrite <-Hst. apply bool_decide_ext. rewrite elem_of_filter. tauto.
  - rewrite lookup_empty. split_and!; [done| |done]. apply bool_decide_eq_false. set_solver.
  - destruct (decide (epoch ∈ es)) as [Hin|Hout]; simpl; split_and!; try done.
    + apply bool_decide_eq_true, MarkEpochsStale_elem. auto.
    + rewrite <-Hst. apply bool_decide_ext. rewrite MarkEpochsStale_elem. tauto.
Qed.

Lemma ValidatorDuty_find d epoch slot idx :
  ValidatorDuty epoch slot idx d = (d_m d !! epoch ≫= find_duty slot idx) ≫= sd_Duty.
Proof.
  unfold ValidatorDuty, find_duty. destruct (d_m d !! epoch) as [sm|]; [|done]. simpl.
  destruct (sm !! slot) as [dm|]; [|done]. simpl. by destruct (dm !! idx).
Qed.

(** The duty store refines its per-epoch view: after any sequence of fetches, erasures
    and stale marks, an epoch is set exactly when its last fetch has not been erased since,
    stale exactly when it was marked since its last fetch or erasure, and a validator's duty
    at a slot is the last one the fetch listed for them. *)
Theorem duties_refine_views ops epoch :
  let d := foldl run_op NewDuties ops in
  let v := foldl (view_op epoch) (mkView None false) ops in
  IsEpochSet epoch d = bool_decide (is_Some (ev_duties v)) ∧
  IsEpochStale epoch d = ev_stale v ∧
  ∀ slot idx, ValidatorDuty epoch slot idx d = (ev_duties v ≫= assigned slot idx) ≫= sd_Duty.
Proof.
  assert (∀ d v, epoch_agrees d epoch v →
    epoch_agrees (foldl run_op d ops) epoch (foldl (view_op epoch) v ops)) as Hrun.
  { induction ops as [|op ops IH]; simpl; [done|]. intros d v Hv. by apply IH, run_op_agrees. }
  intros d v. destruct (Hrun NewDuties (mkView None false)) as (H1 & H2 & H3); [done|].
  split_and!; [done..|]. intros slot idx. by rewrite ValidatorDuty_find, H3.
Qed.
End duties.
Arguments StoreDuty : clear implicits.
Arguments Duties : clear implicits.
Arguments DutyOp : clear implicits.

(** ** Sync committee duties, per period *)
Section sync.
Context {D : Type}.
Record StoreSyncCommitteeDuty := mkStoreSync {
  sc_ValidatorIndex : ValidatorIndex;
  sc_Duty : option D;
  sc_InCommittee : bool;
}.
Definition SyncCommitteeDuties := gmap Z (gmap ValidatorIndex StoreSyncCommitteeDuty).

Definition CommitteePeriodDuties (period : Z) (d : SyncCommitteeDuties) : list (option D) :=
  match d !! period with
  | None => []
  | Some descriptorMap =>
      sc_Duty <$> filter (λ descriptor, sc_InCommittee descriptor = true)
                    (map_to_list descriptorMap).*2
  end.
Definition sync_Duty (period : Z) (validatorIndex : ValidatorIndex) (d : SyncCommitteeDuties) : option D :=
  match d !! period with
  | None => None
  | Some duties =>
      match duties !! validatorIndex with None => None | Some descriptor => sc_Duty descriptor end
  end.
Definition sync_Set (period : Z) (duties : list StoreSyncCommitteeDuty) (d : SyncCommitteeDuties)
    : SyncCommitteeDuties :=
  <[period := foldl (λ mapped duty, <[sc_ValidatorIndex duty := duty]> mapped) ∅ duties]> d.
Definition sync_Reset (period : Z) (d : SyncCommitteeDuties) : SyncCommitteeDuties := delete period d.
End sync.
Arguments StoreSyncCommitteeDuty : clear implicits.
Arguments SyncCommitteeDuties : clear implicits.

(** ** Voluntary exits: how many per slot and public key *)
Abbreviation BLSPubKey := bytes (only parsing).
Abbreviation VoluntaryExitDuties := (gmap Slot (gmap BLSPubKey Z)).

Definition GetDutyCount (slot : Slot) (pk : BLSPubKey) (d : VoluntaryExitDuties) : Z :=
  match d !! slot with None => 0 | Some v => default 0 (v !! pk) end.
Definition AddDuty (slot : Slot) (pk : BLSPubKey) (d : VoluntaryExitDuties) : VoluntaryExitDuties :=
  match d !! slot with
  | None => <[slot := {[pk := 1]}]> d
  | Some v => <[slot := <[pk := default 0 (v !! pk) +u 1]> v]> d
  end.
Definition RemoveSlot (slot : Slot) (d : VoluntaryExitDuties) : VoluntaryExitDuties := delete slot d.

(** dutystore.Store; the attester duties have a type of their own. *)
Record DutyStore {A P T S : Type} := mkDutyStore {
  ds_Attester : Duties A;
  ds_Proposer : Duties P;
  ds_PTC : Duties T;
  ds_SyncCommittee : SyncCommitteeDuties S;
  ds_VoluntaryExit : VoluntaryExitDuties;
}.
Arguments DutyStore : clear implicits.
Definition New_DutyStore {A P T S} : DutyStore A P T S :=
  mkDutyStore A P T S NewDuties NewDuties NewDuties ∅ ∅.

Inductive ExitOp := ExitAdd (slot : Slot) (pk : BLSPubKey) | ExitRemove (slot : Slot).
Definition run_exit (d : VoluntaryExitDuties) (op : ExitOp) : VoluntaryExitDuties :=
  match op with ExitAdd slot pk => AddDuty slot pk d | ExitRemove slot => RemoveSlot slot d end.
(** How often the exit was added since the slot was last removed. *)
Definition count_exit (slot : Slot) (pk : BLSPubKey) (n : Z) (op : ExitOp) : Z :=
  match op with
  | ExitAdd s k => if decide (s = slot ∧ k = pk) then n + 1 else n
  | ExitRemove s => if decide (s = slot) then 0 else n
  end.

Lemma run_exit_count d op slot pk :
  GetDutyCount slot pk d + 1 ≤ max_u64 → 0 ≤ GetDutyCount slot pk d →
  GetDutyCount slot pk (run_exit d op) = count_exit slot pk (GetDutyCount slot pk d) op.
Proof.
  intros Hm H0. destruct op as [s k|s]; simpl; unfold GetDutyCount, AddDuty, RemoveSlot in *.
  - destruct (decide (s = slot)) as [->|Hs].
    + destruct (d !! slot) as [v|] eqn:E; rewrite lookup_insert_eq;
        destruct (decide (k = pk)) as [->|Hk].
      * rewrite lookup_insert_eq, decide_True by done. simpl. apply u64_small. unfold is_u64. lia.
      * by rewrite lookup_insert_ne, decide_False by naive_solver.
      * by rewrite lookup_singleton_eq, decide_True by done.
      * by rewrite lookup_singleton_ne, decide_False by naive_solver.
    + rewrite decide_False by naive_solver. by destruct (d !! s); rewrite lookup_insert_ne.
  - destruct (decide (s = slot)) as [->|Hs]; [by rewrite lookup_delete_eq|by rewrite lookup_delete_ne].
Qed.

Lemma count_exit_bound slot pk ops n :
  0 ≤ n → 0 ≤ foldl (count_exit slot pk) n ops ≤ n + Z.of_nat (length ops).
Proof.
  revert n. induction ops as [|op ops IH]; intros n Hn; cbn [foldl length]; [lia|].
  assert (0 ≤ count_exit slot pk n op ≤ n + 1) as Hc
    by (destruct op; simpl; destruct (decide _); lia).
  specialize (IH (count_exit slot pk n op)). lia.
Qed.

(** The voluntary exits counted for a slot and key, the duty limit message validation
    applies, are the ones added since the slot was last removed. *)
Theorem voluntary_exits_counted ops slot pk :
  Z.of_nat (length ops) ≤ max_u64 →
  GetDutyCount slot pk (foldl run_exit ∅ ops) = foldl (count_exit slot pk) 0 ops.
Proof.
  induction ops as [|op ops IH] using rev_ind; [done|].
  rewrite length_app, !foldl_app. cbn [foldl length]. intros Hl.
  pose proof (count_exit_bound slot pk ops 0 ltac:(lia)).
  rewrite run_exit_count; rewrite IH by lia; [done|lia|lia].
Qed.

