(* ===== verification/Share.v ===== *)
(** * Validator shares and committees (protocol/v2/types/ssvshare.go,
      registry/storage/validatorstore.go: Committee)

    What the node knows about a validator it serves, when that validator takes
    part in duties, and the values derived from its operators, which are cached
    in atomic pointers on first use. *)

From stdpp Require Import base list gmap numbers strings.
From Stdlib Require Import Strings.Byte.
From S2P Require Import Prelude Sha256 SpecTypes Quorum Network Subnets.
Open Scope Z_scope.

(** ** The validator states of go-eth2-client the code names; its methods on them
    are not part of the repository. *)
Inductive ValidatorStatus :=
| ValidatorStateUnknown
| ValidatorStatePendingQueued
| ValidatorStateActiveOngoing
| ValidatorStateActiveSlashed
| ValidatorStateExitedSlashed
| ValidatorStateWithdrawalPossible
| ValidatorStateOther (n : Z).
#[global] Instance ValidatorStatus_eq_dec : EqDecision ValidatorStatus.
Proof. solve_decision. Defined.

Class Eth2Client := {
  st_IsPending : ValidatorStatus → bool;
  st_HasActivated : ValidatorStatus → bool;
  st_IsActive : ValidatorStatus → bool;
  st_IsAttesting : ValidatorStatus → bool;
  st_IsExited : ValidatorStatus → bool;
  st_HasExited : ValidatorStatus → bool;
}.

Record ShareMember := mkShareMember { sm_SharePubKey : bytes; sm_Signer : OperatorID }.

Record SSVShare := mkSSVShare {
  sh_ValidatorIndex : ValidatorIndex;
  sh_ValidatorPubKey : bytes;
  sh_SharePubKey : bytes;
  sh_Committee : list ShareMember;
  sh_DomainType : bytes;
  sh_Graffiti : bytes;
  sh_Status : ValidatorStatus;
  sh_ActivationEpoch : Epoch;
  sh_ExitEpoch : Epoch;
  sh_OwnerAddress : bytes;
  sh_Liquidated : bool;
  sh_committeeID : option bytes;              (* atomic pointers *)
  sh_booleCommitteeSubnet : option Z;
  sh_alanCommitteeSubnet : option Z;
  sh_minParticipationEpoch : Epoch;
}.

Record ValidatorMetadata := mkMetadata {
  md_Status : ValidatorStatus;
  md_Index : ValidatorIndex;
  md_ActivationEpoch : Epoch;
  md_ExitEpoch : Epoch;
}.

Definition BelongsToOperator (operatorID : OperatorID) (s : SSVShare) : bool :=
  if operatorID =? 0 then false
  else existsb (λ shareMember, sm_Signer shareMember =? operatorID) (sh_Committee s).

Definition BeaconMetadata (s : SSVShare) : ValidatorMetadata :=
  mkMetadata (sh_Status s) (sh_ValidatorIndex s) (sh_ActivationEpoch s) (sh_ExitEpoch s).

(** The update time is not modelled. *)
Definition SetBeaconMetadata (metadata : option ValidatorMetadata) (s : SSVShare) : SSVShare :=
  match metadata with
  | None => s
  | Some md =>
      mkSSVShare (md_Index md) (sh_ValidatorPubKey s) (sh_SharePubKey s) (sh_Committee s)
        (sh_DomainType s) (sh_Graffiti s) (md_Status md) (md_ActivationEpoch md) (md_ExitEpoch md)
        (sh_OwnerAddress s) (sh_Liquidated s) (sh_committeeID s)
        (sh_booleCommitteeSubnet s) (sh_alanCommitteeSubnet s) (sh_minParticipationEpoch s)
  end.

Definition HasBeaconMetadata (s : option SSVShare) : bool :=
  match s with None => false | Some s => bool_decide (sh_Status s ≠ ValidatorStateUnknown) end.

Section status.
Context `{Eth2Client}.


Definition IsAttesting (epoch : Epoch) (s : SSVShare) : bool :=
  if sh_Liquidated s || negb (HasBeaconMetadata (Some s)) then false
  else if st_IsAttesting (sh_Status s) then true
  else bool_decide (sh_Status s = ValidatorStatePendingQueued) && (sh_ActivationEpoch s <=? epoch).

Definition isSyncCommitteeEligible (beaconCfg : Beacon) (epoch : Epoch) (s : SSVShare)
    : result goerr bool :=
  if sh_Liquidated s then Ok false
  else if IsAttesting epoch s then Ok true
  else if st_IsExited (sh_Status s)
          || bool_decide (sh_Status s = ValidatorStateWithdrawalPossible)
          || bool_decide (sh_Status s = ValidatorStateActiveSlashed) then
    if sh_ExitEpoch s <=? epoch then
      p ← EstimatedSyncCommitteePeriodAtEpoch beaconCfg epoch;
      q ← EstimatedSyncCommitteePeriodAtEpoch beaconCfg (sh_ExitEpoch s);
      Ok (p -u q <=? 1)
    else Ok false
  else Ok false.

Definition IsParticipating (beaconCfg : Beacon) (epoch : Epoch) (s : SSVShare) : result goerr bool :=
  isSyncCommitteeEligible beaconCfg epoch s.
End status.

Definition OperatorIDs (s : SSVShare) : list OperatorID := sm_Signer <$> sh_Committee s.

(** ** Cached values: each method returns the value and the share after it. *)
Definition set_committeeID (id : bytes) (s : SSVShare) : SSVShare :=
  mkSSVShare (sh_ValidatorIndex s) (sh_ValidatorPubKey s) (sh_SharePubKey s) (sh_Committee s)
    (sh_DomainType s) (sh_Graffiti s) (sh_Status s) (sh_ActivationEpoch s) (sh_ExitEpoch s)
    (sh_OwnerAddress s) (sh_Liquidated s) (Some id)
    (sh_booleCommitteeSubnet s) (sh_alanCommitteeSubnet s) (sh_minParticipationEpoch s).
Definition set_booleSubnet (n : Z) (s : SSVShare) : SSVShare :=
  mkSSVShare (sh_ValidatorIndex s) (sh_ValidatorPubKey s) (sh_SharePubKey s) (sh_Committee s)
    (sh_DomainType s) (sh_Graffiti s) (sh_Status s) (sh_ActivationEpoch s) (sh_ExitEpoch s)
    (sh_OwnerAddress s) (sh_Liquidated s) (sh_committeeID s)
    (Some n) (sh_alanCommitteeSubnet s) (sh_minParticipationEpoch s).
Definition set_alanSubnet (n : Z) (s : SSVShare) : SSVShare :=
  mkSSVShare (sh_ValidatorIndex s) (sh_ValidatorPubKey s) (sh_SharePubKey s) (sh_Committee s)
    (sh_DomainType s) (sh_Graffiti s) (sh_Status s) (sh_ActivationEpoch s) (sh_ExitEpoch s)
    (sh_OwnerAddress s) (sh_Liquidated s) (sh_committeeID s)
    (sh_booleCommitteeSubnet s) (Some n) (sh_minParticipationEpoch s).

(** The slice sorted by [ComputeCommitteeID] is a fresh one here. *)
Definition CommitteeID (s : SSVShare) : bytes * SSVShare :=
  match sh_committeeID s with
  | Some id => (id, s)
  | None => let id := (ComputeCommitteeID (sm_Signer <$> sh_Committee s)).2 in
            (id, set_committeeID id s)
  end.
Definition share_BooleCommitteeSubnet (s : SSVShare) : Z * SSVShare :=
  match sh_booleCommitteeSubnet s with
  | Some n => (n, s)
  | None => let n := BooleCommitteeSubnet (OperatorIDs s) in (n, set_booleSubnet n s)
  end.
Definition share_AlanCommitteeSubnet (s : SSVShare) : Z * SSVShare :=
  match sh_alanCommitteeSubnet s with
  | Some n => (n, s)
  | None => let '(cid, s) := CommitteeID s in
            let n := AlanCommitteeSubnet cid in (n, set_alanSubnet n s)
  end.

Definition share_Quorum (s : SSVShare) : Z :=
  (ComputeQuorumAndPartialQuorum (Z.of_nat (length (sh_Committee s)))).1.

(** ** storage.Committee *)
Record Committee := mkCommittee {
  co_ID : bytes;
  co_Operators : list OperatorID;
  co_Shares : list SSVShare;
  co_Indices : list ValidatorIndex;
  co_booleCommitteeSubnet : option Z;
  co_alanCommitteeSubnet : option Z;
}.
Definition committee_BooleCommitteeSubnet (c : Committee) : Z * Committee :=
  match co_booleCommitteeSubnet c with
  | Some n => (n, c)
  | None => let n := BooleCommitteeSubnet (co_Operators c) in
            (n, mkCommittee (co_ID c) (co_Operators c) (co_Shares c) (co_Indices c) (Some n)
                  (co_alanCommitteeSubnet c))
  end.
Definition committee_AlanCommitteeSubnet (c : Committee) : Z * Committee :=
  match co_alanCommitteeSubnet c with
  | Some n => (n, c)
  | None => let n := AlanCommitteeSubnet (co_ID c) in
            (n, mkCommittee (co_ID c) (co_Operators c) (co_Shares c) (co_Indices c)
                  (co_booleCommitteeSubnet c) (Some n))
  end.
Fixpoint committee_IsParticipating_loop `{Eth2Client} (beaconCfg : Beacon) (epoch : Epoch)
    (validators : list SSVShare) : result goerr bool :=
  match validators with
  | [] => Ok false
  | v :: rest =>
      p ← IsParticipating beaconCfg epoch v;
      if p : bool then Ok true else committee_IsParticipating_loop beaconCfg epoch rest
  end.
Definition committee_IsParticipating `{Eth2Client} (beaconCfg : Beacon) (epoch : Epoch)
    (c : Committee) : result goerr bool :=
  committee_IsParticipating_loop beaconCfg epoch (co_Shares c).

(** ** Caches hold what they stand for *)
Record share_wf (s : SSVShare) : Prop := {
  wf_cid id : sh_committeeID s = Some id → id = (ComputeCommitteeID (OperatorIDs s)).2;
  wf_boole n : sh_booleCommitteeSubnet s = Some n → n = BooleCommitteeSubnet (OperatorIDs s);
  wf_alan n : sh_alanCommitteeSubnet s = Some n →
    n = AlanCommitteeSubnet (ComputeCommitteeID (OperatorIDs s)).2;
}.
#[local] Opaque ComputeCommitteeID BooleCommitteeSubnet AlanCommitteeSubnet.

Lemma CommitteeID_spec s :
  share_wf s →
  let '(id, s') := CommitteeID s in
  id = (ComputeCommitteeID (OperatorIDs s)).2 ∧ share_wf s' ∧
  OperatorIDs s' = OperatorIDs s ∧ BeaconMetadata s' = BeaconMetadata s ∧
  sh_Liquidated s' = sh_Liquidated s.
Proof.
  intros Hs. pose proof (wf_cid s Hs) as Hc. unfold CommitteeID.
  destruct (sh_committeeID s) as [id|] eqn:E.
  - split_and!; [by apply Hc|done..].
  - split_and!; [done| |done..].
    destruct Hs as [H1 H2 H3]. constructor; simpl; [|done..]. by intros ? [= <-].
Qed.

(** The cached committee identifier and subnets of a share are always those of its
    operators: the three methods that fill the caches return them, keep every other field
    of the share, and so do later reads, also after a metadata update. *)
Theorem share_caches_exact s md :
  share_wf s →
  let '(id, s1) := CommitteeID s in
  let '(boole, s2) := share_BooleCommitteeSubnet s1 in
  let '(alan, s3) := share_AlanCommitteeSubnet s2 in
  id = (ComputeCommitteeID (OperatorIDs s)).2 ∧
  boole = BooleCommitteeSubnet (OperatorIDs s) ∧
  alan = AlanCommitteeSubnet id ∧
  share_wf (SetBeaconMetadata md s3) ∧
  OperatorIDs s3 = OperatorIDs s ∧ BeaconMetadata s3 = BeaconMetadata s.
Proof.
  intros Hs. pose proof (CommitteeID_spec s Hs) as H1.
  destruct (CommitteeID s) as [id s1]. destruct H1 as (-> & Hs1 & Hops & Hmd & _).
  rewrite <-Hops, <-Hmd.
  assert (let '(boole, s2) := share_BooleCommitteeSubnet s1 in
    boole = BooleCommitteeSubnet (OperatorIDs s1) ∧ share_wf s2 ∧
    OperatorIDs s2 = OperatorIDs s1 ∧ BeaconMetadata s2 = BeaconMetadata s1) as H2.
  { unfold share_BooleCommitteeSubnet. pose proof (wf_boole s1 Hs1) as Hb.
    destruct (sh_booleCommitteeSubnet s1) as [n|]; [split_and!; [by apply Hb|done..]|].
    split_and!; [done| |done..]. destruct Hs1 as [? ? ?]. constructor; simpl; [done| |done].
    by intros ? [= <-]. }
  destruct (share_BooleCommitteeSubnet s1) as [boole s2]. destruct H2 as (-> & Hs2 & Hops2 & Hmd2).
  rewrite <-Hops2, <-Hmd2. unfold share_AlanCommitteeSubnet. pose proof (wf_alan s2 Hs2) as Ha.
  assert (∀ s', share_wf s' → share_wf (SetBeaconMetadata md s')) as Hset
    by (intros s' [? ? ?]; by destruct md; constructor).
  destruct (sh_alanCommitteeSubnet s2) as [n|]; [split_and!; auto|].
  pose proof (CommitteeID_spec s2 Hs2) as H3. destruct (CommitteeID s2) as [id' s3].
  destruct H3 as (-> & Hs3 & Hops3 & Hmd3 & _). split_and!; [done..| |done|done].
  apply Hset. destruct Hs3 as [? ? ?]. constructor; simpl; [done|done|]. intros ? [= <-].
  do 3 f_equal. symmetry. exact Hops3.
Qed.

Section participation.
Context `{Eth2Client}.

Lemma IsParticipating_spec b epoch s :
  0 < EpochsPerSyncCommitteePeriod b → is_u64 epoch → 0 ≤ sh_ExitEpoch s →
  let period e := e / EpochsPerSyncCommitteePeriod b in
  let left_active := st_IsExited (sh_Status s) = true ∨
    sh_Status s = ValidatorStateWithdrawalPossible ∨ sh_Status s = ValidatorStateActiveSlashed in
  ∃ p, IsParticipating b epoch s = Ok p ∧
    (p = true ↔ sh_Liquidated s = false ∧
      (IsAttesting epoch s = true ∨
       (left_active ∧ sh_ExitEpoch s ≤ epoch ∧ period epoch ≤ period (sh_ExitEpoch s) + 1))).
Proof.
  intros Hp He Hx period left_active. unfold IsParticipating, isSyncCommitteeEligible.
  destruct (sh_Liquidated s) eqn:El; [exists false; naive_solver|].
  destruct (IsAttesting epoch s); [exists true; naive_solver|].
  assert (st_IsExited (sh_Status s) || bool_decide (sh_Status s = ValidatorStateWithdrawalPossible)
    || bool_decide (sh_Status s = ValidatorStateActiveSlashed) = true ↔ left_active) as Hl.
  { unfold left_active. rewrite !orb_true_iff, !bool_decide_eq_true. tauto. }
  destruct (_ || _ || _) eqn:Ex.
  - destruct (Z.leb_spec (sh_ExitEpoch s) epoch) as [Hle|Hgt].
    + unfold EstimatedSyncCommitteePeriodAtEpoch, div_u64.
      destruct (Z.eqb_spec (EpochsPerSyncCommitteePeriod b) 0); [lia|]. simpl.
      pose proof (Z.div_le_mono _ _ _ Hp Hle). pose proof (Z.div_pos _ _ Hx Hp).
      assert (epoch / EpochsPerSyncCommitteePeriod b ≤ epoch)
        by (apply Z.div_le_upper_bound; unfold is_u64 in He; nia).
      rewrite u64_small by (unfold is_u64 in *; lia).
      eexists. split; [done|]. rewrite Z.leb_le. unfold period.
      split; [intros; split; [done|right; split_and!; [by apply Hl|lia|lia]]|].
      intros [_ [?|(_ & _ & ?)]]; [done|lia].
    + exists false. split; [done|]. split; [done|]. intros [_ [?|(_ & ? & _)]]; [done|lia].
  - exists false. split; [done|]. split; [done|]. intros [_ [?|(?%Hl & _)]]; done.
Qed.

(** Who takes part in duties: a committee takes part in an epoch exactly when one of its
    validators does, which is when it is not liquidated and is attesting in that epoch, or
    left the active set in the same or the previous sync committee period. *)
Theorem committee_participation b epoch c :
  0 < EpochsPerSyncCommitteePeriod b → is_u64 epoch →
  (∀ s, s ∈ co_Shares c → 0 ≤ sh_ExitEpoch s) →
  let period e := e / EpochsPerSyncCommitteePeriod b in
  ∃ p, committee_IsParticipating b epoch c = Ok p ∧
    (p = true ↔ ∃ s, s ∈ co_Shares c ∧ sh_Liquidated s = false ∧
      (IsAttesting epoch s = true ∨
       ((st_IsExited (sh_Status s) = true ∨ sh_Status s = ValidatorStateWithdrawalPossible ∨
         sh_Status s = ValidatorStateActiveSlashed) ∧
        sh_ExitEpoch s ≤ epoch ∧ period epoch ≤ period (sh_ExitEpoch s) + 1))).
Proof.
  intros Hp He Hx period. unfold committee_IsParticipating.
  induction (co_Shares c) as [|s rest IH]; simpl.
  { exists false. split; [done|]. split; [done|]. intros (? & ?%not_elem_of_nil & _). done. }
  destruct (IsParticipating_spec b epoch s Hp He (Hx s ltac:(by left))) as (p & -> & Hps).
  simpl. destruct p.
  - exists true. split; [done|]. split; [|done]. intros _. exists s. split; [by left|by apply Hps].
  - destruct IH as (q & -> & Hq); [intros s' ?; apply Hx; by right|]. exists q. split; [done|].
    rewrite Hq. split; intros (s' & Hin & Hs'); exists s'; [split; [by right|done]|].
    apply elem_of_cons in Hin as [->|Hin]; [|done]. destruct Hps as [_ Hps].
    discriminate (Hps Hs').
Qed.
End participation.
#[local] Instance demo_client : Eth2Client :=
  Build_Eth2Client (λ _, false) (λ _, true) (λ _, true)
    (λ s, bool_decide (s = ValidatorStateActiveOngoing)) (λ s, bool_decide (s = ValidatorStateExitedSlashed))
    (λ _, false).
