(* ===== verification/ValState.v ===== *)
(** * State of message validation (message/validation: seen_msg_types.go,
      signer_state.go, consensus_state.go, errors.go)

    What the validator remembers of each signer: a bitset of seen message types
    per peer and for the world, kept per slot in a ring, and duty counts per
    epoch in another ring.  The state is reached through pointers that are never
    shared, so updates are functional here. *)

From stdpp Require Import base list gmap numbers strings.
From S2P Require Import Prelude SpecTypes.

(** ** Errors (errors.go) *)
Inductive verror :=
| VErr (text : string) (inner : option verror) (reject : bool)
| VDeadlineExceeded                          (* context.DeadlineExceeded *)
| VCanceled                                  (* context.Canceled *)
| VPlain (text : string) (inner : option verror).

Definition with_inner (e : verror) (inner : verror) : verror :=
  match e with VErr t _ r => VErr t (Some inner) r | _ => e end.
Definition with_reject (e : verror) : verror :=
  match e with VErr t i _ => VErr t i true | _ => e end.

(** [errors.Is] against a sentinel, and [errors.As] to a validation error, both
    along the chain of wrapped errors. *)
Fixpoint is_deadline (e : verror) : bool :=
  match e with
  | VDeadlineExceeded => true
  | VErr _ (Some i) _ | VPlain _ (Some i) => is_deadline i
  | _ => false
  end.
Fixpoint is_canceled (e : verror) : bool :=
  match e with
  | VCanceled => true
  | VErr _ (Some i) _ | VPlain _ (Some i) => is_canceled i
  | _ => false
  end.
Fixpoint as_verror (e : verror) : option (string * bool) :=
  match e with
  | VErr t _ r => Some (t, r)
  | VPlain _ (Some i) => as_verror i
  | _ => None
  end.

Inductive discardKind := discardIgnored | discardTimeout | discardCanceled | discardRejected.

Definition classifyDiscard (err : verror) : discardKind :=
  if is_deadline err then discardTimeout
  else if is_canceled err then discardCanceled
  else match as_verror err with
       | None => discardIgnored
       | Some (_, reject) => if reject : bool then discardRejected else discardIgnored
       end.

(** pubsub.ValidationResult *)
Inductive ValidationResult := ValidationAccept | ValidationIgnore | ValidationReject.

Definition handleValidationError (err : verror) : ValidationResult :=
  match classifyDiscard err with discardRejected => ValidationReject | _ => ValidationIgnore end.

Abbreviation vres := (result verror).

(** ** Partial signatures of ssv-spec *)
Inductive PartialSigMsgType :=
| PostConsensusPartialSig | RandaoPartialSig | SelectionProofPartialSig | ContributionProofs
| ValidatorRegistrationPartialSig | VoluntaryExitPartialSig | AggregatorCommitteePartialSig
| PTCAttesterPartialSig | ProposerPreferencesPartialSig | RequestAuthPartialSig
| UnknownPartialSig (n : Z).
#[global] Instance PartialSigMsgType_eq_dec : EqDecision PartialSigMsgType.
Proof. solve_decision. Defined.

Record PartialSignatureMessage := mkPSM {
  psm_PartialSignature : bytes;
  psm_SigningRoot : bytes;
  psm_Signer : OperatorID;
  psm_ValidatorIndex : ValidatorIndex;
}.
Record PartialSignatureMessages := mkPSMs {
  ps_Type : PartialSigMsgType;
  ps_Slot : Slot;
  ps_Messages : list PartialSignatureMessage;
}.

(** ** SeenMsgTypes: a bitset in a [uint8] *)
Abbreviation preConsensusIdx := 0 (only parsing).
Abbreviation proposalIdx := 1 (only parsing).
Abbreviation prepareIdx := 2 (only parsing).
Abbreviation commitIdx := 3 (only parsing).
Abbreviation roundChangeIdx := 4 (only parsing).
Abbreviation postConsensusIdx := 5 (only parsing).

Abbreviation SeenMsgTypes := Z (only parsing).

Definition record_idx (idx : Z) (v : SeenMsgTypes) : SeenMsgTypes := Z.lor v (Z.shiftl 1 idx).
Definition reached_idx (idx : Z) (v : SeenMsgTypes) : bool :=
  negb (Z.land v (Z.shiftl 1 idx) =? 0).

Definition RecordConsensusMessage (signedSSVMessage : SignedSSVMessage) (msg : Message)
    (c : SeenMsgTypes) : vres SeenMsgTypes :=
  match m_MsgType msg with
  | ProposalMsgType => Ok (record_idx proposalIdx c)
  | PrepareMsgType => Ok (record_idx prepareIdx c)
  | CommitMsgType =>
      Ok (if (length (s_OperatorIDs signedSSVMessage) =? 1)%nat then record_idx commitIdx c else c)
  | RoundChangeMsgType => Ok (record_idx roundChangeIdx c)
  | UnknownMsgType _ => Err (VPlain "unexpected signed message type" None)
  end.

Definition RecordPartialSignatureMessage (messages : PartialSignatureMessages)
    (c : SeenMsgTypes) : vres SeenMsgTypes :=
  match ps_Type messages with
  | RandaoPartialSig | SelectionProofPartialSig | ContributionProofs
  | ValidatorRegistrationPartialSig | VoluntaryExitPartialSig | AggregatorCommitteePartialSig
  | PTCAttesterPartialSig => Ok (record_idx preConsensusIdx c)
  | ProposerPreferencesPartialSig | RequestAuthPartialSig => Ok c
  | PostConsensusPartialSig => Ok (record_idx postConsensusIdx c)
  | UnknownPartialSig _ => Err (VPlain "unexpected partial signature message type" None)
  end.

(** ** SignerState *)
Record SignerState := mkSignerState {
  sg_SeenMsgTypes : SeenMsgTypes;
  sg_HashedProposalData : option bytes;
  sg_SeenDecidedMsgSignersCount : Z;
}.
Definition empty_SignerState : SignerState := mkSignerState 0 None 0.

Definition set_SeenMsgTypes (v : SeenMsgTypes) (s : SignerState) : SignerState :=
  mkSignerState v (sg_HashedProposalData s) (sg_SeenDecidedMsgSignersCount s).
Definition set_HashedProposalData (root : bytes) (s : SignerState) : SignerState :=
  mkSignerState (sg_SeenMsgTypes s) (Some root) (sg_SeenDecidedMsgSignersCount s).
Definition set_SeenDecided (n : Z) (s : SignerState) : SignerState :=
  mkSignerState (sg_SeenMsgTypes s) (sg_HashedProposalData s) n.

Abbreviation PeerID := string (only parsing).

Record SignerStateForSlotRound := mkSSR {
  ss_Slot : Slot;
  ss_Round : Round;
  ss_Peers : gmap string SignerState;
  ss_World : SignerState;
  ss_SeenProposerPreferencesRoots : list bytes;
  ss_SeenRequestAuthRoots : list bytes;
}.

(** Update the state of a peer, adding it on first use ([Peer]). *)
Definition upd_Peer (p : PeerID) (g : SignerState → SignerState)
    (s : SignerStateForSlotRound) : SignerStateForSlotRound :=
  mkSSR (ss_Slot s) (ss_Round s)
    (<[p := g (default empty_SignerState (ss_Peers s !! p))]> (ss_Peers s))
    (ss_World s) (ss_SeenProposerPreferencesRoots s) (ss_SeenRequestAuthRoots s).
Definition upd_World (g : SignerState → SignerState)
    (s : SignerStateForSlotRound) : SignerStateForSlotRound :=
  mkSSR (ss_Slot s) (ss_Round s) (ss_Peers s) (g (ss_World s))
    (ss_SeenProposerPreferencesRoots s) (ss_SeenRequestAuthRoots s).

Definition peekPeer (p : PeerID) (s : SignerStateForSlotRound) : SignerState :=
  default empty_SignerState (ss_Peers s !! p).

Definition Reset (slot : Slot) (round : Round) (s : SignerStateForSlotRound)
    : SignerStateForSlotRound :=
  mkSSR slot round ∅ (mkSignerState 0 None 0) [] [].
Definition newSignerState (slot : Slot) (round : Round) : SignerStateForSlotRound :=
  Reset slot round (mkSSR 0 NoRound ∅ empty_SignerState [] []).

(** seenRootSet *)
Abbreviation roots_has root s := (bool_decide (root ∈ s)) (only parsing).
Definition roots_record (root : bytes) (s : list bytes) : list bytes :=
  if roots_has root s then s else s ++ [root].
Definition seenRootsFor (t : PartialSigMsgType) (s : SignerStateForSlotRound) : list bytes :=
  match t with
  | ProposerPreferencesPartialSig => ss_SeenProposerPreferencesRoots s
  | RequestAuthPartialSig => ss_SeenRequestAuthRoots s
  | _ => []
  end.
Definition set_seenRootsFor (t : PartialSigMsgType) (roots : list bytes)
    (s : SignerStateForSlotRound) : SignerStateForSlotRound :=
  match t with
  | ProposerPreferencesPartialSig =>
      mkSSR (ss_Slot s) (ss_Round s) (ss_Peers s) (ss_World s) roots (ss_SeenRequestAuthRoots s)
  | RequestAuthPartialSig =>
      mkSSR (ss_Slot s) (ss_Round s) (ss_Peers s) (ss_World s)
        (ss_SeenProposerPreferencesRoots s) roots
  | _ => s
  end.

(** ** OperatorState: the slot ring and the epoch ring *)
Record epochDuties := mkEpochDuties { ed_epoch : Epoch; ed_count : Z }.

Record OperatorState := mkOperatorState {
  os_signers : list (option SignerStateForSlotRound);
  os_maxSlot : Slot;
  os_duties : list epochDuties;
}.

Definition newOperatorState (slotCount epochCount : Z) : OperatorState :=
  mkOperatorState (replicate (Z.to_nat slotCount) None) 0
    (replicate (Z.to_nat epochCount) (mkEpochDuties 0 0)).

(** [uint64(x) % uint64(len(l))] as an index; an empty ring panics. *)
Definition ring_index {A} (x : Z) (l : list A) : vres nat :=
  if (length l =? 0)%nat then Panic else Ok (Z.to_nat (x `mod` Z.of_nat (length l))).

(** The read methods take a nil receiver. *)
Definition GetSignerStateForSlot (slot : Slot) (os : option OperatorState)
    : vres (option SignerStateForSlotRound) :=
  match os with
  | None => Ok None
  | Some os =>
      k ← ring_index slot (os_signers os);
      match os_signers os !! k with
      | Some (Some s) => Ok (if ss_Slot s =? slot then Some s else None)
      | Some None => Ok None
      | None => Panic
      end
  end.

Definition MaxSlot (os : option OperatorState) : Slot :=
  match os with None => 0 | Some os => os_maxSlot os end.

Definition DutyCount (epoch : Epoch) (os : option OperatorState) : vres Z :=
  match os with
  | None => Ok 0
  | Some os =>
      k ← ring_index epoch (os_duties os);
      match os_duties os !! k with
      | Some entry =>
          Ok (if (ed_count entry =? 0) || negb (ed_epoch entry =? epoch) then 0 else ed_count entry)
      | None => Panic
      end
  end.

Definition countDuty (epoch : Epoch) (os : OperatorState) : vres OperatorState :=
  k ← ring_index epoch (os_duties os);
  match os_duties os !! k with
  | None => Panic
  | Some entry =>
      let entry' :=
        if (ed_count entry =? 0) || (ed_epoch entry <? epoch) then mkEpochDuties epoch 1
        else if epoch =? ed_epoch entry then mkEpochDuties (ed_epoch entry) (ed_count entry +u 1)
        else entry in
      Ok (mkOperatorState (os_signers os) (os_maxSlot os) (<[k := entry']> (os_duties os)))
  end.

Definition SetSignerStateForSlot (slot : Slot) (epoch : Epoch) (state : SignerStateForSlotRound)
    (os : OperatorState) : vres OperatorState :=
  k ← ring_index slot (os_signers os);
  countDuty epoch
    (mkOperatorState (<[k := Some state]> (os_signers os))
       (if os_maxSlot os <? slot then slot else os_maxSlot os) (os_duties os)).

(** Write back the signer state held at the slot's ring entry. *)
Definition put_signer (slot : Slot) (state : SignerStateForSlotRound) (os : OperatorState)
    : OperatorState :=
  match ring_index slot (os_signers os) with
  | Ok k => mkOperatorState (<[k := Some state]> (os_signers os)) (os_maxSlot os) (os_duties os)
  | _ => os
  end.

Record ValidatorState := mkValidatorState {
  vs_committeeID : bytes;
  vs_operators : list (option OperatorState);
  vs_storedSlotCount : Z;
  vs_storedEpochCount : Z;
}.

(** [cs.operators[operatorIdx]] out of range panics. *)
Definition peekOperatorState (operatorIdx : nat) (cs : ValidatorState)
    : vres (option OperatorState) :=
  match vs_operators cs !! operatorIdx with Some o => Ok o | None => Panic end.

(** The operator's state, allocated on first use; the update is written back. *)
Definition get_OperatorState (operatorIdx : nat) (cs : ValidatorState) : vres OperatorState :=
  o ← peekOperatorState operatorIdx cs;
  Ok (default (newOperatorState (vs_storedSlotCount cs) (vs_storedEpochCount cs)) o).
Definition set_OperatorState (operatorIdx : nat) (os : OperatorState) (cs : ValidatorState)
    : ValidatorState :=
  mkValidatorState (vs_committeeID cs) (<[operatorIdx := Some os]> (vs_operators cs))
    (vs_storedSlotCount cs) (vs_storedEpochCount cs).
