(* ===== verification/ValRules.v ===== *)
(** * Rules of message validation (message/validation: const.go, errors.go,
      common_checks.go, committee_info.go, signed_ssv_message.go,
      pubsub_validation.go, and the stateless checks of consensus_validation.go
      and partial_validation.go)

    Every check is a function that accepts or returns the error the code
    returns; the order of checks is the code's.  The identifiers, decoders and
    hash of ssv-spec, the stores and the signature verifier are arguments. *)

From stdpp Require Import base list gmap numbers strings.
From Stdlib Require Import Strings.Byte.
From S2P Require Import Prelude Sha256 SpecTypes Quorum Network Proposer RoundTimer Subnets.
From S2P Require Import DutyStore Share ValState.
Open Scope string_scope.
Open Scope list_scope.
Open Scope Z_scope.

(** ** Constants (const.go), in nanoseconds and bytes *)
Abbreviation lateMessageMargin := (3 * Second).
Abbreviation clockErrorTolerance := (50 * 1000000).
Abbreviation allowedRoundsInPast := 2 (only parsing).
Abbreviation allowedRoundsInFuture := 1 (only parsing).
Abbreviation LateSlotAllowance := 2 (only parsing).
Abbreviation rsaSignatureSize := 256 (only parsing).
Abbreviation operatorIDSize := 8 (only parsing).
Abbreviation slotSize := 8 (only parsing).
Abbreviation validatorIndexSize := 8 (only parsing).
Abbreviation identifierSize := 56 (only parsing).
Abbreviation rootSize := 32 (only parsing).
Abbreviation maxSignatures := 13 (only parsing).
Abbreviation encodingOverheadDivisor := 20 (only parsing).
Abbreviation earlyMessageMargin := (Second).
Abbreviation proposerPreferencesEarlyEpochs := 2 (only parsing).
Abbreviation maxProposerPreferencesDistinctRoots := 4 (only parsing).
Abbreviation maxRequestAuthDistinctRoots := 8 (only parsing).
Abbreviation maxRequestAuthEntries := 8 (only parsing).

Definition with_overhead (n : Z) : Z := n + n / encodingOverheadDivisor + 4.
Abbreviation maxConsensusMsgSize :=
  (8 + 8 + 8 + identifierSize + rootSize + 8 + maxSignatures * (3616 + 50624)) (only parsing).
Definition maxEncodedConsensusMsgSize : Z := with_overhead maxConsensusMsgSize.
Abbreviation partialSignatureMsgSize := (96 + rootSize + operatorIDSize + validatorIndexSize) (only parsing).
Abbreviation maxPartialSignatureMessages := 5048 (only parsing).
Abbreviation maxPartialSignatureMsgsSize :=
  (8 + slotSize + maxPartialSignatureMessages * partialSignatureMsgSize) (only parsing).
Definition maxEncodedPartialSignatureSize : Z := with_overhead maxPartialSignatureMsgsSize.
Abbreviation maxPayloadDataSize := (Z.max maxEncodedConsensusMsgSize maxEncodedPartialSignatureSize) (only parsing).
Abbreviation pectraMaxFullDataSize := 8388836 (only parsing).
Abbreviation maxSignedMsgSize :=
  (maxSignatures * rsaSignatureSize + maxSignatures * operatorIDSize + 8 + identifierSize + maxPayloadDataSize + pectraMaxFullDataSize) (only parsing).
Definition MaxEncodedMsgSize : Z := with_overhead maxSignedMsgSize.

(** ** Errors (errors.go): ignored, and rejected *)
Abbreviation ignored t := (VErr t None false).
Abbreviation rejected t := (VErr t None true).

Abbreviation ErrWrongDomain := (ignored "wrong domain").
Abbreviation ErrNoShareMetadata := (ignored "share has no metadata").
Abbreviation ErrUnknownValidator := (ignored "unknown validator").
Abbreviation ErrValidatorLiquidated := (ignored "validator is liquidated").
Abbreviation ErrValidatorNotAttesting := (ignored "validator is not attesting").
Abbreviation ErrEarlySlotMessage := (ignored "message was sent before slot starts").
Abbreviation ErrLateSlotMessage := (ignored "current time is above duty's start +34(committee, aggregator, and aggregator committee) or +3(proposer, sync committee contribution) slots").
Abbreviation ErrSlotAlreadyAdvanced := (ignored "signer has already advanced to a later slot").
Abbreviation ErrRoundAlreadyAdvanced := (ignored "signer has already advanced to a later round").
Abbreviation ErrPubSubDataTooBig := (ignored "pub-sub message data too big").
Abbreviation ErrIncorrectTopic := (ignored "incorrect topic").
Abbreviation ErrNonExistentCommitteeID := (ignored "committee ID doesn't exist").
Abbreviation ErrRoundTooHigh := (ignored "round is too high for this role").
Abbreviation ErrValidatorIndexMismatch := (ignored "partial signature validator index not found").
Abbreviation ErrTooManyDutiesPerEpoch := (ignored "too many duties per epoch").
Abbreviation ErrNoDuty := (ignored "no duty for this epoch").
Abbreviation ErrEstimatedRoundNotInAllowedSpread := (ignored "message round is too far from estimated").
Abbreviation ErrUnknownOperator := (ignored "operator is unknown").
Abbreviation ErrOperatorValidation := (ignored "failed to validate operator data").
Abbreviation ErrDuplicatedMessage := (ignored "got duplicate message").
Abbreviation ErrTooManyPartialSigMessage := (ignored "got more partial signature messages of a certain type than allowed").
Abbreviation ErrDifferentProposalData := (ignored "got different proposal data").
Abbreviation ErrDecidedMessageWithTooFewSigners := (ignored "got decided message with too few signers (same number or less)").
Abbreviation ErrValidatorRegistrationRetired := (ignored "validator registrations ended with the Gloas fork").

Abbreviation ErrEmptyData := (rejected "empty data").
Abbreviation ErrMismatchedIdentifier := (rejected "identifier mismatch").
Abbreviation ErrSignatureVerification := (rejected "signature verification").
Abbreviation ErrPubSubMessageHasNoData := (rejected "pub-sub message has no data").
Abbreviation ErrMalformedPubSubMessage := (rejected "pub-sub message is malformed").
Abbreviation ErrNilSignedSSVMessage := (rejected "signed ssv message is nil").
Abbreviation ErrNilSSVMessage := (rejected "ssv message is nil").
Abbreviation ErrSSVDataTooBig := (rejected "ssv message data too big").
Abbreviation ErrInvalidRole := (rejected "invalid role").
Abbreviation ErrUnexpectedConsensusMessage := (rejected "unexpected consensus message for this role").
Abbreviation ErrNoSigners := (rejected "no signers").
Abbreviation ErrWrongRSASignatureSize := (rejected "wrong RSA signature size").
Abbreviation ErrZeroSigner := (rejected "zero signer ID").
Abbreviation ErrSignerNotInCommittee := (rejected "signer is not in committee").
Abbreviation ErrDuplicatedSigner := (rejected "signer is duplicated").
Abbreviation ErrSignerNotLeader := (rejected "signer is not leader").
Abbreviation ErrSignersNotSorted := (rejected "signers are not sorted").
Abbreviation ErrInconsistentSigners := (rejected "signer is not expected").
Abbreviation ErrInconsistentValidatorIndex := (rejected "validator index differs across partial signatures").
Abbreviation ErrInvalidHash := (rejected "root doesn't match full data hash").
Abbreviation ErrFullDataHash := (rejected "couldn't hash root").
Abbreviation ErrUndecodableMessageData := (rejected "message data could not be decoded").
Abbreviation ErrEventMessage := (rejected "unexpected event message").
Abbreviation ErrUnknownSSVMessageType := (rejected "unknown SSV message type").
Abbreviation ErrUnknownQBFTMessageType := (rejected "unknown QBFT message type").
Abbreviation ErrInvalidPartialSignatureType := (rejected "unknown partial signature message type").
Abbreviation ErrPartialSignatureTypeRoleMismatch := (rejected "partial signature type and role don't match").
Abbreviation ErrNonDecidedWithMultipleSigners := (rejected "non-decided with multiple signers").
Abbreviation ErrDecidedNotEnoughSigners := (rejected "not enough signers in decided message").
Abbreviation ErrMalformedPrepareJustifications := (rejected "malformed prepare justifications").
Abbreviation ErrUnexpectedPrepareJustifications := (rejected "prepare justifications unexpected for this message type").
Abbreviation ErrMalformedRoundChangeJustifications := (rejected "malformed round change justifications").
Abbreviation ErrUnexpectedRoundChangeJustifications := (rejected "round change justifications unexpected for this message type").
Abbreviation ErrNoMessagesInPartialSigMessage := (rejected "no messages in partial signature messages").
Abbreviation ErrNoValidators := (rejected "no validators for this committee ID").
Abbreviation ErrNoSignatures := (rejected "no signatures").
Abbreviation ErrTooManySignaturesInPartialSigMessage := (rejected "too many signatures in a partial-signature message").
Abbreviation ErrSignersAndSignaturesWithDifferentLength := (rejected "signature and operator ID length mismatch").
Abbreviation ErrPartialSigMessageMustHaveOneSigner := (rejected "partial signature message must have exactly one signer").
Abbreviation ErrPrepareOrCommitWithFullData := (rejected "prepare or commit with full data").
Abbreviation ErrFullDataNotInConsensusMessage := (rejected "full data not in consensus message").
Abbreviation ErrTooManyEqualValidatorIndicesInPartialSignatures := (rejected "validator index appears too many times in partial signatures").
Abbreviation ErrZeroRound := (rejected "zero round").

(** An error of another package, as it is wrapped here. *)
Fixpoint of_goerr (e : goerr) : verror :=
  match e with
  | ENew t => VPlain t None
  | EWrap t e => VPlain t (Some (of_goerr e))
  | ECode _ e | ERetryable e => VPlain "" (Some (of_goerr e))
  end.
Definition net {A} (r : result goerr A) : vres A :=
  match r with Ok a => Ok a | Err e => Err (of_goerr e) | Panic => Panic end.

(** ** Event messages (protocol/v2/types/messages.go) *)
Inductive EventType := EventTimeout | EventExecuteDuty | UnknownEventType (n : Z).
#[global] Instance EventType_eq_dec : EqDecision EventType.
Proof. solve_decision. Defined.
Record EventMsg := mkEventMsg { ev_Type : EventType; ev_Data : bytes }.

(** ** What validation calls outside the package *)
Class ValLib := {
  (* spectypes.MessageID *)
  GetRoleType : bytes → RunnerRole;
  GetDomain : bytes → bytes;
  GetDutyExecutorID : bytes → bytes;
  (* decoders and the hash of ssv-spec *)
  DecodeSignedSSVMessage : bytes → result goerr SignedSSVMessage;
  DecodePartialSignatureMessages : bytes → result goerr PartialSignatureMessages;
  spec_HashDataRoot : slice → result goerr bytes;
  (* the JSON decoding of an event message *)
  DecodeEventMsg : bytes → result goerr EventMsg;
  (* the types of beacon duties *)
  AttesterDuty : Type; ProposerDuty : Type; PTCDuty : Type; SyncCommitteeDuty : Type;
}.

(** The fields of [messageValidator] that a validation reads. *)
Record Env `{ValLib} := mkEnv {
  mv_netCfg : NetCfg;
  mv_Name : string;                                 (* netCfg.SSV.Name *)
  mv_Committee : bytes → option Committee;          (* validatorStore *)
  mv_Validator : bytes → option SSVShare;
  mv_OperatorsExist : list OperatorID → result goerr bool;
  mv_dutyStore : DutyStore AttesterDuty ProposerDuty PTCDuty SyncCommitteeDuty;
  mv_VerifySignature : OperatorID → SSVMessage → bytes → option goerr;
  mv_selfPID : string;
  mv_selfAccept : bool;
  mv_now : Time;                                    (* the clock *)
}.

Definition committeeRole (role : RunnerRole) : bool :=
  bool_decide (role = RoleCommittee) || bool_decide (role = RoleAggregatorCommittee).
Abbreviation monotonicSlotRole role :=
  (negb (committeeRole role) && bool_decide (role ≠ RoleProposerPreferences)) (only parsing).

Section rules.
Context `{ValLib, SpecLib, Eth2Client} (mv : Env).
Abbreviation cfg := (mv_netCfg mv).
Abbreviation beacon := (n_Beacon (mv_netCfg mv)).

(** ** Roles *)
Definition validRoleUnion (roleType : RunnerRole) : bool :=
  match roleType with
  | RoleCommittee | RoleProposer | RoleValidatorRegistration | RoleVoluntaryExit
  | RoleAggregatorCommittee | RoleAggregator | RoleSyncCommitteeContribution | RolePTCAttester
  | RoleProposerPreferences => true
  | _ => false
  end.

Definition validRoleAtSlot (roleType : RunnerRole) (slot : Slot) : vres bool :=
  isInBooleFork ← net (BooleForkAtSlot cfg slot);
  isInGloas ← net (IsGloasAtSlot beacon slot);
  Ok (match roleType with
      | RoleCommittee | RoleProposer | RoleVoluntaryExit => true
      | RoleValidatorRegistration => negb isInGloas
      | RoleAggregatorCommittee => isInBooleFork
      | RoleAggregator | RoleSyncCommitteeContribution => negb isInBooleFork
      | RolePTCAttester | RoleProposerPreferences => isInGloas
      | _ => false
      end).

(** ** Retained state: slots, epochs and lifetime *)
Definition maxStoredSlots : Z := SlotsPerEpoch beacon +u LateSlotAllowance.

Definition storedSlotCount (role : RunnerRole) : Z :=
  if bool_decide (role = RoleProposerPreferences)
  then ((proposerPreferencesEarlyEpochs *u SlotsPerEpoch beacon) +u LateSlotAllowance) +u 1
  else maxStoredSlots.

Definition storedEpochCount (role : RunnerRole) : Z :=
  match role with
  | RoleProposerPreferences => proposerPreferencesEarlyEpochs + 1
  | RoleCommittee | RoleAggregatorCommittee | RoleAggregator => 3
  | _ => 2
  end.

(** ttlcache.DefaultTTL makes the entry use the cache's TTL, set in [New]. *)
Definition stateTTL (role : RunnerRole) : Duration :=
  if bool_decide (role = RoleProposerPreferences)
  then i64 (storedSlotCount role +u 1) *i SlotDuration beacon
  else i64 maxStoredSlots *i SlotDuration beacon.

(** ** Slot time *)
Definition messageEarliness (slot : Slot) (role : RunnerRole) (receivedAt : Time) : vres Duration :=
  expectedFrom ← net (SlotStartTime beacon slot);
  expectedFrom ←
    (if bool_decide (role = RoleProposerPreferences) then
       epoch ← net (EstimatedEpochAtSlot beacon slot);
       let lookback := proposerPreferencesEarlyEpochs - 1 in
       let epoch := if lookback <=? epoch then epoch -u lookback else 0 in
       net (SlotStartTime beacon (FirstSlotAtEpoch beacon epoch))
     else Ok expectedFrom);
  Ok (time_Sub expectedFrom receivedAt).

Definition lateness_ttl (role : RunnerRole) : option Z :=
  match role with
  | RoleProposer | RolePTCAttester | RoleSyncCommitteeContribution => Some (1 + LateSlotAllowance)
  | RoleCommittee | RoleAggregatorCommittee | RoleAggregator => Some maxStoredSlots
  | RoleValidatorRegistration | RoleVoluntaryExit => None
  | RoleProposerPreferences => Some LateSlotAllowance
  | _ => None
  end.

Definition messageLateness (slot : Slot) (role : RunnerRole) (receivedAt : Time) : vres Duration :=
  match lateness_ttl role with
  | None => Ok 0
  | Some ttl =>
      start ← net (SlotStartTime beacon (slot +u ttl));
      let deadline := start + lateMessageMargin in
      Ok (time_Sub receivedAt deadline)
  end.

Definition validateSlotTime (messageSlot : Slot) (role : RunnerRole) (receivedAt : Time) : vres unit :=
  earliness ← messageEarliness messageSlot role receivedAt;
  fail_if (clockErrorTolerance + earlyMessageMargin <? earliness) ErrEarlySlotMessage ;;
  lateness ← messageLateness messageSlot role receivedAt;
  fail_if (clockErrorTolerance <? lateness) ErrLateSlotMessage.

(** ** Duties *)
Definition key_of (executor : bytes) : bytes :=
  take 48 executor ++ replicate (48 - length executor) x00.

Definition dutyLimit (msgID : bytes) (slot : Slot) (validatorIndices : list ValidatorIndex)
    : vres (Z * bool) :=
  match GetRoleType msgID with
  | RoleVoluntaryExit =>
      Ok (GetDutyCount slot (key_of (GetDutyExecutorID msgID)) (ds_VoluntaryExit (mv_dutyStore mv)),
          true)
  | RoleAggregator | RoleValidatorRegistration | RolePTCAttester => Ok (2, true)
  | RoleCommittee | RoleAggregatorCommittee =>
      let validatorIndexCount := Z.of_nat (length validatorIndices) in
      let slotsPerEpoch := SlotsPerEpoch beacon in
      in_sync ←
        (if validatorIndexCount <? slotsPerEpoch / 2 then
           epoch ← net (EstimatedEpochAtSlot beacon slot);
           period ← net (EstimatedSyncCommitteePeriodAtEpoch beacon epoch);
           Ok (existsb (λ i, bool_decide (is_Some (sync_Duty period i
                                            (ds_SyncCommittee (mv_dutyStore mv)))))
                 validatorIndices)
         else Ok false);
      if in_sync : bool then Ok (slotsPerEpoch, true)
      else Ok (Z.min slotsPerEpoch (2 *u validatorIndexCount), true)
  | RoleProposerPreferences => Ok (SlotsPerEpoch beacon, true)
  | _ => Ok (0, false)
  end.

Definition validateDutyCount (msgID : bytes) (msgSlot : Slot)
    (validatorIndices : list ValidatorIndex) (operatorState : option OperatorState) : vres unit :=
  epoch ← net (EstimatedEpochAtSlot beacon msgSlot);
  dutyCount ← DutyCount epoch operatorState;
  '(dutyLimit, exists_) ← dutyLimit msgID msgSlot validatorIndices;
  if negb exists_ then Ok tt
  else
    signerState ← GetSignerStateForSlot msgSlot operatorState;
    let dutyCount := match signerState with None => dutyCount +u 1 | Some _ => dutyCount end in
    fail_if (dutyLimit <? dutyCount) ErrTooManyDutiesPerEpoch.

Definition validateBeaconDuty (role : RunnerRole) (slot : Slot) (indices : list ValidatorIndex)
    (randaoMsg : bool) : vres unit :=
  epoch ← net (EstimatedEpochAtSlot beacon slot);
  match indices with
  | [] => Err ErrNoValidators
  | validatorIndex :: _ =>
      match role with
      | RoleProposer =>
          tolerated ←
            (if randaoMsg then
               first ← net (IsFirstSlotOfEpoch beacon slot);
               if first : bool then
                 current ← net (EstimatedSlotAtTime beacon (mv_now mv));
                 Ok ((current <=? slot) && negb (IsEpochSet epoch (ds_Proposer (mv_dutyStore mv))))
               else Ok false
             else Ok false);
          if tolerated : bool then Ok tt
          else fail_if (bool_decide (ValidatorDuty epoch slot validatorIndex
                                       (ds_Proposer (mv_dutyStore mv)) = None)) ErrNoDuty
      | RoleProposerPreferences =>
          fail_if (IsEpochSet epoch (ds_Proposer (mv_dutyStore mv))
                   && negb (IsEpochStale epoch (ds_Proposer (mv_dutyStore mv)))
                   && bool_decide (ValidatorDuty epoch slot validatorIndex
                                     (ds_Proposer (mv_dutyStore mv)) = None)) ErrNoDuty
      | RoleSyncCommitteeContribution =>
          period ← net (EstimatedSyncCommitteePeriodAtEpoch beacon epoch);
          fail_if (bool_decide (sync_Duty period validatorIndex
                                  (ds_SyncCommittee (mv_dutyStore mv)) = None)) ErrNoDuty
      | RolePTCAttester =>
          fail_if (IsEpochSet epoch (ds_PTC (mv_dutyStore mv))
                   && bool_decide (ValidatorDuty epoch slot validatorIndex
                                     (ds_PTC (mv_dutyStore mv)) = None)) ErrNoDuty
      | _ => Ok tt
      end
  end.
End rules.

(** ** Envelopes (pubsub_validation.go, signed_ssv_message.go) *)
Section envelope.
Context `{ValLib, SpecLib, Eth2Client} (mv : Env).
Abbreviation cfg := (mv_netCfg mv).
Abbreviation beacon := (n_Beacon (mv_netCfg mv)).

Definition validatePubSubMessage (data : bytes) : vres unit :=
  fail_if (length data =? 0)%nat ErrPubSubMessageHasNoData ;;
  fail_if (MaxEncodedMsgSize <? Z.of_nat (length data)) ErrPubSubDataTooBig.

Definition decodeSignedSSVMessage (data : bytes) : vres SignedSSVMessage :=
  match DecodeSignedSSVMessage data with
  | Ok m => Ok m
  | Err e => Err (with_inner ErrMalformedPubSubMessage (of_goerr e))
  | Panic => Panic
  end.

Definition validateSignerNotZero (signer : OperatorID) : vres unit :=
  fail_if (signer =? 0) ErrZeroSigner.
Definition validateSignerUnique (signer prevSigner : OperatorID) : vres unit :=
  fail_if (signer =? prevSigner) ErrDuplicatedSigner.
Definition validateSignerIsKnown (signer : OperatorID) : vres unit :=
  match mv_OperatorsExist mv [signer] with
  | Err _ => Err ErrOperatorValidation
  | Ok exists_ => fail_if (negb exists_) ErrUnknownOperator
  | Panic => Panic
  end.

Fixpoint validate_signers (prevSigner : OperatorID) (signers : list OperatorID) : vres unit :=
  match signers with
  | [] => Ok tt
  | signer :: rest =>
      validateSignerNotZero signer ;;
      validateSignerUnique signer prevSigner ;;
      validateSignerIsKnown signer ;;
      validate_signers signer rest
  end.

Definition validateSignedSSVMessage (signedSSVMessage : option SignedSSVMessage) : vres unit :=
  match signedSSVMessage with
  | None => Err ErrNilSignedSSVMessage
  | Some m =>
      fail_if (length (s_OperatorIDs m) =? 0)%nat ErrNoSigners ;;
      fail_if (length (s_Signatures m) =? 0)%nat ErrNoSignatures ;;
      for_each (λ signature,
        fail_if (negb (Z.of_nat (length signature) =? rsaSignatureSize)) ErrWrongRSASignatureSize)
        (s_Signatures m) ;;
      fail_if (negb (IsSorted (s_OperatorIDs m))) ErrSignersNotSorted ;;
      fail_if (negb (length (s_OperatorIDs m) =? length (s_Signatures m))%nat)
        ErrSignersAndSignaturesWithDifferentLength ;;
      validate_signers 0 (s_OperatorIDs m) ;;
      fail_if (bool_decide (s_SSVMessage m = None)) ErrNilSSVMessage
  end.

Definition validateSSVMessage (ssvMessage : SSVMessage) : vres unit :=
  fail_if (length (sv_Data ssvMessage) =? 0)%nat ErrEmptyData ;;
  fail_if (maxPayloadDataSize <? Z.of_nat (length (sv_Data ssvMessage))) ErrSSVDataTooBig ;;
  match sv_MsgType ssvMessage with
  | SSVConsensusMsgType | SSVPartialSignatureMsgType => Ok tt
  | SSVEventMsgType => Err ErrEventMessage
  | UnknownSSVMsgType _ => Err ErrUnknownSSVMessageType
  end ;;
  fail_if (negb (validRoleUnion (GetRoleType (sv_MsgID ssvMessage)))) ErrInvalidRole.

Definition belongsToCommittee (operatorIDs committee : list OperatorID) : vres unit :=
  for_each (λ signer, fail_if (negb (bool_decide (signer ∈ committee))) ErrSignerNotInCommittee)
    operatorIDs.

(** ** Domains and topics (validation.go) *)
Definition validateDomainAllowlist (msgID : bytes) : vres unit :=
  fail_if (negb (bool_decide (GetDomain msgID = DomainType cfg))
           && negb (bool_decide (GetDomain msgID = NextDomainType cfg))) ErrWrongDomain.

Record CommitteeInfo := mkCommitteeInfo {
  ci_committeeID : bytes;
  ci_committee : list OperatorID;
  ci_signerIndices : gmap OperatorID nat;
  ci_validatorIndices : list ValidatorIndex;
  ci_subnet : Z;
  ci_subnetAlan : Z;
}.

Definition newCommitteeInfo (committeeID : bytes) (operators : list OperatorID)
    (validatorIndices : list ValidatorIndex) (booleSubnet alanSubnet : Z) : CommitteeInfo :=
  mkCommitteeInfo committeeID operators
    (foldl (λ signerIndices '(i, operator), <[operator := i]> signerIndices) ∅
       (zip (seq 0 (length operators)) operators))
    validatorIndices booleSubnet alanSubnet.

(** A missing key reads as zero. *)
Definition signerIndex (ci : CommitteeInfo) (signer : OperatorID) : nat :=
  default 0%nat (ci_signerIndices ci !! signer).

Definition validateTopicAtSlot (committeeInfo : CommitteeInfo) (topic : string) (slot : Slot)
    : vres unit :=
  boole ← net (BooleForkAtSlot cfg slot);
  let expectedTopic := if boole : bool then BooleTopic (mv_Name mv) (ci_subnet committeeInfo)
                       else GetTopicFullName (SubnetTopicID (ci_subnetAlan committeeInfo)) in
  fail_if (negb (bool_decide (expectedTopic = topic))) ErrIncorrectTopic.

Definition validateDomainAtSlot (msgID : bytes) (slot : Slot) : vres unit :=
  expectedDomain ← net (DomainTypeAtSlot cfg slot);
  fail_if (negb (bool_decide (GetDomain msgID = expectedDomain))) ErrWrongDomain.

(** [spectypes.CommitteeID(id[16:])]: slicing past the end or converting a slice
    of fewer than 32 bytes panics. *)
Definition committee_of_executor (executor : bytes) : vres bytes :=
  if (length executor <? 48)%nat then Panic else Ok (take 32 (drop 16 executor)).

Definition getCommitteeAndValidatorIndices (msgID : bytes) : vres CommitteeInfo :=
  if committeeRole (GetRoleType msgID) then
    committeeID ← committee_of_executor (GetDutyExecutorID msgID);
    match mv_Committee mv committeeID with
    | None => Err ErrNonExistentCommitteeID
    | Some committee =>
        fail_if (length (co_Indices committee) =? 0)%nat ErrNoValidators ;;
        Ok (newCommitteeInfo committeeID (co_Operators committee) (co_Indices committee)
              (committee_BooleCommitteeSubnet committee).1 (committee_AlanCommitteeSubnet committee).1)
    end
  else
    match mv_Validator mv (GetDutyExecutorID msgID) with
    | None => Err ErrUnknownValidator
    | Some share =>
        fail_if (sh_Liquidated share) ErrValidatorLiquidated ;;
        fail_if (negb (HasBeaconMetadata (Some share))) ErrNoShareMetadata ;;
        slot ← net (EstimatedSlotAtTime beacon (mv_now mv));
        epoch ← net (EstimatedEpochAtSlot beacon slot);
        fail_if (negb (IsAttesting epoch share)) ErrValidatorNotAttesting ;;
        let operators := sm_Signer <$> sh_Committee share in
        let indices := [sh_ValidatorIndex share] in
        Ok (newCommitteeInfo (CommitteeID share).1 operators indices
              (share_BooleCommitteeSubnet share).1 (share_AlanCommitteeSubnet share).1)
    end.

(** ** Consensus messages (consensus_validation.go) *)
Definition validConsensusMsgType (msgType : MessageType) : bool :=
  match msgType with UnknownMsgType _ => false | _ => true end.

Definition maxRound (role : RunnerRole) : vres Round :=
  let '(r, ok) := MaxRound role in
  if negb ok then Err (VPlain "unknown role" None) else Ok r.

Definition validateJustifications (message : Message) : vres unit :=
  pj ← match GetPrepareJustifications message with
       | Ok l => Ok l
       | Err e => Err (with_inner ErrMalformedPrepareJustifications (of_goerr e))
       | Panic => Panic
       end;
  fail_if (negb (length pj =? 0)%nat && bool_decide (m_MsgType message ≠ ProposalMsgType))
    ErrUnexpectedPrepareJustifications ;;
  rcj ← match GetRoundChangeJustifications message with
        | Ok l => Ok l
        | Err e => Err (with_inner ErrMalformedRoundChangeJustifications (of_goerr e))
        | Panic => Panic
        end;
  fail_if (negb (length rcj =? 0)%nat && bool_decide (m_MsgType message ≠ ProposalMsgType)
           && bool_decide (m_MsgType message ≠ RoundChangeMsgType))
    ErrUnexpectedRoundChangeJustifications.

Definition no_consensus_role (role : RunnerRole) : bool :=
  match role with
  | RoleValidatorRegistration | RoleVoluntaryExit | RolePTCAttester | RoleProposerPreferences => true
  | _ => false
  end.

(** The message of [signedSSVMessage.SSVMessage], which an earlier check made
    non-nil; reading through a nil pointer panics. *)
Definition ssv_message (m : SignedSSVMessage) : vres SSVMessage :=
  match s_SSVMessage m with Some s => Ok s | None => Panic end.

Definition validateConsensusMessageSemantics (signedSSVMessage : SignedSSVMessage)
    (consensusMessage : Message) (committee : list OperatorID) : vres unit :=
  let signers := s_OperatorIDs signedSSVMessage in
  let '(quorumSize, _) := ComputeQuorumAndPartialQuorum (Z.of_nat (length committee)) in
  let msgType := m_MsgType consensusMessage in
  ssvMessage ← ssv_message signedSSVMessage;
  let role := GetRoleType (sv_MsgID ssvMessage) in
  let slot := m_Height consensusMessage in
  valid ← validRoleAtSlot mv role slot;
  fail_if (negb valid) ErrInvalidRole ;;
  (if (1 <? length signers)%nat then
     fail_if (bool_decide (msgType ≠ CommitMsgType)) ErrNonDecidedWithMultipleSigners ;;
     fail_if (Z.of_nat (length signers) <? quorumSize) ErrDecidedNotEnoughSigners
   else Ok tt) ;;
  (if negb (length (bytes_of (s_FullData signedSSVMessage)) =? 0)%nat then
     fail_if (bool_decide (msgType = PrepareMsgType)
              || (bool_decide (msgType = CommitMsgType) && (length signers =? 1)%nat))
       ErrPrepareOrCommitWithFullData ;;
     hashedFullData ← match spec_HashDataRoot (s_FullData signedSSVMessage) with
                      | Ok h => Ok h
                      | Err e => Err (with_inner ErrFullDataHash (of_goerr e))
                      | Panic => Panic
                      end;
     fail_if (negb (bool_decide (hashedFullData = m_Root consensusMessage))) ErrInvalidHash
   else Ok tt) ;;
  fail_if (negb (validConsensusMsgType msgType)) ErrUnknownQBFTMessageType ;;
  fail_if (m_Round consensusMessage =? NoRound) ErrZeroRound ;;
  fail_if (no_consensus_role role) ErrUnexpectedConsensusMessage ;;
  maxRound ← match maxRound role with
             | Err e => Err (VPlain "failed to get max round" (Some e))
             | r => r
             end;
  fail_if (maxRound <? m_Round consensusMessage) ErrRoundTooHigh ;;
  fail_if (negb (bool_decide (m_Identifier consensusMessage = sv_MsgID ssvMessage)))
    ErrMismatchedIdentifier ;;
  validateJustifications consensusMessage.

Definition roundBelongsToAllowedSpread (signedSSVMessage : SignedSSVMessage)
    (consensusMessage : Message) (receivedAt : Time) : vres unit :=
  ssvMessage ← ssv_message signedSSVMessage;
  let role := GetRoleType (sv_MsgID ssvMessage) in
  if RoundRelativeRole role then Ok tt
  else
    slotStartTime ← net (SlotStartTime beacon (m_Height consensusMessage));
    let timeIntoSlot := time_Sub receivedAt slotStartTime in
    interval ← net (IntervalDuration beacon (m_Height consensusMessage));
    let estimatedRoundMsgReceivedAt := EstimatedRoundAt role interval timeIntoSlot in
    let lowestAllowedRound :=
      if allowedRoundsInPast <? estimatedRoundMsgReceivedAt
      then estimatedRoundMsgReceivedAt -u allowedRoundsInPast else FirstRound in
    let highestAllowedRound := estimatedRoundMsgReceivedAt +u allowedRoundsInFuture in
    fail_if ((m_Round consensusMessage <? lowestAllowedRound)
             || (highestAllowedRound <? m_Round consensusMessage))
      ErrEstimatedRoundNotInAllowedSpread.
End envelope.

(** ** Message limits *)
Definition validateConsensusMessageLimit (signedSSVMessage : SignedSSVMessage) (msg : Message)
    (receivedFrom : string) (signerState : SignerStateForSlotRound) : vres unit :=
  let peerState := peekPeer receivedFrom signerState in
  let limit idx :=
    fail_if (reached_idx idx (sg_SeenMsgTypes peerState)) (with_reject ErrDuplicatedMessage) ;;
    fail_if (reached_idx idx (sg_SeenMsgTypes (ss_World signerState))) ErrDuplicatedMessage in
  match m_MsgType msg with
  | ProposalMsgType => limit proposalIdx
  | PrepareMsgType => limit prepareIdx
  | CommitMsgType =>
      if (length (s_OperatorIDs signedSSVMessage) =? 1)%nat then limit commitIdx else Ok tt
  | RoundChangeMsgType => limit roundChangeIdx
  | UnknownMsgType _ => Err (VPlain "unexpected signed message type" None)
  end.

(** The roots of the packet not seen before, without repetition. *)
Definition fresh_roots (m : PartialSignatureMessages) (seen : list bytes) : gset bytes :=
  list_to_set (filter (λ root, roots_has root seen = false) (psm_SigningRoot <$> ps_Messages m)).

Definition validateDistinctRootBudget (m : PartialSignatureMessages)
    (signerState : SignerStateForSlotRound) (budget : Z) : vres unit :=
  let seen := seenRootsFor (ps_Type m) signerState in
  let fresh := fresh_roots m seen in
  fail_if (size fresh =? 0)%nat ErrTooManyPartialSigMessage ;;
  fail_if (budget <? Z.of_nat (length seen + size fresh)) ErrTooManyPartialSigMessage.

Definition validatePartialSignatureMessageLimit (m : PartialSignatureMessages)
    (receivedFrom : string) (signerState : SignerStateForSlotRound) : vres unit :=
  let peerState := peekPeer receivedFrom signerState in
  let limit idx :=
    fail_if (reached_idx idx (sg_SeenMsgTypes peerState)) (with_reject ErrTooManyPartialSigMessage) ;;
    fail_if (reached_idx idx (sg_SeenMsgTypes (ss_World signerState))) ErrTooManyPartialSigMessage in
  match ps_Type m with
  | RandaoPartialSig | SelectionProofPartialSig | ContributionProofs
  | ValidatorRegistrationPartialSig | VoluntaryExitPartialSig | AggregatorCommitteePartialSig
  | PTCAttesterPartialSig => limit preConsensusIdx
  | ProposerPreferencesPartialSig =>
      validateDistinctRootBudget m signerState maxProposerPreferencesDistinctRoots
  | RequestAuthPartialSig =>
      validateDistinctRootBudget m signerState maxRequestAuthDistinctRoots
  | PostConsensusPartialSig => limit postConsensusIdx
  | UnknownPartialSig _ => Err (VPlain "unexpected partial signature message type" None)
  end.

(** ** Partial signatures (partial_validation.go) *)
Section partial_rules.
Context `{ValLib, SpecLib, Eth2Client} (mv : Env).
Abbreviation beacon := (n_Beacon (mv_netCfg mv)).

Definition validPartialSigMsgType (msgType : PartialSigMsgType) : bool :=
  match msgType with UnknownPartialSig _ => false | _ => true end.

Definition partialSignatureTypeMatchesRole (msgType : PartialSigMsgType) (role : RunnerRole) : bool :=
  match role with
  | RoleCommittee => bool_decide (msgType = PostConsensusPartialSig)
  | RoleAggregator =>
      bool_decide (msgType = PostConsensusPartialSig) || bool_decide (msgType = SelectionProofPartialSig)
  | RoleProposer =>
      bool_decide (msgType = PostConsensusPartialSig) || bool_decide (msgType = RandaoPartialSig)
  | RoleSyncCommitteeContribution =>
      bool_decide (msgType = PostConsensusPartialSig) || bool_decide (msgType = ContributionProofs)
  | RoleValidatorRegistration => bool_decide (msgType = ValidatorRegistrationPartialSig)
  | RoleVoluntaryExit => bool_decide (msgType = VoluntaryExitPartialSig)
  | RoleAggregatorCommittee =>
      bool_decide (msgType = AggregatorCommitteePartialSig)
        || bool_decide (msgType = PostConsensusPartialSig)
  | RolePTCAttester => bool_decide (msgType = PTCAttesterPartialSig)
  | RoleProposerPreferences =>
      bool_decide (msgType = ProposerPreferencesPartialSig)
        || bool_decide (msgType = RequestAuthPartialSig)
  | RoleUnknown _ => false
  end.

Definition maxValidatorRoleSignatures (role : RunnerRole) (msgType : PartialSigMsgType) (slot : Slot)
    : vres Z :=
  gloas ← (if bool_decide (role = RoleProposer) && bool_decide (msgType = PostConsensusPartialSig)
           then net (IsGloasAtSlot beacon slot) else Ok false);
  Ok (if gloas : bool then 2
      else if bool_decide (role = RoleProposerPreferences) && bool_decide (msgType = RequestAuthPartialSig)
      then maxRequestAuthEntries else 1).

Definition registrationsRetired (receivedAt : Time) : vres bool :=
  slot ← net (EstimatedSlotAtTime beacon receivedAt);
  epoch ← net (EstimatedEpochAtSlot beacon slot);
  Ok ((0 <? epoch) && IsGloas beacon (epoch -u 1)).

Definition validatePartialSignatureMessageSemantics (signedSSVMessage : SignedSSVMessage)
    (partialSignatureMessages : PartialSignatureMessages) (validatorIndices : list ValidatorIndex)
    : vres unit :=
  ssvMessage ← ssv_message signedSSVMessage;
  let role := GetRoleType (sv_MsgID ssvMessage) in
  let slot := ps_Slot partialSignatureMessages in
  valid ← validRoleAtSlot mv role slot;
  fail_if (negb valid) ErrInvalidRole ;;
  match s_OperatorIDs signedSSVMessage with
  | [signer] =>
      fail_if (negb (length (bytes_of (s_FullData signedSSVMessage)) =? 0)%nat)
        ErrFullDataNotInConsensusMessage ;;
      fail_if (negb (validPartialSigMsgType (ps_Type partialSignatureMessages)))
        ErrInvalidPartialSignatureType ;;
      fail_if (negb (partialSignatureTypeMatchesRole (ps_Type partialSignatureMessages) role))
        ErrPartialSignatureTypeRoleMismatch ;;
      match ps_Messages partialSignatureMessages with
      | [] => Err ErrNoMessagesInPartialSigMessage
      | first :: _ =>
          (if negb (committeeRole role) && bool_decide (role ≠ RoleSyncCommitteeContribution) then
             limit ← maxValidatorRoleSignatures role (ps_Type partialSignatureMessages) slot;
             fail_if (limit <? Z.of_nat (length (ps_Messages partialSignatureMessages)))
               ErrTooManySignaturesInPartialSigMessage
           else Ok tt) ;;
          for_each (λ message,
            fail_if (negb (psm_Signer message =? signer)) ErrInconsistentSigners ;;
            if negb (committeeRole role) then
              fail_if (negb (psm_ValidatorIndex message =? psm_ValidatorIndex first))
                ErrInconsistentValidatorIndex ;;
              fail_if (negb (bool_decide (psm_ValidatorIndex message ∈ validatorIndices)))
                ErrValidatorIndexMismatch
            else Ok tt) (ps_Messages partialSignatureMessages)
      end
  | _ => Err ErrPartialSigMessageMustHaveOneSigner
  end.

(** The loop over the entries of a committee packet, with the count so far. *)
Fixpoint validator_index_loop (maxDutiesForRole : Z) (validatorIndexCount : gmap ValidatorIndex Z)
    (messages : list PartialSignatureMessage) : vres unit :=
  match messages with
  | [] => Ok tt
  | message :: rest =>
      let cnt := default 0 (validatorIndexCount !! psm_ValidatorIndex message) + 1 in
      fail_if (maxDutiesForRole <? cnt) ErrTooManyEqualValidatorIndicesInPartialSignatures ;;
      validator_index_loop maxDutiesForRole (<[psm_ValidatorIndex message := cnt]> validatorIndexCount)
        rest
  end.

Definition validate_packet_size (role : RunnerRole) (clusterValidatorCount : Z)
    (messages : list PartialSignatureMessage) : vres unit :=
  let partialSignatureMessageCount := Z.of_nat (length messages) in
  if committeeRole role then
    let scSubnets := if bool_decide (role = RoleAggregatorCommittee) then 4 else 1 in
    let maxDutiesForRole := scSubnets + 1 in
    let messageLimit :=
      Z.min (maxDutiesForRole *i clusterValidatorCount)
            (clusterValidatorCount +i (scSubnets *i i64 (SyncCommitteeSize beacon))) in
    fail_if (messageLimit <? partialSignatureMessageCount) ErrTooManySignaturesInPartialSigMessage ;;
    validator_index_loop maxDutiesForRole ∅ messages
  else if bool_decide (role = RoleSyncCommitteeContribution) then
    fail_if (maxSignatures <? partialSignatureMessageCount) ErrTooManySignaturesInPartialSigMessage
  else Ok tt.
End partial_rules.
