(* ===== verification/Validation.v ===== *)
(** * Message validation (message/validation: validation.go, consensus_validation.go,
      partial_validation.go, self.go; protocol/v2/ssv/queue/messages.go)

    The whole path of a gossip message: envelope, committee, topic and domain,
    semantics, the signer states that make duplicates visible, duties and slot
    time, signatures, and only then the update of the signer states.  The state
    of the validator is the cache of [ValidatorState]s by message identifier.
    Messages with the same identifier are serialised by a lock, so a validation
    runs on its entry alone; entries expire between validations. *)

From stdpp Require Import base list gmap numbers strings.
From Stdlib Require Import Strings.Byte.
From S2P Require Import Prelude Sha256 SpecTypes Quorum Network Proposer RoundTimer Subnets.
From S2P Require Import DutyStore Share ValState ValRules.
Open Scope string_scope.
Open Scope list_scope.
Open Scope Z_scope.

Abbreviation MessageID := bytes (only parsing).
Abbreviation States := (gmap bytes ValidatorState).

(** [ctx.Err()] where the code reads it. *)
Inductive checkpoint :=
| cpValidate | cpPubsub | cpSigned | cpLock | cpSignatures | cpSignature (i : nat).
Abbreviation Ctx := (checkpoint → option verror).
Definition ctx_ok (ctx : Ctx) (p : checkpoint) : vres unit := of_check (ctx p).

Section validation.
Context `{ValLib, SpecLib, Eth2Client} (mv : Env).
Abbreviation beacon := (n_Beacon (mv_netCfg mv)).

(** ** Consensus messages against the signer states *)
Definition check_proposal_data (receivedFrom : string) (root : bytes)
    (signerState : SignerStateForSlotRound) : vres unit :=
  fail_if (match sg_HashedProposalData (peekPeer receivedFrom signerState) with
           | Some hashed => bool_decide (hashed ≠ root) | None => false end)
    (with_reject ErrDifferentProposalData) ;;
  fail_if (match sg_HashedProposalData (ss_World signerState) with
           | Some hashed => bool_decide (hashed ≠ root) | None => false end)
    ErrDifferentProposalData.

(** The body of the loop of [validateQBFTLogic] for a signer with a state. *)
Definition validate_signer_state (signedSSVMessage : SignedSSVMessage) (consensusMessage : Message)
    (receivedFrom : string) (signerState : SignerStateForSlotRound) : vres unit :=
  let count := length (s_OperatorIDs signedSSVMessage) in
  if (count =? 1)%nat then
    fail_if (m_Round consensusMessage <? ss_Round signerState) ErrRoundAlreadyAdvanced ;;
    if m_Round consensusMessage =? ss_Round signerState then
      (if negb (length (bytes_of (s_FullData signedSSVMessage)) =? 0)%nat
       then check_proposal_data receivedFrom (m_Root consensusMessage) signerState else Ok tt) ;;
      validateConsensusMessageLimit signedSSVMessage consensusMessage receivedFrom signerState
    else Ok tt
  else if (1 <? count)%nat then
    fail_if (Z.of_nat count <=? sg_SeenDecidedMsgSignersCount (ss_World signerState))
      ErrDecidedMessageWithTooFewSigners
  else Ok tt.

Definition validateQBFTLogic (signedSSVMessage : SignedSSVMessage) (consensusMessage : Message)
    (committeeInfo : CommitteeInfo) (receivedFrom : string) (state : ValidatorState) : vres unit :=
  (if bool_decide (m_MsgType consensusMessage = ProposalMsgType) then
     leader ← net (Proposer (m_Height consensusMessage) (m_Round consensusMessage)
                     (ci_committee committeeInfo) (mv_netCfg mv));
     match s_OperatorIDs signedSSVMessage with
     | [] => Panic
     | first :: _ => fail_if (negb (first =? leader)) ErrSignerNotLeader
     end
   else Ok tt) ;;
  for_each (λ signer,
    operatorState ← peekOperatorState (signerIndex committeeInfo signer) state;
    signerState ← GetSignerStateForSlot (m_Height consensusMessage) operatorState;
    match signerState with
    | None => Ok tt
    | Some signerState =>
        validate_signer_state signedSSVMessage consensusMessage receivedFrom signerState
    end) (s_OperatorIDs signedSSVMessage).

Definition validateQBFTMessageByDutyLogic (signedSSVMessage : SignedSSVMessage)
    (consensusMessage : Message) (committeeInfo : CommitteeInfo) (receivedAt : Time)
    (state : ValidatorState) : vres unit :=
  ssvMessage ← ssv_message signedSSVMessage;
  let role := GetRoleType (sv_MsgID ssvMessage) in
  (if negb (committeeRole role) then
     for_each (λ signer,
       operatorState ← peekOperatorState (signerIndex committeeInfo signer) state;
       fail_if (m_Height consensusMessage <? MaxSlot operatorState) ErrSlotAlreadyAdvanced)
       (s_OperatorIDs signedSSVMessage)
   else Ok tt) ;;
  let msgSlot := m_Height consensusMessage in
  validateBeaconDuty mv role msgSlot (ci_validatorIndices committeeInfo) false ;;
  validateSlotTime mv msgSlot role receivedAt ;;
  (if (length (s_OperatorIDs signedSSVMessage) =? 1)%nat
   then roundBelongsToAllowedSpread mv signedSSVMessage consensusMessage receivedAt else Ok tt) ;;
  for_each (λ signer,
    operatorState ← peekOperatorState (signerIndex committeeInfo signer) state;
    validateDutyCount mv (sv_MsgID ssvMessage) msgSlot (ci_validatorIndices committeeInfo)
      operatorState) (s_OperatorIDs signedSSVMessage).

(** ** Updates of the signer states *)
Abbreviation SM := (ST SignerStateForSlotRound verror).

Definition record_types (receivedFrom : string) (record : Z → vres Z) : SM unit := λ s,
  match record (sg_SeenMsgTypes (peekPeer receivedFrom s)) with
  | Ok v =>
      let s := upd_Peer receivedFrom (set_SeenMsgTypes v) s in
      match record (sg_SeenMsgTypes (ss_World s)) with
      | Ok w => (upd_World (set_SeenMsgTypes w) s, Ok tt)
      | Err e => (s, Err e)
      | Panic => (s, Panic)
      end
  | Err e => (upd_Peer receivedFrom id s, Err e)
  | Panic => (s, Panic)
  end.

Definition processSignerState (signedSSVMessage : SignedSSVMessage) (consensusMessage : Message)
    (receivedFrom : string) : SM unit :=
  (if negb (length (bytes_of (s_FullData signedSSVMessage)) =? 0)%nat
      && bool_decide (m_MsgType consensusMessage = ProposalMsgType)
   then st_modify (λ s, upd_World (set_HashedProposalData (m_Root consensusMessage))
                          (upd_Peer receivedFrom (set_HashedProposalData (m_Root consensusMessage)) s))
   else mret tt) ;;
  let signerCount := length (s_OperatorIDs signedSSVMessage) in
  (if (1 <? signerCount)%nat
   then st_modify (λ s, upd_World (set_SeenDecided (Z.of_nat signerCount))
                          (upd_Peer receivedFrom (set_SeenDecided (Z.of_nat signerCount)) s))
   else mret tt) ;;
  record_types receivedFrom (RecordConsensusMessage signedSSVMessage consensusMessage).

(** Run [f] on the signer state of an operator at a slot, creating the operator's
    state and, through [new], the slot's state on first use; [reuse] is applied to
    an existing one. *)
Definition with_signer_state (idx : nat) (slot : Slot) (epoch : Epoch)
    (new : SignerStateForSlotRound) (reuse : SignerStateForSlotRound → SignerStateForSlotRound)
    (f : SM unit) : ST ValidatorState verror unit := λ cs,
  match
    os ← get_OperatorState idx cs;
    ss ← GetSignerStateForSlot slot (Some os);
    match ss with
    | None => os' ← SetSignerStateForSlot slot epoch new os; Ok (os', new)
    | Some ss => Ok (os, reuse ss)
    end
  with
  | Ok (os, ss) =>
      let '(ss', r) := f ss in (set_OperatorState idx (put_signer slot ss' os) cs, r)
  | Err e => (cs, Err e)
  | Panic => (cs, Panic)
  end.

Fixpoint for_signers (f : OperatorID → ST ValidatorState verror unit) (signers : list OperatorID)
    : ST ValidatorState verror unit :=
  match signers with [] => mret tt | signer :: rest => f signer ;; for_signers f rest end.

Definition updateConsensusState (signedSSVMessage : SignedSSVMessage) (consensusMessage : Message)
    (committeeInfo : CommitteeInfo) (receivedFrom : string) : ST ValidatorState verror unit :=
  let msgSlot := m_Height consensusMessage in
  let round := m_Round consensusMessage in
  msgEpoch ← st_lift (net (EstimatedEpochAtSlot beacon msgSlot));
  for_signers (λ signer,
    with_signer_state (signerIndex committeeInfo signer) msgSlot msgEpoch
      (newSignerState msgSlot round)
      (λ ss, if ss_Round ss <? round then Reset msgSlot round ss else ss)
      (processSignerState signedSSVMessage consensusMessage receivedFrom))
    (s_OperatorIDs signedSSVMessage).

Definition record_roots (m : PartialSignatureMessages) (s : SignerStateForSlotRound)
    : SignerStateForSlotRound :=
  match ps_Type m with
  | ProposerPreferencesPartialSig | RequestAuthPartialSig =>
      set_seenRootsFor (ps_Type m)
        (foldl (λ roots msg, roots_record (psm_SigningRoot msg) roots)
           (seenRootsFor (ps_Type m) s) (ps_Messages m)) s
  | _ => s
  end.

Definition updatePartialSignatureState (partialSignatureMessages : PartialSignatureMessages)
    (receivedFrom : string) (signer : OperatorID) (committeeInfo : CommitteeInfo)
    : ST ValidatorState verror unit :=
  let messageSlot := ps_Slot partialSignatureMessages in
  messageEpoch ← st_lift (net (EstimatedEpochAtSlot beacon messageSlot));
  with_signer_state (signerIndex committeeInfo signer) messageSlot messageEpoch
    (newSignerState messageSlot FirstRound) (λ ss, ss)
    (record_types receivedFrom (RecordPartialSignatureMessage partialSignatureMessages) ;;
     st_modify (record_roots partialSignatureMessages)).

Definition validatePartialSigMessagesByDutyLogic (signedSSVMessage : SignedSSVMessage)
    (partialSignatureMessages : PartialSignatureMessages) (committeeInfo : CommitteeInfo)
    (receivedFrom : string) (receivedAt : Time) (state : ValidatorState) : vres unit :=
  ssvMessage ← ssv_message signedSSVMessage;
  let role := GetRoleType (sv_MsgID ssvMessage) in
  let messageSlot := ps_Slot partialSignatureMessages in
  match s_OperatorIDs signedSSVMessage with
  | [] => Panic
  | signer :: _ =>
      retired ← (if bool_decide (role = RoleValidatorRegistration)
                 then registrationsRetired mv receivedAt else Ok false);
      fail_if retired ErrValidatorRegistrationRetired ;;
      operatorState ← peekOperatorState (signerIndex committeeInfo signer) state;
      (if monotonicSlotRole role then
         fail_if (negb (MaxSlot operatorState =? 0) && (messageSlot <? MaxSlot operatorState))
           ErrSlotAlreadyAdvanced
       else Ok tt) ;;
      let randaoMsg := bool_decide (ps_Type partialSignatureMessages = RandaoPartialSig) in
      validateBeaconDuty mv role messageSlot (ci_validatorIndices committeeInfo) randaoMsg ;;
      signerState ← GetSignerStateForSlot messageSlot operatorState;
      match signerState with
      | None => Ok tt
      | Some signerState =>
          validatePartialSignatureMessageLimit partialSignatureMessages receivedFrom signerState
      end ;;
      validateSlotTime mv messageSlot role receivedAt ;;
      validateDutyCount mv (sv_MsgID ssvMessage) messageSlot (ci_validatorIndices committeeInfo)
        operatorState ;;
      validate_packet_size mv role (Z.of_nat (length (ci_validatorIndices committeeInfo)))
        (ps_Messages partialSignatureMessages)
  end.

(** ** The cache of validator states *)
Abbreviation VM := (ST States verror).

Definition validatorState (key : MessageID) (committeeInfo : CommitteeInfo) : VM ValidatorState := λ st,
  let fresh :=
    mkValidatorState (ci_committeeID committeeInfo)
      (replicate (length (ci_committee committeeInfo)) None)
      (storedSlotCount mv (GetRoleType key)) (storedEpochCount (GetRoleType key)) in
  match st !! key with
  | Some v =>
      if bool_decide (vs_committeeID v = ci_committeeID committeeInfo) then (st, Ok v)
      else (<[key := fresh]> st, Ok fresh)
  | None => (<[key := fresh]> st, Ok fresh)
  end.

(** Update the entry of [key], which the caller obtained from [validatorState]. *)
Definition on_state (key : MessageID) (f : ST ValidatorState verror unit) : VM unit := λ st,
  match st !! key with
  | None => (st, Panic)
  | Some v => let '(v', r) := f v in (<[key := v']> st, r)
  end.

Fixpoint verify_signatures (ctx : Ctx) (ssvMessage : SSVMessage) (i : nat)
    (operatorIDs : list OperatorID) (signatures : list bytes) : vres unit :=
  match signatures with
  | [] => Ok tt
  | signature :: signatures' =>
      match operatorIDs with
      | [] => Panic
      | operatorID :: operatorIDs' =>
          ctx_ok ctx (cpSignature i) ;;
          match mv_VerifySignature mv operatorID ssvMessage signature with
          | Some e => Err (with_inner ErrSignatureVerification
                             (VPlain "verify opid" (Some (of_goerr e))))
          | None => verify_signatures ctx ssvMessage (S i) operatorIDs' signatures'
          end
      end
  end.

Definition validateConsensusMessage (ctx : Ctx) (signedSSVMessage : SignedSSVMessage)
    (committeeInfo : CommitteeInfo) (topic receivedFrom : string) (receivedAt : Time) : VM Message :=
  ssvMessage ← st_lift (ssv_message signedSSVMessage);
  st_lift (fail_if (maxEncodedConsensusMsgSize <? Z.of_nat (length (sv_Data ssvMessage)))
             ErrSSVDataTooBig) ;;
  consensusMessage ← st_lift (match DecodeMessage (sv_Data ssvMessage) with
                              | Ok m => Ok m
                              | Err e => Err (with_inner ErrUndecodableMessageData (of_goerr e))
                              | Panic => Panic
                              end);
  st_lift (validateTopicAtSlot mv committeeInfo topic (m_Height consensusMessage)) ;;
  st_lift (validateDomainAtSlot mv (sv_MsgID ssvMessage) (m_Height consensusMessage)) ;;
  st_lift (validateConsensusMessageSemantics mv signedSSVMessage consensusMessage
             (ci_committee committeeInfo)) ;;
  state ← validatorState (sv_MsgID ssvMessage) committeeInfo;
  st_lift (validateQBFTLogic signedSSVMessage consensusMessage committeeInfo receivedFrom state) ;;
  st_lift (validateQBFTMessageByDutyLogic signedSSVMessage consensusMessage committeeInfo
             receivedAt state) ;;
  st_lift (ctx_ok ctx cpSignatures) ;;
  st_lift (verify_signatures ctx ssvMessage 0 (s_OperatorIDs signedSSVMessage)
             (s_Signatures signedSSVMessage)) ;;
  on_state (sv_MsgID ssvMessage)
    (updateConsensusState signedSSVMessage consensusMessage committeeInfo receivedFrom) ;;
  mret consensusMessage.

Definition validatePartialSignatureMessage (ctx : Ctx) (signedSSVMessage : SignedSSVMessage)
    (committeeInfo : CommitteeInfo) (topic receivedFrom : string) (receivedAt : Time)
    : VM PartialSignatureMessages :=
  ssvMessage ← st_lift (ssv_message signedSSVMessage);
  st_lift (fail_if (maxEncodedPartialSignatureSize <? Z.of_nat (length (sv_Data ssvMessage)))
             ErrSSVDataTooBig) ;;
  partialSignatureMessages ←
    st_lift (match DecodePartialSignatureMessages (sv_Data ssvMessage) with
             | Ok m => Ok m
             | Err e => Err (with_inner ErrUndecodableMessageData (of_goerr e))
             | Panic => Panic
             end);
  let slot := ps_Slot partialSignatureMessages in
  st_lift (validateTopicAtSlot mv committeeInfo topic slot) ;;
  st_lift (validateDomainAtSlot mv (sv_MsgID ssvMessage) slot) ;;
  st_lift (validatePartialSignatureMessageSemantics mv signedSSVMessage partialSignatureMessages
             (ci_validatorIndices committeeInfo)) ;;
  state ← validatorState (sv_MsgID ssvMessage) committeeInfo;
  st_lift (validatePartialSigMessagesByDutyLogic signedSSVMessage partialSignatureMessages
             committeeInfo receivedFrom receivedAt state) ;;
  st_lift (ctx_ok ctx cpSignatures) ;;
  '(signer, signature) ← st_lift (match s_OperatorIDs signedSSVMessage, s_Signatures signedSSVMessage with
                                  | signer :: _, signature :: _ => Ok (signer, signature)
                                  | _, _ => Panic
                                  end);
  st_lift (match mv_VerifySignature mv signer ssvMessage signature with
           | Some e => Err (with_inner ErrSignatureVerification
                              (VPlain "verify opid" (Some (of_goerr e))))
           | None => Ok tt
           end) ;;
  on_state (sv_MsgID ssvMessage)
    (updatePartialSignatureState partialSignatureMessages receivedFrom signer committeeInfo) ;;
  mret partialSignatureMessages.

(** ** The decoded message handed to the queues (queue.SSVMessage) *)
Inductive Body :=
| ConsensusBody (m : Message)
| PartialBody (m : PartialSignatureMessages)
| EventBody (m : EventMsg).
Record QueueMessage := mkQueueMessage {
  q_SignedSSVMessage : option SignedSSVMessage;   (* nil for events of the node itself *)
  q_SSVMessage : SSVMessage;
  q_Body : Body;
}.

Definition handleSignedSSVMessage (ctx : Ctx) (signedSSVMessage : SignedSSVMessage)
    (topic receivedFrom : string) (receivedAt : Time) : VM QueueMessage :=
  st_lift (ctx_ok ctx cpSigned) ;;
  st_lift (validateSignedSSVMessage mv (Some signedSSVMessage)) ;;
  ssvMessage ← st_lift (ssv_message signedSSVMessage);
  st_lift (validateSSVMessage ssvMessage) ;;
  st_lift (validateDomainAllowlist mv (sv_MsgID ssvMessage)) ;;
  committeeInfo ← st_lift (getCommitteeAndValidatorIndices mv (sv_MsgID ssvMessage));
  st_lift (belongsToCommittee (s_OperatorIDs signedSSVMessage) (ci_committee committeeInfo)) ;;
  st_lift (ctx_ok ctx cpLock) ;;
  match sv_MsgType ssvMessage with
  | SSVConsensusMsgType =>
      m ← validateConsensusMessage ctx signedSSVMessage committeeInfo topic receivedFrom receivedAt;
      mret (mkQueueMessage (Some signedSSVMessage) ssvMessage (ConsensusBody m))
  | SSVPartialSignatureMsgType =>
      m ← validatePartialSignatureMessage ctx signedSSVMessage committeeInfo topic receivedFrom
            receivedAt;
      mret (mkQueueMessage (Some signedSSVMessage) ssvMessage (PartialBody m))
  | _ => st_err (VPlain "unreachable: message type assertion should have been done" None)
  end.

(** pubsub.Message *)
Record PubsubMessage := mkPubsubMessage {
  pb_Data : bytes;
  pb_Topic : string;
  pb_ReceivedFrom : string;
}.

Definition handlePubsubMessage (ctx : Ctx) (pMsg : PubsubMessage) (receivedAt : Time)
    : VM QueueMessage :=
  st_lift (ctx_ok ctx cpPubsub) ;;
  st_lift (validatePubSubMessage (pb_Data pMsg)) ;;
  signedSSVMessage ← st_lift (decodeSignedSSVMessage (pb_Data pMsg));
  handleSignedSSVMessage ctx signedSSVMessage (pb_Topic pMsg) (pb_ReceivedFrom pMsg) receivedAt.

(** queue.ExtractMsgBody, DecodeSSVMessage and DecodeSignedSSVMessage *)
Definition ExtractMsgBody (m : SSVMessage) : vres Body :=
  match sv_MsgType m with
  | SSVConsensusMsgType => b ← net (DecodeMessage (sv_Data m)); Ok (ConsensusBody b)
  | SSVPartialSignatureMsgType => b ← net (DecodePartialSignatureMessages (sv_Data m)); Ok (PartialBody b)
  | SSVEventMsgType => b ← net (DecodeEventMsg (sv_Data m)); Ok (EventBody b)
  | UnknownSSVMsgType _ => Err (VPlain "unknown message type" None)
  end.
Definition DecodeSSVMessage (m : SSVMessage) : vres QueueMessage :=
  body ← ExtractMsgBody m;
  Ok (mkQueueMessage None m body).
Definition queue_DecodeSignedSSVMessage (sm : SignedSSVMessage) : vres QueueMessage :=
  m ← ssv_message sm;
  d ← DecodeSSVMessage m;
  Ok (mkQueueMessage (Some sm) (q_SSVMessage d) (q_Body d)).

Definition validateSelf (pMsg : PubsubMessage) : vres (ValidationResult * option QueueMessage) :=
  match net (DecodeSignedSSVMessage (pb_Data pMsg)) with
  | Err _ => Ok (ValidationReject, None)
  | Panic => Panic
  | Ok signedSSVMessage =>
      match queue_DecodeSignedSSVMessage signedSSVMessage with
      | Err _ => Ok (ValidationReject, None)
      | Panic => Panic
      | Ok d => Ok (ValidationAccept, Some d)
      end
  end.

(** [Validate]: the verdict and the [ValidatorData] set on the message. *)
Definition Validate (ctx : Ctx) (peerID : string) (pmsg : PubsubMessage) (st : States)
    : States * vres (ValidationResult * option QueueMessage) :=
  if mv_selfAccept mv && bool_decide (peerID = mv_selfPID mv) then (st, validateSelf pmsg)
  else match ctx cpValidate with
       | Some err => (st, Ok (handleValidationError err, None))
       | None =>
           match handlePubsubMessage ctx pmsg (mv_now mv) st with
           | (st', Err err) => (st', Ok (handleValidationError err, None))
           | (st', Panic) => (st', Panic)
           | (st', Ok decodedMessage) => (st', Ok (ValidationAccept, Some decodedMessage))
           end
       end.
End validation.
