(* ===== verification/ValFacts.v ===== *)
(** * Facts about the state of message validation

    How the rings behave: what a write makes readable, what it leaves alone and
    what it evicts; the bitsets of seen message types; and the effect of one
    update of a signer state on a validator's state. *)

From stdpp Require Import base list gmap numbers strings.
From Stdlib Require Import Strings.Byte.
From S2P Require Import Prelude Sha256 SpecTypes Quorum Network Proposer RoundTimer Subnets.
From S2P Require Import DutyStore Share ValState ValRules Validation.
Open Scope list_scope.
Open Scope Z_scope.

#[global] Arguments GetSignerStateForSlot : simpl never.
#[global] Arguments SetSignerStateForSlot : simpl never.
#[global] Arguments DutyCount : simpl never.

(** ** Seen message types *)
Lemma reached_testbit idx v : 0 ≤ idx → reached_idx idx v = Z.testbit v idx.
Proof. apply land_bit. Qed.

Lemma reached_record idx idx' v :
  0 ≤ idx → 0 ≤ idx' →
  reached_idx idx' (record_idx idx v) = bool_decide (idx = idx') || reached_idx idx' v.
Proof.
  intros H1 H2. unfold record_idx. rewrite !reached_testbit by done.
  rewrite Z.lor_spec, Z.shiftl_1_l, Z.pow2_bits_eqb by done.
  rewrite orb_comm. f_equal. apply eq_bool_prop_intro. rewrite bool_decide_spec.
  by destruct (Z.eqb_spec idx idx').
Qed.

(** ** Rings *)
Lemma ring_index_ok {A} x (l : list A) :
  (0 < length l)%nat →
  ring_index x l = Ok (Z.to_nat (x `mod` Z.of_nat (length l))) ∧
  (Z.to_nat (x `mod` Z.of_nat (length l)) < length l)%nat.
Proof.
  intros Hl. unfold ring_index. destruct (Nat.eqb_spec (length l) 0); [lia|].
  split; [done|]. pose proof (Z.mod_pos_bound x (Z.of_nat (length l)) ltac:(lia)). lia.
Qed.

Lemma ring_lookup {A} x (l : list A) n :
  length l = n → (0 < n)%nat →
  let k := Z.to_nat (x `mod` Z.of_nat n) in
  ring_index x l = Ok k ∧ (k < n)%nat ∧ ∃ a, l !! k = Some a.
Proof.
  intros <- Hn k. destruct (ring_index_ok x l Hn) as [Hr Hlt]. split_and!; [done..|].
  by apply lookup_lt_is_Some_2.
Qed.

Lemma ring_index_neq {A} x y (l : list A) :
  (0 < length l)%nat →
  x `mod` Z.of_nat (length l) ≠ y `mod` Z.of_nat (length l) →
  Z.to_nat (x `mod` Z.of_nat (length l)) ≠ Z.to_nat (y `mod` Z.of_nat (length l)).
Proof.
  intros Hl Hne. pose proof (Z.mod_pos_bound x (Z.of_nat (length l)) ltac:(lia)).
  pose proof (Z.mod_pos_bound y (Z.of_nat (length l)) ltac:(lia)). lia.
Qed.

(** Sizes of an operator's rings. *)
Record op_wf (n e : nat) (os : OperatorState) : Prop := {
  op_slots : length (os_signers os) = n;
  op_epochs : length (os_duties os) = e;
}.

Section rings.
Context (n e : nat).
Hypothesis n_pos : (0 < n)%nat.
Hypothesis e_pos : (0 < e)%nat.

(** The signer state an operator has for a slot, and its duty count in an epoch. *)
Definition signer_of (os : OperatorState) (slot : Slot) : option SignerStateForSlotRound :=
  match os_signers os !! Z.to_nat (slot `mod` Z.of_nat n) with
  | Some (Some s) => if ss_Slot s =? slot then Some s else None
  | _ => None
  end.
Definition duties_of (os : OperatorState) (epoch : Epoch) : Z :=
  match os_duties os !! Z.to_nat (epoch `mod` Z.of_nat e) with
  | Some d => if (ed_count d =? 0) || negb (ed_epoch d =? epoch) then 0 else ed_count d
  | None => 0
  end.

Lemma GetSigner_ok os slot :
  op_wf n e os → GetSignerStateForSlot slot (Some os) = Ok (signer_of os slot).
Proof.
  intros [Hn _]. unfold GetSignerStateForSlot, signer_of.
  destruct (ring_lookup slot (os_signers os) n Hn n_pos) as (-> & Hlt & o & Ho). simpl.
  rewrite Ho. by destruct o.
Qed.

Lemma DutyCount_ok os epoch : op_wf n e os → DutyCount epoch (Some os) = Ok (duties_of os epoch).
Proof.
  intros [_ He]. unfold DutyCount, duties_of.
  destruct (ring_lookup epoch (os_duties os) e He e_pos) as (-> & Hlt & d & Hd). simpl.
  by rewrite Hd.
Qed.

Lemma new_wf : op_wf n e (newOperatorState (Z.of_nat n) (Z.of_nat e)).
Proof. by split; simpl; rewrite length_replicate, Nat2Z.id. Qed.
Lemma new_signer slot : signer_of (newOperatorState (Z.of_nat n) (Z.of_nat e)) slot = None.
Proof.
  unfold signer_of. simpl. destruct (replicate _ _ !! _) as [o|] eqn:E; [|done].
  by apply lookup_replicate in E as [-> _].
Qed.
Lemma new_duties epoch : duties_of (newOperatorState (Z.of_nat n) (Z.of_nat e)) epoch = 0.
Proof.
  unfold duties_of. simpl. destruct (replicate _ _ !! _) as [o|] eqn:E; [|done].
  by apply lookup_replicate in E as [-> _].
Qed.

Lemma put_wf slot ss os : op_wf n e os → op_wf n e (put_signer slot ss os).
Proof.
  intros [Hn He]. unfold put_signer. destruct (ring_index slot _); [|done..].
  split; simpl; [by rewrite length_insert|done].
Qed.
Lemma put_signer_of slot ss os slot' :
  op_wf n e os → ss_Slot ss = slot →
  signer_of (put_signer slot ss os) slot' =
    if decide (slot' = slot) then Some ss
    else if decide (slot' `mod` Z.of_nat n = slot `mod` Z.of_nat n) then None
    else signer_of os slot'.
Proof.
  intros [Hn _] Hs. unfold put_signer, signer_of.
  destruct (ring_index_ok slot (os_signers os)) as [-> Hlt]; [lia|]. simpl.
  rewrite Hn in Hlt |- *. destruct (decide (slot' = slot)) as [->|Hne].
  - rewrite list_lookup_insert_eq by lia. by rewrite Hs, Z.eqb_refl.
  - destruct (decide _) as [Heq|Hr].
    + rewrite Heq, list_lookup_insert_eq by lia. rewrite Hs.
      destruct (Z.eqb_spec slot slot'); [by subst|done].
    + rewrite list_lookup_insert_ne; [done|].
      pose proof (ring_index_neq slot slot' (os_signers os)) as Hri. rewrite Hn in Hri.
      apply Hri; [lia|congruence].
Qed.
Lemma put_duties slot ss os epoch : duties_of (put_signer slot ss os) epoch = duties_of os epoch.
Proof. unfold put_signer. by destruct (ring_index slot _). Qed.

(** [countDuty] adds one to the epoch's count, unless its ring entry already
    belongs to a later epoch. *)
Lemma countDuty_spec epoch os :
  op_wf n e os →
  ∃ os', countDuty epoch os = Ok os' ∧ op_wf n e os' ∧ os_signers os' = os_signers os ∧
    (duties_of os' epoch = u64 (duties_of os epoch + 1) ∨ duties_of os' epoch = 0).
Proof.
  intros [Hn He]. unfold countDuty, duties_of.
  destruct (ring_lookup epoch (os_duties os) e He e_pos) as (-> & Hlt & d & Hd). simpl.
  rewrite Hd. eexists. split; [done|]. split; [split; simpl; [done|by rewrite length_insert]|].
  split; [done|]. simpl. rewrite list_lookup_insert_eq by lia.
  destruct (Z.eqb_spec (ed_count d) 0) as [Hc|Hc]; simpl.
  - left. by rewrite Z.eqb_refl.
  - destruct (Z.ltb_spec (ed_epoch d) epoch); simpl.
    + left. rewrite Z.eqb_refl. destruct (Z.eqb_spec (ed_epoch d) epoch); [lia|done].
    + destruct (Z.eqb_spec epoch (ed_epoch d)) as [->|Hne]; simpl.
      * rewrite Z.eqb_refl. destruct (Z.eqb_spec (u64 (ed_count d + 1)) 0) as [H0|]; simpl; [right|left]; done.
      * right. destruct (Z.eqb_spec (ed_epoch d) epoch); [lia|]. by rewrite orb_true_r.
Qed.

Lemma SetSigner_spec slot epoch ss os :
  op_wf n e os →
  ∃ os', SetSignerStateForSlot slot epoch ss os = Ok os' ∧ op_wf n e os' ∧
    os_signers os' = os_signers (put_signer slot ss os) ∧
    (duties_of os' epoch = u64 (duties_of os epoch + 1) ∨ duties_of os' epoch = 0).
Proof.
  intros Hwf. unfold SetSignerStateForSlot, put_signer. pose proof Hwf as [Hn He].
  destruct (ring_index_ok slot (os_signers os)) as [-> Hlt]; [lia|]. simpl.
  match goal with |- context [countDuty epoch ?o] =>
    destruct (countDuty_spec epoch o) as (os' & Hc & Hw & Hs & Hd) end.
  { split; simpl; [by rewrite length_insert|done]. }
  exists os'. split_and!; [done|done|exact Hs|exact Hd].
Qed.

Lemma signer_of_ext os os' slot : os_signers os' = os_signers os → signer_of os' slot = signer_of os slot.
Proof. unfold signer_of. by intros ->. Qed.
End rings.

(** ** A validator's state *)
Abbreviation slots_n cs := (Z.to_nat (vs_storedSlotCount cs)).
Abbreviation epochs_n cs := (Z.to_nat (vs_storedEpochCount cs)).

Record vs_wf (cs : ValidatorState) : Prop := {
  wf_slots : 0 < vs_storedSlotCount cs;
  wf_epochs : 0 < vs_storedEpochCount cs;
  wf_ops idx os : vs_operators cs !! idx = Some (Some os) → op_wf (slots_n cs) (epochs_n cs) os;
}.

Definition signer_at (cs : ValidatorState) (idx : nat) (slot : Slot)
    : option SignerStateForSlotRound :=
  match vs_operators cs !! idx with Some (Some os) => signer_of (slots_n cs) os slot | _ => None end.
Definition duties_at (cs : ValidatorState) (idx : nat) (epoch : Epoch) : Z :=
  match vs_operators cs !! idx with Some (Some os) => duties_of (epochs_n cs) os epoch | _ => 0 end.

(** Two states of the same committee with rings of the same sizes. *)
Definition same_shape (cs cs' : ValidatorState) : Prop :=
  vs_committeeID cs' = vs_committeeID cs ∧ vs_storedSlotCount cs' = vs_storedSlotCount cs ∧
  vs_storedEpochCount cs' = vs_storedEpochCount cs ∧
  length (vs_operators cs') = length (vs_operators cs).

Lemma same_shape_refl cs : same_shape cs cs.
Proof. by split_and!. Qed.
Lemma same_shape_trans cs1 cs2 cs3 : same_shape cs1 cs2 → same_shape cs2 cs3 → same_shape cs1 cs3.
Proof. unfold same_shape. intuition congruence. Qed.
#[export] Hint Resolve same_shape_refl : go.

Lemma peek_signer cs idx slot :
  vs_wf cs → (idx < length (vs_operators cs))%nat →
  (o ← peekOperatorState idx cs; GetSignerStateForSlot slot o) = Ok (signer_at cs idx slot).
Proof.
  intros Hwf Hidx. unfold peekOperatorState, signer_at.
  destruct (lookup_lt_is_Some_2 _ _ Hidx) as [o Ho]. rewrite Ho. simpl.
  destruct o as [os|]; [|done].
  apply (GetSigner_ok _ (epochs_n cs)); [pose proof (wf_slots _ Hwf); lia|by apply (wf_ops _ Hwf idx)].
Qed.

Lemma peek_duties cs idx epoch :
  vs_wf cs → (idx < length (vs_operators cs))%nat →
  (o ← peekOperatorState idx cs; DutyCount epoch o) = Ok (duties_at cs idx epoch).
Proof.
  intros Hwf Hidx. unfold peekOperatorState, duties_at.
  destruct (lookup_lt_is_Some_2 _ _ Hidx) as [o Ho]. rewrite Ho. simpl.
  destruct o as [os|]; [|done].
  apply (DutyCount_ok (slots_n cs)); [pose proof (wf_epochs _ Hwf); lia|by apply (wf_ops _ Hwf idx)].
Qed.

(** The operator's state, allocated if missing, reads the same. *)
Lemma get_OperatorState_spec cs idx :
  vs_wf cs → (idx < length (vs_operators cs))%nat →
  ∃ os, get_OperatorState idx cs = Ok os ∧ op_wf (slots_n cs) (epochs_n cs) os ∧
    (∀ slot, signer_of (slots_n cs) os slot = signer_at cs idx slot) ∧
    (∀ epoch, duties_of (epochs_n cs) os epoch = duties_at cs idx epoch).
Proof.
  intros Hwf Hidx. pose proof (wf_slots _ Hwf). pose proof (wf_epochs _ Hwf).
  unfold get_OperatorState, peekOperatorState, signer_at, duties_at.
  destruct (lookup_lt_is_Some_2 _ _ Hidx) as [o Ho]. rewrite Ho. simpl.
  destruct o as [os|]; simpl.
  - exists os. split_and!; [done|by apply (wf_ops _ Hwf idx)|done|done].
  - exists (newOperatorState (Z.of_nat (slots_n cs)) (Z.of_nat (epochs_n cs))).
    split_and!; [by rewrite !Z2Nat.id by lia|apply new_wf|apply new_signer|apply new_duties].
Qed.

Lemma set_OperatorState_wf cs idx os :
  vs_wf cs → op_wf (slots_n cs) (epochs_n cs) os → vs_wf (set_OperatorState idx os cs).
Proof.
  intros [H1 H2 H3] Hos. constructor; simpl; [done..|]. intros idx' os'.
  rewrite list_lookup_insert_Some. naive_solver.
Qed.

(** The signer state an update starts from. *)
Definition start_state (cs : ValidatorState) (idx : nat) (slot : Slot)
    (new : SignerStateForSlotRound) (reuse : SignerStateForSlotRound → SignerStateForSlotRound)
    : SignerStateForSlotRound :=
  match signer_at cs idx slot with None => new | Some ss => reuse ss end.

(** What one update of a signer does: it writes the slot's state, evicts other
    slots of the same ring entry, counts a duty when the slot is new, and leaves
    everything else. *)
Record updated (cs cs' : ValidatorState) (idx : nat) (slot : Slot) (epoch : Epoch)
    (ss : SignerStateForSlotRound) : Prop := {
  up_wf : vs_wf cs';
  up_shape : same_shape cs cs';
  up_signer slot' : signer_at cs' idx slot' =
    if decide (slot' = slot) then Some ss
    else if decide (slot' `mod` vs_storedSlotCount cs = slot `mod` vs_storedSlotCount cs) then None
    else signer_at cs idx slot';
  up_other idx' : idx' ≠ idx → vs_operators cs' !! idx' = vs_operators cs !! idx';
  up_duties :
    match signer_at cs idx slot with
    | None => duties_at cs' idx epoch = u64 (duties_at cs idx epoch + 1) ∨ duties_at cs' idx epoch = 0
    | Some _ => duties_at cs' idx epoch = duties_at cs idx epoch
    end;
}.

Lemma signer_of_slot n os slot ss : signer_of n os slot = Some ss → ss_Slot ss = slot.
Proof.
  unfold signer_of. destruct (_ !! _) as [[s|]|]; [|done..].
  destruct (Z.eqb_spec (ss_Slot s) slot); naive_solver.
Qed.
Lemma signer_at_slot cs idx slot ss : signer_at cs idx slot = Some ss → ss_Slot ss = slot.
Proof.
  unfold signer_at. destruct (_ !! _) as [[os|]|]; [|done..]. apply signer_of_slot.
Qed.

Lemma with_signer_state_spec cs idx slot epoch new reuse f :
  vs_wf cs → (idx < length (vs_operators cs))%nat →
  ss_Slot new = slot → (∀ ss, ss_Slot ss = slot → ss_Slot (reuse ss) = slot) →
  (∀ ss, ss_Slot (f ss).1 = ss_Slot ss) →
  let ss := f (start_state cs idx slot new reuse) in
  ∃ cs', with_signer_state idx slot epoch new reuse f cs = (cs', ss.2) ∧
         updated cs cs' idx slot epoch ss.1.
Proof.
  intros Hwf Hidx Hnew Hreuse Hf ss. unfold with_signer_state.
  pose proof (wf_slots _ Hwf) as Hn. pose proof (wf_epochs _ Hwf) as He.
  destruct (get_OperatorState_spec cs idx Hwf Hidx) as (os & -> & Hos & Hsig & Hdut). simpl.
  rewrite (GetSigner_ok (slots_n cs) (epochs_n cs)), Hsig by (done || lia). simpl.
  set (r := match signer_at cs idx slot with Some s => Ok (os, reuse s) | None => _ end).
  assert (∃ os1, r = Ok (os1, start_state cs idx slot new reuse) ∧
    op_wf (slots_n cs) (epochs_n cs) os1 ∧
    (∀ slot', slot' `mod` Z.of_nat (slots_n cs) ≠ slot `mod` Z.of_nat (slots_n cs) →
      signer_of (slots_n cs) os1 slot' = signer_at cs idx slot') ∧
    match signer_at cs idx slot with
    | None => duties_of (epochs_n cs) os1 epoch = u64 (duties_at cs idx epoch + 1)
              ∨ duties_of (epochs_n cs) os1 epoch = 0
    | Some _ => duties_of (epochs_n cs) os1 epoch = duties_at cs idx epoch
    end) as (os1 & -> & Hos1 & Hs1 & Hd1).
  { unfold r, start_state. destruct (signer_at cs idx slot) as [s|] eqn:E.
    - exists os. split_and!; [done..|]. by rewrite Hdut.
    - destruct (SetSigner_spec (slots_n cs) (epochs_n cs) ltac:(lia) ltac:(lia) slot epoch new os Hos)
        as (os1 & -> & Hw1 & Hsg & Hd). exists os1. split_and!; [done..| |by rewrite <-Hdut].
      intros slot' Hne. rewrite (signer_of_ext _ _ _ _ Hsg).
      rewrite (put_signer_of (slots_n cs) (epochs_n cs)) by (done || lia).
      rewrite decide_False by (intros ->; done). by rewrite decide_False. }
  assert (ss_Slot ss.1 = slot) as Hss.
  { unfold ss. rewrite Hf. unfold start_state. destruct (signer_at cs idx slot) eqn:E; [|done].
    by apply Hreuse, (signer_at_slot cs idx). }
  fold ss. destruct ss as [ss' res] eqn:Ess. simpl in *. eexists. split; [reflexivity|].
  pose proof (put_wf (slots_n cs) (epochs_n cs) slot ss' os1 Hos1) as Hpw.
  constructor.
  - by apply set_OperatorState_wf.
  - unfold same_shape. simpl. by rewrite length_insert.
  - intros slot'. unfold signer_at at 1. simpl. rewrite list_lookup_insert_eq by done.
    rewrite (put_signer_of (slots_n cs) (epochs_n cs)) by (done || lia). rewrite Z2Nat.id in * by lia.
    destruct (decide (slot' = slot)); [done|]. destruct (decide _); [done|]. by apply Hs1.
  - intros idx' Hne. simpl. by rewrite list_lookup_insert_ne.
  - unfold duties_at at 1 3 5. simpl. rewrite list_lookup_insert_eq by done.
    rewrite put_duties. exact Hd1.
Qed.

(** ** What recording a message leaves in a signer state *)
Definition type_idx (t : MessageType) : Z :=
  match t with
  | ProposalMsgType => proposalIdx
  | PrepareMsgType => prepareIdx
  | CommitMsgType => commitIdx
  | RoundChangeMsgType => roundChangeIdx
  | UnknownMsgType _ => 7
  end.

(** Bits recorded so far stay. *)
Definition grows (v w : Z) : Prop := ∀ idx, 0 ≤ idx → reached_idx idx v = true → reached_idx idx w = true.

Lemma grows_refl v : grows v v.
Proof. by intros idx. Qed.
Lemma grows_record idx v : 0 ≤ idx → grows v (record_idx idx v) ∧ reached_idx idx (record_idx idx v) = true.
Proof.
  intros Hi. split.
  - intros idx' Hi' Hr. rewrite reached_record by done. by rewrite Hr, orb_true_r.
  - rewrite reached_record by done. by rewrite bool_decide_true.
Qed.

Lemma RecordConsensus_spec m msg c :
  validConsensusMsgType (m_MsgType msg) = true →
  ∃ c', RecordConsensusMessage m msg c = Ok c' ∧ grows c c' ∧
    (length (s_OperatorIDs m) = 1%nat → reached_idx (type_idx (m_MsgType msg)) c' = true).
Proof.
  unfold RecordConsensusMessage. intros Hv. destruct (m_MsgType msg); simpl in *; try done;
    try (eexists; split; [done|]; split; [by apply grows_record|intros _; by apply grows_record]).
  destruct (Nat.eqb_spec (length (s_OperatorIDs m)) 1).
  - eexists. split; [done|]. split; [by apply grows_record|intros _; by apply grows_record].
  - eexists. split; [done|]. split; [apply grows_refl|done].
Qed.

Lemma RecordPartial_spec m c :
  validPartialSigMsgType (ps_Type m) = true →
  ∃ c', RecordPartialSignatureMessage m c = Ok c' ∧ grows c c' ∧
    (ps_Type m = PostConsensusPartialSig → reached_idx postConsensusIdx c' = true) ∧
    (ps_Type m ≠ PostConsensusPartialSig → ps_Type m ≠ ProposerPreferencesPartialSig →
     ps_Type m ≠ RequestAuthPartialSig → reached_idx preConsensusIdx c' = true).
Proof.
  unfold RecordPartialSignatureMessage. intros Hv. destruct (ps_Type m); simpl in *; try done;
    (eexists; split; [done|]; split;
      [first [by apply grows_record|apply grows_refl]
      |split; intros; try done; by apply grows_record]).
Qed.

Definition seen_types (ss : SignerStateForSlotRound) : Z := sg_SeenMsgTypes (ss_World ss).

(** A step on a signer state that succeeds, keeps slot, round and the bits seen,
    and leaves the new bits [P] says. *)
Record recorded (ss ss' : SignerStateForSlotRound) (P : Z → Prop) : Prop := {
  rec_slot : ss_Slot ss' = ss_Slot ss;
  rec_round : ss_Round ss' = ss_Round ss;
  rec_grows : grows (seen_types ss) (seen_types ss');
  rec_bits : P (seen_types ss');
}.

Lemma record_types_spec p record ss (P : Z → Prop) :
  (∀ c, ∃ c', record c = Ok c' ∧ grows c c' ∧ P c') →
  ∃ ss', record_types p record ss = (ss', Ok tt) ∧ recorded ss ss' P ∧
    (∀ t, seenRootsFor t ss' = seenRootsFor t ss).
Proof.
  intros Hr. unfold record_types. destruct (Hr (sg_SeenMsgTypes (peekPeer p ss))) as (c1 & -> & _).
  cbn [ss_World upd_Peer]. destruct (Hr (sg_SeenMsgTypes (ss_World ss))) as (c2 & -> & Hg & HP).
  eexists. split; [done|]. split; [by constructor|]. by intros [].
Qed.

Lemma processSignerState_spec m msg p ss :
  validConsensusMsgType (m_MsgType msg) = true →
  ∃ ss', processSignerState m msg p ss = (ss', Ok tt) ∧
    recorded ss ss' (λ v, length (s_OperatorIDs m) = 1%nat →
      reached_idx (type_idx (m_MsgType msg)) v = true).
Proof.
  intros Hv.
  assert (∃ ss2, processSignerState m msg p ss = record_types p (RecordConsensusMessage m msg) ss2 ∧
    ss_Slot ss2 = ss_Slot ss ∧ ss_Round ss2 = ss_Round ss ∧ seen_types ss2 = seen_types ss)
    as (ss2 & -> & H4 & H5 & H6).
  { unfold processSignerState. destruct (_ && _), (1 <? _)%nat; by eexists. }
  destruct (record_types_spec p (RecordConsensusMessage m msg) ss2 (λ v, length (s_OperatorIDs m) = 1%nat →
      reached_idx (type_idx (m_MsgType msg)) v = true)) as (ss' & -> & [R1 R2 R3 R4] & _).
  { intros c. by apply RecordConsensus_spec. }
  exists ss'. split; [done|]. constructor; [congruence|congruence| |done].
  unfold grows in *. by rewrite <-H6.
Qed.

Definition partial_step (m : PartialSignatureMessages) (p : string) : ST SignerStateForSlotRound verror unit :=
  record_types p (RecordPartialSignatureMessage m) ;; st_modify (record_roots m).

Lemma record_roots_frame m ss :
  ss_Slot (record_roots m ss) = ss_Slot ss ∧ ss_Round (record_roots m ss) = ss_Round ss ∧
  ss_World (record_roots m ss) = ss_World ss.
Proof. unfold record_roots. by destruct (ps_Type m). Qed.

Lemma partial_step_spec m p ss :
  validPartialSigMsgType (ps_Type m) = true →
  ∃ ss', partial_step m p ss = (ss', Ok tt) ∧
    recorded ss ss' (λ v,
      (ps_Type m = PostConsensusPartialSig → reached_idx postConsensusIdx v = true) ∧
      (ps_Type m ≠ PostConsensusPartialSig → ps_Type m ≠ ProposerPreferencesPartialSig →
       ps_Type m ≠ RequestAuthPartialSig → reached_idx preConsensusIdx v = true)) ∧
    ∀ t, t = ProposerPreferencesPartialSig ∨ t = RequestAuthPartialSig → seenRootsFor t ss' =
      if decide (t = ps_Type m)
      then foldl (λ roots msg, roots_record (psm_SigningRoot msg) roots) (seenRootsFor t ss) (ps_Messages m)
      else seenRootsFor t ss.
Proof.
  intros Hv. unfold partial_step, mbind, st_bind.
  edestruct (record_types_spec p (RecordPartialSignatureMessage m) ss) as (ss1 & -> & [R1 R2 R3 R4] & Hroots).
  { intros c. by apply RecordPartial_spec. }
  destruct (record_roots_frame m ss1) as (F1 & F2 & F3).
  exists (record_roots m ss1). split; [done|]. split.
  - constructor; [congruence|congruence| |]; unfold seen_types in *; rewrite F3; done.
  - intros t Ht. rewrite <-Hroots. unfold record_roots.
    by destruct Ht as [-> | ->], (ps_Type m).
Qed.

(** ** Updates of a validator's state *)
Lemma with_signer_state_cases cs idx slot epoch new reuse f :
  vs_wf cs → ss_Slot new = slot → (∀ ss, ss_Slot ss = slot → ss_Slot (reuse ss) = slot) →
  (∀ ss, ss_Slot (f ss).1 = ss_Slot ss) →
  with_signer_state idx slot epoch new reuse f cs = (cs, Panic) ∨
  ∃ cs', with_signer_state idx slot epoch new reuse f cs
           = (cs', (f (start_state cs idx slot new reuse)).2) ∧
         updated cs cs' idx slot epoch (f (start_state cs idx slot new reuse)).1.
Proof.
  intros Hwf Hnew Hreuse Hf. destruct (decide (idx < length (vs_operators cs))%nat) as [Hidx|Hidx].
  - right. by apply with_signer_state_spec.
  - left. unfold with_signer_state, get_OperatorState, peekOperatorState.
    by rewrite lookup_ge_None_2 by lia.
Qed.

(** A property of validator states kept by every update that records a message at
    [slot] from a state prepared by [reuse]. *)
Definition kept_by (slot : Slot) (epoch : Epoch) (new : SignerStateForSlotRound)
    (reuse : SignerStateForSlotRound → SignerStateForSlotRound) (K : ValidatorState → Prop) : Prop :=
  ∀ cs cs' idx ss' P, vs_wf cs → K cs → recorded (start_state cs idx slot new reuse) ss' P →
    updated cs cs' idx slot epoch ss' → K cs'.

Section updates.
Context `{ValLib, SpecLib, Eth2Client} (mv : Env).

Abbreviation reset_to slot round :=
  (λ ss, if ss_Round ss <? round then Reset slot round ss else ss).

Lemma process_slot m msg p ss :
  validConsensusMsgType (m_MsgType msg) = true → ss_Slot (processSignerState m msg p ss).1 = ss_Slot ss.
Proof.
  intros Hv. destruct (processSignerState_spec m msg p ss Hv) as (ss' & -> & [? _ _ _]). done.
Qed.

Lemma for_signers_kept m msg ci p slot epoch signers cs K :
  let round := m_Round msg in
  validConsensusMsgType (m_MsgType msg) = true → vs_wf cs → K cs →
  kept_by slot epoch (newSignerState slot round) (reset_to slot round) K →
  let out := for_signers (λ signer,
    with_signer_state (signerIndex ci signer) slot epoch (newSignerState slot round)
      (reset_to slot round) (processSignerState m msg p)) signers cs in
  (out.2 = Ok tt ∨ out.2 = Panic) ∧ vs_wf out.1 ∧ same_shape cs out.1 ∧ K out.1.
Proof.
  intros round Hv Hwf HK Hkept. revert cs Hwf HK.
  induction signers as [|signer rest IH]; intros cs Hwf HK; simpl.
  { split_and!; auto with go. }
  unfold mbind, st_bind.
  destruct (with_signer_state_cases cs (signerIndex ci signer) slot epoch (newSignerState slot round)
    (reset_to slot round) (processSignerState m msg p)) as [->|(cs1 & -> & Hup)]; [done|done| | | |].
  - intros ss Hss. by destruct (_ <? _).
  - intros ss. by apply process_slot.
  - simpl. split_and!; auto with go.
  - destruct (processSignerState_spec m msg p (start_state cs (signerIndex ci signer) slot
      (newSignerState slot round) (reset_to slot round)) Hv) as (ss' & Hp & Hrec).
    rewrite Hp in *. cbn [fst snd] in *.
    destruct (IH cs1 (up_wf _ _ _ _ _ _ Hup)) as (Hr & Hw & Hs & HK1).
    { by eapply (Hkept cs). }
    split_and!; [done|done| |done]. by eapply same_shape_trans; [apply Hup|].
Qed.

Lemma updateConsensusState_kept m msg ci p cs K :
  let slot := m_Height msg in
  let round := m_Round msg in
  validConsensusMsgType (m_MsgType msg) = true → vs_wf cs → K cs →
  (∀ epoch, net (EstimatedEpochAtSlot (n_Beacon (mv_netCfg mv)) slot) = Ok epoch →
     kept_by slot epoch (newSignerState slot round) (reset_to slot round) K) →
  let out := updateConsensusState mv m msg ci p cs in
  (out.2 = Ok tt ∨ out.2 = Panic) ∧ vs_wf out.1 ∧ same_shape cs out.1 ∧ K out.1.
Proof.
  intros slot round Hv Hwf HK Hkept. unfold updateConsensusState, mbind, st_bind, st_lift.
  destruct (net (EstimatedEpochAtSlot _ _)) as [epoch|e|] eqn:E.
  - apply for_signers_kept; [done..|]. by apply Hkept.
  - exfalso. unfold EstimatedEpochAtSlot, div_u64 in E. by destruct (_ =? 0).
  - simpl. split_and!; auto with go.
Qed.

Lemma updatePartial_eq m p signer ci cs :
  updatePartialSignatureState mv m p signer ci cs =
  match net (EstimatedEpochAtSlot (n_Beacon (mv_netCfg mv)) (ps_Slot m)) with
  | Ok epoch => with_signer_state (signerIndex ci signer) (ps_Slot m) epoch
                  (newSignerState (ps_Slot m) FirstRound) (λ ss, ss) (partial_step m p) cs
  | Err e => (cs, Err e)
  | Panic => (cs, Panic)
  end.
Proof. reflexivity. Qed.

Lemma updatePartial_kept m p signer ci cs K :
  let slot := ps_Slot m in
  validPartialSigMsgType (ps_Type m) = true → vs_wf cs → K cs →
  (∀ epoch, net (EstimatedEpochAtSlot (n_Beacon (mv_netCfg mv)) slot) = Ok epoch →
     kept_by slot epoch (newSignerState slot FirstRound) (λ ss, ss) K) →
  let out := updatePartialSignatureState mv m p signer ci cs in
  (out.2 = Ok tt ∨ out.2 = Panic) ∧ vs_wf out.1 ∧ same_shape cs out.1 ∧ K out.1.
Proof.
  intros slot Hv Hwf HK Hkept. rewrite updatePartial_eq. fold slot.
  destruct (net (EstimatedEpochAtSlot _ _)) as [epoch|e|] eqn:E.
  - destruct (with_signer_state_cases cs (signerIndex ci signer) slot epoch
      (newSignerState slot FirstRound) (λ ss, ss) (partial_step m p)) as [->|(cs1 & -> & Hup)];
      [done|done|done| | |].
    + intros ss. destruct (partial_step_spec m p ss Hv) as (ss' & -> & [? _ _ _] & _). done.
    + simpl. split_and!; auto with go.
    + destruct (partial_step_spec m p (start_state cs (signerIndex ci signer) slot
        (newSignerState slot FirstRound) (λ ss, ss)) Hv) as (ss' & Hp & Hrec & _).
      rewrite Hp in *. cbn [fst snd] in *.
      split_and!; [by left|apply Hup|apply Hup|]. by eapply (Hkept epoch eq_refl cs).
  - exfalso. unfold EstimatedEpochAtSlot, div_u64 in E. by destruct (_ =? 0).
  - simpl. split_and!; auto with go.
Qed.
End updates.
