(* ===== verification/ValProps.v ===== *)
(** * Correctness of message validation

    What acceptance means, what a refused message leaves behind, that a message
    is accepted at most once while the state it left is retained, the duty and
    root budgets, and how long slots, roles and topics stay acceptable. *)

From stdpp Require Import base list gmap numbers strings sorting.
From Stdlib Require Import Strings.Byte.
From S2P Require Import Prelude Sha256 SpecTypes Quorum Network Proposer RoundTimer Subnets.
From S2P Require Import DutyStore Share ValState ValRules Validation ValFacts.
Open Scope list_scope.
Open Scope Z_scope.

(** A validation at its next check: the check fails and the state is as before,
    or the validation goes on. *)
Lemma lift_cases {S A B} (r : vres A) (f : A → ST S verror B) s s' out :
  (st_lift r ≫= f) s = (s', out) →
  (∃ a, r = Ok a ∧ f a s = (s', out)) ∨ (s' = s ∧ is_ok out = false).
Proof.
  unfold mbind, st_bind, st_lift. destruct r; [eauto|by intros [= <- <-]; right..].
Qed.

Ltac next_check H a E :=
  apply lift_cases in H as [(a & E & H)|[? ?]].

Section props.
Context `{ValLib, SpecLib, Eth2Client}.

(** ** The stages of a validation *)
Record consensus_checks (mv : Env) (ctx : Ctx) (m : SignedSSVMessage) (ci : CommitteeInfo)
    (topic from : string) (t : Time) (ssv : SSVMessage) (msg : Message) (v : ValidatorState)
    : Prop := {
  cc_ssv : s_SSVMessage m = Some ssv;
  cc_decode : DecodeMessage (sv_Data ssv) = Ok msg;
  cc_topic : validateTopicAtSlot mv ci topic (m_Height msg) = Ok tt;
  cc_domain : validateDomainAtSlot mv (sv_MsgID ssv) (m_Height msg) = Ok tt;
  cc_sem : validateConsensusMessageSemantics mv m msg (ci_committee ci) = Ok tt;
  cc_logic : validateQBFTLogic mv m msg ci from v = Ok tt;
  cc_duty : validateQBFTMessageByDutyLogic mv m msg ci t v = Ok tt;
  cc_sigs : verify_signatures mv ctx ssv 0 (s_OperatorIDs m) (s_Signatures m) = Ok tt;
}.

(** What a validation of a message of identifier [key] did to the states: it
    stopped before looking at them, stopped after making sure of the entry, or
    reached the update [upd]. *)
Definition outcome {A : Type} (mv : Env) (ci : CommitteeInfo) (key : bytes) (st st' : States)
    (r : vres A) (checks : ValidatorState → A → Prop)
    (upd : A → ST ValidatorState verror unit) : Prop :=
  (st' = st ∧ is_ok r = false) ∨
  ∃ v st1, validatorState mv key ci st = (st1, Ok v) ∧
    ((st' = st1 ∧ is_ok r = false) ∨
     ∃ a v' res, checks v a ∧ upd a v = (v', res) ∧ st' = <[key := v']> st1 ∧
       r = match res with Ok _ => Ok a | Err e => Err e | Panic => Panic end).

Lemma validatorState_ok mv key ci st : ∃ st1 v, validatorState mv key ci st = (st1, Ok v) ∧
  st1 !! key = Some v.
Proof.
  unfold validatorState. destruct (st !! key) as [v|] eqn:E.
  - destruct (bool_decide _); eexists _, _; split; [done|done|done|apply lookup_insert_eq].
  - eexists _, _. split; [done|apply lookup_insert_eq].
Qed.

Lemma on_state_eq (key : bytes) (upd : ST ValidatorState verror unit) (st : States) (v : ValidatorState) :
  st !! key = Some v → on_state key upd st = (<[key := (upd v).1]> st, (upd v).2).
Proof. intros Hv. unfold on_state. rewrite Hv. by destruct (upd v). Qed.

Lemma validateConsensusMessage_outcome mv ctx m ci topic from t st ssv st' r :
  s_SSVMessage m = Some ssv →
  validateConsensusMessage mv ctx m ci topic from t st = (st', r) →
  outcome mv ci (sv_MsgID ssv) st st' r
    (λ v msg, consensus_checks mv ctx m ci topic from t ssv msg v)
    (λ msg, updateConsensusState mv m msg ci from).
Proof.
  intros Hssv Hrun. unfold validateConsensusMessage in Hrun.
  next_check Hrun ssv' Es; [|by left]. unfold ssv_message in Es. rewrite Hssv in Es.
  injection Es as <-.
  next_check Hrun u1 E1; [|by left]. next_check Hrun msg E2; [|by left].
  next_check Hrun u2 E3; [|by left]. next_check Hrun u3 E4; [|by left].
  next_check Hrun u4 E5; [|by left].
  destruct (validatorState_ok mv (sv_MsgID ssv) ci st) as (st1 & v & Hv & Hl).
  unfold mbind at 1, st_bind at 1 in Hrun. rewrite Hv in Hrun.
  right. exists v, st1. split; [done|].
  next_check Hrun u5 E6; [|by left]. next_check Hrun u6 E7; [|by left].
  next_check Hrun u7 E8; [|by left]. next_check Hrun u8 E9; [|by left].
  unfold mbind at 1, st_bind at 1 in Hrun. rewrite (on_state_eq _ _ _ v Hl) in Hrun.
  destruct (updateConsensusState mv m msg ci from v) as [v' res] eqn:Eu. cbn [fst snd] in Hrun.
  right. exists msg, v', res. repeat match goal with u : unit |- _ => destruct u end.
  split; [constructor; try done; by destruct (DecodeMessage _); simplify_eq|].
  split; [done|]. by destruct res; injection Hrun as <- <-.
Qed.

Record partial_checks (mv : Env) (m : SignedSSVMessage) (ci : CommitteeInfo)
    (topic from : string) (t : Time) (ssv : SSVMessage) (signer : OperatorID)
    (msgs : PartialSignatureMessages) (v : ValidatorState) : Prop := {
  pc_ssv : s_SSVMessage m = Some ssv;
  pc_decode : DecodePartialSignatureMessages (sv_Data ssv) = Ok msgs;
  pc_topic : validateTopicAtSlot mv ci topic (ps_Slot msgs) = Ok tt;
  pc_domain : validateDomainAtSlot mv (sv_MsgID ssv) (ps_Slot msgs) = Ok tt;
  pc_sem : validatePartialSignatureMessageSemantics mv m msgs (ci_validatorIndices ci) = Ok tt;
  pc_duty : validatePartialSigMessagesByDutyLogic mv m msgs ci from t v = Ok tt;
  pc_sig : ∃ ids signature sigs, s_OperatorIDs m = signer :: ids ∧
    s_Signatures m = signature :: sigs ∧ mv_VerifySignature mv signer ssv signature = None;
}.

Definition first_signer (m : SignedSSVMessage) : OperatorID := default 0 (head (s_OperatorIDs m)).

Lemma validatePartial_outcome mv ctx m ci topic from t st ssv st' r :
  s_SSVMessage m = Some ssv →
  validatePartialSignatureMessage mv ctx m ci topic from t st = (st', r) →
  outcome mv ci (sv_MsgID ssv) st st' r
    (λ v msgs, partial_checks mv m ci topic from t ssv (first_signer m) msgs v)
    (λ msgs, updatePartialSignatureState mv msgs from (first_signer m) ci).
Proof.
  intros Hssv Hrun. unfold validatePartialSignatureMessage in Hrun.
  next_check Hrun ssv' Es; [|by left]. unfold ssv_message in Es. rewrite Hssv in Es.
  injection Es as <-.
  next_check Hrun u1 E1; [|by left]. next_check Hrun msgs E2; [|by left].
  next_check Hrun u2 E3; [|by left]. next_check Hrun u3 E4; [|by left].
  next_check Hrun u4 E5; [|by left].
  destruct (validatorState_ok mv (sv_MsgID ssv) ci st) as (st1 & v & Hv & Hl).
  unfold mbind at 1, st_bind at 1 in Hrun. rewrite Hv in Hrun.
  right. exists v, st1. split; [done|].
  next_check Hrun u5 E6; [|by left]. next_check Hrun u6 E7; [|by left].
  next_check Hrun p E8; [|by left]. destruct p as [signer signature].
  next_check Hrun u7 E9; [|by left].
  unfold mbind at 1, st_bind at 1 in Hrun. rewrite (on_state_eq _ _ _ v Hl) in Hrun.
  unfold first_signer. destruct (s_OperatorIDs m) as [|sg ids] eqn:Eids; [done|].
  destruct (s_Signatures m) as [|sn sigs] eqn:Esig; [done|]. injection E8 as -> ->.
  cbn [head default] in *.
  destruct (updatePartialSignatureState mv msgs from signer ci v) as [v' res] eqn:Eu.
  cbn [fst snd] in Hrun.
  right. exists msgs, v', res. repeat match goal with u : unit |- _ => destruct u end.
  split; [constructor; try done; [by destruct (DecodePartialSignatureMessages _); simplify_eq|]|].
  { destruct (mv_VerifySignature mv signer ssv signature) eqn:Ev; [done|]. by eexists _, _, _. }
  split; [done|]. by destruct res; injection Hrun as <- <-.
Qed.

Record envelope_checks (mv : Env) (m : SignedSSVMessage) (ssv : SSVMessage) (ci : CommitteeInfo)
    : Prop := {
  ec_signed : validateSignedSSVMessage mv (Some m) = Ok tt;
  ec_ssv : s_SSVMessage m = Some ssv;
  ec_message : validateSSVMessage ssv = Ok tt;
  ec_domain : validateDomainAllowlist mv (sv_MsgID ssv) = Ok tt;
  ec_committee : getCommitteeAndValidatorIndices mv (sv_MsgID ssv) = Ok ci;
  ec_belongs : belongsToCommittee (s_OperatorIDs m) (ci_committee ci) = Ok tt;
}.

Definition map_result {A B} (f : A → B) (r : vres A) : vres B :=
  match r with Ok a => Ok (f a) | Err e => Err e | Panic => Panic end.

Lemma bind_ret {S A B} (m : ST S verror A) (f : A → B) s s' r :
  (a ← m; mret (f a)) s = (s', r) → ∃ r0, m s = (s', r0) ∧ r = map_result f r0.
Proof.
  unfold mbind, st_bind. destruct (m s) as [s1 [a|e|]]; intros [= <- <-]; eauto.
Qed.

Lemma handleSigned_cases mv ctx m topic from t st st' r :
  handleSignedSSVMessage mv ctx m topic from t st = (st', r) →
  (st' = st ∧ is_ok r = false) ∨
  ∃ ssv ci, envelope_checks mv m ssv ci ∧
    ((sv_MsgType ssv = SSVConsensusMsgType ∧
      ∃ r0, validateConsensusMessage mv ctx m ci topic from t st = (st', r0) ∧
            r = map_result (λ b, mkQueueMessage (Some m) ssv (ConsensusBody b)) r0) ∨
     (sv_MsgType ssv = SSVPartialSignatureMsgType ∧
      ∃ r0, validatePartialSignatureMessage mv ctx m ci topic from t st = (st', r0) ∧
            r = map_result (λ b, mkQueueMessage (Some m) ssv (PartialBody b)) r0)).
Proof.
  intros Hrun. unfold handleSignedSSVMessage in Hrun.
  next_check Hrun u0 E0; [|by left]. next_check Hrun u1 E1; [|by left].
  next_check Hrun ssv E2; [|by left]. next_check Hrun u2 E3; [|by left].
  next_check Hrun u3 E4; [|by left]. next_check Hrun ci E5; [|by left].
  next_check Hrun u4 E6; [|by left]. next_check Hrun u5 E7; [|by left].
  repeat match goal with u : unit |- _ => destruct u end.
  assert (envelope_checks mv m ssv ci) as Henv.
  { constructor; try done. unfold ssv_message in E2. by destruct (s_SSVMessage m); simplify_eq. }
  destruct (sv_MsgType ssv) eqn:Et.
  - apply bind_ret in Hrun as (r0 & Hr & ->). right. exists ssv, ci. split; [done|]. left. eauto.
  - apply bind_ret in Hrun as (r0 & Hr & ->). right. exists ssv, ci. split; [done|]. right. eauto.
  - injection Hrun as <- <-. by left.
  - injection Hrun as <- <-. by left.
Qed.

Lemma handlePubsub_cases mv ctx pm t st st' r :
  handlePubsubMessage mv ctx pm t st = (st', r) →
  (st' = st ∧ is_ok r = false) ∨
  ∃ m, DecodeSignedSSVMessage (pb_Data pm) = Ok m ∧
    handleSignedSSVMessage mv ctx m (pb_Topic pm) (pb_ReceivedFrom pm) t st = (st', r).
Proof.
  intros Hrun. unfold handlePubsubMessage in Hrun.
  next_check Hrun u0 E0; [|by left]. next_check Hrun u1 E1; [|by left].
  next_check Hrun m E2; [|by left]. right. exists m. split; [|done].
  unfold decodeSignedSSVMessage in E2. by destruct (DecodeSignedSSVMessage _); simplify_eq.
Qed.

(** ** What a successful check says *)
Lemma role_limit_cases (b : bool) {E} (x : result E unit) (u : unit) :
  (if b then x else Ok tt) = Ok u → b = false ∨ (b = true ∧ x = Ok tt).
Proof. destruct b, u; auto. Qed.

Record consensus_semantics (mv : Env) (m : SignedSSVMessage) (ssv : SSVMessage) (msg : Message)
    (committee : list OperatorID) : Prop := {
  sem_role : validRoleAtSlot mv (GetRoleType (sv_MsgID ssv)) (m_Height msg) = Ok true;
  sem_has_consensus : no_consensus_role (GetRoleType (sv_MsgID ssv)) = false;
  sem_decided : (1 < length (s_OperatorIDs m))%nat → m_MsgType msg = CommitMsgType ∧
    (ComputeQuorumAndPartialQuorum (Z.of_nat (length committee))).1 ≤ Z.of_nat (length (s_OperatorIDs m));
  sem_full_data : bytes_of (s_FullData m) ≠ [] → spec_HashDataRoot (s_FullData m) = Ok (m_Root msg) ∧
    m_MsgType msg ≠ PrepareMsgType ∧ (m_MsgType msg = CommitMsgType → length (s_OperatorIDs m) ≠ 1%nat);
  sem_type : validConsensusMsgType (m_MsgType msg) = true;
  sem_round : m_Round msg ≠ NoRound ∧
    m_Round msg ≤ (MaxRound (GetRoleType (sv_MsgID ssv))).1 ∧
    (MaxRound (GetRoleType (sv_MsgID ssv))).2 = true;
  sem_identifier : m_Identifier msg = sv_MsgID ssv;
  sem_justifications : validateJustifications msg = Ok tt;
}.

Lemma validateConsensusMessageSemantics_ok mv m msg committee ssv :
  s_SSVMessage m = Some ssv → validateConsensusMessageSemantics mv m msg committee = Ok tt →
  consensus_semantics mv m ssv msg committee.
Proof.
  intros Hssv. unfold validateConsensusMessageSemantics, ssv_message. rewrite Hssv.
  destruct (ComputeQuorumAndPartialQuorum _) as [q pq] eqn:Eq. simpl mbind at 1. intros Hok.
  apply bind_ok in Hok as (valid & Hrole & Hok). apply bind_ok in Hok as (? & Hvalid & Hok).
  apply bind_ok in Hok as (? & Hdec & Hok). apply bind_ok in Hok as (? & Hfull & Hok).
  apply bind_ok in Hok as (? & Htype & Hok). apply bind_ok in Hok as (? & Hround & Hok).
  apply bind_ok in Hok as (? & Hcons & Hok). apply bind_ok in Hok as (mr & Hmax & Hok).
  apply bind_ok in Hok as (? & Hhigh & Hok). apply bind_ok in Hok as (? & Hid & Hjust).
  inv_ok. subst. constructor; try done.
  - intros Hlen. apply role_limit_cases in Hdec as [Hlt%Nat.ltb_ge|[_ Hdec]]; [lia|].
    inv_ok. rewrite Eq. split; [by apply dec_stable|done].
  - intros Hne. apply role_limit_cases in Hfull as [Hlen|[_ Hfull]].
    { apply negb_false_iff, Nat.eqb_eq, nil_length_inv in Hlen. done. }
    apply bind_ok in Hfull as (? & Htyp & Hfull). apply bind_ok in Hfull as (hashed & Hh & Hroot).
    inv_ok. apply orb_false_iff in Htyp as [Ht1 Ht2]. inv_ok. split; [|split; [done|]].
    + destruct (spec_HashDataRoot _); by simplify_eq.
    + intros Hc. rewrite bool_decide_true in Ht2 by done. simpl in Ht2. by apply Nat.eqb_neq in Ht2.
  - apply Z.eqb_neq in Hround. unfold maxRound in Hmax.
    destruct (MaxRound _) as [r []]; simpl in *; simplify_eq. done.
Qed.

Record partial_semantics (mv : Env) (m : SignedSSVMessage) (ssv : SSVMessage)
    (msgs : PartialSignatureMessages) (indices : list ValidatorIndex) (signer : OperatorID) : Prop := {
  psem_role : validRoleAtSlot mv (GetRoleType (sv_MsgID ssv)) (ps_Slot msgs) = Ok true;
  psem_signer : s_OperatorIDs m = [signer];
  psem_full_data : bytes_of (s_FullData m) = [];
  psem_type : validPartialSigMsgType (ps_Type msgs) = true;
  psem_matches : partialSignatureTypeMatchesRole (ps_Type msgs) (GetRoleType (sv_MsgID ssv)) = true;
  psem_nonempty : ps_Messages msgs ≠ [];
  psem_limit : committeeRole (GetRoleType (sv_MsgID ssv)) = false →
    GetRoleType (sv_MsgID ssv) ≠ RoleSyncCommitteeContribution →
    ∃ limit, maxValidatorRoleSignatures mv (GetRoleType (sv_MsgID ssv)) (ps_Type msgs) (ps_Slot msgs)
               = Ok limit ∧ Z.of_nat (length (ps_Messages msgs)) ≤ limit;
  psem_entries msg : msg ∈ ps_Messages msgs → psm_Signer msg = signer ∧
    (committeeRole (GetRoleType (sv_MsgID ssv)) = false → psm_ValidatorIndex msg ∈ indices);
}.

Lemma validatePartialSemantics_ok mv m msgs indices ssv :
  s_SSVMessage m = Some ssv → validatePartialSignatureMessageSemantics mv m msgs indices = Ok tt →
  partial_semantics mv m ssv msgs indices (first_signer m).
Proof.
  intros Hssv. unfold validatePartialSignatureMessageSemantics, ssv_message, first_signer. rewrite Hssv.
  simpl mbind at 1. intros Hok.
  apply bind_ok in Hok as (valid & Hrole & Hok). apply bind_ok in Hok as (? & Hvalid & Hok).
  destruct (s_OperatorIDs m) as [|signer [|]] eqn:Eids; [done| |done]. cbn [head default].
  apply bind_ok in Hok as (? & Hfull & Hok). apply bind_ok in Hok as (? & Htype & Hok).
  apply bind_ok in Hok as (? & Hmatch & Hok).
  destruct (ps_Messages msgs) as [|first rest] eqn:Emsgs; [done|].
  apply bind_ok in Hok as (? & Hlim & Hentries). inv_ok. subst. constructor; try done.
  - by apply nil_length_inv, Nat.eqb_eq.
  - by rewrite Emsgs.
  - intros Hc Hr. apply role_limit_cases in Hlim as [Hl|[_ Hl]].
    { rewrite Hc, bool_decide_true in Hl by done. done. }
    rewrite Emsgs. apply bind_ok in Hl as (limit & Hlimit & Hle). inv_ok. eauto.
  - rewrite Emsgs. intros msg Hin. pose proof (proj1 (for_each_ok _ _ _) Hentries msg Hin) as Hm.
    apply bind_ok in Hm as (? & Hs & Hm). inv_ok. split; [done|]. intros Hc. rewrite Hc in Hm.
    simpl in Hm. inv_ok. done.
Qed.

Record signed_ok (mv : Env) (m : SignedSSVMessage) : Prop := {
  so_increasing : StronglySorted Z.lt (s_OperatorIDs m);
  so_nonzero signer : signer ∈ s_OperatorIDs m → signer ≠ 0;
  so_known signer : signer ∈ s_OperatorIDs m → mv_OperatorsExist mv [signer] = Ok true;
  so_nonempty : s_OperatorIDs m ≠ [];
  so_signatures : length (s_Signatures m) = length (s_OperatorIDs m);
  so_sizes sig : sig ∈ s_Signatures m → Z.of_nat (length sig) = rsaSignatureSize;
}.

Lemma IsSorted_tail x l : IsSorted (x :: l) = true → IsSorted l = true ∧ ∀ y, head l = Some y → x ≤ y.
Proof.
  destruct l as [|y l]; simpl; [done|]. rewrite andb_true_iff, Z.leb_le.
  intros [? ?]. split; [done|]. by intros ? [= <-].
Qed.

Lemma validate_signers_ok mv prev signers :
  IsSorted signers = true → (∀ y, head signers = Some y → prev ≤ y) →
  validate_signers mv prev signers = Ok tt →
  StronglySorted Z.lt signers ∧ Forall (λ s, prev < s) signers ∧
  ∀ signer, signer ∈ signers → signer ≠ 0 ∧ mv_OperatorsExist mv [signer] = Ok true.
Proof.
  revert prev. induction signers as [|s rest IH]; intros prev Hs Hp Hok.
  { split; [constructor|]. split; [constructor|]. by intros ? ?%not_elem_of_nil. }
  cbn [validate_signers] in Hok. unfold validateSignerNotZero, validateSignerUnique in Hok.
  apply bind_ok in Hok as (? & Hz & Hok). apply bind_ok in Hok as (? & Hu & Hok).
  apply bind_ok in Hok as (? & Hk & Hok). inv_ok. apply Z.eqb_neq in Hz, Hu.
  apply IsSorted_tail in Hs as [Hs Hh].
  destruct (IH s Hs Hh Hok) as (Hsort & Hall & Hrest).
  assert (prev < s) as Hlt by (specialize (Hp s eq_refl); lia).
  split; [by constructor|]. split.
  - constructor; [done|]. eapply Forall_impl; [exact Hall|]. simpl. lia.
  - intros signer [->|Hin]%elem_of_cons; [|by apply Hrest]. split; [done|].
    unfold validateSignerIsKnown in Hk. destruct (mv_OperatorsExist mv [s]) as [[]| |]; done.
Qed.

Lemma validateSignedSSVMessage_ok mv m :
  (∀ signer, signer ∈ s_OperatorIDs m → 0 ≤ signer) →
  validateSignedSSVMessage mv (Some m) = Ok tt → signed_ok mv m.
Proof.
  intros Hpos Hok. unfold validateSignedSSVMessage in Hok.
  apply bind_ok in Hok as (? & Hne & Hok). apply bind_ok in Hok as (? & Hsig & Hok).
  apply bind_ok in Hok as (? & Hsize & Hok). apply bind_ok in Hok as (? & Hsort & Hok).
  apply bind_ok in Hok as (? & Hlen & Hok). apply bind_ok in Hok as (u & Hs & _). destruct u. inv_ok.
  destruct (validate_signers_ok mv 0 (s_OperatorIDs m)) as (Hinc & _ & Hall); [done| |done|].
  { intros y Hy. apply Hpos. destruct (s_OperatorIDs m); simplify_eq/=. by left. }
  constructor; [done|by apply Hall|by apply Hall| | |].
  - intros Heq. by rewrite Heq in Hne.
  - symmetry. by apply Nat.eqb_eq.
  - intros sig Hin. pose proof (proj1 (for_each_ok _ _ _) Hsize sig Hin) as Hz. simpl in Hz. by inv_ok.
Qed.

Lemma verify_signatures_ok mv ctx ssv i ids sigs k sig :
  verify_signatures mv ctx ssv i ids sigs = Ok tt → sigs !! k = Some sig →
  ∃ id, ids !! k = Some id ∧ mv_VerifySignature mv id ssv sig = None.
Proof.
  revert i ids k. induction sigs as [|s sigs IH]; intros i ids k Hok Hk; [done|].
  cbn [verify_signatures] in Hok. destruct ids as [|id ids]; [done|].
  apply bind_ok in Hok as (? & _ & Hok). destruct (mv_VerifySignature mv id ssv s) eqn:Ev; [done|].
  destruct k as [|k]; simpl in Hk; simplify_eq; [by exists id|]. exact (IH (S i) ids k Hok Hk).
Qed.

(** ** The states as a whole *)
Definition cfg_ok (mv : Env) : Prop :=
  let spe := SlotsPerEpoch (n_Beacon (mv_netCfg mv)) in 0 < spe ∧ 2 * spe + 3 ≤ max_u64.

Definition states_wf (st : States) : Prop := map_Forall (λ _ v, vs_wf v) st.

(** An entry without any operator's state. *)
Definition blank (v : ValidatorState) : Prop :=
  ∀ idx os, vs_operators v !! idx ≠ Some (Some os).

Lemma stored_counts_pos mv role :
  cfg_ok mv → 0 < storedSlotCount mv role ∧ 0 < storedEpochCount role.
Proof.
  intros [Hs Hm]. unfold storedSlotCount, maxStoredSlots. split; [|by destruct role].
  destruct (bool_decide _); rewrite ?u64_small; unfold is_u64; try lia;
    rewrite ?u64_small; unfold is_u64; try lia; rewrite ?u64_small; unfold is_u64; lia.
Qed.

Lemma validatorState_spec mv key ci st st1 v :
  cfg_ok mv → states_wf st → validatorState mv key ci st = (st1, Ok v) →
  states_wf st1 ∧ st1 !! key = Some v ∧ (∀ key', key' ≠ key → st1 !! key' = st !! key') ∧
  vs_committeeID v = ci_committeeID ci ∧
  (st1 = st ∨
   blank v ∧ length (vs_operators v) = length (ci_committee ci) ∧
   ∀ v0, st !! key = Some v0 → vs_committeeID v0 ≠ ci_committeeID ci).
Proof.
  intros Hcfg Hst. destruct (stored_counts_pos mv (GetRoleType key) Hcfg) as [Hn He].
  set (fresh := mkValidatorState (ci_committeeID ci) (replicate (length (ci_committee ci)) None)
      (storedSlotCount mv (GetRoleType key)) (storedEpochCount (GetRoleType key))).
  assert (blank fresh) as Hb.
  { intros idx os Hidx. by apply lookup_replicate in Hidx as [? _]. }
  assert (vs_wf fresh) as Hwf.
  { constructor; [done..|]. intros idx os Hidx. by apply Hb in Hidx. }
  unfold validatorState. fold fresh. intros Hv.
  assert ((st1 = st ∧ st !! key = Some v ∧ vs_committeeID v = ci_committeeID ci) ∨
    (st1 = <[key := fresh]> st ∧ v = fresh ∧
     ∀ v0, st !! key = Some v0 → vs_committeeID v0 ≠ ci_committeeID ci))
    as [(-> & Hl & Hc)|(-> & -> & Hc)].
  { destruct (st !! key) as [v0|] eqn:E; [|injection Hv as <- <-; right; naive_solver].
    destruct (bool_decide_reflect (vs_committeeID v0 = ci_committeeID ci));
      injection Hv as <- <-; [left|right]; naive_solver. }
  - split_and!; auto.
  - split_and!; [by apply map_Forall_insert_2|apply lookup_insert_eq| |done|].
    + intros key' Hne. by rewrite lookup_insert_ne.
    + right. split_and!; [done| |done]. simpl. apply length_replicate.
Qed.

(** The identifier that a gossip message carries, if it can be decoded. *)
Definition message_id (pm : PubsubMessage) : option bytes :=
  match DecodeSignedSSVMessage (pb_Data pm) with Ok m => sv_MsgID <$> s_SSVMessage m | _ => None end.

(** What a validation that did not accept leaves: the states as they were, but for the
    entry of the message's own identifier [id], when the committee's change made it stale
    or it was missing: that one is a blank one of the committee of today. *)
Definition untouched (mv : Env) (id : option bytes) (st st' : States) : Prop :=
  ∀ key, st' !! key = st !! key ∨
    (id = Some key ∧ ∃ v ci, st' !! key = Some v ∧ blank v ∧ getCommitteeAndValidatorIndices mv key = Ok ci ∧
      vs_committeeID v = ci_committeeID ci ∧
      ∀ v0, st !! key = Some v0 → vs_committeeID v0 ≠ ci_committeeID ci).

Lemma untouched_entry mv key ci st st1 v :
  cfg_ok mv → states_wf st → getCommitteeAndValidatorIndices mv key = Ok ci →
  validatorState mv key ci st = (st1, Ok v) → untouched mv (Some key) st st1.
Proof.
  intros Hcfg Hst Hci Hv key'.
  destruct (validatorState_spec _ _ _ _ _ _ Hcfg Hst Hv) as (_ & Hl & Hother & Hc & Hcase).
  destruct (decide (key' = key)) as [->|Hne]; [|left; by apply Hother].
  destruct Hcase as [->|(Hb & _ & Hc0)]; [by left|]. right. split; [done|]. by exists v, ci.
Qed.

Lemma consensus_upd_no_err mv m msg ci p v v' e :
  vs_wf v → validConsensusMsgType (m_MsgType msg) = true →
  updateConsensusState mv m msg ci p v ≠ (v', Err e).
Proof.
  intros Hwf Hv Heq.
  destruct (updateConsensusState_kept mv m msg ci p v (λ _, True)) as (Hr & _);
    [done..|]. rewrite Heq in Hr. by destruct Hr.
Qed.

Lemma partial_upd_no_err mv m p signer ci v v' e :
  vs_wf v → validPartialSigMsgType (ps_Type m) = true →
  updatePartialSignatureState mv m p signer ci v ≠ (v', Err e).
Proof.
  intros Hwf Hv Heq.
  destruct (updatePartial_kept mv m p signer ci v (λ _, True)) as (Hr & _); [done..|].
  rewrite Heq in Hr. by destruct Hr.
Qed.

(** The body of a validation that ended in an error. *)
Lemma outcome_err {A : Type} mv ci key st st' e (checks : ValidatorState → A → Prop) upd :
  cfg_ok mv → states_wf st → getCommitteeAndValidatorIndices mv key = Ok ci →
  (∀ v a v' e', vs_wf v → checks v a → upd a v ≠ (v', Err e')) →
  outcome mv ci key st st' (Err e) checks upd → untouched mv (Some key) st st'.
Proof.
  intros Hcfg Hst Hci Hupd [[-> _]|(v & st1 & Hv & Hcase)]; [intros key'; by left|].
  destruct Hcase as [[-> _]|(a & v' & res & Hch & Hu & -> & Hr)]; [by eapply untouched_entry|].
  destruct (validatorState_spec _ _ _ _ _ _ Hcfg Hst Hv) as (Hwf1 & Hl & _).
  destruct res; simplify_eq. exfalso. eapply Hupd; [|done|done]. by apply (Hwf1 key).
Qed.

Lemma handlePubsub_err mv ctx pm t st st' e :
  cfg_ok mv → states_wf st → handlePubsubMessage mv ctx pm t st = (st', Err e) →
  untouched mv (message_id pm) st st'.
Proof.
  intros Hcfg Hst Hrun.
  apply handlePubsub_cases in Hrun as [[-> _]|(m & Hdec & Hrun)]; [intros key; by left|].
  apply handleSigned_cases in Hrun as [[-> _]|(ssv & ci & Henv & Hbody)]; [intros key; by left|].
  assert (message_id pm = Some (sv_MsgID ssv)) as -> by (unfold message_id; by rewrite Hdec, (ec_ssv _ _ _ _ Henv)).
  destruct Hbody as [(_ & r0 & Hrun & Hr)|(_ & r0 & Hrun & Hr)]; destruct r0; simplify_eq/=.
  - eapply outcome_err; [done|done|apply (ec_committee _ _ _ _ Henv)| |
      by eapply validateConsensusMessage_outcome; [apply (ec_ssv _ _ _ _ Henv)|]].
    intros v msg v' e' Hwf Hch. apply consensus_upd_no_err; [done|].
    eapply sem_type, validateConsensusMessageSemantics_ok; apply Hch.
  - eapply outcome_err; [done|done|apply (ec_committee _ _ _ _ Henv)| |
      by eapply validatePartial_outcome; [apply (ec_ssv _ _ _ _ Henv)|]].
    intros v msg v' e' Hwf Hch. apply partial_upd_no_err; [done|].
    eapply psem_type, validatePartialSemantics_ok; apply Hch.
Qed.

(** C10. A message that is not accepted leaves no trace: whatever the verdict (ignored or
    rejected, at any stage, with verified or forged signatures), no signer's state changes
    and no data is handed on; at most the entry of the identifier that it carries is
    (re)created blank, when there was none or the one there belongs to another committee,
    and the entries of all other identifiers are kept. *)
Theorem refused_leaves_no_trace mv ctx peer pm st st' verdict data :
  cfg_ok mv → states_wf st →
  Validate mv ctx peer pm st = (st', Ok (verdict, data)) → verdict ≠ ValidationAccept →
  untouched mv (message_id pm) st st' ∧ data = None.
Proof.
  intros Hcfg Hst Hrun Hv. unfold Validate in Hrun. destruct (_ && _).
  - injection Hrun as <- Hself. split; [intros key; by left|].
    unfold validateSelf in Hself. destruct (net _); [|by simplify_eq..].
    destruct (queue_DecodeSignedSSVMessage _); by simplify_eq.
  - destruct (ctx cpValidate); [simplify_eq; split; [intros key; by left|done]|].
    destruct (handlePubsubMessage _ _ _ _ _) as [st1 [q|e|]] eqn:E; simplify_eq.
    split; [by eapply handlePubsub_err|done].
Qed.

(** ** What acceptance means *)
Definition ids_u64 (m : SignedSSVMessage) : Prop := Forall is_u64 (s_OperatorIDs m).

(** Every signer of an accepted message: a distinct known operator of the committee
    whose signature on the message was verified. *)
Record authentic (mv : Env) (m : SignedSSVMessage) (ssv : SSVMessage) (ci : CommitteeInfo) : Prop := {
  au_signed : signed_ok mv m;
  au_committee signer : signer ∈ s_OperatorIDs m → signer ∈ ci_committee ci;
  au_verified k signer sig : s_OperatorIDs m !! k = Some signer → s_Signatures m !! k = Some sig →
    mv_VerifySignature mv signer ssv sig = None;
}.

Lemma belongs_ok ids committee :
  belongsToCommittee ids committee = Ok tt → ∀ signer, signer ∈ ids → signer ∈ committee.
Proof.
  intros Hb signer Hin. pose proof (proj1 (for_each_ok _ _ _) Hb signer Hin) as Hs.
  simpl in Hs. by inv_ok.
Qed.

Lemma ids_nonneg m : ids_u64 m → ∀ signer, signer ∈ s_OperatorIDs m → 0 ≤ signer.
Proof. intros Hu signer Hin. unfold ids_u64 in Hu. rewrite Forall_forall in Hu. apply (Hu _ Hin). Qed.

(** The accepted body of a validation. *)
Lemma outcome_ok {A : Type} mv ci key st st' (a : A) (checks : ValidatorState → A → Prop) upd :
  outcome mv ci key st st' (Ok a) checks upd →
  ∃ v st1 v' u, validatorState mv key ci st = (st1, Ok v) ∧ checks v a ∧
    upd a v = (v', Ok u) ∧ st' = <[key := v']> st1.
Proof.
  intros [[_ ?]|(v & st1 & Hv & [[_ ?]|(a' & v' & res & Hch & Hu & -> & Hr)])]; [done..|].
  destruct res as [u| |]; simplify_eq. by exists v, st1, v', u.
Qed.

(** An accepted consensus message, with what was checked. *)
Definition consensus_accepted (mv : Env) (ctx : Ctx) (topic from : string) (t : Time)
    (st st' : States) (m : SignedSSVMessage) (ssv : SSVMessage) (msg : Message)
    (ci : CommitteeInfo) (v v' : ValidatorState) : Prop :=
  envelope_checks mv m ssv ci ∧ sv_MsgType ssv = SSVConsensusMsgType ∧
  consensus_checks mv ctx m ci topic from t ssv msg v ∧
  ∃ st1, validatorState mv (sv_MsgID ssv) ci st = (st1, Ok v) ∧
    updateConsensusState mv m msg ci from v = (v', Ok tt) ∧ st' = <[sv_MsgID ssv := v']> st1.

Definition partial_accepted (mv : Env) (topic from : string) (t : Time)
    (st st' : States) (m : SignedSSVMessage) (ssv : SSVMessage) (msgs : PartialSignatureMessages)
    (ci : CommitteeInfo) (v v' : ValidatorState) : Prop :=
  envelope_checks mv m ssv ci ∧ sv_MsgType ssv = SSVPartialSignatureMsgType ∧
  partial_checks mv m ci topic from t ssv (first_signer m) msgs v ∧
  ∃ st1, validatorState mv (sv_MsgID ssv) ci st = (st1, Ok v) ∧
    updatePartialSignatureState mv msgs from (first_signer m) ci v = (v', Ok tt) ∧
    st' = <[sv_MsgID ssv := v']> st1.

Lemma handleSigned_ok mv ctx m topic from t st st' q :
  handleSignedSSVMessage mv ctx m topic from t st = (st', Ok q) →
  ∃ ssv ci v v', q_SignedSSVMessage q = Some m ∧ q_SSVMessage q = ssv ∧
    ((∃ msg, q_Body q = ConsensusBody msg ∧
       consensus_accepted mv ctx topic from t st st' m ssv msg ci v v') ∨
     (∃ msgs, q_Body q = PartialBody msgs ∧
       partial_accepted mv topic from t st st' m ssv msgs ci v v')).
Proof.
  intros Hrun. apply handleSigned_cases in Hrun as [[_ ?]|(ssv & ci & Henv & Hbody)]; [done|].
  destruct Hbody as [(Ht & r0 & Hrun & Hr)|(Ht & r0 & Hrun & Hr)]; destruct r0 as [a| |]; simplify_eq/=.
  - apply (validateConsensusMessage_outcome _ _ _ _ _ _ _ _ ssv) in Hrun; [|apply Henv].
    apply outcome_ok in Hrun as (v & st1 & v' & [] & Hv & Hch & Hu & ->).
    exists ssv, ci, v, v'. split_and!; [done..|]. left. exists a. split; [done|].
    split_and!; [done..|]. by exists st1.
  - apply (validatePartial_outcome _ _ _ _ _ _ _ _ ssv) in Hrun; [|apply Henv].
    apply outcome_ok in Hrun as (v & st1 & v' & [] & Hv & Hch & Hu & ->).
    exists ssv, ci, v, v'. split_and!; [done..|]. right. exists a. split; [done|].
    split_and!; [done..|]. by exists st1.
Qed.

Lemma validateTopic_ok mv ci topic slot :
  validateTopicAtSlot mv ci topic slot = Ok tt →
  ∃ boole, BooleForkAtSlot (mv_netCfg mv) slot = Ok boole ∧
    topic = if boole : bool then BooleTopic (mv_Name mv) (ci_subnet ci)
            else GetTopicFullName (SubnetTopicID (ci_subnetAlan ci)).
Proof.
  unfold validateTopicAtSlot. intros Hok. apply bind_ok in Hok as (b & Hb & Hok). inv_ok.
  exists b. split; [|done]. by destruct (BooleForkAtSlot _ _); simplify_eq/=.
Qed.

Lemma validateDomain_ok mv msgID slot :
  validateDomainAtSlot mv msgID slot = Ok tt →
  DomainTypeAtSlot (mv_netCfg mv) slot = Ok (GetDomain msgID).
Proof.
  unfold validateDomainAtSlot. intros Hok. apply bind_ok in Hok as (d & Hd & Hok). inv_ok.
  rewrite Hok. by destruct (DomainTypeAtSlot _ _); simplify_eq/=.
Qed.

Lemma authentic_ok mv m ssv ci (Hu : ids_u64 m) :
  envelope_checks mv m ssv ci →
  (∀ k signer sig, s_OperatorIDs m !! k = Some signer → s_Signatures m !! k = Some sig →
     mv_VerifySignature mv signer ssv sig = None) → authentic mv m ssv ci.
Proof.
  intros Henv Hv. constructor; [|by apply belongs_ok, (ec_belongs _ _ _ _ Henv)|done].
  apply validateSignedSSVMessage_ok; [by apply ids_nonneg|apply Henv].
Qed.

(** C11. What an accepted consensus message is: its signers are distinct, non-zero, known
    operators of the committee and every signature was verified; its role is one of the
    fork at its slot and has a consensus; only commits have several signers, and then at
    least a quorum; full data is what the root hashes, and absent from prepares and single
    commits; its round is between one and the role's maximum; it carries its envelope's
    identifier and only the justifications its type allows; a proposal comes from the
    round's leader; and it arrived on its committee's topic, under its slot's domain,
    within its slot's time. *)
Theorem accepted_consensus_sound mv ctx m topic from t st st' q msg :
  ids_u64 m → handleSignedSSVMessage mv ctx m topic from t st = (st', Ok q) →
  q_Body q = ConsensusBody msg →
  ∃ ssv ci boole, s_SSVMessage m = Some ssv ∧ DecodeMessage (sv_Data ssv) = Ok msg ∧
    getCommitteeAndValidatorIndices mv (sv_MsgID ssv) = Ok ci ∧ authentic mv m ssv ci ∧
    consensus_semantics mv m ssv msg (ci_committee ci) ∧
    (m_MsgType msg = ProposalMsgType → ∃ leader, s_OperatorIDs m = [leader] ∧
       Proposer (m_Height msg) (m_Round msg) (ci_committee ci) (mv_netCfg mv) = Ok leader) ∧
    BooleForkAtSlot (mv_netCfg mv) (m_Height msg) = Ok boole ∧
    topic = (if boole : bool then BooleTopic (mv_Name mv) (ci_subnet ci)
             else GetTopicFullName (SubnetTopicID (ci_subnetAlan ci))) ∧
    DomainTypeAtSlot (mv_netCfg mv) (m_Height msg) = Ok (GetDomain (sv_MsgID ssv)) ∧
    validateSlotTime mv (m_Height msg) (GetRoleType (sv_MsgID ssv)) t = Ok tt.
Proof.
  intros Hu Hrun Hbody.
  apply handleSigned_ok in Hrun as (ssv & ci & v & v' & _ & _ & [(msg' & Hb & Hacc)|(? & Hb & _)]);
    rewrite Hbody in Hb; simplify_eq. destruct Hacc as (Henv & _ & Hch & _).
  pose proof (validateConsensusMessageSemantics_ok _ _ _ _ _ (cc_ssv _ _ _ _ _ _ _ _ _ _ Hch)
    (cc_sem _ _ _ _ _ _ _ _ _ _ Hch)) as Hsem.
  assert (authentic mv m ssv ci) as Hau.
  { apply authentic_ok; [done..|]. intros k signer sig Hk Hsig.
    destruct (verify_signatures_ok _ _ _ _ _ _ k sig (cc_sigs _ _ _ _ _ _ _ _ _ _ Hch) Hsig)
      as (id & Hid & Hver). by simplify_eq. }
  destruct (validateTopic_ok _ _ _ _ (cc_topic _ _ _ _ _ _ _ _ _ _ Hch)) as (boole & Hf & Ht).
  exists ssv, ci, boole. split_and!; [apply Hch|apply Hch|apply Henv|done|done| |done|done| |].
  - intros Hp. pose proof (cc_logic _ _ _ _ _ _ _ _ _ _ Hch) as Hlogic. unfold validateQBFTLogic in Hlogic.
    rewrite bool_decide_true in Hlogic by done.
    apply bind_ok in Hlogic as (? & Hl & _). apply bind_ok in Hl as (leader & Hlead & Hl).
    exists leader. split; [|by destruct (Proposer _ _ _ _); simplify_eq/=].
    destruct (s_OperatorIDs m) as [|first rest] eqn:Eids; [done|]. inv_ok. subst.
    destruct rest; [done|]. destruct (sem_decided _ _ _ _ _ Hsem) as [Hc _]; [rewrite Eids; simpl; lia|].
    congruence.
  - apply validateDomain_ok, Hch.
  - pose proof (cc_duty _ _ _ _ _ _ _ _ _ _ Hch) as Hd. unfold validateQBFTMessageByDutyLogic, ssv_message in Hd.
    rewrite (cc_ssv _ _ _ _ _ _ _ _ _ _ Hch) in Hd. simpl mbind at 1 in Hd.
    apply bind_ok in Hd as (? & _ & Hd). apply bind_ok in Hd as (? & _ & Hd).
    apply bind_ok in Hd as ([] & Hd & _). exact Hd.
Qed.

Definition occurrences (idx : ValidatorIndex) (l : list PartialSignatureMessage) : Z :=
  Z.of_nat (length (filter (λ m, psm_ValidatorIndex m = idx) l)).

Lemma validator_index_loop_ok max counts l idx :
  validator_index_loop max counts l = Ok tt → default 0 (counts !! idx) ≤ max →
  default 0 (counts !! idx) + occurrences idx l ≤ max.
Proof.
  unfold occurrences. revert counts. induction l as [|m l IH]; intros counts Hok Hle; [simpl; lia|].
  cbn [validator_index_loop] in Hok. apply bind_ok in Hok as (? & Hc & Hok). inv_ok.
  rewrite filter_cons. specialize (IH _ Hok).
  destruct (decide (psm_ValidatorIndex m = idx)) as [<-|Hne].
  - rewrite lookup_insert_eq in IH. simpl in *. lia.
  - rewrite lookup_insert_ne in IH by done. by apply IH.
Qed.

(** How many entries a packet of a role may have, for a committee with so many validators;
    the bound of the other roles is that of [partial_semantics]. *)
Definition packet_bounded (netCfg : NetCfg) (role : RunnerRole) (validators entries : Z) : Prop :=
  (role = RoleSyncCommitteeContribution → entries ≤ 13) ∧
  (role = RoleCommittee →
     entries ≤ Z.min (2 *i validators) (validators +i (1 *i i64 (SyncCommitteeSize (n_Beacon netCfg))))) ∧
  (role = RoleAggregatorCommittee →
     entries ≤ Z.min (5 *i validators) (validators +i (4 *i i64 (SyncCommitteeSize (n_Beacon netCfg))))).
Lemma packet_size_ok mv role validators messages :
  validate_packet_size mv role validators messages = Ok tt →
  packet_bounded (mv_netCfg mv) role validators (Z.of_nat (length messages)).
Proof.
  unfold validate_packet_size. intros Hok. split_and!; intros ->.
  - change (committeeRole RoleSyncCommitteeContribution) with false in Hok. cbv iota in Hok.
    rewrite bool_decide_eq_true_2 in Hok by done. inv_ok. lia.
  - change (committeeRole RoleCommittee) with true in Hok. rewrite bool_decide_eq_false_2 in Hok by done.
    cbv zeta in Hok.
    apply bind_ok in Hok as (? & Hok & _). inv_ok. change (1 + 1) with 2 in *. exact Hok.
  - change (committeeRole RoleAggregatorCommittee) with true in Hok. rewrite bool_decide_eq_true_2 in Hok by done.
    cbv zeta in Hok.
    apply bind_ok in Hok as (? & Hok & _). inv_ok. change (4 + 1) with 5 in *. exact Hok.
Qed.

(** C12. What an accepted packet of partial signatures is: it has one signer, a known operator
    of the committee whose signature was verified, who signed every entry; its type is one
    of its role's and its role one of the fork at its slot; it has no full data; the number
    of its entries is bounded for every role: a validator's packet names only that validator
    and has no more entries than its type allows, 13 for sync committee contributions, and
    a committee's packet names no validator more than twice (five times for an aggregator
    committee), with no more entries in total than that allows for the validators of the
    committee and the members of a sync committee; and it arrived within its slot's time,
    topic and domain. *)
Theorem accepted_partial_sound mv ctx m topic from t st st' q msgs :
  ids_u64 m → handleSignedSSVMessage mv ctx m topic from t st = (st', Ok q) →
  q_Body q = PartialBody msgs →
  ∃ ssv ci signer, s_SSVMessage m = Some ssv ∧
    DecodePartialSignatureMessages (sv_Data ssv) = Ok msgs ∧
    getCommitteeAndValidatorIndices mv (sv_MsgID ssv) = Ok ci ∧ authentic mv m ssv ci ∧
    partial_semantics mv m ssv msgs (ci_validatorIndices ci) signer ∧
    (committeeRole (GetRoleType (sv_MsgID ssv)) = true → ∀ idx, occurrences idx (ps_Messages msgs) ≤
       if decide (GetRoleType (sv_MsgID ssv) = RoleAggregatorCommittee) then 5 else 2) ∧
    packet_bounded (mv_netCfg mv) (GetRoleType (sv_MsgID ssv)) (Z.of_nat (length (ci_validatorIndices ci)))
      (Z.of_nat (length (ps_Messages msgs))) ∧
    validateTopicAtSlot mv ci topic (ps_Slot msgs) = Ok tt ∧
    DomainTypeAtSlot (mv_netCfg mv) (ps_Slot msgs) = Ok (GetDomain (sv_MsgID ssv)) ∧
    validateSlotTime mv (ps_Slot msgs) (GetRoleType (sv_MsgID ssv)) t = Ok tt.
Proof.
  intros Hu Hrun Hbody.
  apply handleSigned_ok in Hrun as (ssv & ci & v & v' & _ & _ & [(? & Hb & _)|(msgs' & Hb & Hacc)]);
    rewrite Hbody in Hb; simplify_eq. destruct Hacc as (Henv & _ & [Hssv Hdec Htop Hdom Hsem Hduty Hsig] & _).
  apply (validatePartialSemantics_ok _ _ _ _ ssv) in Hsem; [|done].
  destruct Hsig as (ids & signature & sigs & Hids & Hsigs & Hver).
  exists ssv, ci, (first_signer m). split_and!; [done|done|apply Henv| |done| | |done|by apply validateDomain_ok|].
  - apply authentic_ok; [done..|]. intros k signer sig Hk Hsg.
    pose proof (psem_signer _ _ _ _ _ _ Hsem) as Hone. rewrite Hids in Hone, Hk. injection Hone as Hnil.
    rewrite Hnil in Hk. destruct k; simplify_eq/=. rewrite Hsigs in Hsg. by simplify_eq/=.
  - unfold validatePartialSigMessagesByDutyLogic, ssv_message in Hduty. rewrite Hssv, Hids in Hduty.
    simpl mbind at 1 in Hduty. do 9 apply bind_ok in Hduty as (? & _ & Hduty).
    intros Hc idx. unfold validate_packet_size in Hduty. rewrite Hc in Hduty.
    apply bind_ok in Hduty as (? & _ & Hduty).
    apply (validator_index_loop_ok _ _ _ idx) in Hduty; [|by case_bool_decide].
    rewrite lookup_empty in Hduty. simpl in Hduty.
    case_bool_decide; case_decide; try done; lia.
  - unfold validatePartialSigMessagesByDutyLogic, ssv_message in Hduty. rewrite Hssv, Hids in Hduty.
    simpl mbind at 1 in Hduty. do 9 apply bind_ok in Hduty as (? & _ & Hduty).
    by apply packet_size_ok in Hduty.
  - unfold validatePartialSigMessagesByDutyLogic, ssv_message in Hduty. rewrite Hssv, Hids in Hduty.
    simpl mbind at 1 in Hduty. do 7 apply bind_ok in Hduty as (? & _ & Hduty).
    apply bind_ok in Hduty as ([] & Hduty & _). apply Hduty.
Qed.
End props.
