(* ===== verification/ValTrace.v ===== *)
(** * Accepted at most once

    Runs of the validator: messages of any kind validated in any order against
    stores and clocks that change in between, and cache entries that expire.  A
    consensus message leaves a mark in its signer's state that refuses its
    duplicates for as long as the state is retained. *)

From stdpp Require Import base list gmap numbers strings sorting.
From Stdlib Require Import Strings.Byte.
From S2P Require Import Prelude Sha256 SpecTypes Quorum Network Proposer RoundTimer Subnets.
From S2P Require Import DutyStore Share ValState ValRules Validation ValFacts ValProps.
Open Scope list_scope.
Open Scope Z_scope.

(** A signer has sent a consensus message of this round and type, or moved on. *)
Definition already (round : Round) (t : MessageType) (ss : SignerStateForSlotRound) : Prop :=
  round < ss_Round ss ∨ round = ss_Round ss ∧ reached_idx (type_idx t) (seen_types ss) = true.

Definition marked (idx : nat) (slot : Slot) (round : Round) (t : MessageType) (cs : ValidatorState) : Prop :=
  ∃ ss, signer_at cs idx slot = Some ss ∧ already round t ss.

Lemma type_idx_nonneg t : 0 ≤ type_idx t.
Proof. by destruct t. Qed.

Lemma already_recorded round t ss ss' P : already round t ss → recorded ss ss' P → already round t ss'.
Proof.
  intros Ha [_ Hr Hg _]. unfold already in *. rewrite Hr. destruct Ha as [?|[? Ha]]; [by left|right].
  split; [done|]. by apply Hg; [apply type_idx_nonneg|].
Qed.

Lemma signer_at_other cs cs' idx idx' slot slot' epoch ss :
  updated cs cs' idx slot epoch ss → idx' ≠ idx → signer_at cs' idx' slot' = signer_at cs idx' slot'.
Proof.
  intros Hup Hne. unfold signer_at. rewrite (up_other _ _ _ _ _ _ Hup idx' Hne).
  by destruct (up_shape _ _ _ _ _ _ Hup) as (_ & -> & _).
Qed.

(** Updates at the mark's slot, or at slots of other ring entries, keep the mark. *)
Lemma marked_kept idx slot round t N slot' epoch new reuse :
  (slot' = slot ∨ slot' `mod` N ≠ slot `mod` N) →
  (∀ ss, already round t ss → already round t (reuse ss)) →
  kept_by slot' epoch new reuse (λ cs, vs_storedSlotCount cs = N ∧ marked idx slot round t cs).
Proof.
  intros Hslot Hreuse cs cs' idx' ss' P Hwf [HN (ss & Hss & Ha)] Hrec Hup.
  pose proof (up_shape _ _ _ _ _ _ Hup) as (_ & Hn & _). split; [congruence|].
  destruct (decide (idx' = idx)) as [->|Hne].
  - unfold marked. rewrite (up_signer _ _ _ _ _ _ Hup), HN. destruct (decide (slot = slot')) as [->|Hs].
    + exists ss'. split; [done|]. eapply already_recorded; [|done].
      unfold start_state. rewrite Hss. by apply Hreuse.
    + rewrite decide_False by (destruct Hslot; congruence). eauto.
  - exists ss. split; [|done]. by rewrite (signer_at_other _ _ _ _ _ _ _ _ Hup) by done.
Qed.

Lemma already_reset round t slot' round' ss :
  already round t ss → already round t (if ss_Round ss <? round' then Reset slot' round' ss else ss).
Proof.
  intros Ha. destruct (Z.ltb_spec (ss_Round ss) round'); [|done]. left. simpl.
  destruct Ha as [?|[? _]]; lia.
Qed.

Section trace.
Context `{ValLib, SpecLib, Eth2Client}.

(** Accepting a message of one signer leaves its mark. *)
Lemma accepted_marks mv ctx topic from t st st' m ssv msg ci v v' signer :
  cfg_ok mv → states_wf st → consensus_accepted mv ctx topic from t st st' m ssv msg ci v v' →
  s_OperatorIDs m = [signer] →
  marked (signerIndex ci signer) (m_Height msg) (m_Round msg) (m_MsgType msg) v'.
Proof.
  intros Hcfg Hst (Henv & _ & Hch & st1 & Hv & Hu & ->) Hone.
  destruct (validatorState_spec _ _ _ _ _ _ Hcfg Hst Hv) as (Hwf1 & Hl & _).
  pose proof (Hwf1 _ _ Hl) as Hwf. simpl in Hwf.
  pose proof (validateConsensusMessageSemantics_ok _ _ _ _ _ (cc_ssv _ _ _ _ _ _ _ _ _ _ Hch)
    (cc_sem _ _ _ _ _ _ _ _ _ _ Hch)) as Hsem.
  pose proof (sem_type _ _ _ _ _ Hsem) as Hvt.
  unfold updateConsensusState, mbind, st_bind, st_lift in Hu. rewrite Hone in Hu.
  destruct (net _) as [epoch| |]; [|done..]. cbn [for_signers] in Hu. unfold mbind, st_bind in Hu.
  set (slot := m_Height msg) in *. set (round := m_Round msg) in *.
  set (idx := signerIndex ci signer) in *.
  destruct (with_signer_state_cases v idx slot epoch (newSignerState slot round)
    (λ ss, if ss_Round ss <? round then Reset slot round ss else ss) (processSignerState m msg from))
    as [Heq|(cs' & Heq & Hup)]; [done|done| | | |].
  - intros ss Hss. by destruct (_ <? _).
  - intros ss. by apply process_slot.
  - by rewrite Heq in Hu.
  - rewrite Heq in Hu. destruct (processSignerState_spec m msg from (start_state v idx slot
      (newSignerState slot round) (λ ss, if ss_Round ss <? round then Reset slot round ss else ss)) Hvt)
      as (ss' & Hp & [_ Hr _ Hbit]). rewrite Hp in *. cbn [fst snd] in *. injection Hu as <-.
    exists ss'. rewrite (up_signer _ _ _ _ _ _ Hup), decide_True by done. split; [done|].
    unfold already. rewrite Hr. assert (round ≤ ss_Round (start_state v idx slot (newSignerState slot round)
      (λ ss, if ss_Round ss <? round then Reset slot round ss else ss))) as Hle.
    { unfold start_state. destruct (signer_at v idx slot) as [ss|]; [|done].
      destruct (Z.ltb_spec (ss_Round ss) round); simpl; lia. }
    destruct (decide (round = ss_Round (start_state v idx slot (newSignerState slot round)
      (λ ss, if ss_Round ss <? round then Reset slot round ss else ss)))) as [He|Hne]; [right|left].
    + split; [done|]. apply Hbit. by rewrite Hone.
    + lia.
Qed.

(** A marked duplicate is refused. *)
Lemma marked_refused mv m msg ci from v signer :
  vs_wf v → s_OperatorIDs m = [signer] →
  marked (signerIndex ci signer) (m_Height msg) (m_Round msg) (m_MsgType msg) v →
  is_ok (validateQBFTLogic mv m msg ci from v) = false.
Proof.
  intros Hwf Hone (ss & Hss & Ha). destruct (validateQBFTLogic _ _ _ _ _ _) as [u| |] eqn:E; [|done..].
  exfalso. unfold validateQBFTLogic in E. apply bind_ok in E as (_ & _ & E). rewrite Hone in E.
  pose proof (proj1 (for_each_ok _ _ _) E signer ltac:(by left)) as Hs.
  assert (signerIndex ci signer < length (vs_operators v))%nat as Hidx.
  { unfold signer_at in Hss. destruct (vs_operators v !! _) eqn:El; [|done]. by apply lookup_lt_Some in El. }
  pose proof (peek_signer v (signerIndex ci signer) (m_Height msg) Hwf Hidx) as Hp.
  apply bind_ok in Hp as (o & Ho & Hg). cbv beta in Hs. rewrite Ho in Hs. simpl in Hs.
  rewrite Hg, Hss in Hs. simpl in Hs.
  unfold validate_signer_state in Hs. rewrite Hone in Hs. simpl in Hs.
  apply bind_ok in Hs as (? & Hr & Hs). inv_ok. destruct Ha as [?|[Hr' Hb]]; [lia|].
  rewrite Hr', Z.eqb_refl in Hs. apply bind_ok in Hs as (? & _ & Hs).
  unfold validateConsensusMessageLimit in Hs. rewrite Hone in Hs. unfold seen_types in Hb.
  destruct (m_MsgType msg); simpl in *; try done;
    apply bind_ok in Hs as (? & _ & Hs); rewrite Hb in Hs; done.
Qed.

(** ** Every validation keeps the states well formed *)
Lemma outcome_wf {A : Type} mv ci key st st' (r : vres A) (checks : ValidatorState → A → Prop) upd :
  cfg_ok mv → states_wf st → (∀ v a, vs_wf v → checks v a → vs_wf (upd a v).1) →
  outcome mv ci key st st' r checks upd → states_wf st'.
Proof.
  intros Hcfg Hst Hupd [[-> _]|(v & st1 & Hv & Hcase)]; [done|].
  destruct (validatorState_spec _ _ _ _ _ _ Hcfg Hst Hv) as (Hwf1 & Hl & _).
  destruct Hcase as [[-> _]|(a & v' & res & Hch & Hu & -> & _)]; [done|].
  apply map_Forall_insert_2; [|done]. specialize (Hupd v a (Hwf1 _ _ Hl) Hch). by rewrite Hu in Hupd.
Qed.

Lemma handlePubsub_wf mv ctx pm t st st' r :
  cfg_ok mv → states_wf st → handlePubsubMessage mv ctx pm t st = (st', r) → states_wf st'.
Proof.
  intros Hcfg Hst Hrun. apply handlePubsub_cases in Hrun as [[-> _]|(m & _ & Hrun)]; [done|].
  apply handleSigned_cases in Hrun as [[-> _]|(ssv & ci & Henv & Hbody)]; [done|].
  destruct Hbody as [(_ & r0 & Hrun & _)|(_ & r0 & Hrun & _)].
  - eapply outcome_wf; [done|done| |by eapply validateConsensusMessage_outcome; [apply Henv|]].
    intros v msg Hwf Hch. apply (updateConsensusState_kept mv m msg ci _ v (λ _, True)); [|done..].
    eapply sem_type, validateConsensusMessageSemantics_ok; apply Hch.
  - eapply outcome_wf; [done|done| |by eapply validatePartial_outcome; [apply Henv|]].
    intros v msg Hwf Hch. apply (updatePartial_kept mv msg _ _ ci v (λ _, True)); [|done..].
    eapply psem_type, validatePartialSemantics_ok; apply Hch.
Qed.

(** A validation either left no trace or accepted a message. *)
Lemma Validate_cases mv ctx peer pm st st' out :
  cfg_ok mv → states_wf st → Validate mv ctx peer pm st = (st', Ok out) →
  states_wf st' ∧
  (untouched mv (message_id pm) st st' ∨
   ∃ m q, out = (ValidationAccept, Some q) ∧ DecodeSignedSSVMessage (pb_Data pm) = Ok m ∧
     handleSignedSSVMessage mv ctx m (pb_Topic pm) (pb_ReceivedFrom pm) (mv_now mv) st = (st', Ok q)).
Proof.
  intros Hcfg Hst Hrun. unfold Validate in Hrun. destruct (_ && _).
  { injection Hrun as <- _. split; [done|]. left. intros key. by left. }
  destruct (ctx cpValidate). { simplify_eq. split; [done|]. left. intros key. by left. }
  destruct (handlePubsubMessage _ _ _ _ _) as [st1 [q|e|]] eqn:E; simplify_eq.
  - split; [by eapply handlePubsub_wf|]. right. unfold handlePubsubMessage in E.
    next_check E u0 E0; [|done]. next_check E u1 E1; [|done]. next_check E m E2; [|done].
    exists m, q. split; [done|]. split; [|done].
    unfold decodeSignedSSVMessage in E2. by destruct (DecodeSignedSSVMessage _); simplify_eq.
  - split; [by eapply handlePubsub_wf|]. left. by eapply handlePubsub_err.
Qed.

Lemma updated_shape mv ctx topic from t st st' m ssv msg ci v v' :
  vs_wf v → consensus_accepted mv ctx topic from t st st' m ssv msg ci v v' → same_shape v v'.
Proof.
  intros Hwf (_ & _ & Hch & _ & _ & Hu & _).
  destruct (updateConsensusState_kept mv m msg ci from v (λ _, True)) as (_ & _ & Hs & _); [|done..|].
  - eapply sem_type, validateConsensusMessageSemantics_ok; apply Hch.
  - by rewrite Hu in Hs.
Qed.

Definition body_slot (b : Body) : Slot :=
  match b with ConsensusBody m => m_Height m | PartialBody m => ps_Slot m | EventBody _ => 0 end.

(** The entry of [key] after a validation, when its committee has not changed: a
    property kept by the updates at the accepted slot is kept. *)
Lemma entry_kept mv ctx peer pm st st' out key v K :
  cfg_ok mv → states_wf st → Validate mv ctx peer pm st = (st', Ok out) →
  st !! key = Some v → K v →
  (∀ ci, getCommitteeAndValidatorIndices mv key = Ok ci → ci_committeeID ci = vs_committeeID v) →
  (∀ q, out.2 = Some q → sv_MsgID (q_SSVMessage q) = key → ∀ epoch round,
     kept_by (body_slot (q_Body q)) epoch (newSignerState (body_slot (q_Body q)) round)
       (λ ss, if ss_Round ss <? round then Reset (body_slot (q_Body q)) round ss else ss) K ∧
     kept_by (body_slot (q_Body q)) epoch (newSignerState (body_slot (q_Body q)) FirstRound)
       (λ ss, ss) K) →
  states_wf st' ∧ ∃ v', st' !! key = Some v' ∧ K v' ∧ vs_committeeID v' = vs_committeeID v.
Proof.
  intros Hcfg Hst Hrun Hl HK Hcom Hkept.
  destruct (Validate_cases _ _ _ _ _ _ _ Hcfg Hst Hrun) as [Hwf' [Hun|(m & q & -> & _ & Hh)]];
    (split; [done|]).
  { destruct (Hun key) as [->|(_ & v' & ci & _ & _ & Hci & _ & Hc)]; [by exists v|].
    destruct (Hc v Hl). by rewrite (Hcom ci Hci). }
  apply handleSigned_ok in Hh as (ssv & ci & w & w' & _ & Hq & Hacc). subst ssv.
  assert (∃ st1, validatorState mv (sv_MsgID (q_SSVMessage q)) ci st = (st1, Ok w) ∧
    st' = <[sv_MsgID (q_SSVMessage q) := w']> st1 ∧ envelope_checks mv m (q_SSVMessage q) ci ∧
    (sv_MsgID (q_SSVMessage q) = key → vs_wf w → K w → K w' ∧ same_shape w w'))
    as (st1 & Hv & -> & Henv & HKw).
  { destruct Hacc as [(msg & Hb & Henv & _ & Hch & st1 & Hv & Hu & ->)|
                      (msg & Hb & Henv & _ & Hch & st1 & Hv & Hu & ->)];
      exists st1; (split_and!; [done..|]); intros Hkey Hww HKw;
      pose proof (λ epoch round, Hkept q eq_refl Hkey epoch round) as Hk; rewrite Hb in Hk; simpl in Hk.
    - destruct (updateConsensusState_kept mv m msg ci (pb_ReceivedFrom pm) w K) as (_ & _ & Hs & HK');
        [|done|done|intros epoch _; apply Hk|by rewrite Hu in Hs, HK'].
      eapply sem_type, validateConsensusMessageSemantics_ok; apply Hch.
    - destruct (updatePartial_kept mv msg (pb_ReceivedFrom pm) (first_signer m) ci w K)
        as (_ & _ & Hs & HK'); [|done|done|intros epoch _; apply (Hk epoch 0)|by rewrite Hu in Hs, HK'].
      eapply psem_type, validatePartialSemantics_ok; apply Hch. }
  destruct (validatorState_spec _ _ _ _ _ _ Hcfg Hst Hv) as (Hwf1 & Hl1 & Hother & Hc1 & Hcase).
  destruct (decide (sv_MsgID (q_SSVMessage q) = key)) as [Hk|Hne].
  - subst key. rewrite lookup_insert_eq. exists w'. split; [done|].
    assert (w = v) as ->.
    { destruct Hcase as [->|(_ & _ & Hc0)]; [congruence|]. destruct (Hc0 v Hl).
      by rewrite (Hcom ci (ec_committee _ _ _ _ Henv)). }
    destruct (HKw eq_refl (Hwf1 _ _ Hl1) HK) as [HK' Hs]. split; [done|]. apply Hs.
  - rewrite lookup_insert_ne by done. rewrite Hother by done. by exists v.
Qed.

(** ** Runs that retain a slot's state

    [retains key cid slot N st st']: from [st] to [st'], any validations, with any
    stores, clocks, peers and contexts, and any expiry of other entries, where the
    committee of [key] stays [cid] and no message of [key] is accepted for another slot
    of the same entry of a ring of [N] slots. *)
Inductive retains (key cid : bytes) (slot : Slot) (N : Z) : States → States → Prop :=
| retains_refl st : retains key cid slot N st st
| retains_message mv ctx peer pm out st st1 st2 :
    cfg_ok mv → Validate mv ctx peer pm st = (st1, Ok out) →
    (∀ ci, getCommitteeAndValidatorIndices mv key = Ok ci → ci_committeeID ci = cid) →
    (∀ q, out.2 = Some q → sv_MsgID (q_SSVMessage q) = key →
       body_slot (q_Body q) = slot ∨ body_slot (q_Body q) `mod` N ≠ slot `mod` N) →
    retains key cid slot N st1 st2 → retains key cid slot N st st2
| retains_expire key' st st2 :
    key' ≠ key → retains key cid slot N (delete key' st) st2 → retains key cid slot N st st2.

Lemma retains_marked key cid slot N st st' idx round t :
  retains key cid slot N st st' → states_wf st →
  (∃ v, st !! key = Some v ∧ vs_committeeID v = cid ∧ vs_storedSlotCount v = N ∧
        marked idx slot round t v) →
  states_wf st' ∧ ∃ v, st' !! key = Some v ∧ vs_committeeID v = cid ∧ marked idx slot round t v.
Proof.
  induction 1 as [st|mv ctx peer pm out st st1 st2 Hcfg Hrun Hcom Hslot _ IH|key' st st2 Hne _ IH];
    intros Hst (v & Hl & Hc & HN & Hm).
  - split; [done|]. by exists v.
  - destruct (entry_kept mv ctx peer pm st st1 out key v
      (λ cs, vs_storedSlotCount cs = N ∧ marked idx slot round t cs)) as (Hst1 & v' & Hl' & [HN' Hm'] & Hc');
      [done|done|done|done|done|by rewrite Hc| |].
    { intros q Hq Hk epoch round'. split; apply marked_kept; auto using already_reset. }
    apply IH; [done|]. exists v'. split_and!; congruence || done.
  - apply IH; [by apply map_Forall_delete|]. exists v. by rewrite lookup_delete_ne.
Qed.

Lemma committee_info_index mv key ci :
  getCommitteeAndValidatorIndices mv key = Ok ci →
  ci_signerIndices ci = ci_signerIndices (newCommitteeInfo [] (ci_committee ci) [] 0 0).
Proof.
  unfold getCommitteeAndValidatorIndices. intros Hci. destruct (committeeRole _).
  - apply bind_ok in Hci as (cid & _ & Hci). destruct (mv_Committee mv cid); [|done]. by inv_ok.
  - destruct (mv_Validator mv _); [|done]. by inv_ok.
Qed.

Lemma committee_info_signerIndex mv mv' key ci ci' signer :
  getCommitteeAndValidatorIndices mv key = Ok ci → getCommitteeAndValidatorIndices mv' key = Ok ci' →
  ci_committee ci = ci_committee ci' → signerIndex ci signer = signerIndex ci' signer.
Proof.
  intros Hi%committee_info_index Hi'%committee_info_index Hc. unfold signerIndex.
  by rewrite Hi, Hi', Hc.
Qed.

Definition fixed_committee (mv : Env) (key cid : bytes) (committee : list OperatorID) : Prop :=
  ∀ ci, getCommitteeAndValidatorIndices mv key = Ok ci →
    ci_committeeID ci = cid ∧ ci_committee ci = committee.

(** The data of a gossip message is a consensus message of one signer. *)
Definition single_consensus (data : bytes) (key : bytes) (signer : OperatorID) (slot : Slot)
    (round : Round) (t : MessageType) : Prop :=
  ∃ m ssv msg, DecodeSignedSSVMessage data = Ok m ∧ s_OperatorIDs m = [signer] ∧
    s_SSVMessage m = Some ssv ∧ sv_MsgID ssv = key ∧ sv_MsgType ssv = SSVConsensusMsgType ∧
    DecodeMessage (sv_Data ssv) = Ok msg ∧ m_Height msg = slot ∧ m_Round msg = round ∧
    m_MsgType msg = t.

Lemma single_accepted mv ctx peer pm st st' data key signer slot round t :
  cfg_ok mv → states_wf st → mv_selfAccept mv = false →
  Validate mv ctx peer pm st = (st', Ok (ValidationAccept, data)) →
  single_consensus (pb_Data pm) key signer slot round t →
  ∃ m ssv msg ci v v', s_OperatorIDs m = [signer] ∧ sv_MsgID ssv = key ∧ m_Height msg = slot ∧
    m_Round msg = round ∧ m_MsgType msg = t ∧
    consensus_accepted mv ctx (pb_Topic pm) (pb_ReceivedFrom pm) (mv_now mv) st st' m ssv msg ci v v'.
Proof.
  intros Hcfg Hst Hself Hrun (m & ssv & msg & Hd & Hone & Hssv & Hk & Hty & Hdec & <- & <- & <-).
  unfold Validate in Hrun. rewrite Hself in Hrun. simpl in Hrun.
  destruct (ctx cpValidate) as [e|]; [by unfold handleValidationError in Hrun; destruct (classifyDiscard e)|].
  destruct (handlePubsubMessage _ _ _ _ _) as [? [q|e|]] eqn:E; simplify_eq;
    [|by unfold handleValidationError in *; destruct (classifyDiscard e)].
  unfold handlePubsubMessage in E.
  next_check E u0 E0; [|done]. next_check E u1 E1; [|done]. next_check E m' E2; [|done].
  unfold decodeSignedSSVMessage in E2. rewrite Hd in E2. injection E2 as <-.
  apply handleSigned_ok in E as (ssv' & ci & v & v' & _ & _ & Hacc).
  destruct Hacc as [(msg' & _ & Hacc)|(msgs & _ & Henv & Hty' & _)].
  - pose proof Hacc as (Henv & _ & Hch & _). pose proof (ec_ssv _ _ _ _ Henv) as Hs.
    rewrite Hssv in Hs. injection Hs as <-. pose proof (cc_decode _ _ _ _ _ _ _ _ _ _ Hch) as Hm.
    rewrite Hdec in Hm. injection Hm as <-. by exists m, ssv, msg, ci, v, v'.
  - pose proof (ec_ssv _ _ _ _ Henv) as Hs. rewrite Hssv in Hs. injection Hs as <-. congruence.
Qed.

(** C9. A consensus message is accepted at most once: after a message of one signer was
    accepted, whatever else is validated afterwards, with whatever stores, clocks and peers,
    every message of that signer for the same identifier, slot, round and type is refused,
    for as long as the identifier's state has neither expired nor changed committee and no
    slot of the same ring entry was accepted since. *)
Theorem no_duplicate_consensus key cid committee signer slot round t N
    mv1 ctx1 peer1 pm1 st0 st1 data1 st2 mv2 ctx2 peer2 pm2 st3 verdict data2 :
  cfg_ok mv1 → states_wf st0 → mv_selfAccept mv1 = false → fixed_committee mv1 key cid committee →
  single_consensus (pb_Data pm1) key signer slot round t →
  Validate mv1 ctx1 peer1 pm1 st0 = (st1, Ok (ValidationAccept, data1)) →
  (∀ v, st1 !! key = Some v → vs_storedSlotCount v = N) →
  retains key cid slot N st1 st2 →
  cfg_ok mv2 → mv_selfAccept mv2 = false → fixed_committee mv2 key cid committee →
  single_consensus (pb_Data pm2) key signer slot round t →
  Validate mv2 ctx2 peer2 pm2 st2 = (st3, Ok (verdict, data2)) → verdict ≠ ValidationAccept.
Proof.
  intros Hcfg1 Hst0 Hself1 Hcom1 Hc1 Hrun1 HN Hret Hcfg2 Hself2 Hcom2 Hc2 Hrun2 ->.
  destruct (single_accepted _ _ _ _ _ _ _ _ _ _ _ _ Hcfg1 Hst0 Hself1 Hrun1 Hc1)
    as (m & ssv & msg & ci & v & v' & Hone & <- & <- & <- & <- & Hacc).
  pose proof (accepted_marks _ _ _ _ _ _ _ _ _ _ _ _ _ signer Hcfg1 Hst0 Hacc Hone) as Hmark.
  pose proof Hacc as (Henv & _ & _ & sta & Hva & Hu & Hst1).
  pose proof (ec_committee _ _ _ _ Henv) as Hci. destruct (Hcom1 ci Hci) as [Hcid Hcm].
  destruct (validatorState_spec _ _ _ _ _ _ Hcfg1 Hst0 Hva) as (Hwfa & Hla & _ & Hca & _).
  destruct (updated_shape mv1 ctx1 _ _ _ _ _ _ _ _ _ _ _ (Hwfa _ _ Hla) Hacc) as [Hcv _].
  destruct (Validate_cases _ _ _ _ _ _ _ Hcfg1 Hst0 Hrun1) as [Hwf1 _].
  assert (st1 !! sv_MsgID ssv = Some v') as Hl1 by (rewrite Hst1; apply lookup_insert_eq).
  destruct (retains_marked _ _ _ _ _ _ (signerIndex ci signer) (m_Round msg) (m_MsgType msg) Hret Hwf1) as (Hwf2 & w & Hlw & Hcw & Hmw).
  { exists v'. split_and!; [done|congruence|by apply HN|exact Hmark]. }
  destruct (single_accepted _ _ _ _ _ _ _ _ _ _ _ _ Hcfg2 Hwf2 Hself2 Hrun2 Hc2)
    as (m2 & ssv2 & msg2 & ci2 & w1 & w2 & Hone2 & Hk2 & Hh2 & Hr2 & Ht2 & Henv2 & _ & Hch2 & stb & Hvb & _).
  pose proof (ec_committee _ _ _ _ Henv2) as Hci2. rewrite Hk2 in *. destruct (Hcom2 ci2 Hci2) as [Hcid2 Hcm2].
  destruct (validatorState_spec _ _ _ _ _ _ Hcfg2 Hwf2 Hvb) as (Hwfb & Hlb & _ & _ & Hcase).
  assert (w1 = w) as ->.
  { destruct Hcase as [->|(_ & _ & Hno)]; [congruence|]. destruct (Hno w Hlw). congruence. }
  assert (is_ok (validateQBFTLogic mv2 m2 msg2 ci2 (pb_ReceivedFrom pm2) w) = false) as Hno.
  { apply (marked_refused _ _ _ _ _ _ signer); [by apply (Hwf2 _ _ Hlw)|done|].
    rewrite Hh2, Hr2, Ht2, (committee_info_signerIndex _ _ _ _ _ signer Hci2 Hci) by congruence. done. }
  by rewrite (cc_logic _ _ _ _ _ _ _ _ _ _ Hch2) in Hno.
Qed.
End trace.
