(* ===== verification/ValWindow.v ===== *)
(** * Time windows of message validation

    Which slots are acceptable at a time, how that compares with the number of
    slots the signer states retain, which roles exist at a slot, and how long the
    topics of pre-fork messages stay open. *)

From stdpp Require Import base list gmap numbers strings sorting.
From Stdlib Require Import Strings.Byte.
From S2P Require Import Prelude Sha256 SpecTypes Quorum Network Proposer RoundTimer Subnets.
From S2P Require Import DutyStore Share ValState ValRules Validation ValFacts ValProps.
Open Scope list_scope.
Open Scope Z_scope.

Section window.
Context `{ValLib, SpecLib, Eth2Client} (mv : Env).
Abbreviation beacon := (n_Beacon (mv_netCfg mv)).
Abbreviation spe := (SlotsPerEpoch (n_Beacon (mv_netCfg mv))).
Abbreviation dur := (SlotDuration (n_Beacon (mv_netCfg mv))).

Definition slot_start (slot : Slot) : Time := GenesisTime beacon + slot * dur.

(** The clock's range holds the slot and the slots until it is late. *)
Definition clock_fits (slot : Slot) : Prop :=
  0 < spe ∧ 0 < dur ∧ 0 ≤ slot ∧ (slot + spe + 3) * dur ≤ max_i64.

(** The slot at whose start messages of a slot are first expected. *)
Definition expected_slot (role : RunnerRole) (slot : Slot) : Slot :=
  if decide (role = RoleProposerPreferences) then Z.max 0 (slot / spe - 1) * spe else slot.

Lemma SlotStartTime_start slot :
  0 < dur → 0 ≤ slot → slot * dur ≤ max_i64 → SlotStartTime beacon slot = Ok (slot_start slot).
Proof. intros Hd Hs Hm. change (SlotStartTime beacon slot) with (TimeAtSlot beacon slot). by apply TimeAtSlot_exact. Qed.

Lemma time_Sub_gt a b th : - 2 ^ 63 ≤ th < max_i64 → th < time_Sub a b ↔ th < a - b.
Proof. unfold time_Sub, max_i64. lia. Qed.

Lemma clock_fits_u64 slot k : clock_fits slot → 0 ≤ k ≤ slot + spe + 3 → is_u64 k ∧ k * dur ≤ max_i64.
Proof.
  intros (Hs & Hd & Hz & Hm) Hk. unfold is_u64, max_u64, max_i64 in *. nia.
Qed.

Lemma expected_slot_bounds role slot :
  0 < spe → 0 ≤ slot → 0 ≤ expected_slot role slot ≤ slot.
Proof.
  intros Hs Hz. unfold expected_slot. destruct (decide _); [|lia].
  pose proof (Z.div_mod slot spe ltac:(lia)). pose proof (Z.mod_pos_bound slot spe Hs).
  pose proof (Z.div_pos slot spe Hz Hs). nia.
Qed.

Lemma messageEarliness_eq slot role t :
  clock_fits slot →
  messageEarliness mv slot role t = Ok (time_Sub (slot_start (expected_slot role slot)) t).
Proof.
  intros Hc. pose proof Hc as (Hs & Hd & Hz & Hm). unfold messageEarliness.
  rewrite SlotStartTime_start by (done || nia). simpl mbind at 1.
  unfold expected_slot. case_bool_decide as Hr; [|by rewrite decide_False].
  rewrite decide_True by done. rewrite EstimatedEpochAtSlot_eq by done. simpl mbind.
  pose proof (Z.div_pos slot spe Hz Hs).
  pose proof (expected_slot_bounds role slot Hs Hz) as Hb. unfold expected_slot in Hb.
  rewrite decide_True in Hb by done.
  assert ((if 2 - 1 <=? slot / spe then (slot / spe) -u (2 - 1) else 0) = Z.max 0 (slot / spe - 1)) as ->.
  { destruct (Z.leb_spec (2 - 1) (slot / spe)); [|lia]. rewrite u64_small; [lia|].
    assert (slot / spe ≤ slot) by (apply Z.div_le_upper_bound; nia).
    destruct (clock_fits_u64 slot slot Hc ltac:(lia)) as [Hu _]. unfold is_u64 in *. lia. }
  destruct (clock_fits_u64 slot (Z.max 0 (slot / spe - 1) * spe) Hc ltac:(lia)) as [Hu Hf].
  rewrite FirstSlotAtEpoch_exact by (unfold is_u64 in Hu; lia).
  by rewrite SlotStartTime_start by (done || lia).
Qed.

Lemma lateness_ttl_bound role ttl : 0 < spe → spe + 3 ≤ max_u64 → lateness_ttl mv role = Some ttl →
  0 ≤ ttl ≤ spe + 2.
Proof.
  intros Hs Hm. unfold lateness_ttl, maxStoredSlots.
  rewrite u64_small by (unfold is_u64; lia). destruct role; intros [= <-]; lia.
Qed.

Lemma messageLateness_eq slot role t :
  clock_fits slot →
  messageLateness mv slot role t =
    Ok match lateness_ttl mv role with
       | None => 0
       | Some ttl => time_Sub t (slot_start (slot + ttl) + lateMessageMargin)
       end.
Proof.
  intros Hc. pose proof Hc as (Hs & Hd & Hz & Hm). unfold messageLateness.
  destruct (lateness_ttl mv role) as [ttl|] eqn:E; [|done].
  destruct (clock_fits_u64 slot (slot + spe + 3) Hc ltac:(lia)) as [Hu _].
  apply lateness_ttl_bound in E; [|done|unfold is_u64 in Hu; lia].
  destruct (clock_fits_u64 slot (slot + ttl) Hc ltac:(lia)) as [Hu' Hf].
  rewrite u64_small by done. by rewrite SlotStartTime_start by (done || lia).
Qed.

Lemma validateSlotTime_iff slot role t :
  clock_fits slot →
  validateSlotTime mv slot role t = Ok tt ↔
  slot_start (expected_slot role slot) - t ≤ 1050000000 ∧
  (∀ ttl, lateness_ttl mv role = Some ttl → t - slot_start (slot + ttl) ≤ 3050000000).
Proof.
  intros Hc. unfold validateSlotTime. rewrite messageEarliness_eq, messageLateness_eq by done.
  simpl mbind at 1. unfold Second.
  assert (∀ (b : bool) (e : verror) (k : vres unit), (fail_if b e ;; k) = Ok tt ↔ b = false ∧ k = Ok tt) as Hf.
  { intros [] e k; simpl; naive_solver. }
  rewrite Hf. simpl mbind. rewrite fail_if_ok, !Z.ltb_ge.
  assert (∀ a b th, - 2 ^ 63 ≤ th < max_i64 → time_Sub a b ≤ th ↔ a - b ≤ th) as Hsub.
  { intros a b th Hth. pose proof (time_Sub_gt a b th Hth). lia. }
  rewrite Hsub by (unfold max_i64; lia).
  destruct (lateness_ttl mv role) as [ttl|].
  - rewrite Hsub by (unfold max_i64; lia). split; intros [? Hl]; (split; [lia|]).
    + intros ? [= <-]. lia.
    + specialize (Hl ttl eq_refl). lia.
  - split; intros [? _]; (split; [lia|]); [done|lia].
Qed.

(** When a slot is acceptable: a message of a slot is within its time exactly from 1.05
    seconds before the slot starts (for proposer preferences, before the previous epoch
    starts) until 3.05 seconds after its last slot: an epoch and two slots later for
    committees and aggregators, three slots for proposals, payload attestations and sync
    contributions, two for preferences, and without end for registrations and exits. *)
Theorem slot_time_window slot role t :
  clock_fits slot →
  validateSlotTime mv slot role t = Ok tt ↔
  slot_start (expected_slot role slot) - t ≤ 1050000000 ∧
  match role with
  | RoleCommittee | RoleAggregatorCommittee | RoleAggregator =>
      t ≤ slot_start (slot + spe + 2) + 3050000000
  | RoleProposer | RolePTCAttester | RoleSyncCommitteeContribution =>
      t ≤ slot_start (slot + 3) + 3050000000
  | RoleProposerPreferences => t ≤ slot_start (slot + 2) + 3050000000
  | _ => True
  end.
Proof.
  intros Hc. rewrite validateSlotTime_iff by done. apply and_iff_compat_l.
  destruct (clock_fits_u64 slot (slot + spe + 3) Hc) as [Hu _]; [destruct Hc; lia|].
  assert (maxStoredSlots mv = spe + 2) as Hmax.
  { unfold maxStoredSlots. apply u64_small. destruct Hc as (? & ? & ? & _).
    unfold is_u64 in *. lia. }
  unfold slot_start, lateness_ttl. rewrite Hmax.
  destruct role; (split; [intros Hl; try done; specialize (Hl _ eq_refl); lia|
    intros Hl ttl; intros [= <-]; lia]) || (split; [done|intros _ ttl ?; done]).
Qed.

(** ** The window and the ring of slots *)
Lemma expected_slot_near role slot :
  0 < spe → 0 ≤ slot →
  slot ≤ expected_slot role slot + (if decide (role = RoleProposerPreferences) then 2 * spe - 1 else 0).
Proof.
  intros Hs Hz. unfold expected_slot. destruct (decide _); [|lia].
  pose proof (Z.div_mod slot spe ltac:(lia)). pose proof (Z.mod_pos_bound slot spe Hs). nia.
Qed.

Lemma same_entry_apart a b n : 0 < n → a `mod` n = b `mod` n → b < a → b + n ≤ a.
Proof.
  intros Hn Hm Hlt. pose proof (Z.div_mod a n ltac:(lia)). pose proof (Z.div_mod b n ltac:(lia)).
  assert (b / n < a / n) by (apply (Zmult_lt_reg_r _ _ n); lia). nia.
Qed.

(** C22. A ring entry is not taken from a slot that is still acceptable: when two slots of one
    entry of a signer's ring are acceptable at two times, the one acceptable later is the
    later slot.  This holds for every role whose messages expire except those with an epoch
    to spare, for epochs of two slots or more and slots longer than 4.1 seconds. *)
Theorem ring_keeps_acceptable_slots role a b ta tb :
  role ≠ RoleCommittee → role ≠ RoleAggregatorCommittee → role ≠ RoleAggregator →
  is_Some (lateness_ttl mv role) →
  2 ≤ spe → 2 * spe + 3 ≤ max_u64 → 4100000000 < dur → clock_fits a → clock_fits b →
  a `mod` storedSlotCount mv role = b `mod` storedSlotCount mv role → a ≠ b →
  validateSlotTime mv a role ta = Ok tt → validateSlotTime mv b role tb = Ok tt → ta ≤ tb →
  a < b.
Proof.
  intros Hc1 Hc2 Hc3 [ttl Httl] Hspe Hmax Hdur Ha Hb Hentry Hne Hta Htb Hle.
  apply validateSlotTime_iff in Hta as [Hta _]; [|done].
  apply validateSlotTime_iff in Htb as [_ Htb]; [|done].
  specialize (Htb ttl Httl). unfold slot_start in *.
  pose proof (expected_slot_near role a ltac:(lia) ltac:(apply Ha)) as Hnear.
  destruct (Z.lt_trichotomy a b) as [?|[?|Hlt]]; [done..|]. exfalso.
  assert (expected_slot role a ≤ b + ttl) as Hexp by nia.
  assert (storedSlotCount mv role = if decide (role = RoleProposerPreferences) then 2 * spe + 3 else spe + 2) as Hn.
  { unfold storedSlotCount, maxStoredSlots.
    destruct (decide _) as [->|?]; [rewrite bool_decide_true by done|rewrite bool_decide_false by done];
      rewrite ?(u64_small (2 * spe)), ?(u64_small (2 * spe + 2)), u64_small by (unfold is_u64; lia); lia. }
  rewrite Hn in Hentry. apply same_entry_apart in Hentry; [|destruct (decide _); lia|done].
  unfold lateness_ttl in Httl. destruct (decide _) as [->|Hp].
  - injection Httl as <-. lia.
  - destruct role; simplify_eq; lia.
Qed.

(** C34. For the roles with an epoch to spare the ring is one slot short: a slot and the slot
    an epoch and two slots later share their entry although both are acceptable at the start
    of the later one, so a message of the later slot evicts a state whose slot still
    accepts messages. *)
Theorem committee_ring_collides role slot :
  role = RoleCommittee ∨ role = RoleAggregatorCommittee ∨ role = RoleAggregator →
  clock_fits (slot + spe + 2) → 0 ≤ slot →
  let later := slot + storedSlotCount mv role in
  slot < later ∧ later `mod` storedSlotCount mv role = slot `mod` storedSlotCount mv role ∧
  validateSlotTime mv slot role (slot_start later) = Ok tt ∧
  validateSlotTime mv later role (slot_start later) = Ok tt.
Proof.
  intros Hrole Hc Hz later. pose proof Hc as (Hs & Hd & _ & Hm).
  destruct (clock_fits_u64 _ (spe + 2) Hc ltac:(lia)) as [Hu _].
  assert (maxStoredSlots mv = spe + 2) as Hmax
    by (unfold maxStoredSlots; apply u64_small; done).
  assert (storedSlotCount mv role = spe + 2) as Hn.
  { unfold storedSlotCount. rewrite bool_decide_false by naive_solver. done. }
  subst later. rewrite Hn. split; [lia|]. split; [by rewrite Z.add_mod, Z.mod_same, Z.add_0_r, Z.mod_mod by lia|].
  assert (lateness_ttl mv role = Some (spe + 2)) as Ht
    by (unfold lateness_ttl; rewrite Hmax; naive_solver).
  assert (∀ s, expected_slot role s = s) as He
    by (intros s; unfold expected_slot; rewrite decide_False; naive_solver).
  split; (rewrite validateSlotTime_iff by (done || (split_and!; nia))); rewrite He, Ht; unfold slot_start;
    (split; [nia|intros ? [= <-]; nia]).
Qed.

(** While a message of a slot before the Boole fork is accepted, the topic it travels on
    is open: at every time at which such a message of any role that expires is within its
    window, the whitelist of the current slot has the Alan topics, when an epoch has two slots
    or more and a slot is longer than the 3.05 seconds a message may be late. *)
Theorem alan_topic_open_while_accepted slot role t subnet :
  is_Some (lateness_ttl mv role) → 2 ≤ spe → 3050000000 < dur → clock_fits slot →
  (Boole (mv_netCfg mv) + 1) * spe + 2 ≤ max_u64 →
  slot / spe < Boole (mv_netCfg mv) → 0 ≤ subnet < SubnetsCount →
  validateSlotTime mv slot role t = Ok tt →
  GenesisTime beacon ≤ t → t - GenesisTime beacon ≤ max_i64 →
  ∃ now topics, EstimatedSlotAtTime beacon t = Ok now ∧
    Topics (mv_Name mv) (mv_netCfg mv) now = Ok topics ∧
    GetTopicFullName (SubnetTopicID subnet) ∈ topics.
Proof.
  intros [ttl Httl] Hspe Hdur Hc Hmax Hfork Hsub Hok Hg Ht. pose proof Hc as (_ & _ & Hz & _).
  apply validateSlotTime_iff in Hok as [_ Hlate]; [|done]. specialize (Hlate ttl Httl).
  assert (ttl ≤ spe + 2) as Hb.
  { pose proof (Z.div_pos slot spe Hz ltac:(lia)). apply lateness_ttl_bound in Httl; nia. }
  pose proof (Z.div_mod slot spe ltac:(lia)). pose proof (Z.mod_pos_bound slot spe ltac:(lia)).
  pose proof (Z.div_pos slot spe Hz ltac:(lia)).
  rewrite EstimatedSlotAtTime_exact by (done || lia). unfold slot_start in Hlate.
  assert (0 ≤ (t - GenesisTime beacon) / dur) by (apply Z.div_pos; lia).
  assert ((t - GenesisTime beacon) / dur < slot + ttl + 1) by (apply Z.div_lt_upper_bound; nia).
  do 2 eexists. split; [done|]. rewrite Topics_eq by (done || nia). split; [done|].
  apply topics_loop_elem. exists subnet. split; [done|]. left. split; [|done].
  apply bool_decide_eq_true. nia.
Qed.
End window.
