(* ===== verification/ValBudget.v ===== *)
(** * Budgets of message validation

    The duties of an epoch a signer may take part in, the distinct signing roots it
    may send for a slot, and what a higher round does to the record of its partial
    signatures. *)

From stdpp Require Import base list gmap numbers strings sorting.
From Stdlib Require Import Strings.Byte.
From S2P Require Import Prelude Sha256 SpecTypes Quorum Network Proposer RoundTimer Subnets.
From S2P Require Import DutyStore Share ValState ValRules Validation ValFacts ValProps ValTrace.
Open Scope list_scope.
Open Scope Z_scope.

(** ** A property of every signer state *)
Definition all_signers (Q : SignerStateForSlotRound → Prop) (cs : ValidatorState) : Prop :=
  ∀ idx slot ss, signer_at cs idx slot = Some ss → Q ss.

Lemma all_signers_blank Q cs : blank cs → all_signers Q cs.
Proof.
  intros Hb idx slot ss. unfold signer_at. destruct (vs_operators cs !! idx) as [[os|]|] eqn:E; [|done..].
  by apply Hb in E.
Qed.

Lemma all_signers_updated Q cs cs' idx slot epoch ss :
  all_signers Q cs → Q ss → updated cs cs' idx slot epoch ss → all_signers Q cs'.
Proof.
  intros Hall Hss Hup idx' slot' ss' Hs'. destruct (decide (idx' = idx)) as [->|Hne].
  - rewrite (up_signer _ _ _ _ _ _ Hup) in Hs'. destruct (decide (slot' = slot)); [by simplify_eq|].
    destruct (decide _); [done|]. by apply (Hall _ _ _ Hs').
  - rewrite (signer_at_other _ _ _ _ _ _ _ _ Hup Hne) in Hs'. by apply (Hall _ _ _ Hs').
Qed.

Lemma all_signers_start Q cs idx slot new reuse :
  all_signers Q cs → Q new → (∀ ss, Q ss → Q (reuse ss)) → Q (start_state cs idx slot new reuse).
Proof.
  intros Hall Hnew Hreuse. unfold start_state. destruct (signer_at cs idx slot) eqn:E; [|done].
  by eapply Hreuse, Hall.
Qed.

(** ** Distinct roots *)
Record within_budget (ss : SignerStateForSlotRound) : Prop := {
  wb_preferences : NoDup (ss_SeenProposerPreferencesRoots ss) ∧
    Z.of_nat (length (ss_SeenProposerPreferencesRoots ss)) ≤ maxProposerPreferencesDistinctRoots;
  wb_auth : NoDup (ss_SeenRequestAuthRoots ss) ∧
    Z.of_nat (length (ss_SeenRequestAuthRoots ss)) ≤ maxRequestAuthDistinctRoots;
}.

Lemma within_budget_new slot round ss : within_budget (Reset slot round ss).
Proof. constructor; simpl; (split; [constructor|done]). Qed.

(** Recording a packet adds its fresh roots, each once. *)
Lemma record_packet (l : list PartialSignatureMessage) (seen : list bytes) :
  NoDup seen →
  let seen' := foldl (λ roots msg, roots_record (psm_SigningRoot msg) roots) seen l in
  NoDup seen' ∧ (length seen' = length seen +
    size (list_to_set (C := gset bytes)
            (filter (λ root, roots_has root seen = false) (psm_SigningRoot <$> l))))%nat.
Proof.
  revert seen. induction l as [|msg l IH]; intros seen Hnd; 
    [split; [done|]; cbn [foldl]; rewrite fmap_nil, filter_nil, list_to_set_nil, size_empty; lia|].
  simpl foldl. destruct (IH (roots_record (psm_SigningRoot msg) seen)) as [Hn Hl].
  { unfold roots_record. case_bool_decide; [done|].
    apply NoDup_app. split; [done|]. split; [set_solver|apply NoDup_singleton]. }
  split; [done|]. cbv zeta in Hl. rewrite Hl, fmap_cons, filter_cons.
  unfold roots_record. case_bool_decide as Hin; [by rewrite decide_False|].
  rewrite decide_True by done. rewrite length_app. simpl length. rewrite list_to_set_cons.
  set (rest := psm_SigningRoot <$> l). rewrite size_union_alt, size_singleton.
  rewrite <-Nat.add_assoc. do 2 f_equal. f_equal. apply set_eq. intros x.
  rewrite elem_of_difference, !elem_of_list_to_set, !list_elem_of_filter, !bool_decide_eq_false.
  rewrite elem_of_app, list_elem_of_singleton, elem_of_singleton. naive_solver.
Qed.

Lemma size_list_to_set_le (l : list bytes) : (size (list_to_set (C := gset bytes) l) ≤ length l)%nat.
Proof.
  induction l as [|x l IH]; [rewrite list_to_set_nil, size_empty; simpl; lia|].
  rewrite list_to_set_cons, size_union_alt, size_singleton. simpl.
  pose proof (subseteq_size (list_to_set (C := gset bytes) l ∖ {[x]}) (list_to_set l)
    (subseteq_difference_l _ _ _ (reflexivity _))). lia.
Qed.

Lemma record_packet_small (l : list PartialSignatureMessage) :
  let seen' := foldl (λ roots msg, roots_record (psm_SigningRoot msg) roots) [] l in
  NoDup seen' ∧ (length seen' ≤ length l)%nat.
Proof.
  simpl. destruct (record_packet l []) as [Hn Hl]; [constructor|]. split; [done|].
  simpl in Hl. rewrite Hl. etrans; [apply size_list_to_set_le|].
  etrans; [apply length_filter|]. by rewrite length_fmap.
Qed.

Section budget.
Context `{ValLib, SpecLib, Eth2Client}.

Lemma partial_duty_facts mv m ssv msgs ci from t v signer ids :
  vs_wf v → s_SSVMessage m = Some ssv → s_OperatorIDs m = signer :: ids →
  validatePartialSigMessagesByDutyLogic mv m msgs ci from t v = Ok tt →
  let idx := signerIndex ci signer in
  ∃ o, peekOperatorState idx v = Ok o ∧
    validateDutyCount mv (sv_MsgID ssv) (ps_Slot msgs) (ci_validatorIndices ci) o = Ok tt ∧
    ∀ ss, signer_at v idx (ps_Slot msgs) = Some ss →
      validatePartialSignatureMessageLimit msgs from ss = Ok tt.
Proof.
  intros Hwf Hssv Hids Hok idx. unfold validatePartialSigMessagesByDutyLogic, ssv_message in Hok.
  rewrite Hssv, Hids in Hok. simpl mbind at 1 in Hok.
  do 2 apply bind_ok in Hok as (? & _ & Hok). apply bind_ok in Hok as (o & Ho & Hok).
  do 2 apply bind_ok in Hok as (? & _ & Hok). apply bind_ok in Hok as (st & Hst & Hok).
  apply bind_ok in Hok as ([] & Hlim & Hok). apply bind_ok in Hok as (? & _ & Hok).
  apply bind_ok in Hok as ([] & Hcount & _). exists o. split_and!; [done..|].
  intros ss Hss. assert (idx < length (vs_operators v))%nat as Hidx.
  { unfold peekOperatorState in Ho. destruct (_ !! _) eqn:E; [|done]. by apply lookup_lt_Some in E. }
  pose proof (peek_signer v idx (ps_Slot msgs) Hwf Hidx) as Hp. unfold idx in Hp. rewrite Ho in Hp.
  simpl in Hp. rewrite Hst in Hp. fold idx in Hp. rewrite Hss in Hp. by simplify_eq.
Qed.

(** ** The root budgets *)
Lemma root_limit mv m ssv msgs indices signer :
  partial_semantics mv m ssv msgs indices signer →
  (ps_Type msgs = ProposerPreferencesPartialSig → (length (ps_Messages msgs) ≤ 4)%nat) ∧
  (ps_Type msgs = RequestAuthPartialSig → (length (ps_Messages msgs) ≤ 8)%nat).
Proof.
  intros [_ _ _ _ Hmatch _ Hlim _].
  split; intros Ht; rewrite Ht in *; destruct (GetRoleType (sv_MsgID ssv)); try done;
    destruct Hlim as (limit & Heq & Hl); try done; vm_compute in Heq; injection Heq as <-; lia.
Qed.

Lemma budget_step msgs from ss0 :
  validPartialSigMsgType (ps_Type msgs) = true → within_budget ss0 →
  (∀ t, t = ps_Type msgs → t = ProposerPreferencesPartialSig ∨ t = RequestAuthPartialSig →
     Z.of_nat (length (seenRootsFor t ss0) + size (fresh_roots msgs (seenRootsFor t ss0))) ≤
     if decide (t = ProposerPreferencesPartialSig) then maxProposerPreferencesDistinctRoots
     else maxRequestAuthDistinctRoots) →
  within_budget (partial_step msgs from ss0).1.
Proof.
  intros Hv [Hp Ha] Hfresh. destruct (partial_step_spec msgs from ss0 Hv) as (ss' & -> & _ & Hroots).
  assert (∀ t, t = ProposerPreferencesPartialSig ∨ t = RequestAuthPartialSig →
    NoDup (seenRootsFor t ss0) → Z.of_nat (length (seenRootsFor t ss0)) ≤
      (if decide (t = ProposerPreferencesPartialSig) then maxProposerPreferencesDistinctRoots
       else maxRequestAuthDistinctRoots) →
    NoDup (seenRootsFor t ss') ∧ Z.of_nat (length (seenRootsFor t ss')) ≤
      (if decide (t = ProposerPreferencesPartialSig) then maxProposerPreferencesDistinctRoots
       else maxRequestAuthDistinctRoots)) as Hboth.
  { intros t Ht Hnd Hl. rewrite (Hroots t Ht). destruct (decide (t = ps_Type msgs)) as [Heq|]; [|done].
    destruct (record_packet (ps_Messages msgs) (seenRootsFor t ss0) Hnd) as [Hn Hlen].
    split; [done|]. cbv zeta in Hlen. rewrite Hlen. by apply Hfresh. }
  constructor.
  - apply (Hboth ProposerPreferencesPartialSig); [by left|apply Hp|apply Hp].
  - apply (Hboth RequestAuthPartialSig); [by right|apply Ha|apply Ha].
Qed.

Lemma limit_fresh msgs from ss t :
  validatePartialSignatureMessageLimit msgs from ss = Ok tt → t = ps_Type msgs →
  t = ProposerPreferencesPartialSig ∨ t = RequestAuthPartialSig →
  Z.of_nat (length (seenRootsFor t ss) + size (fresh_roots msgs (seenRootsFor t ss))) ≤
    if decide (t = ProposerPreferencesPartialSig) then maxProposerPreferencesDistinctRoots
    else maxRequestAuthDistinctRoots.
Proof.
  intros Hok Heq Ht. unfold validatePartialSignatureMessageLimit, validateDistinctRootBudget in Hok.
  rewrite <-Heq in Hok. destruct Ht as [-> | ->]; apply bind_ok in Hok as (? & _ & Hok); inv_ok; exact Hok.
Qed.

Lemma partial_update_budget mv m ssv msgs ci topic from t v :
  vs_wf v → all_signers within_budget v →
  partial_checks mv m ci topic from t ssv (first_signer m) msgs v →
  all_signers within_budget (updatePartialSignatureState mv msgs from (first_signer m) ci v).1.
Proof.
  intros Hwf Hall [Hssv _ _ _ Hsem Hduty (ids & _ & _ & Hids & _)].
  apply (validatePartialSemantics_ok _ _ _ _ ssv) in Hsem; [|done].
  pose proof (psem_type _ _ _ _ _ _ Hsem) as Hv. pose proof (root_limit _ _ _ _ _ _ Hsem) as [Hl1 Hl2].
  destruct (partial_duty_facts _ _ _ _ _ _ _ _ _ _ Hwf Hssv Hids Hduty) as (o & _ & _ & Hlim).
  rewrite updatePartial_eq. destruct (net _) as [epoch| |]; [|done..].
  set (idx := signerIndex ci (first_signer m)) in *. set (slot := ps_Slot msgs) in *.
  destruct (with_signer_state_cases v idx slot epoch (newSignerState slot FirstRound) (λ ss, ss)
    (partial_step msgs from)) as [->|(cs1 & -> & Hup)]; [done|done|done| |done|].
  { intros ss. destruct (partial_step_spec msgs from ss Hv) as (ss' & -> & [? _ _ _] & _). done. }
  simpl. eapply all_signers_updated; [done| |done]. apply budget_step; [done| |].
  { apply all_signers_start; [done|apply within_budget_new|done]. }
  intros ty Heq Hty. unfold start_state. destruct (signer_at v idx slot) as [ss|]; [by eapply limit_fresh; [apply Hlim|..]|].
  assert (seenRootsFor ty (newSignerState slot FirstRound) = []) as -> by (by destruct Hty as [-> | ->]).
  destruct (record_packet (ps_Messages msgs) []) as [_ Hlen]; [constructor|].
  destruct (record_packet_small (ps_Messages msgs)) as [_ Hsmall].
  unfold fresh_roots. cbv zeta in Hlen, Hsmall. rewrite <-Hlen.
  destruct Hty as [-> | ->]; simpl;
    [specialize (Hl1 (eq_sym Heq))|specialize (Hl2 (eq_sym Heq))]; lia.
Qed.

Lemma process_budget m msg from ss : within_budget ss → within_budget (processSignerState m msg from ss).1.
Proof.
  intros [Hp Ha]. unfold processSignerState, mbind, st_bind, record_types.
  destruct (_ && _), (1 <? _)%nat; simpl;
    repeat match goal with |- context [match RecordConsensusMessage ?a ?b ?c with _ => _ end] =>
      destruct (RecordConsensusMessage a b c); simpl end; by constructor.
Qed.

Lemma consensus_update_budget mv m msg ci from v :
  validConsensusMsgType (m_MsgType msg) = true → vs_wf v → all_signers within_budget v →
  all_signers within_budget (updateConsensusState mv m msg ci from v).1.
Proof.
  intros Hv Hwf Hall. unfold updateConsensusState, mbind, st_bind, st_lift.
  destruct (net _) as [epoch| |]; [|done..].
  revert v Hwf Hall. induction (s_OperatorIDs m) as [|signer rest IH]; intros v Hwf Hall; [done|].
  cbn [for_signers]. unfold mbind, st_bind.
  set (slot := m_Height msg). set (round := m_Round msg).
  destruct (with_signer_state_cases v (signerIndex ci signer) slot epoch (newSignerState slot round)
    (λ ss, if ss_Round ss <? round then Reset slot round ss else ss) (processSignerState m msg from))
    as [->|(cs1 & -> & Hup)]; [done|done| | |done|].
  - intros ss Hss. by destruct (_ <? _).
  - intros ss. by apply process_slot.
  - assert (all_signers within_budget cs1) as Hall1.
    { eapply all_signers_updated; [done| |done]. apply process_budget, all_signers_start; [done|apply within_budget_new|].
      intros ss Hss. destruct (_ <? _); [apply within_budget_new|done]. }
    destruct (processSignerState_spec m msg from (start_state v (signerIndex ci signer) slot
      (newSignerState slot round) (λ ss, if ss_Round ss <? round then Reset slot round ss else ss)) Hv)
      as (ss' & Hp & _). rewrite Hp. simpl. apply IH; [apply Hup|done].
Qed.

Definition budgets_ok (st : States) : Prop := map_Forall (λ _ v, vs_wf v ∧ all_signers within_budget v) st.

Lemma budgets_wf st : budgets_ok st → states_wf st.
Proof. intros Hb key v Hl. by apply (Hb key v Hl). Qed.

Lemma outcome_budget {A : Type} mv ci key st st' (r : vres A) (checks : ValidatorState → A → Prop) upd :
  cfg_ok mv → budgets_ok st → states_wf st' →
  (∀ v a, vs_wf v → all_signers within_budget v → checks v a → all_signers within_budget (upd a v).1) →
  outcome mv ci key st st' r checks upd → budgets_ok st'.
Proof.
  intros Hcfg Hst Hwf' Hupd Hout key' v0 Hl0. split; [by apply (Hwf' key')|].
  destruct Hout as [[-> _]|(v & st1 & Hv & Hcase)]; [by apply (Hst key')|].
  destruct (validatorState_spec _ _ _ _ _ _ Hcfg (budgets_wf _ Hst) Hv) as (Hwf1 & Hl & Hother & _ & Hfresh).
  assert (∀ k w, st1 !! k = Some w → all_signers within_budget w) as Hall1.
  { intros k w Hk. destruct Hfresh as [->|(Hb & _)]; [by apply (Hst k)|].
    destruct (decide (k = key)) as [->|Hne]; [simplify_eq; by apply all_signers_blank|].
    rewrite Hother in Hk by done. by apply (Hst k). }
  destruct Hcase as [[-> _]|(a & v' & res & Hch & Hu & -> & _)]; [by apply (Hall1 key')|].
  destruct (decide (key' = key)) as [->|Hne]; [|rewrite lookup_insert_ne in Hl0 by done; by apply (Hall1 key')].
  rewrite lookup_insert_eq in Hl0. injection Hl0 as <-. specialize (Hupd v a (Hwf1 _ _ Hl) (Hall1 _ _ Hl) Hch).
  by rewrite Hu in Hupd.
Qed.

(** The root budgets hold always: whatever is validated, with whatever verdict, every
    signer state records at most four distinct roots of proposer preferences and eight of
    request authorisations for its slot, none twice; the first packet of a slot, which is
    not held against the budget, included. *)
Theorem root_budgets_hold mv ctx peer pm st st' r :
  cfg_ok mv → budgets_ok st → Validate mv ctx peer pm st = (st', r) → budgets_ok st'.
Proof.
  intros Hcfg Hst Hrun. unfold Validate in Hrun. destruct (_ && _); [by injection Hrun as <- _|].
  destruct (ctx cpValidate); [by injection Hrun as <- _|].
  assert (∃ r', handlePubsubMessage mv ctx pm (mv_now mv) st = (st', r')) as [r' Hh].
  { destruct (handlePubsubMessage _ _ _ _ _) as [s [| |]]; injection Hrun as <- _; by eexists. }
  pose proof (handlePubsub_wf _ _ _ _ _ _ _ Hcfg (budgets_wf _ Hst) Hh) as Hwf'.
  apply handlePubsub_cases in Hh as [[-> _]|(m & _ & Hh)]; [done|].
  apply handleSigned_cases in Hh as [[-> _]|(ssv & ci & Henv & Hbody)]; [done|].
  destruct Hbody as [(_ & r0 & Hbody & _)|(_ & r0 & Hbody & _)].
  - eapply outcome_budget; [done..| |by eapply validateConsensusMessage_outcome; [apply Henv|]].
    intros v msg Hwf Hall Hch. apply consensus_update_budget; [|done..].
    eapply sem_type, validateConsensusMessageSemantics_ok; apply Hch.
  - eapply outcome_budget; [done..| |by eapply validatePartial_outcome; [apply Henv|]].
    intros v msg Hwf Hall Hch. cbv beta in Hch |- *.
    by apply (partial_update_budget _ _ _ _ _ _ _ _ _ Hwf Hall Hch).
Qed.

(** ** Duties per epoch *)

(** The duties of a signer in the epoch, the slot's own included. *)
Definition duties_with (cs : ValidatorState) (idx : nat) (slot : Slot) (epoch : Epoch) : Z :=
  match signer_at cs idx slot with
  | Some _ => duties_at cs idx epoch
  | None => u64 (duties_at cs idx epoch + 1)
  end.

Lemma validateDutyCount_ok mv key slot indices v idx o epoch limit :
  vs_wf v → peekOperatorState idx v = Ok o →
  validateDutyCount mv key slot indices o = Ok tt →
  EstimatedEpochAtSlot (n_Beacon (mv_netCfg mv)) slot = Ok epoch →
  dutyLimit mv key slot indices = Ok (limit, true) →
  duties_with v idx slot epoch ≤ limit.
Proof.
  intros Hwf Hpeek Hok Hep Hlim.
  assert (idx < length (vs_operators v))%nat as Hidx.
  { unfold peekOperatorState in Hpeek. destruct (_ !! _) eqn:E; [|done]. by apply lookup_lt_Some in E. }
  pose proof (peek_signer v idx slot Hwf Hidx) as Hs. pose proof (peek_duties v idx epoch Hwf Hidx) as Hd.
  rewrite Hpeek in Hs, Hd. simpl in Hs, Hd. unfold validateDutyCount in Hok.
  rewrite Hep in Hok. simpl mbind at 1 in Hok. rewrite Hd in Hok. simpl mbind at 1 in Hok.
  rewrite Hlim in Hok. simpl mbind at 1 in Hok. rewrite Hs in Hok. cbn in Hok. inv_ok.
  unfold duties_with. by destruct (signer_at v idx slot).
Qed.

(** An update at the slot keeps a signer's duties within the limit. *)
Lemma duties_with_kept (checked : nat → Prop) slot epoch limit new reuse :
  kept_by slot epoch new reuse (λ cs, ∀ idx, checked idx → duties_with cs idx slot epoch ≤ limit).
Proof.
  intros cs cs' idx ss' P Hwf HK _ Hup idx' Hc. specialize (HK idx' Hc).
  unfold duties_with in *. destruct (decide (idx' = idx)) as [->|Hne].
  - rewrite (up_signer _ _ _ _ _ _ Hup), decide_True by done.
    pose proof (up_duties _ _ _ _ _ _ Hup) as Hd. destruct (signer_at cs idx slot); [lia|].
    pose proof (u64_range (duties_at cs idx epoch + 1)). destruct Hd as [-> | ->]; [done|].
    unfold is_u64 in *. lia.
  - rewrite (signer_at_other _ _ _ _ _ _ _ _ Hup Hne). unfold duties_at in *.
    rewrite (up_other _ _ _ _ _ _ Hup idx' Hne).
    by destruct (up_shape _ _ _ _ _ _ Hup) as (_ & _ & -> & _).
Qed.

Lemma consensus_duty_facts mv m ssv msg ci t v signer :
  s_SSVMessage m = Some ssv → validateQBFTMessageByDutyLogic mv m msg ci t v = Ok tt →
  signer ∈ s_OperatorIDs m →
  ∃ o, peekOperatorState (signerIndex ci signer) v = Ok o ∧
    validateDutyCount mv (sv_MsgID ssv) (m_Height msg) (ci_validatorIndices ci) o = Ok tt.
Proof.
  intros Hssv Hok Hin. unfold validateQBFTMessageByDutyLogic, ssv_message in Hok.
  rewrite Hssv in Hok. simpl mbind at 1 in Hok. do 4 apply bind_ok in Hok as (? & _ & Hok).
  pose proof (proj1 (for_each_ok _ _ _) Hok signer Hin) as Hs. cbv beta in Hs.
  apply bind_ok in Hs as (o & Ho & Hs). by exists o.
Qed.

(** The kind of slot and signers of an accepted message. *)
Definition body_signers (m : SignedSSVMessage) (b : Body) : list OperatorID :=
  match b with PartialBody _ => [first_signer m] | _ => s_OperatorIDs m end.

(** C21. No signer takes part in more duties of an epoch than its role allows: after a message
    is accepted, the duties counted for each of its signers in the slot's epoch, the slot's
    own included, are within the limit that held when it was validated. *)
Theorem accepted_within_duty_limit mv ctx m topic from t st st' q epoch limit signer :
  cfg_ok mv → states_wf st →
  handleSignedSSVMessage mv ctx m topic from t st = (st', Ok q) →
  EstimatedEpochAtSlot (n_Beacon (mv_netCfg mv)) (body_slot (q_Body q)) = Ok epoch →
  signer ∈ body_signers m (q_Body q) →
  ∃ ci v, getCommitteeAndValidatorIndices mv (sv_MsgID (q_SSVMessage q)) = Ok ci ∧
    st' !! sv_MsgID (q_SSVMessage q) = Some v ∧
    (dutyLimit mv (sv_MsgID (q_SSVMessage q)) (body_slot (q_Body q)) (ci_validatorIndices ci)
       = Ok (limit, true) →
     duties_with v (signerIndex ci signer) (body_slot (q_Body q)) epoch ≤ limit).
Proof.
  intros Hcfg Hst Hrun Hep Hsig.
  apply handleSigned_ok in Hrun as (ssv & ci & v & v' & _ & -> & Hcase). exists ci, v'.
  set (idx := signerIndex ci signer).
  destruct Hcase as [(msg & Hb & Henv & _ & Hch & st1 & Hv & Hu & ->)|(msgs & Hb & Henv & _ & Hch & st1 & Hv & Hu & ->)];
    rewrite Hb in *; simpl in *; (split; [apply Henv|]); (split; [apply lookup_insert_eq|]); intros Hlim;
    destruct (validatorState_spec _ _ _ _ _ _ Hcfg Hst Hv) as (Hwf1 & Hl & _);
    pose proof (Hwf1 _ _ Hl) as Hwf; simpl in Hwf.
  - destruct (consensus_duty_facts _ _ _ _ _ _ _ signer (cc_ssv _ _ _ _ _ _ _ _ _ _ Hch)
      (cc_duty _ _ _ _ _ _ _ _ _ _ Hch) Hsig) as (o & Ho & Hcount).
    pose proof (validateDutyCount_ok _ _ _ _ _ _ _ _ _ Hwf Ho Hcount Hep Hlim) as Hle.
    destruct (updateConsensusState_kept mv m msg ci from v
      (λ cs, ∀ i, i = idx → duties_with cs i (m_Height msg) epoch ≤ limit)) as (_ & _ & _ & HK);
      [|done|by intros i ->| |by rewrite Hu in HK; apply HK].
    + eapply sem_type, validateConsensusMessageSemantics_ok; apply Hch.
    + intros epoch' He'. rewrite Hep in He'. injection He' as <-. apply duties_with_kept.
  - pose proof Hch as [Hssv _ _ _ Hsem Hduty (ids & _ & _ & Hids & _)]. apply list_elem_of_singleton in Hsig as ->.
    destruct (partial_duty_facts _ _ _ _ _ _ _ _ _ _ Hwf Hssv Hids Hduty) as (o & Ho & Hcount & _).
    pose proof (validateDutyCount_ok _ _ _ _ _ _ _ _ _ Hwf Ho Hcount Hep Hlim) as Hle.
    destruct (updatePartial_kept mv msgs from (first_signer m) ci v
      (λ cs, ∀ i, i = idx → duties_with cs i (ps_Slot msgs) epoch ≤ limit)) as (_ & _ & _ & HK);
      [|done|by intros i ->| |by rewrite Hu in HK; apply HK].
    + by eapply psem_type, validatePartialSemantics_ok.
    + intros epoch' He'. rewrite Hep in He'. injection He' as <-. apply duties_with_kept.
Qed.

(** A signer state that records no partial signature, of any peer. *)
Definition no_partials (ss : SignerStateForSlotRound) : Prop :=
  ∀ idx, idx = preConsensusIdx ∨ idx = postConsensusIdx →
    reached_idx idx (sg_SeenMsgTypes (ss_World ss)) = false ∧
    ∀ p, reached_idx idx (sg_SeenMsgTypes (peekPeer p ss)) = false.

Lemma no_partials_limit ss msgs p :
  no_partials ss → validPartialSigMsgType (ps_Type msgs) = true →
  ps_Type msgs ≠ ProposerPreferencesPartialSig → ps_Type msgs ≠ RequestAuthPartialSig →
  validatePartialSignatureMessageLimit msgs p ss = Ok tt.
Proof.
  intros Hno Hv Hp Ha. destruct (Hno preConsensusIdx) as [Hw1 Hp1]; [by left|].
  destruct (Hno postConsensusIdx) as [Hw2 Hp2]; [by right|]. unfold validatePartialSignatureMessageLimit.
  destruct (ps_Type msgs); try done; by rewrite ?Hw1, ?Hp1, ?Hw2, ?Hp2.
Qed.

Lemma no_partials_upd_Peer p g ss :
  no_partials ss → sg_SeenMsgTypes (g (peekPeer p ss)) = sg_SeenMsgTypes (peekPeer p ss) →
  no_partials (upd_Peer p g ss).
Proof.
  intros Hno Hg idx Hidx. destruct (Hno idx Hidx) as [Hw Hp]. split; [done|]. intros p'.
  unfold peekPeer in *. simpl. destruct (decide (p' = p)) as [->|Hne].
  - rewrite lookup_insert_eq. simpl. by rewrite Hg.
  - by rewrite lookup_insert_ne.
Qed.

Lemma no_partials_upd_World g ss :
  no_partials ss → sg_SeenMsgTypes (g (ss_World ss)) = sg_SeenMsgTypes (ss_World ss) →
  no_partials (upd_World g ss).
Proof.
  intros Hno Hg idx Hidx. destruct (Hno idx Hidx) as [Hw Hp]. split; [simpl; by rewrite Hg|exact Hp].
Qed.

Lemma no_partials_record p record ss :
  (∀ c c' idx, idx = preConsensusIdx ∨ idx = postConsensusIdx → record c = Ok c' →
     reached_idx idx c' = reached_idx idx c) →
  no_partials ss → no_partials (record_types p record ss).1.
Proof.
  intros Hrec Hno. unfold record_types. destruct (record _) as [c| |] eqn:E1; [|by apply no_partials_upd_Peer|done].
  cbn [ss_World upd_Peer].
  assert (∀ idx p', idx = preConsensusIdx ∨ idx = postConsensusIdx →
    reached_idx idx (sg_SeenMsgTypes (peekPeer p' (upd_Peer p (set_SeenMsgTypes c) ss))) = false) as Hpeer.
  { intros idx p' Hidx. destruct (Hno idx Hidx) as [_ Hp]. unfold peekPeer in *. simpl.
    destruct (decide (p' = p)) as [->|Hne]; [|by rewrite lookup_insert_ne].
    rewrite lookup_insert_eq. simpl. rewrite (Hrec _ _ idx Hidx E1). apply Hp. }
  destruct (record (sg_SeenMsgTypes (ss_World ss))) as [w| |] eqn:E2; intros idx Hidx;
    (split; [|intros p'; by apply Hpeer]); simpl; [rewrite (Hrec _ _ idx Hidx E2)|..]; by apply Hno.
Qed.

Lemma process_no_partials m msg p ss : no_partials ss → no_partials (processSignerState m msg p ss).1.
Proof.
  intros Hno.
  assert (∃ ss2, processSignerState m msg p ss = record_types p (RecordConsensusMessage m msg) ss2 ∧
    no_partials ss2) as (ss2 & -> & Hno2).
  { unfold processSignerState.
    destruct (_ && _), (1 <? _)%nat; (eexists; split; [reflexivity|]); simpl;
      repeat (apply no_partials_upd_World || apply no_partials_upd_Peer); done. }
  apply no_partials_record; [|done]. intros c c' idx Hidx Hr.
  assert (∀ k, k ≠ preConsensusIdx → k ≠ postConsensusIdx → 0 ≤ k →
    reached_idx idx (record_idx k c) = reached_idx idx c) as Hother.
  { intros k H1' H2' Hk. rewrite reached_record by (done || (destruct Hidx as [-> | ->]; done)).
    rewrite bool_decide_false; [done|]. destruct Hidx; congruence. }
  unfold RecordConsensusMessage in Hr.
  destruct (m_MsgType msg); try (destruct (_ =? 1)%nat); simplify_eq; try done; by apply Hother.
Qed.

Lemma higher_round_reset mv ctx topic from t st st' m ssv msg ci v v' signer ss :
  cfg_ok mv → states_wf st → consensus_accepted mv ctx topic from t st st' m ssv msg ci v v' →
  s_OperatorIDs m = [signer] →
  signer_at v (signerIndex ci signer) (m_Height msg) = Some ss → ss_Round ss < m_Round msg →
  ∃ ss', signer_at v' (signerIndex ci signer) (m_Height msg) = Some ss' ∧
    ∀ msgs peer, validPartialSigMsgType (ps_Type msgs) = true →
      ps_Type msgs ≠ ProposerPreferencesPartialSig → ps_Type msgs ≠ RequestAuthPartialSig →
      validatePartialSignatureMessageLimit msgs peer ss' = Ok tt.
Proof.
  intros Hcfg Hst (Henv & _ & Hch & st1 & Hv & Hu & ->) Hone Hss Hround.
  destruct (validatorState_spec _ _ _ _ _ _ Hcfg Hst Hv) as (Hwf1 & Hl & _).
  pose proof (Hwf1 _ _ Hl) as Hwf. simpl in Hwf.
  assert (validConsensusMsgType (m_MsgType msg) = true) as Hvt
    by (eapply sem_type, validateConsensusMessageSemantics_ok; apply Hch).
  unfold updateConsensusState, mbind, st_bind, st_lift in Hu. rewrite Hone in Hu.
  destruct (net _) as [epoch| |]; [|done..]. cbn [for_signers] in Hu. unfold mbind, st_bind in Hu.
  set (slot := m_Height msg) in *. set (round := m_Round msg) in *. set (idx := signerIndex ci signer) in *.
  destruct (with_signer_state_cases v idx slot epoch (newSignerState slot round)
    (λ ss, if ss_Round ss <? round then Reset slot round ss else ss) (processSignerState m msg from))
    as [Heq|(cs' & Heq & Hup)]; [done|done| | |by rewrite Heq in Hu|].
  - intros s Hs. by destruct (_ <? _).
  - intros s. by apply process_slot.
  - rewrite Heq in Hu. unfold start_state in *. rewrite Hss in *. cbv beta in *.
    rewrite (proj2 (Z.ltb_lt _ _) Hround) in *.
    destruct (processSignerState_spec m msg from (Reset slot round ss) Hvt) as (ss' & Hp & _).
    assert (no_partials ss') as Hno.
    { change ss' with (ss', Ok tt : vres unit).1. rewrite <-Hp. apply process_no_partials.
      intros k Hk. by destruct Hk as [-> | ->]. }
    rewrite Hp in *. cbn [fst snd] in *. injection Hu as <-. exists ss'.
    rewrite (up_signer _ _ _ _ _ _ Hup), decide_True by done. split; [done|].
    intros msgs peer. by apply no_partials_limit.
Qed.

(** A higher round forgets a signer's partial signatures: once a consensus message of a
    round above the signer's recorded one is accepted, no pre- or post-consensus packet of
    the slot counts as a repetition any more, so that the signer may send each again, once
    for every round it moves to. *)
Theorem higher_round_reopens_partials mv ctx m topic from t st st' q msg ci v signer ss :
  cfg_ok mv → states_wf st →
  handleSignedSSVMessage mv ctx m topic from t st = (st', Ok q) → q_Body q = ConsensusBody msg →
  s_OperatorIDs m = [signer] →
  let key := sv_MsgID (q_SSVMessage q) in
  getCommitteeAndValidatorIndices mv key = Ok ci →
  st !! key = Some v → vs_committeeID v = ci_committeeID ci →
  signer_at v (signerIndex ci signer) (m_Height msg) = Some ss → ss_Round ss < m_Round msg →
  ∃ v' ss', st' !! key = Some v' ∧
    signer_at v' (signerIndex ci signer) (m_Height msg) = Some ss' ∧
    ∀ msgs peer, validPartialSigMsgType (ps_Type msgs) = true →
      ps_Type msgs ≠ ProposerPreferencesPartialSig → ps_Type msgs ≠ RequestAuthPartialSig →
      validatePartialSignatureMessageLimit msgs peer ss' = Ok tt.
Proof.
  intros Hcfg Hst Hrun Hb Hone key Hci Hl Hcid Hss Hround. subst key.
  apply handleSigned_ok in Hrun as (ssv & ci' & w & v' & _ & <- & [(msg' & Hb' & Hacc)|(? & Hb' & _)]);
    rewrite Hb in Hb'; simplify_eq. pose proof Hacc as (Henv & _ & _ & st1 & Hv & _ & ->).
  pose proof (ec_committee _ _ _ _ Henv) as Hci'. rewrite Hci in Hci'. injection Hci' as <-.
  assert (w = v) as ->.
  { unfold validatorState in Hv. rewrite Hl, bool_decide_true in Hv by done. by injection Hv. }
  destruct (higher_round_reset _ _ _ _ _ _ _ _ _ _ _ _ _ _ _ Hcfg Hst Hacc Hone Hss Hround) as (ss' & Hss' & Hlim).
  exists v', ss'. split; [apply lookup_insert_eq|done].
Qed.
End budget.
