(* ===== verification/ValWitness.v ===== *)
(** * Message validation, executed

    A network of twelve-second slots, a committee of four operators with two
    validators, and messages that the validator accepts, refuses as repetitions
    and accepts again after a higher round; the theorems of message validation
    applied to them. *)

From stdpp Require Import base list gmap numbers strings sorting.
From Stdlib Require Import Strings.Byte.
From S2P Require Import Prelude Sha256 SpecTypes SpecRef Quorum Network Proposer RoundTimer.
From S2P Require Import Subnets DutyStore Share ValState ValRules Validation ValFacts ValProps.
From S2P Require Import ValTrace ValWindow ValBudget.
Open Scope string_scope.
Open Scope list_scope.
Open Scope Z_scope.

(** ** The library: identifiers of a domain, a role and an executor *)
#[global] Instance PartialSigMsgType_serial : Serial PartialSigMsgType.
Proof.
  refine (iso_serial (B := Z)
    (λ t, match t with
          | PostConsensusPartialSig => 0 | RandaoPartialSig => 1 | SelectionProofPartialSig => 2
          | ContributionProofs => 3 | ValidatorRegistrationPartialSig => 4
          | VoluntaryExitPartialSig => 5 | AggregatorCommitteePartialSig => 6
          | PTCAttesterPartialSig => 7 | ProposerPreferencesPartialSig => 8
          | RequestAuthPartialSig => 9 | UnknownPartialSig n => if n <? 0 then n else n + 10 end)
    (λ n, if n <? 0 then UnknownPartialSig n else
          nth (Z.to_nat n)
            [PostConsensusPartialSig; RandaoPartialSig; SelectionProofPartialSig;
             ContributionProofs; ValidatorRegistrationPartialSig; VoluntaryExitPartialSig;
             AggregatorCommitteePartialSig; PTCAttesterPartialSig; ProposerPreferencesPartialSig;
             RequestAuthPartialSig] (UnknownPartialSig (n - 10))) _).
  intros [| | | | | | | | | |n]; try done. destruct (Z.ltb_spec n 0) as [Hn|Hn].
  - by rewrite (proj2 (Z.ltb_lt _ _) Hn).
  - rewrite (proj2 (Z.ltb_ge _ _)) by lia. rewrite nth_overflow; [f_equal; lia|simpl; lia].
Defined.

#[global] Instance PartialSignatureMessage_serial : Serial PartialSignatureMessage.
Proof.
  refine (iso_serial
    (λ m, (psm_PartialSignature m, psm_SigningRoot m, psm_Signer m, psm_ValidatorIndex m))
    (λ '(s, r, o, i), mkPSM s r o i) _).
  by intros [].
Defined.
#[global] Instance PartialSignatureMessages_serial : Serial PartialSignatureMessages.
Proof.
  refine (iso_serial (λ m, (ps_Type m, ps_Slot m, ps_Messages m)) (λ '(t, s, l), mkPSMs t s l) _).
  by intros [].
Defined.

Definition of_deser {A} (o : option A) : result goerr A :=
  match o with Some a => Ok a | None => Err (ENew "malformed") end.

Definition role_of (n : Z) : RunnerRole :=
  nth (Z.to_nat n)
    [RoleCommittee; RoleAggregator; RoleProposer; RoleSyncCommitteeContribution;
     RoleValidatorRegistration; RoleVoluntaryExit; RoleAggregatorCommittee; RolePTCAttester;
     RoleProposerPreferences] (RoleUnknown n).

#[global] Instance ref_vallib : ValLib := {|
  GetDomain id := take 4 id;
  GetRoleType id := role_of (byte_to_Z (default x00 (id !! 4%nat)));
  GetDutyExecutorID id := drop 8 id;
  DecodeSignedSSVMessage b := of_deser (deser b);
  DecodePartialSignatureMessages b := of_deser (deser b);
  spec_HashDataRoot b := Ok (sha256 (bytes_of b));
  DecodeEventMsg _ := Err (ENew "malformed");
  AttesterDuty := unit; ProposerDuty := unit; PTCDuty := unit; SyncCommitteeDuty := unit;
|}.

#[global] Instance ref_client : Eth2Client :=
  Build_Eth2Client (λ _, false) (λ _, true) (λ _, true) (λ _, true) (λ _, false) (λ _, false).

(** ** The node *)
Definition ref_beacon : Beacon := mkBeacon "demo" 12000000000 32 256 512 4 16 16 [] 0 [] ∅.
Definition ref_net : NetCfg := mkNetCfg ref_beacon [x00; x00; x30; x0d] [x00; x00; x30; x0e] 10.
Definition ref_committee_id : bytes := replicate 32 x07.
Definition ref_committee : Committee :=
  mkCommittee ref_committee_id [1; 2; 3; 4] [] [9; 12] (Some 17) (Some 42).
Definition token (o : OperatorID) : bytes := replicate 256 (if o =? 1 then x01 else if o =? 2 then x02 else x03).

(** The validator at a time; operator 5 and above are unknown. *)
Definition ref_env (now : Time) : Env := {|
  mv_netCfg := ref_net;
  mv_Name := "demo";
  mv_Committee id := if bool_decide (id = ref_committee_id) then Some ref_committee else None;
  mv_Validator _ := None;
  mv_OperatorsExist ids := Ok (forallb (λ o, (1 <=? o) && (o <=? 4)) ids);
  mv_dutyStore := New_DutyStore;
  mv_VerifySignature o _ sig := if bool_decide (sig = token o) then None else Some (ENew "bad signature");
  mv_selfPID := "self";
  mv_selfAccept := false;
  mv_now := now;
|}.

Definition ref_key : bytes := [x00; x00; x30; x0d] ++ [x00; x00; x00; x00] ++ replicate 16 x00 ++ ref_committee_id.
Definition no_ctx : Ctx := λ _, None.

Definition ref_signed (o : OperatorID) (t : SSVMsgType) (data : bytes) : SignedSSVMessage :=
  mkSigned [token o] [o] (Some (mkSSVMessage t ref_key data)) None.
Definition ref_pubsub (peer : string) (m : SignedSSVMessage) : PubsubMessage :=
  mkPubsubMessage (ser m) (GetTopicFullName (SubnetTopicID 42)) peer.

(** Slot 100, of epoch 3, starts 1200 seconds after genesis. *)
Definition ref_now : Time := 1205000000000.
Definition consensus_of (t : MessageType) (round : Round) (o : OperatorID) : SignedSSVMessage :=
  ref_signed o SSVConsensusMsgType (ser (mkMessage t 100 round ref_key (replicate 32 x05) 0 [] [])).
Definition prepare1 : SignedSSVMessage := consensus_of PrepareMsgType 1 1.
Definition round_change2 : SignedSSVMessage := consensus_of RoundChangeMsgType 2 1.
Definition packet : PartialSignatureMessages :=
  mkPSMs PostConsensusPartialSig 100
    [mkPSM (replicate 96 x09) (replicate 32 x0a) 1 9; mkPSM (replicate 96 x09) (replicate 32 x0a) 1 12].
Definition post_consensus : SignedSSVMessage := ref_signed 1 SSVPartialSignatureMsgType (ser packet).

Definition validate_at (peer : string) (m : SignedSSVMessage) (st : States)
    : States * vres (ValidationResult * option QueueMessage) :=
  Validate (ref_env ref_now) no_ctx peer (ref_pubsub peer m) st.
Definition verdict {A} (r : vres (ValidationResult * A)) : option ValidationResult :=
  match r with Ok (v, _) => Some v | _ => None end.
Definition data_of {A} (r : vres (ValidationResult * option A)) : option A :=
  match r with Ok (_, d) => d | _ => None end.

Definition is_none {A} (o : option A) : bool := match o with None => true | Some _ => false end.

Lemma ref_cfg now : cfg_ok (ref_env now).
Proof. unfold cfg_ok, max_u64. simpl. lia. Qed.
Lemma empty_wf : states_wf ∅.
Proof. apply map_Forall_empty. Qed.
Lemma ref_fixed now : fixed_committee (ref_env now) ref_key ref_committee_id [1; 2; 3; 4].
Proof. intros ci Hci. vm_compute in Hci. injection Hci as <-. done. Qed.
Lemma ref_clock now slot : 0 ≤ slot ≤ 1000000 → clock_fits (ref_env now) slot.
Proof. intros Hs. unfold clock_fits, max_i64. simpl. lia. Qed.

(** ** Runs *)
Definition after_prepare : States := (validate_at "a" prepare1 ∅).1.
Definition after_packet : States := (validate_at "a" post_consensus after_prepare).1.

Lemma run_eq (run : States * vres (ValidationResult * option QueueMessage)) v :
  verdict run.2 = Some v → run = (run.1, Ok (v, data_of run.2)).
Proof. destruct run as [st [[v' d]| |]]; simpl; by intros [= ->]. Qed.
Lemma run_refused (run : States * vres (ValidationResult * option QueueMessage)) v :
  verdict run.2 = Some v → is_none (data_of run.2) = true → run = (run.1, Ok (v, None)).
Proof. destruct run as [st [[v' [d|]]| |]]; simpl; by intros [= ->]. Qed.

Lemma prepare_accepted :
  validate_at "a" prepare1 ∅
  = (after_prepare, Ok (ValidationAccept, data_of (validate_at "a" prepare1 ∅).2)).
Proof. apply run_eq. vm_compute. reflexivity. Qed.
Lemma packet_accepted :
  validate_at "a" post_consensus after_prepare
  = (after_packet, Ok (ValidationAccept, data_of (validate_at "a" post_consensus after_prepare).2)).
Proof. apply run_eq. vm_compute. reflexivity. Qed.

Lemma after_packet_wf : states_wf after_packet.
Proof.
  destruct (Validate_cases (ref_env ref_now) no_ctx "a" (ref_pubsub "a" prepare1) ∅ after_prepare
    (ValidationAccept, data_of (validate_at "a" prepare1 ∅).2) (ref_cfg _) empty_wf prepare_accepted) as [Hwf _].
  by destruct (Validate_cases (ref_env ref_now) no_ctx "a" (ref_pubsub "a" post_consensus) after_prepare
    after_packet (ValidationAccept, data_of (validate_at "a" post_consensus after_prepare).2)
    (ref_cfg _) Hwf packet_accepted).
Qed.

(** The second prepare, from another peer, is ignored and leaves no trace. *)
Lemma refused_leaves_no_trace_witness :
  ∃ st', validate_at "b" prepare1 after_packet = (st', Ok (ValidationIgnore, None)) ∧
    message_id (ref_pubsub "b" prepare1) = Some ref_key ∧
    untouched (ref_env ref_now) (message_id (ref_pubsub "b" prepare1)) after_packet st'.
Proof.
  assert (validate_at "b" prepare1 after_packet =
    ((validate_at "b" prepare1 after_packet).1, Ok (ValidationIgnore, None))) as Hrun
    by (apply run_refused; vm_compute; reflexivity).
  exists (validate_at "b" prepare1 after_packet).1. split; [exact Hrun|]. split; [vm_compute; reflexivity|].
  apply (refused_leaves_no_trace (ref_env ref_now) no_ctx "b" (ref_pubsub "b" prepare1)
    after_packet _ ValidationIgnore None); [apply ref_cfg|apply after_packet_wf|exact Hrun|done].
Defined.

Lemma no_duplicate_consensus_witness :
  verdict (validate_at "b" prepare1 after_packet).2 ≠ Some ValidationAccept.
Proof.
  assert (single_consensus (ser prepare1) ref_key 1 100 1 PrepareMsgType) as Hsingle.
  { exists prepare1, (mkSSVMessage SSVConsensusMsgType ref_key (sv_Data (default (mkSSVMessage SSVEventMsgType [] []) (s_SSVMessage prepare1)))),
      (mkMessage PrepareMsgType 100 1 ref_key (replicate 32 x05) 0 [] []).
    split_and!; reflexivity. }
  intros Hv. apply run_eq in Hv.
  apply (no_duplicate_consensus ref_key ref_committee_id [1; 2; 3; 4] 1 100 1 PrepareMsgType 34
    (ref_env ref_now) no_ctx "a" (ref_pubsub "a" prepare1) ∅ after_prepare
    (data_of (validate_at "a" prepare1 ∅).2) after_packet
    (ref_env ref_now) no_ctx "b" (ref_pubsub "b" prepare1)
    (validate_at "b" prepare1 after_packet).1 ValidationAccept
    (data_of (validate_at "b" prepare1 after_packet).2));
    [apply ref_cfg|apply empty_wf|done|apply ref_fixed|exact Hsingle|apply prepare_accepted| | |
     apply ref_cfg|done|apply ref_fixed|exact Hsingle|exact Hv|done].
  - assert (vs_storedSlotCount <$> after_prepare !! ref_key = Some 34) as Hs by (vm_compute; reflexivity).
    intros v Hl. rewrite Hl in Hs. by injection Hs.
  - eapply (retains_message _ _ _ _ (ref_env ref_now) no_ctx "a" (ref_pubsub "a" post_consensus));
      [apply ref_cfg|apply packet_accepted| | |apply retains_refl].
    + intros ci Hci. by destruct (ref_fixed _ ci Hci).
    + assert (body_slot ∘ q_Body <$> data_of (validate_at "a" post_consensus after_prepare).2 = Some 100)
        as Hs by (vm_compute; reflexivity).
      simpl. intros q Hq _. rewrite Hq in Hs. injection Hs as ->. by left.
Defined.

(** ** Acceptance *)
Definition handle (m : SignedSSVMessage) (st : States) : States * vres QueueMessage :=
  handleSignedSSVMessage (ref_env ref_now) no_ctx m (GetTopicFullName (SubnetTopicID 42)) "a" ref_now st.
Definition consensus_body (r : vres QueueMessage) : option Message :=
  match r with Ok q => match q_Body q with ConsensusBody m => Some m | _ => None end | _ => None end.
Definition partial_body (r : vres QueueMessage) : option PartialSignatureMessages :=
  match r with Ok q => match q_Body q with PartialBody m => Some m | _ => None end | _ => None end.

Lemma consensus_run (run : States * vres QueueMessage) msg :
  consensus_body run.2 = Some msg → ∃ q, run = (run.1, Ok q) ∧ q_Body q = ConsensusBody msg.
Proof.
  destruct run as [st' [q| |]]; simpl; [|done..]. intros Hb. exists q. split; [done|].
  by destruct (q_Body q); simplify_eq.
Qed.
Lemma partial_run (run : States * vres QueueMessage) msg :
  partial_body run.2 = Some msg → ∃ q, run = (run.1, Ok q) ∧ q_Body q = PartialBody msg.
Proof.
  destruct run as [st' [q| |]]; simpl; [|done..]. intros Hb. exists q. split; [done|].
  by destruct (q_Body q); simplify_eq.
Qed.

Lemma ids_small (m : SignedSSVMessage) : s_OperatorIDs m = [1] → ids_u64 m.
Proof. unfold ids_u64. intros ->. constructor; [|constructor]. unfold is_u64, max_u64. lia. Qed.

Definition prepare1_msg : Message := mkMessage PrepareMsgType 100 1 ref_key (replicate 32 x05) 0 [] [].

Lemma accepted_consensus_sound_witness :
  validateSlotTime (ref_env ref_now) 100 RoleCommittee ref_now = Ok tt ∧
  ∃ ssv ci, s_SSVMessage prepare1 = Some ssv ∧ authentic (ref_env ref_now) prepare1 ssv ci.
Proof.
  destruct (consensus_run (handle prepare1 ∅) prepare1_msg) as (q & Hrun & Hb); [vm_compute; reflexivity|].
  destruct (accepted_consensus_sound (ref_env ref_now) no_ctx prepare1 _ "a" ref_now ∅ _ q prepare1_msg
    (ids_small prepare1 eq_refl) Hrun Hb) as (ssv & ci & boole & Hssv & _ & _ & Hau & _ & _ & _ & _ & _ & Ht).
  injection Hssv as <-. split; [exact Ht|]. eexists _, ci. split; [reflexivity|exact Hau].
Defined.

Lemma accepted_partial_sound_witness :
  occurrences 9 (ps_Messages packet) ≤ 2 ∧
  ∃ ssv ci, packet_bounded (mv_netCfg (ref_env ref_now)) (GetRoleType (sv_MsgID ssv))
      (Z.of_nat (length (ci_validatorIndices ci))) (Z.of_nat (length (ps_Messages packet))) ∧ s_SSVMessage post_consensus = Some ssv ∧ authentic (ref_env ref_now) post_consensus ssv ci.
Proof.
  destruct (partial_run (handle post_consensus ∅) packet) as (q & Hrun & Hb); [vm_compute; reflexivity|].
  destruct (accepted_partial_sound (ref_env ref_now) no_ctx post_consensus _ "a" ref_now ∅ _ q packet
    (ids_small post_consensus eq_refl) Hrun Hb) as (ssv & ci & signer & Hssv & _ & _ & Hau & _ & Hocc & Hsize & _).
  injection Hssv as <-. split; [by apply (Hocc eq_refl 9)|]. eexists _, ci. split; [exact Hsize|].
  split; [reflexivity|exact Hau].
Defined.


Lemma accepted_within_duty_limit_witness :
  ∃ ci v, (handle post_consensus ∅).1 !! ref_key = Some v ∧
    duties_with v (signerIndex ci 1) 100 3 ≤ 4.
Proof.
  destruct (partial_run (handle post_consensus ∅) packet) as (q & Hrun & Hb); [vm_compute; reflexivity|].
  assert (sv_MsgID (q_SSVMessage q) = ref_key) as Hkey.
  { assert (Ok (sv_MsgID (q_SSVMessage q)) = (q ← (handle post_consensus ∅).2; Ok (sv_MsgID (q_SSVMessage q)) : vres bytes)) as Hm
      by (rewrite Hrun; reflexivity). vm_compute in Hm. by injection Hm. }
  destruct (accepted_within_duty_limit (ref_env ref_now) no_ctx post_consensus _ "a" ref_now ∅ _ q 3 4 1
    (ref_cfg _) empty_wf Hrun) as (ci & v & Hci & Hv & Hle); rewrite ?Hb, ?Hkey in *;
    [reflexivity|by left|].
  exists ci, v. split; [exact Hv|]. apply Hle. vm_compute in Hci. injection Hci as <-. vm_compute. reflexivity.
Defined.

(** The packet is refused as a repetition until the round change, and accepted after it. *)
Definition sent_packet : States := (handle post_consensus ∅).1.
Definition moved_on : States := (handle round_change2 sent_packet).1.
Lemma packet_again :
  partial_body (handle post_consensus sent_packet).2 = None ∧
  partial_body (handle post_consensus moved_on).2 = Some packet.
Proof. split; vm_compute; reflexivity. Qed.

Lemma sent_packet_wf : states_wf sent_packet.
Proof.
  eapply (handlePubsub_wf (ref_env ref_now) no_ctx (ref_pubsub "a" post_consensus) ref_now ∅);
    [apply ref_cfg|apply empty_wf|]. apply surjective_pairing.
Qed.

Definition round_change2_msg : Message :=
  mkMessage RoundChangeMsgType 100 2 ref_key (replicate 32 x05) 0 [] [].



(** A preferences slot of the next epochs does not displace an acceptable one. *)
Lemma ring_keeps_acceptable_slots_witness :
  validateSlotTime (ref_env 0) 100 RoleProposerPreferences 1199000000000 = Ok tt ∧
  validateSlotTime (ref_env 0) 167 RoleProposerPreferences 1612000000000 = Ok tt ∧ 100 < 167.
Proof.
  split; [vm_compute; reflexivity|]. split; [vm_compute; reflexivity|].
  apply (ring_keeps_acceptable_slots (ref_env 0) RoleProposerPreferences 100 167 1199000000000 1612000000000);
    try (by eexists); try done; try (apply ref_clock; lia); unfold max_u64; simpl; lia.
Defined.

Lemma committee_ring_collides_witness :
  validateSlotTime (ref_env 0) 100 RoleCommittee 1608000000000 = Ok tt ∧
  validateSlotTime (ref_env 0) 134 RoleCommittee 1608000000000 = Ok tt.
Proof.
  destruct (committee_ring_collides (ref_env 0) RoleCommittee 100) as (_ & _ & Ha & Hb);
    [by left|apply ref_clock; simpl; lia|lia|].
  split; [exact Ha|exact Hb].
Defined.

