(* ===== verification/Queue.v ===== *)
(** * The message queue of a duty runner (protocol/v2/ssv/queue)

    Accepted messages and the node's own events wait in a queue that is popped by
    priority.  The priority of two messages depends on the state of the runner at
    the time of the pop: [standard_Prior] for validators, [committee_Prior] for
    committees.  The queue is a linked list, newest message first, fed from a
    buffered channel. *)

From stdpp Require Import base list gmap numbers strings sorting.
From Stdlib Require Import Strings.Byte.
From S2P Require Import Prelude Sha256 SpecTypes SpecRef Instance Controller Quorum Network Proposer RoundTimer Subnets.
From S2P Require Import DutyStore Share ValState ValRules Validation.
Open Scope list_scope.
Open Scope Z_scope.

(** ** Scores (messages.go) *)
Record State := mkState {
  st_HasRunningInstance : bool;
  qs_Round : Round;
  qs_Slot : Slot;
  qs_Quorum : Z;
}.

Definition compareHeightOrSlot (state : State) (m : QueueMessage) : Z :=
  match q_Body m with
  | ConsensusBody qbftMsg =>
      if m_Height qbftMsg =? qs_Slot state then 0
      else if qs_Slot state <? m_Height qbftMsg then 1 else -1
  | PartialBody pms =>
      if ps_Slot pms =? qs_Slot state then 0
      else if qs_Slot state <? ps_Slot pms then 1 else -1
  | EventBody _ => -1
  end.

Definition scoreRound (state : State) (m : QueueMessage) : Z :=
  match q_Body m with
  | ConsensusBody qbftMsg =>
      if m_Round qbftMsg =? qs_Round state then 2
      else if qs_Round state <? m_Round qbftMsg then 1 else -1
  | _ => 0
  end.

Definition scoreMessageType (m : QueueMessage) : Z :=
  match q_Body m with
  | EventBody mm => match ev_Type mm with EventExecuteDuty => 3 | EventTimeout => 2 | _ => 0 end
  | _ => 0
  end.

Record messageClassification := mkClassification {
  isConsensusMessage : bool;
  isPreConsensusMessage : bool;
  isPostConsensusMessage : bool;
  consensusMsgType : MessageType;
}.

(** The zero message type is the proposal's. *)
Definition classifyMessage (m : QueueMessage) : messageClassification :=
  match q_Body m with
  | ConsensusBody mm => mkClassification true false false (m_MsgType mm)
  | PartialBody mm =>
      let post := bool_decide (ps_Type mm = PostConsensusPartialSig) in
      mkClassification false (negb post) post ProposalMsgType
  | EventBody _ => mkClassification false false false ProposalMsgType
  end.

Definition isDecidedMessage (s : State) (m : QueueMessage) : result goerr bool :=
  match q_Body m with
  | ConsensusBody consensusMessage =>
      if bool_decide (m_MsgType consensusMessage = CommitMsgType) then
        match q_SignedSSVMessage m with
        | None => Panic
        | Some signed => Ok (qs_Quorum s <? Z.of_nat (length (s_OperatorIDs signed)))
        end
      else Ok false
  | _ => Ok false
  end.

(** The first case that holds, else 0. *)
Fixpoint score_of (cases : list (bool * Z)) : Z :=
  match cases with [] => 0 | (b, n) :: cases => if b : bool then n else score_of cases end.

Definition scoreMessageSubtype (state : State) (m : QueueMessage) (relativeHeight : Z)
    : result goerr Z :=
  let c := classifyMessage m in
  if relativeHeight =? 0 then
    Ok (if st_HasRunningInstance state
        then score_of [(isConsensusMessage c, 3); (isPreConsensusMessage c, 2);
                       (isPostConsensusMessage c, 1)]
        else score_of [(isPreConsensusMessage c, 3); (isPostConsensusMessage c, 2);
                       (isConsensusMessage c, 1)])
  else if relativeHeight =? 1 then
    decided ← isDecidedMessage state m;
    Ok (score_of [(decided, 4); (isPreConsensusMessage c, 3); (isConsensusMessage c, 2);
                  (isPostConsensusMessage c, 1)])
  else
    decided ← isDecidedMessage state m;
    Ok (score_of [(decided, 2);
                  (isConsensusMessage c && bool_decide (consensusMsgType c = CommitMsgType), 1)]).

Definition scoreCommitteeMessageSubtype (state : State) (m : QueueMessage) (relativeHeight : Z)
    : result goerr Z :=
  let c := classifyMessage m in
  if relativeHeight =? 0 then
    Ok (if st_HasRunningInstance state
        then score_of [(isPostConsensusMessage c, 4); (isConsensusMessage c, 3);
                       (isPreConsensusMessage c, 2)]
        else score_of [(isPostConsensusMessage c, 3); (isPreConsensusMessage c, 2);
                       (isConsensusMessage c, 1)])
  else if relativeHeight =? 1 then
    if isPostConsensusMessage c then Ok 4
    else
      decided ← isDecidedMessage state m;
      Ok (score_of [(decided, 3); (isPreConsensusMessage c, 2); (isConsensusMessage c, 1)])
  else
    decided ← isDecidedMessage state m;
    Ok (score_of [(decided, 2);
                  (isConsensusMessage c && bool_decide (consensusMsgType c = CommitMsgType), 1)]).

Definition scoreConsensusType (m : QueueMessage) : Z :=
  match q_Body m with
  | ConsensusBody qbftMsg =>
      match m_MsgType qbftMsg with
      | ProposalMsgType => 4 | PrepareMsgType => 3 | CommitMsgType => 2 | RoundChangeMsgType => 1
      | UnknownMsgType _ => 0
      end
  | _ => 0
  end.

(** ** Prioritizers (message_prioritizer.go) *)
Definition scoreHeight (relativeHeight : Z) : Z :=
  if relativeHeight =? 0 then 2 else if relativeHeight =? 1 then 1 else 0.

Definition standard_Prior (state : State) (a b : QueueMessage) : result goerr bool :=
  let msgScoreA := scoreMessageType a in
  let msgScoreB := scoreMessageType b in
  if negb (msgScoreA =? msgScoreB) then Ok (msgScoreB <? msgScoreA) else
  let relativeHeightA := compareHeightOrSlot state a in
  let relativeHeightB := compareHeightOrSlot state b in
  if negb (relativeHeightA =? relativeHeightB)
  then Ok (scoreHeight relativeHeightB <? scoreHeight relativeHeightA) else
  scoreA ← scoreMessageSubtype state a relativeHeightA;
  scoreB ← scoreMessageSubtype state b relativeHeightB;
  if negb (scoreA =? scoreB) then Ok (scoreB <? scoreA) else
  let scoreA := scoreRound state a in
  let scoreB := scoreRound state b in
  if negb (scoreA =? scoreB) then Ok (scoreB <? scoreA) else
  let scoreA := scoreConsensusType a in
  let scoreB := scoreConsensusType b in
  if negb (scoreA =? scoreB) then Ok (scoreB <? scoreA) else
  Ok true.

Definition committee_Prior (state : State) (a b : QueueMessage) : result goerr bool :=
  let msgScoreA := scoreMessageType a in
  let msgScoreB := scoreMessageType b in
  if negb (msgScoreA =? msgScoreB) then Ok (msgScoreB <? msgScoreA) else
  let relativeHeightA := compareHeightOrSlot state a in
  let relativeHeightB := compareHeightOrSlot state b in
  if negb (relativeHeightA =? relativeHeightB)
  then Ok (scoreHeight relativeHeightB <? scoreHeight relativeHeightA) else
  scoreA ← scoreCommitteeMessageSubtype state a relativeHeightA;
  scoreB ← scoreCommitteeMessageSubtype state b relativeHeightB;
  if negb (scoreA =? scoreB) then Ok (scoreB <? scoreA) else
  let scoreA := scoreConsensusType a in
  let scoreB := scoreConsensusType b in
  if negb (scoreA =? scoreB) then Ok (scoreB <? scoreA) else
  Ok true.

(** MessagePrioritizer: what the queue knows of a prioritizer. *)
Class MessagePrioritizer := Prior : QueueMessage → QueueMessage → result goerr bool.
Abbreviation NewMessagePrioritizer state := (standard_Prior state) (only parsing).
Abbreviation NewCommitteeQueuePrioritizer state := (committee_Prior state) (only parsing).

(** ** The queue (queue.go) *)
Record priorityQueue := mkQueue {
  pq_head : list QueueMessage;          (* the linked list, newest first *)
  pq_inbox : list QueueMessage;         (* the channel, oldest first, then its blocked senders *)
  pq_capacity : nat;
  pq_lastRead : option Time;            (* None is the zero time, long before any other *)
}.
Abbreviation Filter := (QueueMessage → bool).

Abbreviation inboxReadFrequency := 1000000 (only parsing).

Definition New_queue (capacity : nat) : priorityQueue := mkQueue [] [] capacity None.

(** A message beyond the capacity waits with its sender, in turn, until a receive makes room. *)
Definition Push (msg : QueueMessage) (q : priorityQueue) : priorityQueue :=
  mkQueue (pq_head q) (pq_inbox q ++ [msg]) (pq_capacity q) (pq_lastRead q).

Definition TryPush (msg : QueueMessage) (q : priorityQueue) : priorityQueue * bool :=
  if (length (pq_inbox q) <? pq_capacity q)%nat
  then (Push msg q, true) else (q, false).

Definition readInbox (now : Time) (q : priorityQueue) : priorityQueue :=
  mkQueue (foldl (λ head msg, msg :: head) (pq_head q) (pq_inbox q)) [] (pq_capacity q) (Some now).

(** The loop of [pop] over the nodes after the head: [highest] is the best message so
    far with its position. *)
Fixpoint pop_loop `{MessagePrioritizer} (filter : Filter) (i : nat) (l : list QueueMessage)
    (highest : option (nat * QueueMessage)) : result goerr (option (nat * QueueMessage)) :=
  match l with
  | [] => Ok highest
  | next :: l =>
      better ← match highest with None => Ok true | Some (_, h) => Prior next h end;
      pop_loop filter (S i) l (if better && filter next then Some (i, next) else highest)
  end.

Definition pop `{MessagePrioritizer} (filter : Filter) (head : list QueueMessage)
    : result goerr (option QueueMessage * list QueueMessage) :=
  match head with
  | [] => Panic
  | [m] => Ok (if filter m then (Some m, []) else (None, [m]))
  | current :: rest =>
      highest ← pop_loop filter 1 rest (if filter current then Some (0%nat, current) else None);
      Ok (match highest with
          | None => (None, head)
          | Some (i, m) => (Some m, delete i head)
          end)
  end.

Definition with_head (head : list QueueMessage) (q : priorityQueue) : priorityQueue :=
  mkQueue head (pq_inbox q) (pq_capacity q) (pq_lastRead q).

Definition pop_head `{MessagePrioritizer} (filter : Filter) (q : priorityQueue)
    : result goerr (option QueueMessage * priorityQueue) :=
  match pq_head q with
  | [] => Ok (None, q)
  | head => '(m, head) ← pop filter head; Ok (m, with_head head q)
  end.

Definition TryPop `{MessagePrioritizer} (filter : Filter) (now : Time) (q : priorityQueue)
    : result goerr (option QueueMessage * priorityQueue) :=
  pop_head filter (readInbox now q).

(** The wait of [Pop]: it receives from the channel until a message passes the filter.
    The context is done after at most [patience] receives; with both possible the choice
    is not determined. *)
Fixpoint wait_loop (filter : Filter) (patience : nat) (inbox head : list QueueMessage)
    : list QueueMessage * list QueueMessage :=
  match patience, inbox with
  | S patience, msg :: inbox =>
      if filter msg then (msg :: head, inbox) else wait_loop filter patience inbox (msg :: head)
  | _, _ => (head, inbox)
  end.

Abbreviation due now lastRead :=
  (match lastRead with None => true | Some t => inboxReadFrequency <? time_Sub now t end) (only parsing).

(** [Pop] at time [now]; [arrivals] is what other goroutines push during the call, and
    [later] the time it reads the inbox again. *)
Definition Pop `{MessagePrioritizer} (filter : Filter) (now later : Time)
    (patience : nat) (arrivals : list QueueMessage) (q : priorityQueue)
    : result goerr (option QueueMessage * priorityQueue) :=
  let q := if due now (pq_lastRead q) then readInbox now q else q in
  '(m, q) ← pop_head filter q;
  match m with
  | Some m => Ok (Some m, mkQueue (pq_head q) (pq_inbox q ++ arrivals) (pq_capacity q) (pq_lastRead q))
  | None =>
      let '(head, inbox) := wait_loop filter patience (pq_inbox q ++ arrivals) (pq_head q) in
      TryPop filter later (mkQueue head inbox (pq_capacity q) (pq_lastRead q))
  end.

Fixpoint purge_loop (shouldDrop : Filter) (l : list QueueMessage)
    : list QueueMessage * list QueueMessage :=
  match l with
  | [] => ([], [])
  | current :: l =>
      let '(kept, removed) := purge_loop shouldDrop l in
      if shouldDrop current then (kept, current :: removed) else (current :: kept, removed)
  end.

(** [Purge]: the messages passed to [onRemoved], in order; their number is returned. *)
Definition Purge (shouldDrop : Filter) (now : Time) (q : priorityQueue)
    : list QueueMessage * priorityQueue :=
  let q := readInbox now q in
  let '(kept, removed) := purge_loop shouldDrop (pq_head q) in
  (removed, with_head kept q).

(** len of the channel: the messages in its buffer. *)
Abbreviation inbox_len q := (Nat.min (length (pq_inbox q)) (pq_capacity q)) (only parsing).
Definition Empty (q : priorityQueue) : bool :=
  (length (pq_head q) =? 0)%nat && (inbox_len q =? 0)%nat.
Definition Len (q : priorityQueue) : nat := inbox_len q + length (pq_head q).

(** ** What a prioritizer promises *)
Class TotalPriority (P : MessagePrioritizer) (valid : QueueMessage → Prop) : Prop := {
  prior_defined a b : valid a → valid b → ∃ v, P a b = Ok v;
  prior_total a b : valid a → valid b → P a b = Ok true ∨ P b a = Ok true;
  prior_trans a b c : valid a → valid b → valid c →
    P a b = Ok true → P b c = Ok true → P a c = Ok true;
}.

(** Scores compared from the first to the last. *)
Fixpoint lex (xs ys : list Z) : bool :=
  match xs, ys with
  | x :: xs, y :: ys => if x =? y then lex xs ys else y <? x
  | _, _ => true
  end.

Lemma lex_total xs ys : lex xs ys = true ∨ lex ys xs = true.
Proof.
  revert ys. induction xs as [|x xs IH]; intros [|y ys]; simpl; auto.
  rewrite (Z.eqb_sym y x). destruct (Z.eqb_spec x y); [apply IH|]. rewrite !Z.ltb_lt. lia.
Qed.

Lemma lex_trans xs ys zs :
  length xs = length ys → length ys = length zs →
  lex xs ys = true → lex ys zs = true → lex xs zs = true.
Proof.
  revert ys zs. induction xs as [|x xs IH]; intros [|y ys] [|z zs]; try done. simpl.
  intros Hl1 Hl2.
  destruct (Z.eqb_spec x y), (Z.eqb_spec y z), (Z.eqb_spec x z); subst; rewrite ?Z.ltb_lt; intros H1 H2;
    try lia; try done. by apply (IH ys); [lia|lia|..].
Qed.

(** A prioritizer that compares scores. *)
Lemma total_by_score (P : MessagePrioritizer) (valid : QueueMessage → Prop)
    (score : QueueMessage → list Z) n :
  (∀ m, length (score m) = n) →
  (∀ a b, valid a → valid b → P a b = Ok (lex (score a) (score b))) → TotalPriority P valid.
Proof.
  intros Hn HP. split.
  - intros a b Ha Hb. rewrite HP by done. by eexists.
  - intros a b Ha Hb. rewrite !HP by done. destruct (lex_total (score a) (score b)) as [->| ->]; auto.
  - intros a b c Ha Hb Hc. rewrite !HP by done. intros [= H1] [= H2]. f_equal.
    eapply lex_trans; [| |exact H1|exact H2]; by rewrite !Hn.
Qed.

(** Messages as the node decodes them: only its own events have no signed message. *)
Definition decoded (m : QueueMessage) : Prop :=
  match q_Body m with ConsensusBody _ => is_Some (q_SignedSSVMessage m) | _ => True end.

Lemma isDecided_ok state m : decoded m → ∃ v, isDecidedMessage state m = Ok v.
Proof.
  unfold decoded, isDecidedMessage. destruct (q_Body m); [|by eauto..].
  intros [sm ->]. destruct (bool_decide _); eauto.
Qed.

Definition ok_or_zero (r : result goerr Z) : Z := match r with Ok z => z | _ => 0 end.

Lemma subtype_ok state m rel : decoded m →
  scoreMessageSubtype state m rel = Ok (ok_or_zero (scoreMessageSubtype state m rel)) ∧
  scoreCommitteeMessageSubtype state m rel = Ok (ok_or_zero (scoreCommitteeMessageSubtype state m rel)).
Proof.
  intros Hm. destruct (isDecided_ok state m Hm) as [v Hv].
  unfold scoreMessageSubtype, scoreCommitteeMessageSubtype. rewrite Hv.
  destruct (rel =? 0), (rel =? 1), (isPostConsensusMessage (classifyMessage m)); done.
Qed.

Definition standard_score (state : State) (m : QueueMessage) : list Z :=
  [scoreMessageType m; scoreHeight (compareHeightOrSlot state m);
   ok_or_zero (scoreMessageSubtype state m (compareHeightOrSlot state m));
   scoreRound state m; scoreConsensusType m].
Definition committee_score (state : State) (m : QueueMessage) : list Z :=
  [scoreMessageType m; scoreHeight (compareHeightOrSlot state m);
   ok_or_zero (scoreCommitteeMessageSubtype state m (compareHeightOrSlot state m));
   scoreConsensusType m].

Lemma scoreHeight_inj state a b :
  (compareHeightOrSlot state a =? compareHeightOrSlot state b)
  = (scoreHeight (compareHeightOrSlot state a) =? scoreHeight (compareHeightOrSlot state b)).
Proof.
  assert (∀ m, compareHeightOrSlot state m ∈ [0; 1; -1]) as Hr.
  { intros m. unfold compareHeightOrSlot. destruct (q_Body m);
      repeat match goal with |- context [if ?b then _ else _] => destruct b end; set_solver. }
  pose proof (Hr a) as Ha. pose proof (Hr b) as Hb.
  repeat (apply elem_of_cons in Ha as [->|Ha]; [|try by apply not_elem_of_nil in Ha]);
  repeat (apply elem_of_cons in Hb as [->|Hb]; [|try by apply not_elem_of_nil in Hb]); done.
Qed.

Lemma standard_Prior_score state a b :
  decoded a → decoded b →
  standard_Prior state a b = Ok (lex (standard_score state a) (standard_score state b)).
Proof.
  intros Ha Hb. unfold standard_Prior, standard_score. rewrite scoreHeight_inj.
  destruct (subtype_ok state a (compareHeightOrSlot state a) Ha) as [-> _].
  destruct (subtype_ok state b (compareHeightOrSlot state b) Hb) as [-> _]. simpl.
  repeat (destruct (_ =? _); simpl; [|done]). done.
Qed.
Lemma committee_Prior_score state a b :
  decoded a → decoded b →
  committee_Prior state a b = Ok (lex (committee_score state a) (committee_score state b)).
Proof.
  intros Ha Hb. unfold committee_Prior, committee_score. rewrite scoreHeight_inj.
  destruct (subtype_ok state a (compareHeightOrSlot state a) Ha) as [_ ->].
  destruct (subtype_ok state b (compareHeightOrSlot state b) Hb) as [_ ->]. simpl.
  repeat (destruct (_ =? _); simpl; [|done]). done.
Qed.

#[global] Instance standard_total state : TotalPriority (NewMessagePrioritizer state) decoded.
Proof. apply (total_by_score _ _ (standard_score state) 5); [done|]. apply standard_Prior_score. Qed.
#[global] Instance committee_total state :
  TotalPriority (NewCommitteeQueuePrioritizer state) decoded.
Proof. apply (total_by_score _ _ (committee_score state) 4); [done|]. apply committee_Prior_score. Qed.

(** ** Popping *)
Section pop.
Context (P : MessagePrioritizer) (valid : QueueMessage → Prop) `{!TotalPriority P valid}.
Context (keep : Filter).

(** The best of the messages seen so far, at its position: of the first rank, and before
    every other message of its rank in the list. *)
Definition best (seen : list QueueMessage) (highest : option (nat * QueueMessage)) : Prop :=
  match highest with
  | None => ∀ x, x ∈ seen → keep x = false
  | Some (i, m) => seen !! i = Some m ∧ keep m = true ∧
      ∀ j x, seen !! j = Some x → keep x = true →
        P m x = Ok true ∧ ((i < j)%nat → P x m = Ok false)
  end.

Lemma best_snoc_skip seen highest x : best seen highest → keep x = false → best (seen ++ [x]) highest.
Proof.
  destruct highest as [[i m]|]; simpl.
  - intros (Hi & Hm & Hall) Hx. split; [by apply lookup_app_l_Some|]. split; [done|].
    intros j y [Hj|[? [? Hj]%list_lookup_singleton_Some]]%lookup_app_Some Hy; [by apply Hall|]. congruence.
  - intros Hall Hx y [Hy| ->%list_elem_of_singleton]%elem_of_app; auto.
Qed.

Lemma prior_self x : valid x → P x x = Ok true.
Proof. intros Hx. by destruct (prior_total x x Hx Hx). Qed.

Lemma best_snoc_better seen highest x :
  Forall valid seen → valid x → keep x = true → best seen highest →
  match highest with None => True | Some (_, h) => P x h = Ok true end →
  best (seen ++ [x]) (Some (length seen, x)).
Proof.
  intros Hv Hx Hk Hb Hbetter. split; [by apply list_lookup_middle|]. split; [done|].
  intros j y [Hj|[? [? Hj]%list_lookup_singleton_Some]]%lookup_app_Some Hy.
  - split; [|intros Hlt; apply lookup_lt_Some in Hj; lia].
    destruct highest as [[i h]|]; simpl in Hb.
    + destruct Hb as (Hi & _ & Hall). destruct (Hall j y Hj Hy) as [Hhy _].
      rewrite Forall_lookup in Hv. eapply (prior_trans x h y); eauto.
    + apply list_elem_of_lookup_2 in Hj. rewrite (Hb y Hj) in Hy. done.
  - subst y. split; [by apply prior_self|]. lia.
Qed.

Lemma best_snoc_worse seen i h x :
  valid h → valid x → best seen (Some (i, h)) → P x h = Ok false → best (seen ++ [x]) (Some (i, h)).
Proof.
  intros Hh Hx (Hi & Hm & Hall) Hworse. split; [by apply lookup_app_l_Some|]. split; [done|].
  intros j y [Hj|[? [? Hj]%list_lookup_singleton_Some]]%lookup_app_Some Hy; [by apply Hall|].
  subst y. split; [|done]. destruct (prior_total x h Hx Hh); congruence.
Qed.

Lemma pop_loop_best l seen highest :
  Forall valid seen → Forall valid l → best seen highest →
  ∃ highest', pop_loop (H := P) keep (length seen) l highest = Ok highest' ∧ best (seen ++ l) highest'.
Proof.
  revert seen highest. induction l as [|x l IH]; intros seen highest Hs Hl Hb; simpl.
  { exists highest. by rewrite app_nil_r. }
  apply Forall_cons in Hl as [Hx Hl].
  assert (valid x → ∃ better, match highest with None => Ok true | Some (_, h) => P x h end = Ok better)
    as (better & Hbetter); [|done|].
  { intros _. destruct highest as [[i h]|]; [|by eauto]. destruct Hb as (Hi & _).
    apply prior_defined; [done|]. rewrite Forall_lookup in Hs. by eapply Hs. }
  unfold Prior. rewrite Hbetter. simpl.
  replace (S (length seen)) with (length (seen ++ [x])) by (rewrite length_app; simpl; lia).
  replace (seen ++ x :: l) with ((seen ++ [x]) ++ l) by (by rewrite <-app_assoc).
  apply IH; [by apply Forall_app; split; [|constructor]|done|].
  destruct better; simpl.
  - destruct (keep x) eqn:Hk; [|by apply best_snoc_skip]. apply (best_snoc_better _ highest); try done.
    by destruct highest as [[]|].
  - destruct highest as [[i h]|]; [|done]. apply best_snoc_worse; try done.
    destruct Hb as (Hi & _). rewrite Forall_lookup in Hs. by eapply Hs.
Qed.

Lemma pop_spec l :
  l ≠ [] → Forall valid l →
  ∃ highest, best l highest ∧
    pop (H := P) keep l = Ok match highest with None => (None, l) | Some (i, m) => (Some m, delete i l) end.
Proof.
  destruct l as [|m rest]; [done|]. intros _ Hv. pose proof Hv as [Hm Hrest]%Forall_cons.
  destruct (pop_loop_best rest [m] (if keep m then Some (0%nat, m) else None)) as (highest & Hloop & Hb).
  { by constructor. }
  { done. }
  { destruct (keep m) eqn:Hk; simpl.
    - split; [done|]. split; [done|]. intros [|j] x Hj _; simplify_eq/=. split; [by apply prior_self|lia].
    - by intros x ->%list_elem_of_singleton. }
  simpl in Hloop, Hb. exists highest. split; [exact Hb|].
  unfold pop. destruct rest as [|n rest]; [|by rewrite Hloop].
  simpl in Hloop. injection Hloop as <-. by destruct (keep m).
Qed.
End pop.

(** C24. A pop takes the message of the highest priority: on decoded messages, whatever the
    state of the runner, the pop of either queue never panics, returns nothing only when no
    message passes the filter and then changes nothing, and otherwise removes one message
    that passes, that every other such message gives way to, and that is the oldest of its
    rank; the order of the others is unchanged. *)
Theorem pop_takes_highest_oldest state committee keep l :
  l ≠ [] → Forall decoded l →
  let P := (if committee : bool then NewCommitteeQueuePrioritizer state
            else NewMessagePrioritizer state) in
  ∃ m rest, pop (H := P) keep l = Ok (m, rest) ∧
    match m with
    | None => rest = l ∧ ∀ x, x ∈ l → keep x = false
    | Some m => ∃ newer older, l = newer ++ m :: older ∧ rest = newer ++ older ∧ keep m = true ∧
        (∀ x, x ∈ l → keep x = true → P m x = Ok true) ∧
        (∀ x, x ∈ older → keep x = true → P x m = Ok false)
    end.
Proof.
  intros Hl Hv P. assert (TotalPriority P decoded) by (unfold P; destruct committee; apply _).
  destruct (pop_spec P decoded keep l Hl Hv) as ([[i m]|] & Hb & Hpop); rewrite Hpop; do 2 eexists;
    (split; [done|]); simpl in Hb; [|done].
  destruct Hb as (Hi & Hk & Hall). exists (take i l), (drop (S i) l).
  split; [by rewrite take_drop_middle|]. split; [apply delete_take_drop|]. split; [done|]. split.
  - intros x [j Hj]%list_elem_of_lookup_1 Hx. by apply (Hall j x).
  - intros x [j Hj]%list_elem_of_lookup_1 Hx. rewrite lookup_drop in Hj.
    apply (Hall (S i + j)%nat x); [done..|lia].
Qed.

(** The prioritizers order messages: on decoded messages neither panics, of two messages
    one has priority over the other, and priority is transitive. *)
Theorem priorities_total_preorder state a b c :
  decoded a → decoded b → decoded c →
  (∃ v w, standard_Prior state a b = Ok v ∧ committee_Prior state a b = Ok w) ∧
  (standard_Prior state a b = Ok true ∨ standard_Prior state b a = Ok true) ∧
  (committee_Prior state a b = Ok true ∨ committee_Prior state b a = Ok true) ∧
  (standard_Prior state a b = Ok true → standard_Prior state b c = Ok true →
   standard_Prior state a c = Ok true) ∧
  (committee_Prior state a b = Ok true → committee_Prior state b c = Ok true →
   committee_Prior state a c = Ok true).
Proof.
  intros Ha Hb Hc. pose proof (standard_total state) as [Hd Ht Htr].
  pose proof (committee_total state) as [Hd' Ht' Htr'].
  destruct (Hd a b Ha Hb) as [v Hv]. destruct (Hd' a b Ha Hb) as [w Hw].
  split; [by exists v, w|]. split; [by apply Ht|]. split; [by apply Ht'|]. eauto.
Qed.

(** ** Runs of the queue *)
Inductive QueueOp :=
| OpPush (msg : QueueMessage)
| OpTryPush (msg : QueueMessage)
| OpTryPop (P : MessagePrioritizer) (keep : Filter) (now : Time)
| OpPop (P : MessagePrioritizer) (keep : Filter) (now later : Time) (patience : nat)
        (arrivals : list QueueMessage)
| OpPurge (shouldDrop : Filter) (now : Time).

(** The messages an operation put into the queue, those it took out, and the queue. *)
Definition run_qop (op : QueueOp) (q : priorityQueue)
    : result goerr (list QueueMessage * list QueueMessage * priorityQueue) :=
  match op with
  | OpPush msg => Ok ([msg], [], Push msg q)
  | OpTryPush msg => let '(q, pushed) := TryPush msg q in Ok (if pushed then [msg] else [], [], q)
  | OpTryPop P keep now => '(m, q) ← TryPop (H := P) keep now q; Ok ([], option_list m, q)
  | OpPop P keep now later patience arrivals =>
      '(m, q) ← Pop (H := P) keep now later patience arrivals q; Ok (arrivals, option_list m, q)
  | OpPurge shouldDrop now => let '(removed, q) := Purge shouldDrop now q in Ok ([], removed, q)
  end.
Fixpoint run_queue (ops : list QueueOp) (q : priorityQueue)
    : result goerr (list QueueMessage * list QueueMessage * priorityQueue) :=
  match ops with
  | [] => Ok ([], [], q)
  | op :: ops =>
      '(pushed, taken, q) ← run_qop op q;
      '(pushed', taken', q) ← run_queue ops q;
      Ok (pushed ++ pushed', taken ++ taken', q)
  end.

Definition contents (q : priorityQueue) : list QueueMessage := pq_head q ++ pq_inbox q.

(** The operation uses an ordering of decoded messages, and pushes decoded messages. *)
Definition qop_ok (op : QueueOp) : Prop :=
  match op with
  | OpPush msg | OpTryPush msg => decoded msg
  | OpTryPop P _ _ => TotalPriority P decoded
  | OpPop P _ _ _ _ arrivals => TotalPriority P decoded ∧ Forall decoded arrivals
  | OpPurge _ _ => True
  end.

Lemma read_contents now q : contents (readInbox now q) ≡ₚ contents q.
Proof.
  unfold contents, readInbox. simpl. rewrite app_nil_r.
  generalize (pq_head q). induction (pq_inbox q) as [|m l IH]; intros head; simpl; [by rewrite app_nil_r|].
  rewrite IH. by rewrite (Permutation_cons_append head m), <-app_assoc.
Qed.

Lemma wait_contents keep patience inbox head h i :
  wait_loop keep patience inbox head = (h, i) → h ++ i ≡ₚ head ++ inbox.
Proof.
  revert inbox head. induction patience as [|patience IH]; intros [|m inbox] head; simpl; intros Hw; simplify_eq; try done.
  destruct (keep m); simplify_eq.
  - simpl. apply Permutation_middle.
  - rewrite (IH _ _ Hw). simpl. apply Permutation_middle.
Qed.

Lemma purge_contents drop_it l kept removed :
  purge_loop drop_it l = (kept, removed) → l ≡ₚ removed ++ kept.
Proof.
  revert kept removed. induction l as [|m l IH]; simpl; intros kept removed Hp; simplify_eq; [done|].
  destruct (purge_loop drop_it l) as [k r]. specialize (IH k r eq_refl).
  destruct (drop_it m); simplify_eq; rewrite IH; [done|]. apply Permutation_middle.
Qed.

Lemma pop_head_contents (P : MessagePrioritizer) keep q :
  TotalPriority P decoded → Forall decoded (contents q) →
  ∃ m q', pop_head (H := P) keep q = Ok (m, q') ∧ contents q ≡ₚ option_list m ++ contents q' ∧
    pq_inbox q' = pq_inbox q.
Proof.
  intros HP Hv. unfold pop_head, contents in *. apply Forall_app in Hv as [Hv _].
  destruct (pq_head q) as [|m l] eqn:E.
  { exists None, q. by rewrite E. }
  destruct (pop_spec P decoded keep (m :: l)) as (highest & Hb & Hpop); [done|done|].
  rewrite Hpop. destruct highest as [[i x]|]; simpl; do 2 eexists; (split; [done|]); simpl; (split; [|done]); [|done].
  destruct Hb as (Hi & _). change (m :: l ++ pq_inbox q) with ((m :: l) ++ pq_inbox q).
  change (x :: delete i (m :: l) ++ pq_inbox q) with ((x :: delete i (m :: l)) ++ pq_inbox q).
  apply Permutation_app_tail. by apply delete_Permutation.
Qed.

Lemma TryPop_contents (P : MessagePrioritizer) keep now q :
  TotalPriority P decoded → Forall decoded (contents q) →
  ∃ m q', TryPop (H := P) keep now q = Ok (m, q') ∧ contents q ≡ₚ option_list m ++ contents q'.
Proof.
  intros HP Hv. destruct (pop_head_contents P keep (readInbox now q) HP) as (m & q' & Hpop & Hc & _).
  { by rewrite read_contents. }
  exists m, q'. split; [exact Hpop|]. by rewrite <-Hc, read_contents.
Qed.

Lemma Pop_contents (P : MessagePrioritizer) keep now later patience arrivals q :
  TotalPriority P decoded → Forall decoded (contents q) → Forall decoded arrivals →
  ∃ m q', Pop (H := P) keep now later patience arrivals q = Ok (m, q') ∧
    contents q ++ arrivals ≡ₚ option_list m ++ contents q'.
Proof.
  intros HP Hv Ha. unfold Pop.
  set (q1 := if due now (pq_lastRead q) then readInbox now q else q).
  assert (contents q1 ≡ₚ contents q) as Hq1 by (unfold q1; destruct (due _ _); [apply read_contents|done]).
  destruct (pop_head_contents P keep q1 HP) as (m & q2 & Hpop & Hc & Hin); [by rewrite Hq1|].
  rewrite Hpop. simpl. destruct m as [m|]; simpl in Hc.
  { do 2 eexists. split; [done|]. rewrite <-Hq1, Hc. unfold contents. simpl. by rewrite <-app_assoc. }
  destruct (wait_loop keep patience (pq_inbox q2 ++ arrivals) (pq_head q2)) as [h i] eqn:Hw.
  apply wait_contents in Hw.
  assert (contents (mkQueue h i (pq_capacity q2) (pq_lastRead q2)) ≡ₚ contents q ++ arrivals) as Hc2.
  { unfold contents at 1. simpl. rewrite Hw, <-Hq1, Hc. unfold contents. by rewrite app_assoc. }
  destruct (TryPop_contents P keep later (mkQueue h i (pq_capacity q2) (pq_lastRead q2)) HP) as (m' & q' & -> & Hc').
  { rewrite Hc2. by apply Forall_app. }
  exists m', q'. split; [done|]. by rewrite <-Hc2.
Qed.

Lemma run_qop_contents op q :
  qop_ok op → Forall decoded (contents q) →
  ∃ pushed taken q', run_qop op q = Ok (pushed, taken, q') ∧
    contents q ++ pushed ≡ₚ taken ++ contents q' ∧ Forall decoded (contents q').
Proof.
  intros Hop Hv. assert (∃ pushed taken q', run_qop op q = Ok (pushed, taken, q') ∧
    contents q ++ pushed ≡ₚ taken ++ contents q' ∧ Forall decoded pushed) as (pushed & taken & q' & Hrun & Hc & Hp).
  { destruct op as [msg|msg|P keep now|P keep now later patience arrivals|dropit now]; simpl in *.
    - do 3 eexists. split; [done|]. unfold contents. simpl. by rewrite <-app_assoc; repeat constructor.
    - unfold TryPush. destruct (_ <? _)%nat; do 3 eexists; (split; [done|]); simpl.
      + unfold contents. simpl. by rewrite <-app_assoc; repeat constructor.
      + by rewrite app_nil_r.
    - destruct (TryPop_contents P keep now q Hop Hv) as (m & q' & -> & Hc).
      do 3 eexists. split; [done|]. by rewrite app_nil_r.
    - destruct Hop as [HP Ha]. destruct (Pop_contents P keep now later patience arrivals q HP Hv Ha) as (m & q' & -> & Hc).
      by do 3 eexists.
    - unfold Purge. destruct (purge_loop dropit (pq_head (readInbox now q))) as [kept removed] eqn:Hl.
      apply purge_contents in Hl. do 3 eexists. split; [done|]. rewrite app_nil_r. split; [|done].
      rewrite <-(read_contents now). unfold contents. simpl in *. by rewrite !app_nil_r. }
  exists pushed, taken, q'. split; [done|]. split; [done|].
  assert (Forall decoded (taken ++ contents q')) as Hall by (rewrite <-Hc; by apply Forall_app).
  by apply Forall_app in Hall as [_ ?].
Qed.

(** The queue neither loses nor duplicates messages, and never panics: after any
    sequence of pushes, pops with any prioritizers and filters, blocking pops with whatever
    arrives while they wait, and purges, the messages pushed are those taken out and those
    still queued; while no sender is blocked, the length reported adds up, and the queue
    reports to be empty exactly when everything pushed was taken out. *)
Theorem queue_conserves_messages ops cap :
  Forall qop_ok ops →
  ∃ pushed taken q, run_queue ops (New_queue cap) = Ok (pushed, taken, q) ∧
    pushed ≡ₚ taken ++ pq_head q ++ pq_inbox q ∧
    ((length (pq_inbox q) ≤ pq_capacity q)%nat →
     (length pushed = length taken + Len q)%nat ∧ (Empty q = true ↔ pushed ≡ₚ taken)).
Proof.
  intros Hops. assert (∀ q, Forall decoded (contents q) → ∃ pushed taken q',
    run_queue ops q = Ok (pushed, taken, q') ∧ contents q ++ pushed ≡ₚ taken ++ contents q') as Hrun.
  { induction Hops as [|op ops Hop Hops IH]; intros q Hv; simpl.
    - do 3 eexists. split; [done|]. by rewrite app_nil_r.
    - destruct (run_qop_contents op q Hop Hv) as (p1 & t1 & q1 & -> & Hc1 & Hv1). simpl.
      destruct (IH q1 Hv1) as (p2 & t2 & q2 & -> & Hc2). simpl. do 3 eexists. split; [done|].
      rewrite app_assoc, Hc1, <-app_assoc, Hc2. by rewrite app_assoc. }
  destruct (Hrun (New_queue cap)) as (pushed & taken & q & Hr & Hc); [constructor|]. simpl in Hc.
  exists pushed, taken, q. split; [done|]. split; [exact Hc|].
  intros Hcap. assert (inbox_len q = length (pq_inbox q)) as Hil by (lia).
  assert (length pushed = length taken + Len q)%nat as Hlen.
  { rewrite Hc. unfold contents, Len. rewrite !length_app. lia. }
  split; [done|]. unfold Empty, Len in *. rewrite Hil in *. rewrite andb_true_iff, !Nat.eqb_eq. split.
  - intros [Hh Hi]. apply nil_length_inv in Hh, Hi. unfold contents in Hc. rewrite Hh, Hi in Hc.
    by rewrite !app_nil_r in Hc.
  - intros Hp%Permutation_length. lia.
Qed.

(** The queues' notion of a decided message is narrower than the controller's: a commit
    signed by exactly a quorum is decided for the controller, but not for the prioritizers,
    which give a decided message of a later or an earlier slot no precedence unless it has
    more signers than a quorum. *)
Theorem quorum_commit_not_prioritized `{Laws : SpecLibLaws} state m sm msg c :
  q_Body m = ConsensusBody msg → m_MsgType msg = CommitMsgType → q_SignedSSVMessage m = Some sm →
  qs_Quorum state = 2 * cm_FaultyNodes (c_CommitteeMember c) + 1 →
  Z.of_nat (length (s_OperatorIDs sm)) = qs_Quorum state →
  isDecidedMsg c (mkPM sm msg) = true ∧ isDecidedMessage state m = Ok false ∧
  (qs_Slot state < m_Height msg → scoreMessageSubtype state m (compareHeightOrSlot state m) = Ok 2) ∧
  (m_Height msg < qs_Slot state → scoreMessageSubtype state m (compareHeightOrSlot state m) = Ok 1).
Proof.
  intros Hb Ht Hs Hq Hn.
  assert (isDecidedMessage state m = Ok false) as Hd.
  { unfold isDecidedMessage. rewrite Hb, Hs, bool_decide_true by done. f_equal. apply Z.ltb_ge. lia. }
  split; [|split; [done|]].
  - unfold isDecidedMsg, pm_Signers, pm_Type. simpl. rewrite bool_decide_true by done.
    rewrite andb_true_r. apply cm_HasQuorum_spec. lia.
  - unfold scoreMessageSubtype, compareHeightOrSlot, classifyMessage. rewrite Hb, Hd. simpl.
    split; intros Hlt; destruct (Z.eqb_spec (m_Height msg) (qs_Slot state)); try lia;
      destruct (Z.ltb_spec (qs_Slot state) (m_Height msg)); try lia; simpl; [done|].
    by rewrite bool_decide_true.
Qed.

(** ** A queue with a round change, an older prepare and a timeout *)
Definition demo_ssv : SSVMessage := mkSSVMessage SSVConsensusMsgType [] [].
Definition demo_message (t : MessageType) (slot : Slot) (signers : list OperatorID) : QueueMessage :=
  mkQueueMessage (Some (mkSigned [] signers (Some demo_ssv) None)) demo_ssv
    (ConsensusBody (mkMessage t slot 1 [] [] 0 [] [])).
Definition demo_event : QueueMessage :=
  mkQueueMessage None demo_ssv (EventBody (mkEventMsg EventTimeout [])).
Definition demo_state : State := mkState true 1 7 3.

Lemma demo_decoded t slot signers : decoded (demo_message t slot signers).
Proof. by eexists. Qed.

Lemma pop_takes_highest_oldest_witness :
  let l := [demo_message PrepareMsgType 7 [2]; demo_message RoundChangeMsgType 7 [1];
            demo_message PrepareMsgType 7 [3]] in
  pop (H := NewMessagePrioritizer demo_state) (λ _, true) l
    = Ok (Some (demo_message PrepareMsgType 7 [3]), take 2 l) ∧
  ∃ m rest, pop (H := NewMessagePrioritizer demo_state) (λ _, true) l = Ok (m, rest) ∧ m ≠ None.
Proof.
  intros l. split; [reflexivity|].
  destruct (pop_takes_highest_oldest demo_state false (λ _, true) l) as (m & rest & Hpop & Hm).
  - done.
  - repeat constructor; by eexists.
  - exists m, rest. split; [exact Hpop|]. destruct m; [done|]. destruct Hm as [_ Hm].
    by specialize (Hm (demo_message PrepareMsgType 7 [2]) ltac:(by left)).
Defined.



