(* ===== verification/ValidatorStore.v ===== *)
(** * The validator store (registry/storage/validatorstore.go)

    The shares the node knows, indexed by validator index, by committee and by
    operator.  Events of the registry add, update and remove shares; the indices are
    kept in step with them.  Shares and committees are reached through pointers: a
    share has its committee identifier cached by the first call of [CommitteeID], so
    the model stores the share after that call. *)

From stdpp Require Import base list gmap numbers strings sorting.
From Stdlib Require Import Strings.Byte.
From S2P Require Import Prelude Sha256 SpecTypes Network Proposer Subnets Share.
Open Scope string_scope.
Open Scope list_scope.
Open Scope Z_scope.
#[local] Opaque ComputeCommitteeID.

Record sharesAndCommittees := mkSharesAndCommittees {
  sc_shares : list SSVShare;
  sc_committees : list Committee;
}.

Record validatorStore := mkValidatorStore {
  byValidatorIndex : gmap ValidatorIndex SSVShare;
  byCommitteeID : gmap bytes Committee;
  byOperatorID : gmap OperatorID sharesAndCommittees;
  pubkeyToIndex : gmap bytes ValidatorIndex;
  indexToPubkey : gmap ValidatorIndex bytes;
}.
Abbreviation StoreM := (ST validatorStore goerr).

Definition newValidatorStore (pubkeyToIndex : gmap bytes ValidatorIndex) : validatorStore :=
  mkValidatorStore ∅ ∅ ∅ pubkeyToIndex
    (map_fold (λ pk idx m, <[idx := pk]> m) ∅ pubkeyToIndex).

(** ** Queries *)
Definition ValidatorIndex_of (pubkey : bytes) (c : validatorStore) : option ValidatorIndex :=
  pubkeyToIndex c !! pubkey.
Definition ValidatorPubkey (index : ValidatorIndex) (c : validatorStore) : option bytes :=
  indexToPubkey c !! index.
Definition ValidatorByIndex (index : ValidatorIndex) (c : validatorStore) : option SSVShare :=
  byValidatorIndex c !! index.
Definition OperatorValidators (id : OperatorID) (c : validatorStore) : list SSVShare :=
  match byOperatorID c !! id with Some data => sc_shares data | None => [] end.
Definition Committee_of (id : bytes) (c : validatorStore) : option Committee :=
  byCommitteeID c !! id.
Definition Committees (c : validatorStore) : list Committee := (map_to_list (byCommitteeID c)).*2.
Definition OperatorCommittees (id : OperatorID) (c : validatorStore) : list Committee :=
  match byOperatorID c !! id with Some data => sc_committees data | None => [] end.

(** The shares and committees that take part in an epoch; a panic of the period
    arithmetic is a panic of the loop. *)
Fixpoint participating {A} (takes_part : A → result goerr bool) (l : list A)
    : result goerr (list A) :=
  match l with
  | [] => Ok []
  | x :: l =>
      p ← takes_part x;
      rest ← participating takes_part l;
      Ok (if p : bool then x :: rest else rest)
  end.
Definition ParticipatingValidators `{Eth2Client} (beaconCfg : Beacon) (shares : list SSVShare)
    (epoch : Epoch) : result goerr (list SSVShare) :=
  participating (IsParticipating beaconCfg epoch) shares.
Definition ParticipatingCommittees `{Eth2Client} (beaconCfg : Beacon) (epoch : Epoch)
    (c : validatorStore) : result goerr (list Committee) :=
  participating (committee_IsParticipating beaconCfg epoch) (Committees c).
Definition SelfValidators (operatorID : option OperatorID) (c : validatorStore) : list SSVShare :=
  match operatorID with None => [] | Some id => OperatorValidators id c end.
Definition SelfParticipatingValidators `{Eth2Client} (beaconCfg : Beacon)
    (operatorID : option OperatorID) (epoch : Epoch) (c : validatorStore)
    : result goerr (list SSVShare) :=
  participating (IsParticipating beaconCfg epoch) (SelfValidators operatorID c).
Definition SelfCommittees (operatorID : option OperatorID) (c : validatorStore) : list Committee :=
  match operatorID with None => [] | Some id => OperatorCommittees id c end.
Definition SelfParticipatingCommittees `{Eth2Client} (beaconCfg : Beacon)
    (operatorID : option OperatorID) (epoch : Epoch) (c : validatorStore)
    : result goerr (list Committee) :=
  participating (committee_IsParticipating beaconCfg epoch) (SelfCommittees operatorID c).

Definition GetFeeRecipient (feeRecipientByOwner : bytes → result goerr bytes) (validatorPK : bytes)
    (c : validatorStore) : result goerr bytes :=
  match pubkeyToIndex c !! validatorPK with
  | None => Err (ENew "validator not found")
  | Some validatorIndex =>
      match byValidatorIndex c !! validatorIndex with
      | None => Err (ENew "validator share is nil for index")
      | Some share =>
          match feeRecipientByOwner (sh_OwnerAddress share) with
          | Err e => Err (EWrap "no fee recipient for owner" e)
          | r => r
          end
      end
  end.

(** ** Committees *)
Definition buildCommittee (shares : list SSVShare) : result goerr Committee :=
  match shares with
  | [] => Panic
  | first :: _ =>
      Ok (mkCommittee (CommitteeID first).1 (sort_ids (sm_Signer <$> sh_Committee first)) shares
            (sh_ValidatorIndex <$> shares) None None)
  end.

Definition same_key (a b : SSVShare) : bool :=
  bool_decide (sh_ValidatorPubKey a = sh_ValidatorPubKey b).
Definition containsShare (shares : list SSVShare) (share : SSVShare) : bool :=
  existsb (λ existing, same_key existing share) shares.

(** The loop of [removeShareFromCommittee]: the shares kept, and whether one was removed. *)
Fixpoint remove_loop (indices : list ValidatorIndex) (share : SSVShare) (i : nat)
    (shares : list SSVShare) : result goerr (list SSVShare * bool) :=
  match shares with
  | [] => Ok ([], false)
  | s :: shares =>
      if same_key s share then
        match indices !! i with
        | None => Panic
        | Some index =>
            fail_if (negb (sh_ValidatorIndex s =? index)) (ENew "share index mismatch") ;;
            '(kept, _) ← remove_loop indices share (S i) shares;
            Ok (kept, true)
        end
      else
        '(kept, removed) ← remove_loop indices share (S i) shares;
        Ok (s :: kept, removed)
  end.

Definition removeShareFromCommittee (committee : Committee) (shareToRemove : SSVShare)
    : result goerr Committee :=
  '(shares, removed) ← remove_loop (co_Indices committee) shareToRemove 0 (co_Shares committee);
  fail_if (negb removed) (ENew "share not found in committee") ;;
  if (length shares =? 0)%nat
  then Ok (mkCommittee (co_ID committee) [] [] [] None None)
  else buildCommittee shares.

Definition updateCommitteeWithShare (committee : Committee) (shareToUpdate : SSVShare)
    : result goerr Committee :=
  let shares := (λ s, if same_key s shareToUpdate then shareToUpdate else s) <$> co_Shares committee in
  fail_if (negb (containsShare (co_Shares committee) shareToUpdate))
    (ENew "share not found in committee") ;;
  buildCommittee shares.

Fixpoint removeShareFromOperator (shares : list SSVShare) (share : SSVShare)
    : option (list SSVShare) :=
  match shares with
  | [] => None
  | s :: shares =>
      if same_key s share then Some shares
      else (λ shares, s :: shares) <$> removeShareFromOperator shares share
  end.

(** The first committee of the same identifier replaced, or [None]. *)
Fixpoint replace_committee (id : bytes) (new : list Committee) (committees : list Committee)
    : option (list Committee) :=
  match committees with
  | [] => None
  | c :: committees =>
      if bool_decide (co_ID c = id) then Some (new ++ committees)
      else (λ committees, c :: committees) <$> replace_committee id new committees
  end.

(** The first share of the same key replaced, or [None]. *)
Fixpoint replace_share (share : SSVShare) (shares : list SSVShare) : option (list SSVShare) :=
  match shares with
  | [] => None
  | s :: shares =>
      if same_key s share then Some (share :: shares)
      else (λ shares, s :: shares) <$> replace_share share shares
  end.

(** ** Events *)
Definition set_index (share : SSVShare) (c : validatorStore) : validatorStore :=
  if HasBeaconMetadata (Some share) then
    mkValidatorStore (<[sh_ValidatorIndex share := share]> (byValidatorIndex c)) (byCommitteeID c)
      (byOperatorID c) (<[sh_ValidatorPubKey share := sh_ValidatorIndex share]> (pubkeyToIndex c))
      (<[sh_ValidatorIndex share := sh_ValidatorPubKey share]> (indexToPubkey c))
  else c.
Definition set_committees (m : gmap bytes Committee) (c : validatorStore) : validatorStore :=
  mkValidatorStore (byValidatorIndex c) m (byOperatorID c) (pubkeyToIndex c) (indexToPubkey c).
Definition set_operators (m : gmap OperatorID sharesAndCommittees) (c : validatorStore)
    : validatorStore :=
  mkValidatorStore (byValidatorIndex c) (byCommitteeID c) m (pubkeyToIndex c) (indexToPubkey c).

(** One operator of an added share. *)
Fixpoint add_operators (share : SSVShare) (committee : Committee) (seen : list OperatorID)
    (operators : list OperatorID) : StoreM unit :=
  match operators with
  | [] => mret tt
  | operator :: operators =>
      st_lift (fail_if (bool_decide (operator ∈ seen)) (ENew "duplicate operator in share")) ;;
      c ← st_get;
      let data := default (mkSharesAndCommittees [] []) (byOperatorID c !! operator) in
      st_lift (fail_if (containsShare (sc_shares data) share)
                 (ENew "share already exists in operator")) ;;
      let committees := default (sc_committees data ++ [committee])
                          (replace_committee (co_ID committee) [committee] (sc_committees data)) in
      st_modify (set_operators (<[operator :=
        mkSharesAndCommittees (sc_shares data ++ [share]) committees]> (byOperatorID c))) ;;
      add_operators share committee (operator :: seen) operators
  end.

Definition add_share (share : SSVShare) : StoreM unit :=
  let '(committeeID, share) := CommitteeID share in
  st_modify (set_index share) ;;
  c ← st_get;
  committee ← st_lift (match byCommitteeID c !! committeeID with
                       | Some committee =>
                           fail_if (containsShare (co_Shares committee) share)
                             (ENew "share already exists in committee") ;;
                           buildCommittee (co_Shares committee ++ [share])
                       | None => buildCommittee [share]
                       end);
  st_modify (set_committees (<[co_ID committee := committee]> (byCommitteeID c))) ;;
  add_operators share committee [] (sm_Signer <$> sh_Committee share).

Fixpoint for_shares (f : SSVShare → StoreM unit) (shares : list (option SSVShare)) : StoreM unit :=
  match shares with
  | [] => mret tt
  | None :: _ => st_err (ENew "nil share")
  | Some share :: shares => f share ;; for_shares f shares
  end.

Definition handleSharesAdded (shares : list (option SSVShare)) : StoreM unit :=
  for_shares add_share shares.

Fixpoint remove_operators (share : SSVShare) (committeeID : bytes) (newCommittee : list Committee)
    (operators : list OperatorID) : StoreM unit :=
  match operators with
  | [] => mret tt
  | operator :: operators =>
      c ← st_get;
      data ← st_lift (match byOperatorID c !! operator with
                      | None => Err (ENew "operator not found")
                      | Some data => Ok data
                      end);
      shares ← st_lift (match removeShareFromOperator (sc_shares data) share with
                        | None => Err (ENew "share not found in operator")
                        | Some shares => Ok shares
                        end);
      let committees := default (sc_committees data)
                          (replace_committee committeeID newCommittee (sc_committees data)) in
      st_modify (set_operators
        (if (length shares =? 0)%nat then delete operator (byOperatorID c)
         else <[operator := mkSharesAndCommittees shares committees]> (byOperatorID c))) ;;
      remove_operators share committeeID newCommittee operators
  end.

Definition handleShareRemoved (share : option SSVShare) : StoreM unit :=
  match share with
  | None => st_err (ENew "nil share")
  | Some share =>
      let '(committeeID, share) := CommitteeID share in
      st_modify (λ c, if HasBeaconMetadata (Some share)
        then mkValidatorStore (delete (sh_ValidatorIndex share) (byValidatorIndex c)) (byCommitteeID c)
               (byOperatorID c) (pubkeyToIndex c) (indexToPubkey c)
        else c) ;;
      c ← st_get;
      committee ← st_lift (match byCommitteeID c !! committeeID with
                           | None => Err (ENew "committee not found")
                           | Some committee => Ok committee
                           end);
      newCommittee ← st_lift (match removeShareFromCommittee committee share with
                              | Err e => Err (EWrap "failed to remove share from committee" e)
                              | r => r
                              end);
      let committeeRemoved := (length (co_Shares newCommittee) =? 0)%nat in
      st_modify (set_committees
        (if committeeRemoved then delete (co_ID newCommittee) (byCommitteeID c)
         else <[co_ID newCommittee := newCommittee]> (byCommitteeID c))) ;;
      remove_operators share committeeID (if committeeRemoved then [] else [newCommittee])
        (sm_Signer <$> sh_Committee share)
  end.

Fixpoint update_operators (share : SSVShare) (committeeID : bytes) (newCommittee : Committee)
    (operators : list OperatorID) : StoreM unit :=
  match operators with
  | [] => mret tt
  | operator :: operators =>
      c ← st_get;
      data ← st_lift (match byOperatorID c !! operator with
                      | None => Err (ENew "operator not found")
                      | Some data => Ok data
                      end);
      shares ← st_lift (match replace_share share (sc_shares data) with
                        | None => Err (ENew "share not found in operator")
                        | Some shares => Ok shares
                        end);
      let committees := default (sc_committees data)
                          (replace_committee committeeID [newCommittee] (sc_committees data)) in
      st_modify (set_operators
        (<[operator := mkSharesAndCommittees shares committees]> (byOperatorID c))) ;;
      update_operators share committeeID newCommittee operators
  end.

Definition update_share (share : SSVShare) : StoreM unit :=
  let '(committeeID, share) := CommitteeID share in
  st_modify (set_index share) ;;
  c ← st_get;
  committee ← st_lift (match byCommitteeID c !! committeeID with
                       | None => Err (ENew "committee not found")
                       | Some committee => Ok committee
                       end);
  newCommittee ← st_lift (match updateCommitteeWithShare committee share with
                          | Err e => Err (EWrap "failed to update share in committee" e)
                          | r => r
                          end);
  st_modify (set_committees (<[committeeID := newCommittee]> (byCommitteeID c))) ;;
  update_operators share committeeID newCommittee (sm_Signer <$> sh_Committee share).

Definition handleSharesUpdated (shares : list (option SSVShare)) : StoreM unit :=
  for_shares update_share shares.

Definition handleDrop (c : validatorStore) : validatorStore :=
  mkValidatorStore ∅ ∅ ∅ (pubkeyToIndex c) (indexToPubkey c).
