(* ===== verification/StoreRegistry.v ===== *)
(** * The validator store follows the registry

    The store of [ValidatorStore] against its specification, a registry of shares by
    public key: what the routines on lists and the loops over operators do, the relation
    [store_ok] between a store and a registry, and that every event of the registry
    preserves it. *)

From stdpp Require Import base list gmap numbers strings sorting.
From Stdlib Require Import Strings.Byte.
From S2P Require Import Prelude Sha256 SpecTypes Network Proposer Subnets Share ValidatorStore.
Open Scope string_scope.
Open Scope list_scope.
Open Scope Z_scope.
#[local] Opaque ComputeCommitteeID.

(** ** The registry the store stands for: shares by public key *)
Abbreviation Registry := (gmap bytes SSVShare).
Definition cid (s : SSVShare) : bytes := (CommitteeID s).1.
Definition settled (s : SSVShare) : SSVShare := (CommitteeID s).2.

Lemma settled_fields s :
  sh_ValidatorPubKey (settled s) = sh_ValidatorPubKey s ∧ sh_ValidatorIndex (settled s) = sh_ValidatorIndex s ∧
  OperatorIDs (settled s) = OperatorIDs s ∧ HasBeaconMetadata (Some (settled s)) = HasBeaconMetadata (Some s) ∧
  cid (settled s) = cid s ∧ settled (settled s) = settled s.
Proof. unfold settled, cid, CommitteeID. destruct (sh_committeeID s) eqn:E; simpl; by rewrite ?E. Qed.

Lemma CommitteeID_eq s : CommitteeID s = (cid s, settled s).
Proof. apply surjective_pairing. Qed.

(** The shares with a property, each once, in some order. *)
Definition listing (S : Registry) (Q : SSVShare → Prop) (l : list SSVShare) : Prop :=
  NoDup (sh_ValidatorPubKey <$> l) ∧ ∀ s, s ∈ l ↔ S !! sh_ValidatorPubKey s = Some s ∧ Q s.

Lemma same_key_eq a b : same_key a b = true ↔ sh_ValidatorPubKey a = sh_ValidatorPubKey b.
Proof. apply bool_decide_eq_true. Qed.

Lemma containsShare_spec l s :
  containsShare l s = true ↔ sh_ValidatorPubKey s ∈ sh_ValidatorPubKey <$> l.
Proof.
  unfold containsShare. rewrite existsb_exists, list_elem_of_fmap.
  split; intros (x & H1 & H2); exists x.
  - apply same_key_eq in H2. split; [done|]. by apply list_elem_of_In.
  - split; [by apply list_elem_of_In|]. by apply same_key_eq.
Qed.

Section listings.
Context (S : Registry) (Q : SSVShare → Prop) (l : list SSVShare) (s : SSVShare).
Abbreviation pk := (sh_ValidatorPubKey s).
Hypothesis Hl : listing S Q l.

Lemma listing_absent : S !! pk = None → pk ∉ sh_ValidatorPubKey <$> l.
Proof.
  destruct Hl as [_ Hin]. intros Hs (x & Hx & [Hx' _]%Hin)%list_elem_of_fmap. rewrite <-Hx in Hx'. congruence.
Qed.

Lemma listing_present : S !! pk = Some s → Q s → pk ∈ sh_ValidatorPubKey <$> l.
Proof. intros Hs Hq. apply list_elem_of_fmap. exists s. split; [done|]. by apply Hl. Qed.

Lemma listing_add : S !! pk = None → Q s → listing (<[pk := s]> S) Q (l ++ [s]).
Proof.
  intros Hs Hq. pose proof (listing_absent Hs) as Hnew. destruct Hl as [Hnd Hin]. split.
  - rewrite fmap_app. apply NoDup_app. split; [done|]. split; [|apply NoDup_singleton].
    intros x Hx ->%list_elem_of_singleton. done.
  - intros x. rewrite elem_of_app, list_elem_of_singleton, Hin.
    destruct (decide (sh_ValidatorPubKey x = pk)) as [Heq|Hne].
    + rewrite Heq, lookup_insert_eq, Hs. naive_solver.
    + rewrite lookup_insert_ne by done. naive_solver.
Qed.

Lemma listing_add_other : S !! pk = None → ¬ Q s → listing (<[pk := s]> S) Q l.
Proof.
  intros Hs Hq. destruct Hl as [Hnd Hin]. split; [done|]. intros x. rewrite Hin.
  destruct (decide (sh_ValidatorPubKey x = pk)) as [Heq|Hne].
  - rewrite Heq, lookup_insert_eq, Hs. naive_solver.
  - by rewrite lookup_insert_ne.
Qed.

Lemma listing_remove : listing (delete pk S) Q (filter (λ x, same_key x s = false) l).
Proof.
  destruct Hl as [Hnd Hin]. split.
  - eapply sublist_NoDup; [exact Hnd|]. apply fmap_sublist, sublist_filter.
  - intros x. rewrite list_elem_of_filter, Hin.
    assert (same_key x s = false ↔ sh_ValidatorPubKey x ≠ pk) as ->.
    { rewrite <-same_key_eq. by destruct (same_key x s). }
    destruct (decide (sh_ValidatorPubKey x = pk)) as [Heq|Hne].
    + rewrite Heq, lookup_delete_eq. naive_solver.
    + rewrite lookup_delete_ne by done. naive_solver.
Qed.

Lemma listing_update s0 :
  S !! pk = Some s0 → sh_ValidatorPubKey s0 = pk → (Q s0 ↔ Q s) →
  listing (<[pk := s]> S) Q ((λ x, if same_key x s then s else x) <$> l).
Proof.
  intros Hs Hk Hq. destruct Hl as [Hnd Hin]. split.
  - rewrite <-list_fmap_compose.
    replace ((sh_ValidatorPubKey ∘ (λ x, if same_key x s then s else x)) <$> l)
      with (sh_ValidatorPubKey <$> l); [done|].
    apply list_fmap_ext. intros _ x _. simpl. destruct (same_key x s) eqn:E; [|done].
    by apply same_key_eq in E.
  - intros x. rewrite list_elem_of_fmap. destruct (decide (sh_ValidatorPubKey x = pk)) as [Heq|Hne].
    + rewrite Heq, lookup_insert_eq. split.
      * intros (y & -> & [Hy Hqy]%Hin). destruct (same_key y s) eqn:E.
        -- apply same_key_eq in E. rewrite E in Hy. split; [done|]. apply Hq. congruence.
        -- apply same_key_eq in Heq. congruence.
      * intros [[= <-] Hx]. exists s0. rewrite (proj2 (same_key_eq s0 s) Hk). split; [done|].
        apply Hin. rewrite Hk. split; [done|]. by apply Hq.
    + rewrite lookup_insert_ne by done. split.
      * intros (y & -> & Hy). destruct (same_key y s); [done|]. by apply Hin.
      * intros Hx. exists x. split; [|by apply Hin].
        destruct (same_key x s) eqn:E; [|done]. by apply same_key_eq in E.
Qed.
End listings.

(** ** What the routines on lists do *)
Lemma remove_operator_spec l s :
  NoDup (sh_ValidatorPubKey <$> l) → sh_ValidatorPubKey s ∈ sh_ValidatorPubKey <$> l →
  removeShareFromOperator l s = Some (filter (λ x, same_key x s = false) l).
Proof.
  induction l as [|x l IH]; [by intros _ ?%not_elem_of_nil|]. rewrite fmap_cons, NoDup_cons, elem_of_cons.
  intros [Hx Hnd] Hs. simpl removeShareFromOperator. rewrite filter_cons. destruct (same_key x s) eqn:E.
  - rewrite decide_False by done. f_equal. symmetry. apply filter_all, Forall_forall. intros y Hy.
    apply same_key_eq in E. destruct (same_key y s) eqn:Ey; [|done]. apply same_key_eq in Ey.
    destruct Hx. rewrite E, <-Ey. by apply list_elem_of_fmap_2.
  - rewrite decide_True by done. rewrite IH; [done..|]. destruct Hs as [Hs|]; [|done].
    rewrite (proj2 (same_key_eq x s)) in E; done.
Qed.

Lemma replace_share_spec l s :
  NoDup (sh_ValidatorPubKey <$> l) → sh_ValidatorPubKey s ∈ sh_ValidatorPubKey <$> l →
  replace_share s l = Some ((λ x, if same_key x s then s else x) <$> l).
Proof.
  induction l as [|x l IH]; [by intros _ ?%not_elem_of_nil|]. rewrite !fmap_cons, NoDup_cons, elem_of_cons.
  intros [Hx Hnd] Hs. simpl replace_share. destruct (same_key x s) eqn:E.
  - do 2 f_equal. rewrite <-(list_fmap_id l) at 1. apply list_fmap_ext. intros i y Hy. simpl.
    apply same_key_eq in E. destruct (same_key y s) eqn:Ey; [|done]. apply same_key_eq in Ey.
    destruct Hx. rewrite E, <-Ey. by eapply list_elem_of_fmap_2, list_elem_of_lookup_2.
  - rewrite IH; [done..|]. destruct Hs as [Hs|]; [|done]. rewrite (proj2 (same_key_eq x s)) in E; done.
Qed.

Lemma remove_loop_spec (pre shares : list SSVShare) s :
  remove_loop (sh_ValidatorIndex <$> (pre ++ shares)) s (length pre) shares
  = Ok (filter (λ x, same_key x s = false) shares, containsShare shares s).
Proof.
  revert pre. induction shares as [|x shares IH]; intros pre; [done|].
  specialize (IH (pre ++ [x])). rewrite <-app_assoc, length_app in IH. simpl in IH.
  rewrite Nat.add_1_r in IH. cbn [remove_loop containsShare existsb]. unfold containsShare. cbn [existsb].
  destruct (same_key x s) eqn:E.
  - rewrite filter_cons_False by congruence. rewrite list_lookup_fmap, list_lookup_middle by done.
    simpl fmap. cbn iota beta. rewrite Z.eqb_refl. cbn. setoid_rewrite IH. done.
  - rewrite filter_cons_True by done. setoid_rewrite IH. done.
Qed.

Lemma replace_committee_spec id new l :
  NoDup (co_ID <$> l) → (new = [] ∨ ∃ c, new = [c] ∧ co_ID c = id) →
  match replace_committee id new l with
  | None => id ∉ co_ID <$> l
  | Some l' => NoDup (co_ID <$> l') ∧ ∀ c, c ∈ l' ↔ c ∈ new ∨ c ∈ l ∧ co_ID c ≠ id
  end.
Proof.
  intros Hnd Hnew. induction l as [|x l IH]; simpl; [apply not_elem_of_nil|].
  apply NoDup_cons in Hnd as [Hx Hnd]. specialize (IH Hnd). case_bool_decide as Hid.
  - split.
    + destruct Hnew as [->|(c & -> & Hc)]; [done|]. simpl. apply NoDup_cons. by rewrite Hc, <-Hid.
    + intros c. rewrite elem_of_app, elem_of_cons. split; [|naive_solver].
      intros [?|Hc]; [by left|]. right. split; [by right|]. intros Heq. destruct Hx.
      rewrite Hid, <-Heq. by apply list_elem_of_fmap_2.
  - destruct (replace_committee id new l) as [l'|]; simpl.
    + destruct IH as [Hnd' Hin]. split.
      * apply NoDup_cons. split; [|done]. intros (c & Hc & [Hn|[Hcl _]]%Hin)%list_elem_of_fmap.
        -- destruct Hnew as [->|(c' & -> & Hc')]; [by apply not_elem_of_nil in Hn|].
           apply list_elem_of_singleton in Hn as ->. congruence.
        -- destruct Hx. rewrite Hc. by apply list_elem_of_fmap_2.
      * intros c. rewrite !elem_of_cons, Hin. naive_solver.
    + rewrite not_elem_of_cons. split; [congruence|done].
Qed.

(** ** What the loops over a share's operators do *)
Definition added_data (share : SSVShare) (committee : Committee) (d : option sharesAndCommittees)
    : sharesAndCommittees :=
  let data := default (mkSharesAndCommittees [] []) d in
  mkSharesAndCommittees (sc_shares data ++ [share])
    (default (sc_committees data ++ [committee])
       (replace_committee (co_ID committee) [committee] (sc_committees data))).
Definition kept_data (committeeID : bytes) (new : list Committee) (d : sharesAndCommittees)
    (shares : list SSVShare) : sharesAndCommittees :=
  mkSharesAndCommittees shares
    (default (sc_committees d) (replace_committee committeeID new (sc_committees d))).

Lemma add_operators_spec share committee ops seen c :
  NoDup ops → (∀ o, o ∈ ops → o ∉ seen) →
  (∀ o, o ∈ ops → containsShare (OperatorValidators o c) share = false) →
  ∃ m, add_operators share committee seen ops c = (set_operators m c, Ok tt) ∧
    ∀ o, m !! o = if decide (o ∈ ops) then Some (added_data share committee (byOperatorID c !! o))
                  else byOperatorID c !! o.
Proof.
  revert seen c. induction ops as [|o ops IH]; intros seen c Hnd Hseen Hnew.
  { exists (byOperatorID c). split; [by destruct c|]. intros o. by rewrite decide_False by apply not_elem_of_nil. }
  apply NoDup_cons in Hnd as [Ho Hnd]. cbn [add_operators]. unfold mbind, st_bind, st_lift, st_get, st_modify.
  rewrite bool_decide_false by (apply Hseen; by left). simpl.
  assert (containsShare (sc_shares (default (mkSharesAndCommittees [] []) (byOperatorID c !! o))) share = false) as ->.
  { specialize (Hnew o ltac:(by left)). unfold OperatorValidators in Hnew. by destruct (byOperatorID c !! o). }
  simpl. set (c1 := set_operators _ c).
  destruct (IH (o :: seen) c1) as (m & -> & Hm); [done| | |].
  { intros o' Ho'. rewrite not_elem_of_cons. split; [congruence|]. apply Hseen. by right. }
  { intros o' Ho'. unfold OperatorValidators, c1. simpl. rewrite lookup_insert_ne by congruence.
    apply Hnew. by right. }
  exists m. split; [done|]. intros o'. rewrite Hm. unfold c1. simpl.
  destruct (decide (o' = o)) as [->|Hne].
  - rewrite decide_False by done. rewrite lookup_insert_eq, decide_True by (by left). done.
  - rewrite lookup_insert_ne by done.
    destruct (decide (o' ∈ ops)); [rewrite decide_True by (by right)|rewrite decide_False by (rewrite elem_of_cons; naive_solver)]; done.
Qed.

Lemma remove_operators_spec share id new ops c :
  NoDup ops →
  (∀ o, o ∈ ops → ∃ d shares, byOperatorID c !! o = Some d ∧
     removeShareFromOperator (sc_shares d) share = Some shares) →
  ∃ m, remove_operators share id new ops c = (set_operators m c, Ok tt) ∧
    (∀ o, o ∉ ops → m !! o = byOperatorID c !! o) ∧
    ∀ o d shares, o ∈ ops → byOperatorID c !! o = Some d →
      removeShareFromOperator (sc_shares d) share = Some shares →
      m !! o = if (length shares =? 0)%nat then None else Some (kept_data id new d shares).
Proof.
  revert c. induction ops as [|o ops IH]; intros c Hnd Hall.
  { exists (byOperatorID c). split; [by destruct c|]. split; [done|]. by intros o d sh ?%not_elem_of_nil. }
  apply NoDup_cons in Hnd as [Ho Hnd]. cbn [remove_operators]. unfold mbind, st_bind, st_lift, st_get, st_modify.
  destruct (Hall o ltac:(by left)) as (d & shares & Hd & Hr). rewrite Hd, Hr. simpl.
  set (c1 := set_operators _ c).
  assert (∀ o', o' ≠ o → byOperatorID c1 !! o' = byOperatorID c !! o') as Hother.
  { intros o' Hne. unfold c1. simpl. destruct (_ =? 0)%nat; [by rewrite lookup_delete_ne|by rewrite lookup_insert_ne]. }
  destruct (IH c1) as (m & -> & Hm1 & Hm2); [done| |].
  { intros o' Ho'. rewrite Hother by congruence. apply Hall. by right. }
  exists m. split; [done|]. split.
  - intros o' Hno. apply not_elem_of_cons in Hno as [Hne Hno]. by rewrite Hm1, Hother.
  - intros o' d' sh' Hin Hd' Hr'. destruct (decide (o' = o)) as [->|Hne].
    + rewrite Hm1 by done. unfold c1. simpl. simplify_eq.
      destruct (_ =? 0)%nat; [by rewrite lookup_delete_eq|by rewrite lookup_insert_eq].
    + apply elem_of_cons in Hin as [?|Hin]; [done|]. apply (Hm2 o' d' sh'); [done| |done]. by rewrite Hother.
Qed.

Lemma update_operators_spec share id new ops c :
  NoDup ops →
  (∀ o, o ∈ ops → ∃ d shares, byOperatorID c !! o = Some d ∧
     replace_share share (sc_shares d) = Some shares) →
  ∃ m, update_operators share id new ops c = (set_operators m c, Ok tt) ∧
    (∀ o, o ∉ ops → m !! o = byOperatorID c !! o) ∧
    ∀ o d shares, o ∈ ops → byOperatorID c !! o = Some d →
      replace_share share (sc_shares d) = Some shares →
      m !! o = Some (kept_data id [new] d shares).
Proof.
  revert c. induction ops as [|o ops IH]; intros c Hnd Hall.
  { exists (byOperatorID c). split; [by destruct c|]. split; [done|]. by intros o d sh ?%not_elem_of_nil. }
  apply NoDup_cons in Hnd as [Ho Hnd]. cbn [update_operators]. unfold mbind, st_bind, st_lift, st_get, st_modify.
  destruct (Hall o ltac:(by left)) as (d & shares & Hd & Hr). rewrite Hd, Hr. simpl.
  set (c1 := set_operators _ c).
  assert (∀ o', o' ≠ o → byOperatorID c1 !! o' = byOperatorID c !! o') as Hother.
  { intros o' Hne. unfold c1. simpl. by rewrite lookup_insert_ne. }
  destruct (IH c1) as (m & -> & Hm1 & Hm2); [done| |].
  { intros o' Ho'. rewrite Hother by congruence. apply Hall. by right. }
  exists m. split; [done|]. split.
  - intros o' Hno. apply not_elem_of_cons in Hno as [Hne Hno]. by rewrite Hm1, Hother.
  - intros o' d' sh' Hin Hd' Hr'. destruct (decide (o' = o)) as [->|Hne].
    + rewrite Hm1 by done. unfold c1. simpl. simplify_eq. by rewrite lookup_insert_eq.
    + apply elem_of_cons in Hin as [?|Hin]; [done|]. apply (Hm2 o' d' sh'); [done| |done]. by rewrite Hother.
Qed.

(** ** The store in step with a registry *)
Definition held (S : Registry) (s : SSVShare) : Prop := S !! sh_ValidatorPubKey s = Some s.

Record registry_ok (S : Registry) : Prop := mkRegistryOk {
  ro_key k s : S !! k = Some s → sh_ValidatorPubKey s = k;
  ro_settled s : held S s → settled s = s;
  ro_operators s : held S s → NoDup (OperatorIDs s);
  ro_committee s s' : held S s → held S s' → cid s = cid s' →
    ∀ o, o ∈ OperatorIDs s ↔ o ∈ OperatorIDs s';
  ro_index s s' : held S s → held S s' → HasBeaconMetadata (Some s) = true →
    HasBeaconMetadata (Some s') = true → sh_ValidatorIndex s = sh_ValidatorIndex s' → s = s';
}.

Definition committee_shares (id : bytes) (c : validatorStore) : list SSVShare :=
  match byCommitteeID c !! id with Some committee => co_Shares committee | None => [] end.

(** An operator's committees: those of the store it is a member of, each once. *)
Definition committees_ok (m : gmap bytes Committee) (o : OperatorID) (l : list Committee) : Prop :=
  NoDup (co_ID <$> l) ∧ ∀ committee, committee ∈ l ↔
    m !! co_ID committee = Some committee ∧ o ∈ co_Operators committee.

Record store_ok (S : Registry) (c : validatorStore) : Prop := mkStoreOk {
  so_index i s : ValidatorByIndex i c = Some s ↔
    held S s ∧ HasBeaconMetadata (Some s) = true ∧ sh_ValidatorIndex s = i;
  so_pubkey s : held S s → HasBeaconMetadata (Some s) = true →
    ValidatorIndex_of (sh_ValidatorPubKey s) c = Some (sh_ValidatorIndex s) ∧
    ValidatorPubkey (sh_ValidatorIndex s) c = Some (sh_ValidatorPubKey s);
  so_committee id : listing S (λ s, cid s = id) (committee_shares id c);
  so_built id committee : Committee_of id c = Some committee →
    buildCommittee (co_Shares committee) = Ok committee;
  so_operator o : listing S (λ s, o ∈ OperatorIDs s) (OperatorValidators o c);
  so_nonempty o d : byOperatorID c !! o = Some d → sc_shares d ≠ [];
  so_committees o : committees_ok (byCommitteeID c) o (OperatorCommittees o c);
}.

Lemma sort_ids_elem o l : o ∈ sort_ids l ↔ o ∈ l.
Proof. unfold sort_ids. by rewrite merge_sort_Permutation. Qed.

(** A committee built from shares of one identifier and membership. *)
Lemma build_spec id (ops : list OperatorID) shares :
  shares ≠ [] → (∀ s, s ∈ shares → cid s = id ∧ ∀ o, o ∈ OperatorIDs s ↔ o ∈ ops) →
  ∃ committee, buildCommittee shares = Ok committee ∧ co_ID committee = id ∧
    co_Shares committee = shares ∧ co_Indices committee = sh_ValidatorIndex <$> shares ∧
    ∀ o, o ∈ co_Operators committee ↔ o ∈ ops.
Proof.
  intros Hne Hall. destruct shares as [|s shares]; [done|]. destruct (Hall s ltac:(by left)) as [Hid Hops].
  eexists. split; [reflexivity|]. simpl. split; [done|]. split; [done|]. split; [done|].
  intros o. by rewrite sort_ids_elem, <-Hops.
Qed.

Lemma committees_step m m' id o (ops : list OperatorID) new l l' :
  committees_ok m o l →
  (∀ committee, m !! id = Some committee → o ∈ co_Operators committee ↔ o ∈ ops) →
  (new = [] ∧ m' = delete id m ∨
   ∃ c, new = [c] ∧ co_ID c = id ∧ (o ∈ co_Operators c ↔ o ∈ ops) ∧ m' = <[id := c]> m) →
  (o ∉ ops ∧ l' = l ∨ o ∈ ops ∧ l' = default (l ++ new) (replace_committee id new l)) →
  committees_ok m' o l'.
Proof.
  intros [Hnd Hin] Hold Hnew Hl'.
  assert (o ∈ ops → NoDup (co_ID <$> l') ∧ ∀ c, c ∈ l' ↔ c ∈ new ∨ c ∈ l ∧ co_ID c ≠ id) as Hops.
  { intros Ho. destruct Hl' as [[? _]|[_ ->]]; [done|].
    pose proof (replace_committee_spec id new l Hnd) as Hr.
    destruct (replace_committee id new l) as [l1|]; simpl; [apply Hr; naive_solver|].
    specialize (Hr ltac:(naive_solver)). split.
    - rewrite fmap_app. destruct Hnew as [[-> _]|(c & -> & Hc & _)]; simpl; [by rewrite app_nil_r|].
      apply NoDup_app. split; [done|]. split; [|apply NoDup_singleton].
      intros x Hx ->%list_elem_of_singleton. congruence.
    - intros c. rewrite elem_of_app. split; [|naive_solver]. intros [Hc|]; [|by left]. right.
      split; [done|]. intros <-. destruct Hr. by apply list_elem_of_fmap_2. }
  assert (∀ c, co_ID c ≠ id → m' !! co_ID c = m !! co_ID c) as Hother.
  { intros c Hne. destruct Hnew as [[_ ->]|(? & _ & _ & _ & ->)];
      [by rewrite lookup_delete_ne|by rewrite lookup_insert_ne]. }
  destruct (decide (o ∈ ops)) as [Ho|Ho].
  - destruct (Hops Ho) as [Hnd' Hin']. split; [done|]. intros c. rewrite Hin', Hin.
    destruct (decide (co_ID c = id)) as [Hc|Hc].
    + destruct Hnew as [[-> ->]|(c1 & -> & Hc1 & Hm1 & ->)].
      * rewrite Hc, lookup_delete_eq, elem_of_nil. naive_solver.
      * rewrite Hc, lookup_insert_eq, list_elem_of_singleton. naive_solver.
    + rewrite Hother by done. split; [|naive_solver]. intros [Hn|]; [|naive_solver].
      destruct Hnew as [[-> ->]|(c1 & -> & Hc1 & Hm1 & ->)]; [by apply not_elem_of_nil in Hn|].
      apply list_elem_of_singleton in Hn. naive_solver.
  - destruct Hl' as [[_ ->]|[? _]]; [|done]. split; [done|]. intros c. rewrite Hin.
    destruct (decide (co_ID c = id)) as [Hc|Hc]; [|by rewrite Hother].
    split; intros [Hm Hoc]; exfalso; apply Ho.
    + rewrite Hc in Hm. by apply (Hold c).
    + destruct Hnew as [[-> ->]|(c1 & -> & Hc1 & Hm1 & ->)].
      * by rewrite Hc, lookup_delete_eq in Hm.
      * rewrite Hc, lookup_insert_eq in Hm. naive_solver.
Qed.

(** ** Events of the registry *)
Inductive Event :=
  EvAdded (share : SSVShare) | EvUpdated (share : SSVShare) | EvRemoved (share : SSVShare) | EvDropped.

Definition handle (e : Event) : StoreM unit :=
  match e with
  | EvAdded s => handleSharesAdded [Some s]
  | EvUpdated s => handleSharesUpdated [Some s]
  | EvRemoved s => handleShareRemoved (Some s)
  | EvDropped => st_modify handleDrop
  end.
Definition next_registry (e : Event) (S : Registry) : Registry :=
  match e with
  | EvAdded s | EvUpdated s => <[sh_ValidatorPubKey s := settled s]> S
  | EvRemoved s => delete (sh_ValidatorPubKey s) S
  | EvDropped => ∅
  end.

(** A new share has a new key; an update keeps the committee and, once there is beacon
    metadata, the validator index; a share is removed as it is stored. *)
Definition event_ok (S : Registry) (e : Event) : Prop :=
  match e with
  | EvAdded s => registry_ok (next_registry e S) ∧ S !! sh_ValidatorPubKey s = None
  | EvUpdated s => registry_ok (next_registry e S) ∧ ∃ s0, S !! sh_ValidatorPubKey s = Some s0 ∧ OperatorIDs s0 = OperatorIDs s ∧
      cid s0 = cid s ∧ (HasBeaconMetadata (Some s0) = true → HasBeaconMetadata (Some s) = true ∧
                        sh_ValidatorIndex s0 = sh_ValidatorIndex s)
  | EvRemoved s => held S s
  | EvDropped => True
  end.

Definition index_ok (S : Registry) (c : validatorStore) : Prop :=
  (∀ i s, ValidatorByIndex i c = Some s ↔
     held S s ∧ HasBeaconMetadata (Some s) = true ∧ sh_ValidatorIndex s = i) ∧
  ∀ s, held S s → HasBeaconMetadata (Some s) = true →
    ValidatorIndex_of (sh_ValidatorPubKey s) c = Some (sh_ValidatorIndex s) ∧
    ValidatorPubkey (sh_ValidatorIndex s) c = Some (sh_ValidatorPubKey s).

Lemma held_insert S s x :
  held (<[sh_ValidatorPubKey s := s]> S) x ↔ x = s ∨ sh_ValidatorPubKey x ≠ sh_ValidatorPubKey s ∧ held S x.
Proof.
  unfold held. destruct (decide (sh_ValidatorPubKey x = sh_ValidatorPubKey s)) as [Heq|Hne].
  - rewrite Heq, lookup_insert_eq. naive_solver.
  - rewrite lookup_insert_ne by done. naive_solver.
Qed.

Lemma set_index_ok S c s :
  index_ok S c → registry_ok (<[sh_ValidatorPubKey s := s]> S) →
  (∀ s0, held S s0 → sh_ValidatorPubKey s0 = sh_ValidatorPubKey s → HasBeaconMetadata (Some s0) = true →
     HasBeaconMetadata (Some s) = true ∧ sh_ValidatorIndex s0 = sh_ValidatorIndex s) →
  index_ok (<[sh_ValidatorPubKey s := s]> S) (set_index s c).
Proof.
  intros [Hi Hp] Hro Hsame. pose proof (ro_index _ Hro) as Hu.
  unfold index_ok, set_index, ValidatorByIndex, ValidatorIndex_of, ValidatorPubkey in *.
  destruct (HasBeaconMetadata (Some s)) eqn:Hm; cbn [byValidatorIndex pubkeyToIndex indexToPubkey].
  - split.
    + intros i x. destruct (decide (i = sh_ValidatorIndex s)) as [->|Hne].
      * rewrite lookup_insert_eq. split; [intros [= <-]; split; [by apply held_insert; left|done]|].
        intros (Hx & Hmx & Hix). f_equal. symmetry. apply Hu; [done|by apply held_insert; left|done..].
      * rewrite lookup_insert_ne by done. rewrite Hi, held_insert.
        split; [|naive_solver]. intros (Hx & Hmx & <-). split; [|done]. right. split; [|done].
        intros Hk. destruct (Hsame x Hx Hk Hmx) as [_ ?]. done.
    + intros x Hx Hmx. pose proof Hx as Hx'.
      apply held_insert in Hx' as [->|[Hk Hx']]; [by rewrite !lookup_insert_eq|].
      rewrite !lookup_insert_ne; [by apply Hp| |done].
      intros Heq. destruct Hk. f_equal. symmetry. apply Hu; [by apply held_insert; left|done..].
  - split.
    + intros i x. rewrite Hi, held_insert. split.
      * intros (Hx & Hmx & Hix). split; [|done]. right. split; [|done]. intros Hk.
        destruct (Hsame x Hx Hk Hmx) as [? _]. done.
      * intros ([->|[_ Hx]] & Hmx & Hix); [congruence|done].
    + intros x [->|[_ Hx]]%held_insert Hmx; [congruence|by apply Hp].
Qed.

Lemma set_index_maps s c :
  byCommitteeID (set_index s c) = byCommitteeID c ∧ byOperatorID (set_index s c) = byOperatorID c.
Proof. unfold set_index. by destruct (HasBeaconMetadata (Some s)). Qed.

(** The committee stored under an identifier. *)
Lemma old_committee S c id (ops : list OperatorID) committee :
  store_ok S c → (∀ s, held S s → cid s = id → ∀ o, o ∈ OperatorIDs s ↔ o ∈ ops) →
  byCommitteeID c !! id = Some committee →
  co_ID committee = id ∧ co_Indices committee = sh_ValidatorIndex <$> co_Shares committee ∧
  (∀ o, o ∈ co_Operators committee ↔ o ∈ ops) ∧ co_Shares committee = committee_shares id c.
Proof.
  intros Hok Hops Hc. pose proof (so_built _ _ Hok id committee Hc) as Hb.
  pose proof (so_committee _ _ Hok id) as [_ Hin].
  assert (co_Shares committee = committee_shares id c) as Hs by (unfold committee_shares; by rewrite Hc).
  rewrite <-Hs in Hin. destruct (build_spec id ops (co_Shares committee)) as (c' & Hb' & ? & ? & ? & ?).
  - intros Hnil. by rewrite Hnil in Hb.
  - intros s [Hh Hid]%Hin. split; [done|]. by apply Hops.
  - rewrite Hb in Hb'. by simplify_eq.
Qed.

Lemma build_member shares committee o :
  buildCommittee shares = Ok committee → o ∈ co_Operators committee →
  ∃ s, s ∈ shares ∧ o ∈ OperatorIDs s ∧ cid s = co_ID committee ∧ co_Shares committee = shares.
Proof.
  destruct shares as [|s shares]; [done|]. intros [= <-]. simpl. rewrite sort_ids_elem. intros Ho.
  exists s. split; [by left|done].
Qed.

(** One event: a single committee is rebuilt or dropped, and the operators in [ops] see it. *)
Section step.
Context (S S' : Registry) (c c' : validatorStore) (id : bytes) (ops : list OperatorID)
  (new : list Committee).
Hypothesis Hok : store_ok S c.
Hypothesis Hindex : index_ok S' c'.
Hypothesis Hnew : new = [] ∧ byCommitteeID c' = delete id (byCommitteeID c) ∨
  ∃ c1, new = [c1] ∧ co_ID c1 = id ∧ (∀ o, o ∈ co_Operators c1 ↔ o ∈ ops) ∧
    buildCommittee (co_Shares c1) = Ok c1 ∧ byCommitteeID c' = <[id := c1]> (byCommitteeID c).
Hypothesis Hold : ∀ committee, byCommitteeID c !! id = Some committee →
  ∀ o, o ∈ co_Operators committee ↔ o ∈ ops.
Hypothesis Hlist : listing S' (λ s, cid s = id) (committee_shares id c').
Hypothesis Hlist_other : ∀ id' l, id' ≠ id →
  listing S (λ s, cid s = id') l → listing S' (λ s, cid s = id') l.
Hypothesis Hops : ∀ o, o ∈ ops → listing S' (λ s, o ∈ OperatorIDs s) (OperatorValidators o c') ∧
  (byOperatorID c' !! o = None ∨ ∃ d, byOperatorID c' !! o = Some d ∧ sc_shares d ≠ [] ∧
     sc_committees d = default (OperatorCommittees o c ++ new)
                         (replace_committee id new (OperatorCommittees o c))).
Hypothesis Hops_other : ∀ o, o ∉ ops → byOperatorID c' !! o = byOperatorID c !! o ∧
  ∀ l, listing S (λ s, o ∈ OperatorIDs s) l → listing S' (λ s, o ∈ OperatorIDs s) l.

Lemma step_committees_other id' :
  id' ≠ id → byCommitteeID c' !! id' = byCommitteeID c !! id'.
Proof.
  intros Hne. destruct Hnew as [[_ ->]|(? & _ & _ & _ & _ & ->)];
    [by rewrite lookup_delete_ne|by rewrite lookup_insert_ne].
Qed.

Lemma step_listing id' : listing S' (λ s, cid s = id') (committee_shares id' c').
Proof.
  destruct (decide (id' = id)) as [->|Hne]; [done|]. apply Hlist_other; [done|].
  unfold committee_shares. rewrite step_committees_other by done. apply (so_committee _ _ Hok).
Qed.

Lemma step_built id' committee :
  byCommitteeID c' !! id' = Some committee → buildCommittee (co_Shares committee) = Ok committee.
Proof.
  destruct (decide (id' = id)) as [->|Hne].
  - destruct Hnew as [[_ ->]|(c1 & _ & _ & _ & Hb & ->)]; [by rewrite lookup_delete_eq|].
    rewrite lookup_insert_eq. by intros [= <-].
  - rewrite step_committees_other by done. apply (so_built _ _ Hok).
Qed.

Lemma step_operator o : listing S' (λ s, o ∈ OperatorIDs s) (OperatorValidators o c').
Proof.
  destruct (decide (o ∈ ops)) as [Ho|Ho]; [by apply Hops|]. destruct (Hops_other o Ho) as [Heq Hl].
  unfold OperatorValidators. rewrite Heq. apply Hl, (so_operator _ _ Hok).
Qed.

Lemma step_committees_list o l' :
  (o ∉ ops ∧ l' = OperatorCommittees o c ∨ o ∈ ops ∧
     l' = default (OperatorCommittees o c ++ new) (replace_committee id new (OperatorCommittees o c))) →
  committees_ok (byCommitteeID c') o l'.
Proof.
  intros Hl'. apply (committees_step (byCommitteeID c) _ id o ops new (OperatorCommittees o c));
    [apply (so_committees _ _ Hok)|naive_solver| |done].
  destruct Hnew as [?|(c1 & ? & ? & ? & _ & ?)]; [by left|right; by exists c1].
Qed.

Lemma store_step : store_ok S' c'.
Proof.
  split.
  - apply Hindex.
  - apply Hindex.
  - apply step_listing.
  - apply step_built.
  - apply step_operator.
  - intros o d Hd. destruct (decide (o ∈ ops)) as [Ho|Ho].
    + destruct (Hops o Ho) as [_ [?|(d' & ? & ? & _)]]; congruence.
    + destruct (Hops_other o Ho) as [Heq _]. rewrite Heq in Hd. by apply (so_nonempty _ _ Hok) in Hd.
  - intros o. destruct (decide (o ∈ ops)) as [Ho|Ho].
    + pose proof (step_committees_list o _ (or_intror (conj Ho eq_refl))) as Hcl.
      destruct (Hops o Ho) as [Hl [Hnone|(d & Hd & _ & Hcd)]].
      * unfold OperatorCommittees at 1. rewrite Hnone.
        unfold OperatorValidators in Hl. rewrite Hnone in Hl. destruct Hl as [_ Hl].
        split; [apply NoDup_nil_2|]. intros committee. split; [by intros ?%not_elem_of_nil|].
        intros [Hm Hoc]. destruct (build_member _ _ o (step_built _ _ Hm) Hoc) as (s & Hs & Hos & Hid & _).
        exfalso. apply (not_elem_of_nil s), Hl. split; [|done]. apply (step_listing (co_ID committee)).
        unfold committee_shares. by rewrite Hm.
      * unfold OperatorCommittees at 1. by rewrite Hd, Hcd.
    + destruct (Hops_other o Ho) as [Heq _]. unfold OperatorCommittees. rewrite Heq.
      apply step_committees_list. by left.
Qed.
End step.

Lemma store_index_ok S c : store_ok S c → index_ok S c.
Proof. intros Hok. split; apply Hok. Qed.

(** Shares of a registry with [s] in it, held under [s]'s identifier, have its operators. *)
Lemma members_of S s x :
  registry_ok (<[sh_ValidatorPubKey s := s]> S) → S !! sh_ValidatorPubKey s = None → held S x →
  cid x = cid s → ∀ o, o ∈ OperatorIDs x ↔ o ∈ OperatorIDs s.
Proof.
  intros Hro Hs Hx Hid. apply (ro_committee _ Hro); [|by apply held_insert; left|done].
  apply held_insert. right. split; [|done]. intros Hk. unfold held in Hx. congruence.
Qed.

(** The committee a new share joins. *)
Lemma add_committee S c s :
  store_ok S c → S !! sh_ValidatorPubKey s = None → registry_ok (<[sh_ValidatorPubKey s := s]> S) →
  containsShare (committee_shares (cid s) c) s = false ∧
  ∃ committee, buildCommittee (committee_shares (cid s) c ++ [s]) = Ok committee ∧
    co_ID committee = cid s ∧ co_Shares committee = committee_shares (cid s) c ++ [s] ∧
    ∀ o, o ∈ co_Operators committee ↔ o ∈ OperatorIDs s.
Proof.
  intros Hok Hs Hro. pose proof (so_committee _ _ Hok (cid s)) as Hl. split.
  - apply not_true_is_false. rewrite containsShare_spec. by apply (listing_absent S _ _ s Hl).
  - destruct (build_spec (cid s) (OperatorIDs s) (committee_shares (cid s) c ++ [s]))
      as (committee & Hb & Hid & Hsh & _ & Hops); [by destruct (committee_shares (cid s) c)| |by exists committee].
    intros x [Hx| ->%list_elem_of_singleton]%elem_of_app; [|done].
    apply Hl in Hx as [Hx Hid]. split; [done|]. by apply (members_of S).
Qed.

Lemma add_share_ok S c s0 :
  store_ok S c → event_ok S (EvAdded s0) →
  ∃ c', add_share s0 c = (c', Ok tt) ∧ store_ok (next_registry (EvAdded s0) S) c'.
Proof.
  intros Hok [Hro Hs]. simpl in *. set (s := settled s0) in *.
  destruct (settled_fields s0) as (Hk & _ & _ & _ & Hcid & _). fold s in Hk, Hcid. rewrite <-Hk in Hro, Hs |- *.
  destruct (add_committee S c s Hok Hs Hro) as (Hnc & committee & Hb & Hid & Hsh & Hops).
  destruct (set_index_maps s c) as [Hcm Hom].
  assert (HND : NoDup (OperatorIDs s)) by (apply (ro_operators _ Hro), held_insert; by left).
  set (c1 := set_committees (<[co_ID committee := committee]> (byCommitteeID c)) (set_index s c)).
  destruct (add_operators_spec s committee (OperatorIDs s) [] c1) as (m & Hadd & Hm); [done| | |].
  { intros o _. apply not_elem_of_nil. }
  { intros o _. unfold OperatorValidators, c1. simpl. rewrite Hom. apply not_true_is_false.
    rewrite containsShare_spec. by apply (listing_absent S _ _ s (so_operator _ _ Hok o)). }
  exists (set_operators m c1). split.
  - unfold add_share. rewrite CommitteeID_eq. fold s. unfold mbind, st_bind, st_lift, st_get, st_modify.
    rewrite Hcm, <-Hcid. unfold committee_shares in Hb, Hnc.
    destruct (byCommitteeID c !! cid s) as [old|]; [rewrite Hnc|]; cbn -[buildCommittee add_operators];
      (etransitivity; [|exact Hadd]); by setoid_rewrite Hb.
  - apply (store_step S _ c _ (cid s) (OperatorIDs s) [committee]); [done|..].
    + pose proof (set_index_ok S c s (store_index_ok _ _ Hok) Hro) as Hi. apply Hi.
      intros x Hx Hkx. unfold held in Hx. rewrite Hkx in Hx. congruence.
    + right. exists committee. simpl. rewrite Hid, Hsh, Hb. done.
    + intros old Hold. apply (old_committee S c (cid s) (OperatorIDs s) old Hok); [|done].
      intros x Hx. by apply members_of with (S := S).
    + unfold committee_shares at 1, c1. simpl. rewrite Hid, lookup_insert_eq, Hsh.
      by apply listing_add; [apply (so_committee _ _ Hok)|..].
    + intros id' l Hne Hl. apply listing_add_other; [done..|congruence].
    + intros o Ho. unfold OperatorValidators at 1. simpl. rewrite Hm, decide_True by done.
      unfold c1 at 1 2. simpl. rewrite Hom. split.
      * pose proof (so_operator _ _ Hok o) as Hl. unfold OperatorValidators in Hl.
        replace (sc_shares (default _ _)) with
          (match byOperatorID c !! o with Some data => sc_shares data | None => [] end)
          by (by destruct (byOperatorID c !! o)).
        by apply listing_add.
      * right. eexists. split; [reflexivity|]. unfold added_data, OperatorCommittees. simpl.
        rewrite <-Hid. split; [by destruct (sc_shares _)|]. by destruct (byOperatorID c !! o).
    + intros o Ho. simpl. rewrite Hm, decide_False by done. unfold c1. simpl. rewrite Hom. split; [done|].
      intros l Hl. by apply listing_add_other.
Qed.

Lemma held_delete S s x :
  held (delete (sh_ValidatorPubKey s) S) x ↔ sh_ValidatorPubKey x ≠ sh_ValidatorPubKey s ∧ held S x.
Proof.
  unfold held. destruct (decide (sh_ValidatorPubKey x = sh_ValidatorPubKey s)) as [Heq|Hne].
  - rewrite Heq, lookup_delete_eq. naive_solver.
  - rewrite lookup_delete_ne by done. naive_solver.
Qed.

Lemma registry_ok_delete S s : registry_ok S → registry_ok (delete (sh_ValidatorPubKey s) S).
Proof.
  intros [Hk Hs Ho Hc Hi]. split.
  - intros k x [_ Hx]%lookup_delete_Some. by apply Hk.
  - intros x [_ Hx]%held_delete. by apply Hs.
  - intros x [_ Hx]%held_delete. by apply Ho.
  - intros x y [_ Hx]%held_delete [_ Hy]%held_delete. by apply Hc.
  - intros x y [_ Hx]%held_delete [_ Hy]%held_delete. by apply Hi.
Qed.

(** The committee a share leaves. *)
Lemma listed_committee S c s :
  registry_ok S → store_ok S c → S !! sh_ValidatorPubKey s = Some s →
  ∃ committee, byCommitteeID c !! cid s = Some committee ∧ co_ID committee = cid s ∧
    co_Indices committee = sh_ValidatorIndex <$> co_Shares committee ∧
    (∀ o, o ∈ co_Operators committee ↔ o ∈ OperatorIDs s) ∧
    listing S (λ x, cid x = cid s) (co_Shares committee).
Proof.
  intros Hro Hok Hs. pose proof (so_committee _ _ Hok (cid s)) as Hl. pose proof Hl as [_ Hin].
  destruct (byCommitteeID c !! cid s) as [committee|] eqn:Hc.
  - exists committee. split; [done|].
    destruct (old_committee S c (cid s) (OperatorIDs s) committee Hok) as (? & ? & ? & Hsh); [|done|].
    + intros x Hx Hid. by apply (ro_committee _ Hro).
    + by rewrite <-Hsh in Hl.
  - unfold committee_shares in Hin. rewrite Hc in Hin. by destruct (not_elem_of_nil s); apply Hin.
Qed.

Lemma remove_committee s committee :
  co_Indices committee = sh_ValidatorIndex <$> co_Shares committee →
  containsShare (co_Shares committee) s = true →
  removeShareFromCommittee committee s =
    let shares := filter (λ x, same_key x s = false) (co_Shares committee) in
    if (length shares =? 0)%nat then Ok (mkCommittee (co_ID committee) [] [] [] None None)
    else buildCommittee shares.
Proof.
  intros Hi Hc. unfold removeShareFromCommittee. rewrite Hi.
  pose proof (remove_loop_spec [] (co_Shares committee) s) as Hr. simpl in Hr. rewrite Hr, Hc. done.
Qed.

Lemma remove_index_ok S c s committees operators :
  registry_ok S → index_ok S c → held S s →
  index_ok (delete (sh_ValidatorPubKey s) S)
    (mkValidatorStore (if HasBeaconMetadata (Some s) then delete (sh_ValidatorIndex s) (byValidatorIndex c)
                       else byValidatorIndex c) committees operators (pubkeyToIndex c) (indexToPubkey c)).
Proof.
  intros Hro [Hi Hp] Hs. unfold index_ok, ValidatorByIndex, ValidatorIndex_of, ValidatorPubkey in *.
  cbn [byValidatorIndex pubkeyToIndex indexToPubkey]. split.
  - intros i x. rewrite held_delete.
    assert ((if HasBeaconMetadata (Some s) then delete (sh_ValidatorIndex s) (byValidatorIndex c)
             else byValidatorIndex c) !! i = Some x ↔
            byValidatorIndex c !! i = Some x ∧ (HasBeaconMetadata (Some s) = true → sh_ValidatorIndex s ≠ i)) as ->.
    { destruct (HasBeaconMetadata (Some s)); [rewrite lookup_delete_Some|]; naive_solver. }
    rewrite Hi. split.
    + intros ((Hx & Hm & Hix) & Hne). split; [|done]. split; [|done]. intros Hk.
      assert (x = s) as -> by (unfold held in Hx, Hs; congruence). by apply Hne.
    + intros ((Hk & Hx) & Hm & Hix). split; [done|]. intros Hms Heq. destruct Hk. f_equal.
      apply (ro_index _ Hro); [done..|congruence].
  - intros x [_ Hx]%held_delete. by apply Hp.
Qed.

(** The committees after a share is gone: its committee dropped when it was the last share,
    rebuilt otherwise. *)
Lemma left_committee S c s :
  registry_ok S → store_ok S c → held S s →
  ∃ committee newCommittee,
    byCommitteeID c !! cid s = Some committee ∧ co_ID committee = cid s ∧
    removeShareFromCommittee committee s = Ok newCommittee ∧ co_ID newCommittee = cid s ∧
    (∀ o, o ∈ co_Operators committee ↔ o ∈ OperatorIDs s) ∧
    listing (delete (sh_ValidatorPubKey s) S) (λ x, cid x = cid s) (co_Shares newCommittee) ∧
    (co_Shares newCommittee ≠ [] → buildCommittee (co_Shares newCommittee) = Ok newCommittee ∧
       ∀ o, o ∈ co_Operators newCommittee ↔ o ∈ OperatorIDs s).
Proof.
  intros Hro Hok Hs.
  destruct (listed_committee S c s Hro Hok Hs) as (committee & Hc & Hid & Hind & Hcops & Hl).
  assert (containsShare (co_Shares committee) s = true) as Hin.
  { apply containsShare_spec. by apply (listing_present S _ _ s Hl). }
  pose proof (listing_remove S _ _ s Hl) as Hl'. pose proof (remove_committee s committee Hind Hin) as Hrem.
  cbv zeta in Hrem. set (shares := filter (λ x, same_key x s = false) (co_Shares committee)) in *.
  exists committee. destruct (decide (shares = [])) as [He|Hne].
  - rewrite He in Hrem, Hl'. simpl in Hrem. eexists. do 3 (split; [done|]). by simpl.
  - destruct (build_spec (cid s) (OperatorIDs s) shares Hne) as (c2 & Hb & Hid2 & Hsh2 & _ & Hops2).
    { intros x Hx. apply list_elem_of_filter in Hx as [_ Hx]. apply Hl in Hx as [Hx Hx'].
      split; [done|]. by apply (ro_committee _ Hro). }
    exists c2. rewrite Hsh2, Hrem, Hb. by destruct shares.
Qed.

Lemma listing_remove_other S (Q : SSVShare → Prop) l s :
  listing S Q l → held S s → ¬ Q s → listing (delete (sh_ValidatorPubKey s) S) Q l.
Proof.
  intros Hl Hs Hq. pose proof (listing_remove S Q l s Hl) as Hr. rewrite filter_all in Hr; [done|]. apply Forall_forall.
  intros x Hx. apply Hl in Hx as [Hx Hqx]. apply not_true_is_false. rewrite same_key_eq. intros Hk.
  unfold held in Hs. assert (x = s) as -> by congruence. done.
Qed.

(** What a removal leaves an operator of the share with. *)
Lemma left_operator S c s o :
  store_ok S c → held S s → o ∈ OperatorIDs s →
  ∃ d, byOperatorID c !! o = Some d ∧
    removeShareFromOperator (sc_shares d) s = Some (filter (λ x, same_key x s = false) (sc_shares d)) ∧
    listing (delete (sh_ValidatorPubKey s) S) (λ x, o ∈ OperatorIDs x)
      (filter (λ x, same_key x s = false) (sc_shares d)).
Proof.
  intros Hok Hs Ho. pose proof (so_operator _ _ Hok o) as Hl.
  pose proof (listing_present S _ _ s Hl Hs Ho) as Hp. unfold OperatorValidators in Hl, Hp.
  destruct (byOperatorID c !! o) as [d|]; [|by apply not_elem_of_nil in Hp].
  exists d. split; [done|]. split; [apply remove_operator_spec; [apply Hl|done]|by apply listing_remove].
Qed.

(** An operator of a committee sees it, so replacing it does not fall through. *)
Lemma replace_found S c s o committee new :
  store_ok S c → byCommitteeID c !! cid s = Some committee → co_ID committee = cid s →
  o ∈ co_Operators committee →
  is_Some (replace_committee (cid s) new (OperatorCommittees o c)).
Proof.
  intros Hok Hc Hid Ho. destruct (so_committees _ _ Hok o) as [_ Hin].
  assert (committee ∈ OperatorCommittees o c) as Hm by (apply Hin; by rewrite Hid).
  clear Hin. induction (OperatorCommittees o c) as [|x l IH]; [by apply not_elem_of_nil in Hm|]. simpl.
  case_bool_decide as Hx; [done|]. apply elem_of_cons in Hm as [->|Hm]; [done|].
  destruct (IH Hm) as [l' ->]. done.
Qed.

Lemma remove_share_ok S c s :
  registry_ok S → store_ok S c → event_ok S (EvRemoved s) →
  ∃ c', handleShareRemoved (Some s) c = (c', Ok tt) ∧ store_ok (next_registry (EvRemoved s) S) c'.
Proof.
  intros Hro Hok Hs. simpl in Hs. pose proof (ro_settled _ Hro s Hs) as Hset.
  destruct (left_committee S c s Hro Hok Hs) as (committee & nc & Hc & Hcid & Hrem & Hid & Hcops & Hl & Hne).
  set (gone := (length (co_Shares nc) =? 0)%nat) in *.
  set (new := if gone then [] else [nc]).
  set (c1 := mkValidatorStore (if HasBeaconMetadata (Some s) then delete (sh_ValidatorIndex s) (byValidatorIndex c)
                               else byValidatorIndex c)
    (if gone then delete (cid s) (byCommitteeID c) else <[cid s := nc]> (byCommitteeID c))
    (byOperatorID c) (pubkeyToIndex c) (indexToPubkey c)).
  destruct (remove_operators_spec s (cid s) new (OperatorIDs s) c1) as (mo & Hops & Hmo & Hmo').
  { by apply (ro_operators _ Hro). }
  { intros o Ho. destruct (left_operator S c s o Hok Hs Ho) as (d & ? & ? & _). by eexists _, _. }
  exists (set_operators mo c1). split.
  - unfold handleShareRemoved. rewrite CommitteeID_eq, Hset. unfold mbind, st_bind, st_lift, st_get, st_modify.
    etransitivity; [|exact Hops]. unfold c1, new.
    destruct (HasBeaconMetadata (Some s)); cbn -[removeShareFromCommittee remove_operators];
      rewrite Hc; cbn -[removeShareFromCommittee remove_operators]; rewrite Hrem; fold gone; rewrite Hid;
      destruct gone; done.
  - apply (store_step S _ c _ (cid s) (OperatorIDs s) new); [done|..].
    + exact (remove_index_ok S c s _ _ Hro (store_index_ok _ _ Hok) Hs).
    + subst new c1. subst gone. simpl. destruct (co_Shares nc) as [|x l] eqn:He; [by left|right].
      exists nc. simpl. rewrite He. destruct Hne as [? ?]; [done|]. done.
    + intros old Hold. rewrite Hc in Hold. by simplify_eq.
    + replace (committee_shares (cid s) (set_operators mo c1)) with (co_Shares nc); [done|].
      unfold committee_shares, c1, gone. simpl. destruct (co_Shares nc) as [|x l] eqn:He; simpl.
      * by rewrite lookup_delete_eq.
      * by rewrite lookup_insert_eq.
    + intros id' l Hneq Hl'. apply listing_remove_other; [done..|congruence].
    + intros o Ho. destruct (left_operator S c s o Hok Hs Ho) as (d & Hd & Hrm & Hlo).
      pose proof (Hmo' o d _ Ho Hd Hrm) as Hres. unfold OperatorValidators at 1. simpl. rewrite Hres.
      destruct (replace_found S c s o committee new) as [l Hr]; [done..|by apply Hcops|].
      unfold OperatorCommittees in Hr |- *. rewrite Hd in Hr |- *. unfold kept_data. rewrite Hr.
      destruct (filter _ (sc_shares d)); simpl; [split; [done|by left]|].
      split; [done|]. right. eexists. split; [done|]. done.
    + intros o Ho. simpl. rewrite Hmo by done. split; [done|]. intros l Hl'.
      by apply listing_remove_other.
Qed.

(** Replacing a share by one with the same committee. *)
Section update.
Context (S : Registry) (c : validatorStore) (s old : SSVShare).
Abbreviation S' := (<[sh_ValidatorPubKey s := s]> S).
Abbreviation put := (fmap (M:=list) (λ x, if same_key x s then s else x)).
Hypothesis Hro : registry_ok S.
Hypothesis Hok : store_ok S c.
Hypothesis Hold : S !! sh_ValidatorPubKey s = Some old.
Hypothesis Hops : OperatorIDs old = OperatorIDs s.
Hypothesis Hcid : cid old = cid s.

Lemma old_key : sh_ValidatorPubKey old = sh_ValidatorPubKey s.
Proof. by apply (ro_key _ Hro). Qed.
Lemma old_held : held S old.
Proof. unfold held. by rewrite old_key. Qed.

Lemma put_listing (Q : SSVShare → Prop) l : (Q old ↔ Q s) → listing S Q l → listing S' Q (put l).
Proof. intros HQ Hl. by apply (listing_update S Q l s Hl old Hold old_key). Qed.

Lemma put_other (Q : SSVShare → Prop) l : ¬ Q old → ¬ Q s → listing S Q l → listing S' Q l.
Proof.
  intros Ho Hn Hl. pose proof (put_listing Q l ltac:(tauto) Hl) as Hp.
  replace (put l) with l in Hp; [done|]. rewrite <-(list_fmap_id l) at 1. apply list_fmap_ext.
  intros i x Hx%list_elem_of_lookup_2. simpl. destruct (same_key x s) eqn:E; [|done].
  apply same_key_eq in E. apply Hl in Hx as [Hx HQ]. rewrite E in Hx. congruence.
Qed.

(** The committee of the share, rebuilt. *)
Lemma updated_committee :
  ∃ committee new, byCommitteeID c !! cid s = Some committee ∧ co_ID committee = cid s ∧
    (∀ o, o ∈ co_Operators committee ↔ o ∈ OperatorIDs s) ∧
    updateCommitteeWithShare committee s = Ok new ∧ co_ID new = cid s ∧
    (∀ o, o ∈ co_Operators new ↔ o ∈ OperatorIDs s) ∧ buildCommittee (co_Shares new) = Ok new ∧
    listing S' (λ x, cid x = cid s) (co_Shares new).
Proof.
  destruct (listed_committee S c old Hro Hok) as (committee & Hc & Hid & _ & Hcops & Hl).
  { apply old_held. }
  rewrite Hcid, Hops in *. exists committee.
  destruct (build_spec (cid s) (OperatorIDs s) (put (co_Shares committee))) as (new & Hb & Hn & Hsh & _ & Hnops).
  - intros Hnil%fmap_nil_inv. rewrite Hnil in Hl. apply (not_elem_of_nil old), Hl. split; [apply old_held|done].
  - intros x (y & -> & Hy)%list_elem_of_fmap. destruct (same_key y s); [done|]. apply Hl in Hy as [Hy Hy'].
    split; [done|]. rewrite <-Hops. apply (ro_committee _ Hro); [done|apply old_held|congruence].
  - exists new. do 3 (split; [done|]). split.
    + unfold updateCommitteeWithShare.
      assert (containsShare (co_Shares committee) s = true) as ->.
      { apply containsShare_spec. rewrite <-old_key. apply (listing_present S _ _ old Hl); [apply old_held|done]. }
      done.
    + do 2 (split; [done|]). rewrite Hsh. split; [done|]. apply put_listing; [by rewrite Hcid|done].
Qed.

Lemma updated_operator o : o ∈ OperatorIDs s →
  ∃ d, byOperatorID c !! o = Some d ∧ replace_share s (sc_shares d) = Some (put (sc_shares d)) ∧
    put (sc_shares d) ≠ [] ∧ listing S' (λ x, o ∈ OperatorIDs x) (put (sc_shares d)).
Proof.
  intros Ho. pose proof (so_operator _ _ Hok o) as Hl.
  assert (o ∈ OperatorIDs old) as Ho' by (by rewrite Hops).
  pose proof (listing_present S _ _ old Hl old_held Ho') as Hp. rewrite old_key in Hp.
  unfold OperatorValidators in Hl, Hp.
  destruct (byOperatorID c !! o) as [d|] eqn:Hd; [|by apply not_elem_of_nil in Hp].
  exists d. split; [done|]. split; [apply replace_share_spec; [apply Hl|done]|]. split.
  - intros Hnil%fmap_nil_inv. by rewrite Hnil in Hp; apply not_elem_of_nil in Hp.
  - apply put_listing; [by rewrite Hops|done].
Qed.
End update.

Lemma update_share_ok S c s0 :
  registry_ok S → store_ok S c → event_ok S (EvUpdated s0) →
  ∃ c', update_share s0 c = (c', Ok tt) ∧ store_ok (next_registry (EvUpdated s0) S) c'.
Proof.
  intros Hro Hok (Hro' & old & Hold & Hops & Hcid & Hmeta). simpl in *. set (s := settled s0) in *.
  destruct (settled_fields s0) as (Hk & Hi & Ho & Hm & Hc & _). fold s in Hk, Hi, Ho, Hm, Hc.
  rewrite <-Hk in Hold, Hro' |- *. rewrite <-Ho in Hops. rewrite <-Hc in Hcid. rewrite <-Hi in Hmeta.
  destruct (updated_committee S c s old Hro Hok Hold Hops Hcid)
    as (committee & new & Hcm & Hcoid & Hcops & Hup & Hnid & Hnops & Hb & Hl).
  destruct (set_index_maps s c) as [Hscm Hsom].
  set (c1 := set_committees (<[cid s := new]> (byCommitteeID c)) (set_index s c)).
  pose proof (updated_operator S c s old Hro Hok Hold Hops) as Huo.
  destruct (update_operators_spec s (cid s) new (OperatorIDs s) c1) as (mo & Hres & Hmo & Hmo').
  { apply (ro_operators _ Hro'), held_insert. by left. }
  { intros o Hino. destruct (Huo o Hino) as (d & ? & ? & _). exists d. eexists. unfold c1. simpl. by rewrite Hsom. }
  exists (set_operators mo c1). split.
  - unfold update_share. rewrite CommitteeID_eq. fold s. unfold mbind, st_bind, st_lift, st_get, st_modify.
    etransitivity; [|exact Hres]. rewrite Hscm, <-Hc, Hcm. cbn -[updateCommitteeWithShare update_operators].
    by rewrite Hup.
  - apply (store_step S _ c _ (cid s) (OperatorIDs s) [new]); [done|..].
    + pose proof (set_index_ok S c s (store_index_ok _ _ Hok) Hro') as Hset. apply Hset.
      intros x Hx Hkx. unfold held in Hx. rewrite Hkx in Hx. simplify_eq. rewrite Hm. exact Hmeta.
    + right. by exists new.
    + intros x Hx. rewrite Hcm in Hx. by simplify_eq.
    + unfold committee_shares, c1. simpl. by rewrite lookup_insert_eq.
    + intros id' l Hne. by apply (put_other S s old Hro Hold); congruence.
    + intros o Hino. destruct (Huo o Hino) as (d & Hd & Hr & Hnil & Hlo).
      pose proof (Hmo' o d _ Hino ltac:(unfold c1; simpl; by rewrite Hsom) Hr) as Hlook.
      destruct (replace_found S c s o committee [new]) as [l Hrc]; [done..|by apply Hcops|].
      unfold OperatorCommittees in Hrc |- *. rewrite Hd in Hrc |- *.
      unfold OperatorValidators at 1. simpl. rewrite Hlook. split; [done|]. right. eexists. split; [done|].
      split; [done|]. simpl. by rewrite Hrc.
    + intros o Hno. simpl. rewrite Hmo by done. unfold c1. simpl. rewrite Hsom. split; [done|].
      intros l. by apply (put_other S s old Hro Hold); rewrite ?Hops.
Qed.

Lemma empty_ok c :
  byValidatorIndex c = ∅ → byCommitteeID c = ∅ → byOperatorID c = ∅ → registry_ok ∅ ∧ store_ok ∅ c.
Proof.
  intros Hi Hc Ho.
  assert (∀ s, ¬ held ∅ s) as Hno by (intros s; unfold held; by rewrite lookup_empty).
  assert (∀ Q, listing ∅ Q []) as Hl.
  { intros Q. split; [apply NoDup_nil_2|]. intros s. rewrite elem_of_nil. pose proof (Hno s). naive_solver. }
  split; split; try naive_solver.
  - intros i s. unfold ValidatorByIndex. rewrite Hi, lookup_empty. naive_solver.
  - intros id. unfold committee_shares. by rewrite Hc, lookup_empty.
  - intros id co. unfold Committee_of. by rewrite Hc, lookup_empty.
  - intros o. unfold OperatorValidators. by rewrite Ho, lookup_empty.
  - intros o d. by rewrite Ho, lookup_empty.
  - intros o. unfold committees_ok, OperatorCommittees. rewrite Ho, Hc, lookup_empty.
    split; [apply NoDup_nil_2|]. intros co. rewrite lookup_empty, elem_of_nil. naive_solver.
Qed.

Lemma one_share (f : SSVShare → StoreM unit) s c c' :
  f s c = (c', Ok tt) → for_shares f [Some s] c = (c', Ok tt).
Proof. intros Hf. simpl. unfold mbind, st_bind. by rewrite Hf. Qed.

Lemma handle_ok S c e :
  registry_ok S → store_ok S c → event_ok S e →
  ∃ c', handle e c = (c', Ok tt) ∧ registry_ok (next_registry e S) ∧ store_ok (next_registry e S) c'.
Proof.
  intros Hro Hok He. destruct e as [s|s|s|].
  - destruct (add_share_ok S c s Hok He) as (c' & Hf & Hc'). exists c'.
    split; [by apply one_share|]. split; [apply He|done].
  - destruct (update_share_ok S c s Hro Hok He) as (c' & Hf & Hc'). exists c'.
    split; [by apply one_share|]. split; [apply He|done].
  - destruct (remove_share_ok S c s Hro Hok He) as (c' & Hf & Hc'). exists c'.
    split; [done|]. split; [by apply registry_ok_delete|done].
  - exists (handleDrop c). split; [done|]. by apply empty_ok.
Qed.

Fixpoint run_events (l : list Event) : StoreM unit :=
  match l with [] => mret tt | e :: l => handle e ;; run_events l end.
Fixpoint events_ok (S : Registry) (l : list Event) : Prop :=
  match l with [] => True | e :: l => event_ok S e ∧ events_ok (next_registry e S) l end.
Definition registry_after (l : list Event) (S : Registry) : Registry :=
  foldl (λ S e, next_registry e S) S l.

Lemma run_events_ok l S c :
  registry_ok S → store_ok S c → events_ok S l →
  ∃ c', run_events l c = (c', Ok tt) ∧ registry_ok (registry_after l S) ∧ store_ok (registry_after l S) c'.
Proof.
  revert S c. induction l as [|e l IH]; intros S c Hro Hok Hl; [by exists c|]. destruct Hl as [He Hl].
  destruct (handle_ok S c e Hro Hok He) as (c1 & Hf & Hro1 & Hok1).
  destruct (IH _ c1 Hro1 Hok1 Hl) as (c2 & Hr & Hok2). exists c2. split; [|done].
  simpl. unfold mbind, st_bind. by rewrite Hf.
Qed.

(** C16. The indices of the validator store follow the registry.  From a fresh store, any
    sequence of added, updated and removed shares and drops that the registry allows is
    handled without an error, and afterwards the store answers every query as the registry
    does: the share of a validator index, both directions of the key mapping, the shares of
    each committee and of each operator (each once), each committee rebuilt from exactly its
    shares, and each operator's committees. *)
Theorem store_tracks_registry mapping l :
  events_ok ∅ l →
  ∃ c, run_events l (newValidatorStore mapping) = (c, Ok tt) ∧ store_ok (registry_after l ∅) c.
Proof.
  intros Hl. destruct (empty_ok (newValidatorStore mapping)) as [Hro Hok]; [done..|].
  destruct (run_events_ok l ∅ _ Hro Hok Hl) as (c & Hrun & _ & Hc). by exists c.
Qed.

Lemma absent_everywhere S c s :
  store_ok S c → S !! sh_ValidatorPubKey s = None →
  match byCommitteeID c !! cid s with
  | None => True
  | Some committee => containsShare (co_Shares committee) s = false ∧
      ∃ e, removeShareFromCommittee committee s = Err e ∧ updateCommitteeWithShare committee s = Err e
  end.
Proof.
  intros Hok Hs. pose proof (so_committee _ _ Hok (cid s)) as Hl. unfold committee_shares in Hl.
  destruct (byCommitteeID c !! cid s) as [committee|] eqn:Hc; [|done].
  assert (containsShare (co_Shares committee) s = false) as Hno.
  { apply not_true_is_false. rewrite containsShare_spec. by apply (listing_absent S _ _ s Hl). }
  split; [done|]. eexists. unfold removeShareFromCommittee, updateCommitteeWithShare. rewrite Hno.
  pose proof (so_built _ _ Hok _ _ Hc) as Hb.
  assert (co_Indices committee = sh_ValidatorIndex <$> co_Shares committee) as ->.
  { destruct (co_Shares committee); [done|]. by injection Hb as <-. }
  pose proof (remove_loop_spec [] (co_Shares committee) s) as Hr. simpl in Hr. by rewrite Hr, Hno.
Qed.

(** Events the store cannot follow are refused with an error, and the committees and
    operators stay as they were: a share added again to the committee it is in, and a share
    removed or updated whose key the registry does not have. *)
Theorem bad_events_refused S c s :
  store_ok S c →
  let refused (r : validatorStore * result goerr unit) :=
    (∃ e, r.2 = Err e) ∧ byCommitteeID r.1 = byCommitteeID c ∧ byOperatorID r.1 = byOperatorID c in
  (∀ old, held S old → sh_ValidatorPubKey old = sh_ValidatorPubKey s → cid old = cid s →
     refused (handleSharesAdded [Some s] c)) ∧
  (S !! sh_ValidatorPubKey s = None →
     refused (handleShareRemoved (Some s) c) ∧ refused (handleSharesUpdated [Some s] c)).
Proof.
  intros Hok refused. destruct (settled_fields s) as (Hk & _ & _ & _ & Hid & _).
  destruct (set_index_maps (settled s) c) as [Hcm Hom]. split.
  - intros old Hh Hkey Hcid. pose proof (so_committee _ _ Hok (cid s)) as Hl.
    pose proof (listing_present S _ _ old Hl Hh Hcid) as Hp. rewrite Hkey, <-Hk in Hp.
    apply containsShare_spec in Hp. unfold committee_shares in Hp. unfold refused, handleSharesAdded.
    cbn [for_shares]. unfold add_share. rewrite CommitteeID_eq.
    unfold mbind, st_bind, st_lift, st_get, st_modify. rewrite Hcm.
    destruct (byCommitteeID c !! cid s) as [committee|]; [|done]. rewrite Hp. simpl.
    split; [by eexists|done].
  - intros Hs. rewrite <-Hk in Hs. pose proof (absent_everywhere S c (settled s) Hok Hs) as Habs.
    rewrite Hid in Habs. split.
    + unfold refused, handleShareRemoved. rewrite CommitteeID_eq.
      unfold mbind, st_bind, st_lift, st_get, st_modify.
      destruct (HasBeaconMetadata (Some (settled s))); cbn -[removeShareFromCommittee];
        (destruct (byCommitteeID c !! cid s) as [committee|]; [|split; [by eexists|done]]);
        destruct Habs as (_ & e & -> & _); (split; [by eexists|done]).
    + unfold refused, handleSharesUpdated. cbn [for_shares]. unfold update_share. rewrite CommitteeID_eq.
      unfold mbind, st_bind, st_lift, st_get, st_modify. rewrite Hcm.
      destruct (byCommitteeID c !! cid s) as [committee|]; [|split; [by eexists|done]].
      cbn -[updateCommitteeWithShare]. destruct Habs as (_ & e & _ & ->). split; [by eexists|done].
Qed.

(** ** Two validators of one committee *)
Definition demo_share (key : bytes) (index : ValidatorIndex) (status : ValidatorStatus) : SSVShare :=
  mkSSVShare index key [] [mkShareMember [] 4; mkShareMember [] 1; mkShareMember [] 3; mkShareMember [] 2]
    [] [] status 0 0 [] false None None None 0.
Definition demo_a (status : ValidatorStatus) : SSVShare := demo_share [x01] 7 status.
Definition demo_b : SSVShare := demo_share [x02] 8 ValidatorStateActiveOngoing.
Definition demo_events : list Event :=
  [EvAdded (demo_a ValidatorStateUnknown); EvAdded demo_b; EvUpdated (demo_a ValidatorStateActiveOngoing);
   EvRemoved (settled demo_b)].

(** Registries of settled shares of this committee. *)
Lemma demo_registry S :
  map_Forall (λ k s, sh_ValidatorPubKey s = k ∧ ∃ key index status, s = settled (demo_share key index status)) S →
  (∀ s s', held S s → held S s' → sh_ValidatorIndex s = sh_ValidatorIndex s' → s = s') → registry_ok S.
Proof.
  intros Hall Hi. assert (∀ s, held S s → ∃ key index status, s = settled (demo_share key index status)) as Hs.
  { intros s Hs. by apply (Hall (sh_ValidatorPubKey s)). }
  split.
  - intros k s Hk. by apply (Hall k).
  - intros s (key & index & status & ->)%Hs. apply settled_fields.
  - intros s (key & index & status & ->)%Hs.
    apply (bool_decide_unpack (NoDup [4; 1; 3; 2])). reflexivity.
  - by intros s s' (key & index & status & ->)%Hs (key' & index' & status' & ->)%Hs _ o.
  - intros s s' H1 H2 _ _. by apply Hi.
Qed.

Ltac demo_registry_tac :=
  apply demo_registry;
  [ repeat first [apply map_Forall_insert_2; [split; [reflexivity|by eexists _, _, _]|] | apply map_Forall_empty]
  | intros ? ? H1 H2; unfold held in H1, H2;
    repeat (apply lookup_insert_Some in H1 as [[? <-]|[? H1]]); try (by rewrite lookup_empty in H1);
    repeat (apply lookup_insert_Some in H2 as [[? <-]|[? H2]]); try (by rewrite lookup_empty in H2);
    try done; intros Heq; try discriminate Heq ].

Lemma demo_events_ok : events_ok ∅ demo_events.
Proof.
  unfold demo_events. cbn [events_ok event_ok next_registry].
  split; [split; [demo_registry_tac|by rewrite lookup_empty]|].
  split; [split; [demo_registry_tac|by rewrite lookup_insert_ne, lookup_empty]|].
  split; [split; [demo_registry_tac|]|].
  - exists (settled (demo_a ValidatorStateUnknown)). split; [reflexivity|]. split; [reflexivity|].
    split; [reflexivity|]. discriminate.
  - split; [|done]. reflexivity.
Qed.

Lemma store_tracks_registry_witness :
  ∃ c, run_events demo_events (newValidatorStore ∅) = (c, Ok tt) ∧ store_ok (registry_after demo_events ∅) c ∧
    settled (demo_a ValidatorStateActiveOngoing) ∈ OperatorValidators 3 c.
Proof.
  destruct (store_tracks_registry ∅ demo_events demo_events_ok) as (c & Hrun & Hok).
  exists c. split; [exact Hrun|]. split; [exact Hok|].
  apply (so_operator _ _ Hok 3). split; [reflexivity|]. apply (bool_decide_unpack (3 ∈ [4; 1; 3; 2])). reflexivity.
Defined.

Lemma demo_store :
  store_ok (registry_after demo_events ∅) (run_events demo_events (newValidatorStore ∅)).1.
Proof.
  destruct (empty_ok (newValidatorStore ∅)) as [Hro Hok]; [done..|].
  destruct (run_events_ok demo_events ∅ _ Hro Hok demo_events_ok) as (c & Hrun & _ & Hc). by rewrite Hrun.
Qed.
