(* ===== verification/SharedSlices.v ===== *)
(** * The lists of shares as slices (registry/storage/validatorstore.go)

    [ValidatorStore] has the list of shares of an operator as a value.  In the code it is a
    slice: a view of an array, which [OperatorValidators] hands out as it is and the handlers
    of events then write to.  Here the arrays are in a heap, so that a list that was handed
    out can be read again after an event.  The store over the heap is shown to refine the one
    of [ValidatorStore]; what a caller sees of a list that it still holds is a theorem. *)

From stdpp Require Import base list gmap numbers strings sorting.
From Stdlib Require Import Strings.Byte.
From S2P Require Import Prelude Sha256 SpecTypes Network Proposer Subnets Share ValidatorStore StoreRegistry.
Open Scope string_scope.
Open Scope list_scope.
Open Scope Z_scope.
#[local] Opaque ComputeCommitteeID.

(** ** Arrays and slices
    A cell is a pointer to a share, [None] for nil; the length of an array is the capacity of
    its slices.  All the slices here begin at the first cell. *)
Abbreviation Cells := (list (option SSVShare)).
Abbreviation Heap := (list Cells).
Record Slice := mkSlice { sl_array : nat; sl_len : nat }.

Definition cells_of (h : Heap) (sl : Slice) : Cells := default [] (h !! sl_array sl).
Definition elements (h : Heap) (sl : Slice) : Cells := take (sl_len sl) (cells_of h sl).

Record operatorData := mkOperatorData { od_shares : Slice; od_committees : list Committee }.
(** [me_store]: the other indices; its operators are in [me_byOperatorID] instead. *)
Record memStore := mkMemStore {
  me_heap : Heap;
  me_byOperatorID : gmap OperatorID operatorData;
  me_store : validatorStore;
}.
Abbreviation MemM := (ST memStore goerr).
Definition newMemStore : memStore := mkMemStore [] ∅ (newValidatorStore ∅).

Definition mem_OperatorValidators (id : OperatorID) (m : memStore) : option Slice :=
  od_shares <$> me_byOperatorID m !! id.

(** ** What the events do to the other indices *)
Definition committee_added (committeeID : bytes) (share : SSVShare) : StoreM Committee :=
  st_modify (set_index share) ;;
  c ← st_get;
  committee ← st_lift (match byCommitteeID c !! committeeID with
                       | Some committee =>
                           fail_if (containsShare (co_Shares committee) share)
                             (ENew "share already exists in committee") ;;
                           buildCommittee (co_Shares committee ++ [share])
                       | None => buildCommittee [share]
                       end);
  st_modify (set_committees (<[co_ID committee := committee]> (byCommitteeID c))) ;;
  mret committee.
Definition committee_removed (committeeID : bytes) (share : SSVShare) : StoreM Committee :=
  st_modify (λ c, if HasBeaconMetadata (Some share)
    then mkValidatorStore (delete (sh_ValidatorIndex share) (byValidatorIndex c)) (byCommitteeID c)
           (byOperatorID c) (pubkeyToIndex c) (indexToPubkey c)
    else c) ;;
  c ← st_get;
  committee ← st_lift (match byCommitteeID c !! committeeID with
                       | None => Err (ENew "committee not found")
                       | Some committee => Ok committee
                       end);
  newCommittee ← st_lift (match removeShareFromCommittee committee share with
                          | Err e => Err (EWrap "failed to remove share from committee" e)
                          | r => r
                          end);
  st_modify (set_committees
    (if (length (co_Shares newCommittee) =? 0)%nat then delete (co_ID newCommittee) (byCommitteeID c)
     else <[co_ID newCommittee := newCommittee]> (byCommitteeID c))) ;;
  mret newCommittee.
Definition committee_updated (committeeID : bytes) (share : SSVShare) : StoreM Committee :=
  st_modify (set_index share) ;;
  c ← st_get;
  committee ← st_lift (match byCommitteeID c !! committeeID with
                       | None => Err (ENew "committee not found")
                       | Some committee => Ok committee
                       end);
  newCommittee ← st_lift (match updateCommitteeWithShare committee share with
                          | Err e => Err (EWrap "failed to update share in committee" e)
                          | r => r
                          end);
  st_modify (set_committees (<[committeeID := newCommittee]> (byCommitteeID c))) ;;
  mret newCommittee.

(** ** What they do to the operators *)
Section shared.
(** The spare room of an array that [append] has to allocate; the language does not say how
    much there is. *)
Variable spare : nat → nat.

Definition append (sl : Slice) (xs : Cells) (h : Heap) : Heap * Slice :=
  let cells := cells_of h sl in
  let len := (sl_len sl + length xs)%nat in
  if (len <=? length cells)%nat
  then (<[sl_array sl := list_inserts (sl_len sl) xs cells]> h, mkSlice (sl_array sl) len)
  else (h ++ [take (sl_len sl) cells ++ xs ++ replicate (spare len) None], mkSlice (length h) len).

(** The place of the share with the same key; reading the key through nil is a panic. *)
Fixpoint find_share (share : SSVShare) (i : nat) (l : Cells) : result goerr (option nat) :=
  match l with
  | [] => Ok None
  | None :: _ => Panic
  | Some s :: l => if same_key s share then Ok (Some i) else find_share share (S i) l
  end.

Definition set_operator (operator : OperatorID) (data : operatorData) (h : Heap) (m : memStore) : memStore :=
  mkMemStore h (<[operator := data]> (me_byOperatorID m)) (me_store m).

Fixpoint mem_add_operators (share : SSVShare) (committee : Committee) (seen operators : list OperatorID)
    : MemM unit :=
  match operators with
  | [] => mret tt
  | operator :: operators =>
      st_lift (fail_if (bool_decide (operator ∈ seen)) (ENew "duplicate operator in share")) ;;
      m ← st_get;
      let '(h, data) := match me_byOperatorID m !! operator with
                        | Some data => (me_heap m, data)
                        | None => (me_heap m ++ [[]], mkOperatorData (mkSlice (length (me_heap m)) 0) [])
                        end in
      found ← st_lift (find_share share 0 (elements h (od_shares data)));
      st_lift (fail_if (bool_decide (is_Some found)) (ENew "share already exists in operator")) ;;
      let '(h, shares) := append (od_shares data) [Some share] h in
      let committees := default (od_committees data ++ [committee])
                          (replace_committee (co_ID committee) [committee] (od_committees data)) in
      st_modify (set_operator operator (mkOperatorData shares committees) h) ;;
      mem_add_operators share committee (operator :: seen) operators
  end.

Definition mem_removeShareFromOperator (data : operatorData) (share : SSVShare) (h : Heap)
    : result goerr (option (Heap * Slice)) :=
  found ← find_share share 0 (elements h (od_shares data));
  Ok (match found with
      | None => None
      | Some i => Some (append (mkSlice (sl_array (od_shares data)) i) (drop (S i) (elements h (od_shares data))) h)
      end).

Fixpoint mem_remove_operators (share : SSVShare) (committeeID : bytes) (newCommittee : list Committee)
    (operators : list OperatorID) : MemM unit :=
  match operators with
  | [] => mret tt
  | operator :: operators =>
      m ← st_get;
      data ← st_lift (match me_byOperatorID m !! operator with
                      | None => Err (ENew "operator not found")
                      | Some data => Ok data
                      end);
      removed ← st_lift (mem_removeShareFromOperator data share (me_heap m));
      '(h, shares) ← st_lift (match removed with
                              | None => Err (ENew "share not found in operator")
                              | Some removed => Ok removed
                              end);
      let committees := default (od_committees data)
                          (replace_committee committeeID newCommittee (od_committees data)) in
      st_modify (λ m, if (sl_len shares =? 0)%nat
        then mkMemStore h (delete operator (me_byOperatorID m)) (me_store m)
        else set_operator operator (mkOperatorData shares committees) h m) ;;
      mem_remove_operators share committeeID newCommittee operators
  end.

Fixpoint mem_update_operators (share : SSVShare) (committeeID : bytes) (newCommittee : Committee)
    (operators : list OperatorID) : MemM unit :=
  match operators with
  | [] => mret tt
  | operator :: operators =>
      m ← st_get;
      data ← st_lift (match me_byOperatorID m !! operator with
                      | None => Err (ENew "operator not found")
                      | Some data => Ok data
                      end);
      found ← st_lift (find_share share 0 (elements (me_heap m) (od_shares data)));
      i ← st_lift (match found with
                   | None => Err (ENew "share not found in operator")
                   | Some i => Ok i
                   end);
      let sl := od_shares data in
      let h := <[sl_array sl := <[i := Some share]> (cells_of (me_heap m) sl)]> (me_heap m) in
      let committees := default (od_committees data)
                          (replace_committee committeeID [newCommittee] (od_committees data)) in
      st_modify (set_operator operator (mkOperatorData sl committees) h) ;;
      mem_update_operators share committeeID newCommittee operators
  end.

(** ** The handlers *)
Definition on_store {A} (f : StoreM A) : MemM A := λ m,
  let '(s, r) := f (me_store m) in (mkMemStore (me_heap m) (me_byOperatorID m) s, r).

Definition mem_add_share (share : SSVShare) : MemM unit :=
  let '(committeeID, share) := CommitteeID share in
  committee ← on_store (committee_added committeeID share);
  mem_add_operators share committee [] (sm_Signer <$> sh_Committee share).
Definition mem_update_share (share : SSVShare) : MemM unit :=
  let '(committeeID, share) := CommitteeID share in
  newCommittee ← on_store (committee_updated committeeID share);
  mem_update_operators share committeeID newCommittee (sm_Signer <$> sh_Committee share).
Definition mem_remove_share (share : SSVShare) : MemM unit :=
  let '(committeeID, share) := CommitteeID share in
  newCommittee ← on_store (committee_removed committeeID share);
  mem_remove_operators share committeeID
    (if (length (co_Shares newCommittee) =? 0)%nat then [] else [newCommittee]) (sm_Signer <$> sh_Committee share).

Definition mem_handle (e : Event) : MemM unit :=
  match e with
  | EvAdded s => mem_add_share s
  | EvUpdated s => mem_update_share s
  | EvRemoved s => mem_remove_share s
  | EvDropped => st_modify (λ m, mkMemStore (me_heap m) ∅ (handleDrop (me_store m)))
  end.
Fixpoint mem_run_events (l : list Event) : MemM unit :=
  match l with [] => mret tt | e :: l => mem_handle e ;; mem_run_events l end.
End shared.

(** ** Reading and writing *)
(** The slice is the list [l]: the first cells of its array are the shares of [l]. *)
Definition holds (h : Heap) (sl : Slice) (l : list SSVShare) : Prop :=
  sl_len sl = length l ∧ ∃ rest, h !! sl_array sl = Some ((Some <$> l) ++ rest).

Lemma holds_cells h sl l : holds h sl l → ∃ rest, cells_of h sl = (Some <$> l) ++ rest.
Proof. intros [_ [rest Hh]]. exists rest. unfold cells_of. by rewrite Hh. Qed.
Lemma holds_elements h sl l : holds h sl l → elements h sl = Some <$> l.
Proof.
  intros Hh. destruct (holds_cells _ _ _ Hh) as [rest Hc]. destruct Hh as [Hl _]. unfold elements.
  by rewrite Hc, Hl, take_app_length' by (by rewrite length_fmap).
Qed.
Lemma holds_valid h sl l : holds h sl l → (sl_array sl < length h)%nat.
Proof. intros [_ [rest Hh]]. by eapply lookup_lt_Some. Qed.
Lemma holds_frame h h' sl l : h' !! sl_array sl = h !! sl_array sl → holds h sl l → holds h' sl l.
Proof. intros Hf [Hl [rest Hh]]. split; [done|]. exists rest. by rewrite Hf. Qed.

Lemma inserts_app {A} (xs : list A) : ∀ p q i, i = length p → (length xs ≤ length q)%nat →
  list_inserts i xs (p ++ q) = p ++ xs ++ drop (length xs) q.
Proof.
  induction xs as [|x xs IH]; intros p q i -> Hq; [by rewrite drop_0|].
  destruct q as [|y q]; simpl in Hq; [lia|]. cbn [list_inserts].
  replace (p ++ y :: q) with ((p ++ [y]) ++ q) by (by rewrite <-app_assoc).
  rewrite IH by (try (rewrite length_app; simpl); lia). rewrite <-!app_assoc. cbn [app].
  rewrite insert_app_r_alt by done. by rewrite Nat.sub_diag.
Qed.

(** One more share at the end: in the same array, or in a new one. *)
Lemma append_one spare h sl l x h' sl' :
  holds h sl l → append spare sl [Some x] h = (h', sl') →
  holds h' sl' (l ++ [x]) ∧ (sl_array sl' = sl_array sl ∨ sl_array sl' = length h) ∧
  ∀ a, a ≠ sl_array sl → (a < length h)%nat → h' !! a = h !! a.
Proof.
  intros Hh. pose proof (holds_valid _ _ _ Hh) as Hlt. destruct (holds_cells _ _ _ Hh) as [rest Hc].
  destruct Hh as [Hl _]. unfold append. rewrite Hc, Hl. cbv zeta.
  destruct (Nat.leb_spec (length l + length [Some x]) (length ((Some <$> l) ++ rest))) as [Hle|Hgt];
    intros [<- <-]%pair_equal_spec.
  - rewrite length_app, length_fmap in Hle. rewrite inserts_app by (rewrite ?length_fmap; simpl in *; lia).
    split; [|split; [by left|]].
    + split; [simpl; rewrite length_app; simpl; lia|]. exists (drop 1 rest). cbn [sl_array].
      rewrite list_lookup_insert_eq by done. by rewrite fmap_app, <-app_assoc.
    + intros a Ha _. by rewrite list_lookup_insert_ne.
  - split; [|split; [by right|]].
    + split; [simpl; rewrite length_app; simpl; lia|]. eexists. cbn [sl_array].
      rewrite lookup_app_r, Nat.sub_diag by done. cbn [lookup list_lookup].
      rewrite take_app_length', fmap_app, <-app_assoc by (by rewrite length_fmap). reflexivity.
    + intros a _ Ha. by rewrite lookup_app_l.
Qed.

(** The shares after the place [j] move one cell to the front; the last cell stays. *)
Lemma shift_in_place spare h sl l1 x l2 :
  holds h sl (l1 ++ x :: l2) → ∃ rest z, last (l1 ++ x :: l2) = Some z ∧
    append spare (mkSlice (sl_array sl) (length l1)) (drop (Datatypes.S (length l1)) (elements h sl)) h =
      (<[sl_array sl := (Some <$> (l1 ++ l2) ++ [z]) ++ rest]> h, mkSlice (sl_array sl) (length (l1 ++ l2))).
Proof.
  intros Hh. rewrite (holds_elements _ _ _ Hh). destruct Hh as [_ [rest Hr]].
  exists rest, (default x (last l2)). split; [by rewrite last_app, last_cons; destruct (last l2)|].
  rewrite fmap_app, fmap_cons, drop_app_ge, length_fmap by (rewrite length_fmap; lia).
  replace (Datatypes.S (length l1) - length l1)%nat with 1%nat by lia. cbn [drop]. rewrite drop_0.
  unfold append, cells_of. cbn [sl_array sl_len]. rewrite Hr. cbn [default from_option id].
  rewrite fmap_app, fmap_cons, <-app_assoc, <-app_comm_cons.
  destruct (Nat.leb_spec (length l1 + length (Some <$> l2)) (length ((Some <$> l1) ++ Some x :: (Some <$> l2) ++ rest)))
    as [_|Hgt]; [|rewrite length_app in Hgt; cbn [length] in Hgt; rewrite length_app, !length_fmap in Hgt; lia].
  rewrite inserts_app; [|by rewrite length_fmap|cbn [length]; rewrite length_app; lia].
  rewrite length_app, !length_fmap. f_equal. f_equal. rewrite !fmap_app, <-!app_assoc. f_equal. f_equal.
  destruct l2 as [|y l2 _] using rev_ind; [done|]. rewrite last_snoc, fmap_app, length_app. cbn [default from_option id length].
  rewrite Nat.add_1_r. cbn [drop]. rewrite <-app_assoc, drop_app_length' by (by rewrite length_fmap). done.
Qed.

(** ** The place of a share *)
Lemma find_share_spec share l : ∀ i,
  find_share share i (Some <$> l) = Ok None ∧ containsShare l share = false ∧
    removeShareFromOperator l share = None ∧ replace_share share l = None ∨
  ∃ l1 x l2, l = l1 ++ x :: l2 ∧ find_share share i (Some <$> l) = Ok (Some (i + length l1)%nat) ∧
    containsShare l share = true ∧ same_key x share = true ∧ removeShareFromOperator l share = Some (l1 ++ l2) ∧
    replace_share share l = Some (l1 ++ share :: l2).
Proof.
  induction l as [|s l IH]; intros i; [by left|]. cbn. destruct (same_key s share) eqn:Hk.
  { right. exists [], s, l. cbn. by rewrite Nat.add_0_r. }
  destruct (IH (Datatypes.S i)) as [(-> & Hc & -> & ->)|(l1 & x & l2 & -> & -> & Hc & Hx & -> & ->)]; [by left|].
  right. exists (s :: l1), x, l2. cbn. rewrite Nat.add_succ_r. by split_and!.
Qed.

(** ** The store over the heap and the store of values *)
Record refines (m : memStore) (c : validatorStore) : Prop := mkRefines {
  rf_store : me_store m = set_operators ∅ c;
  rf_operators o :
    match me_byOperatorID m !! o, byOperatorID c !! o with
    | Some d, Some sc => holds (me_heap m) (od_shares d) (sc_shares sc) ∧ od_committees d = sc_committees sc
    | None, None => True
    | _, _ => False
    end;
  (** No two operators have one array. *)
  rf_apart o o' d d' : o ≠ o' → me_byOperatorID m !! o = Some d → me_byOperatorID m !! o' = Some d' →
    sl_array (od_shares d) ≠ sl_array (od_shares d');
}.
(** In the heap [h] the arrays of the operators other than [o] are as in [m], and [sl] is in
    none of them. *)
Definition owns (m : memStore) (h : Heap) (o : OperatorID) (sl : Slice) : Prop :=
  ∀ o' d', o' ≠ o → me_byOperatorID m !! o' = Some d' →
    sl_array (od_shares d') ≠ sl_array sl ∧ h !! sl_array (od_shares d') = me_heap m !! sl_array (od_shares d').

Lemma refines_operator m c o d :
  refines m c → me_byOperatorID m !! o = Some d →
  ∃ sc, byOperatorID c !! o = Some sc ∧ holds (me_heap m) (od_shares d) (sc_shares sc) ∧ od_committees d = sc_committees sc.
Proof.
  intros Hr Hd. pose proof (rf_operators _ _ Hr o) as Ho. rewrite Hd in Ho.
  destruct (byOperatorID c !! o) as [sc|]; [|done]. by exists sc.
Qed.
Lemma owns_existing m c o d : refines m c → me_byOperatorID m !! o = Some d → owns m (me_heap m) o (od_shares d).
Proof. intros Hr Hd o' d' Hne Hd'. split; [|done]. by eapply (rf_apart _ _ Hr o' o). Qed.
Lemma owns_write m h h' o sl :
  owns m h o sl → (∀ a, a ≠ sl_array sl → h' !! a = h !! a) → owns m h' o sl.
Proof. intros Ho Hw o' d' Hne Hd'. destruct (Ho o' d' Hne Hd') as [Ha Hh]. split; [done|]. by rewrite Hw. Qed.

Lemma refines_set m c o d sc h :
  refines m c → owns m h o (od_shares d) → holds h (od_shares d) (sc_shares sc) → od_committees d = sc_committees sc →
  refines (set_operator o d h m) (set_operators (<[o := sc]> (byOperatorID c)) c).
Proof.
  intros Hr Ho Hh Hc. split; cbn; [by rewrite (rf_store _ _ Hr)| |].
  - intros o'. destruct (decide (o' = o)) as [->|Hne]; [by rewrite !lookup_insert_eq|].
    rewrite !lookup_insert_ne by done. pose proof (rf_operators _ _ Hr o') as Ho'.
    destruct (me_byOperatorID m !! o') as [d'|] eqn:Hd'; [|done]. destruct (byOperatorID c !! o') as [sc'|]; [|done].
    destruct Ho' as [Ho' Hc']. split; [|done]. eapply holds_frame; [|exact Ho']. by apply Ho with o'.
  - intros o1 o2 d1 d2 Hne H1 H2. apply lookup_insert_Some in H1 as [[<- <-]|[Hn1 H1]];
      apply lookup_insert_Some in H2 as [[<- <-]|[Hn2 H2]]; [done| | |by eapply (rf_apart _ _ Hr o1 o2)].
    + intros Heq. by destruct (Ho o2 d2 ltac:(done) H2) as [Ha _].
    + by destruct (Ho o1 d1 ltac:(done) H1) as [Ha _].
Qed.
Lemma refines_delete m c o sl h :
  refines m c → owns m h o sl →
  refines (mkMemStore h (delete o (me_byOperatorID m)) (me_store m)) (set_operators (delete o (byOperatorID c)) c).
Proof.
  intros Hr Ho. split; cbn; [by rewrite (rf_store _ _ Hr)| |].
  - intros o'. destruct (decide (o' = o)) as [->|Hne]; [by rewrite !lookup_delete_eq|].
    rewrite !lookup_delete_ne by done. pose proof (rf_operators _ _ Hr o') as Ho'.
    destruct (me_byOperatorID m !! o') as [d'|] eqn:Hd'; [|done]. destruct (byOperatorID c !! o') as [sc'|]; [|done].
    destruct Ho' as [Ho' Hc']. split; [|done]. eapply holds_frame; [|exact Ho']. by apply Ho with o'.
  - intros o1 o2 d1 d2 Hne [_ H1]%lookup_delete_Some [_ H2]%lookup_delete_Some. by eapply (rf_apart _ _ Hr o1 o2).
Qed.
Lemma owns_append spare m c h o sl l x h' sl' :
  refines m c → owns m h o sl → holds h sl l → append spare sl [Some x] h = (h', sl') → owns m h' o sl'.
Proof.
  intros Hr Ho Hh Ha o' d' Hne Hd'. destruct (Ho o' d' Hne Hd') as [Hap Heq].
  destruct (refines_operator _ _ _ _ Hr Hd') as (sc & _ & Hd & _). pose proof (holds_valid _ _ _ (holds_frame _ _ _ _ Heq Hd)) as Hlt.
  destruct (append_one _ _ _ _ _ _ _ Hh Ha) as (_ & Hsl & Hframe). rewrite Hframe by done. split; [|done].
  destruct Hsl as [->| ->]; [done|lia].
Qed.

(** The same result, and states that stay in step. *)
Definition simulates {A} (f : MemM A) (g : StoreM A) : Prop := ∀ m c, refines m c →
  ∃ m' c' r, f m = (m', r) ∧ g c = (c', r) ∧ refines m' c'.

Lemma sim_bind {A B} (f : MemM A) (g : StoreM A) (k : A → MemM B) (k' : A → StoreM B) :
  simulates f g → (∀ a, simulates (k a) (k' a)) → simulates (f ≫= k) (g ≫= k').
Proof.
  intros Hf Hk m c Hr. destruct (Hf m c Hr) as (m1 & c1 & r & Hm & Hc & Hr1). unfold mbind, st_bind. rewrite Hm, Hc.
  destruct r as [a|e|]; [by apply Hk|by exists m1, c1, (Err e)|by exists m1, c1, Panic].
Qed.

Lemma add_operators_sim spare share committee ops : ∀ seen,
  simulates (mem_add_operators spare share committee seen ops) (add_operators share committee seen ops).
Proof.
  induction ops as [|o ops IH]; intros seen m c Hr; [by exists m, c, (Ok tt)|].
  cbn [mem_add_operators add_operators]. unfold mbind, st_bind, st_lift, st_get, st_modify.
  destruct (bool_decide (o ∈ seen)); [by exists m, c, (Err (ENew "duplicate operator in share"))|]. cbn [fail_if].
  set (data := default (mkSharesAndCommittees [] []) (byOperatorID c !! o)).
  set (opened := match me_byOperatorID m !! o with Some _ => _ | None => _ end).
  assert (owns m opened.1 o (od_shares opened.2) ∧ holds opened.1 (od_shares opened.2) (sc_shares data) ∧
    od_committees opened.2 = sc_committees data) as (Ho & Hh & Hc).
  { unfold opened, data. pose proof (rf_operators _ _ Hr o) as Hop.
    destruct (me_byOperatorID m !! o) as [d|] eqn:Hd; destruct (byOperatorID c !! o) as [sc|]; [|done..|].
    - split; [by eapply owns_existing|done].
    - split; [|split; [|done]].
      + intros o' d' _ Hd'. destruct (refines_operator _ _ _ _ Hr Hd') as (sc & _ & Hh%holds_valid & _).
        cbn. split; [lia|]. by apply lookup_app_l.
      + split; [done|]. exists []. cbn. by rewrite lookup_app_r, Nat.sub_diag. }
  destruct opened as [h d]. cbn [fst snd] in *. rewrite (holds_elements _ _ _ Hh).
  destruct (find_share_spec share (sc_shares data) 0) as [(-> & -> & _)|(l1 & x & l2 & _ & -> & -> & _)].
  2:{ exists m, c, (Err (ENew "share already exists in operator")). by rewrite bool_decide_true by done. }
  rewrite bool_decide_false by (by intros [? ?]). cbn [fail_if].
  destruct (append spare (od_shares d) [Some share] h) as [h' sl'] eqn:Ha. rewrite Hc.
  apply IH. destruct (append_one _ _ _ _ _ _ _ Hh Ha) as [Hh' _].
  apply refines_set; [done|by eapply owns_append|done|done].
Qed.

(** One operator of a removed share: its shares are the others, in the same array, and of the
    cells of the old list the last one is as it was. *)
Lemma remove_one spare h d l share :
  holds h (od_shares d) l →
  mem_removeShareFromOperator spare d share h = Ok None ∧ removeShareFromOperator l share = None ∨
  ∃ kept z h' sl', mem_removeShareFromOperator spare d share h = Ok (Some (h', sl')) ∧
    removeShareFromOperator l share = Some kept ∧ last l = Some z ∧
    sl_array sl' = sl_array (od_shares d) ∧ holds h' sl' kept ∧ holds h' (od_shares d) (kept ++ [z]) ∧
    ∀ a, a ≠ sl_array (od_shares d) → h' !! a = h !! a.
Proof.
  intros Hh. unfold mem_removeShareFromOperator. rewrite (holds_elements _ _ _ Hh).
  destruct (find_share_spec share l 0) as [(-> & _ & -> & _)|(l1 & x & l2 & -> & -> & _ & _ & -> & _)]; [by left|].
  right. rewrite <-(holds_elements _ _ _ Hh). destruct (shift_in_place spare _ _ _ _ _ Hh) as (rest & z & Hz & Ha).
  exists (l1 ++ l2), z. do 2 eexists. unfold mbind, result_bind. rewrite Nat.add_0_l, Ha.
  pose proof (holds_valid _ _ _ Hh) as Hlt. split_and!; [done|done|done|done| | |].
  - split; [done|]. exists (Some z :: rest). cbn [sl_array]. rewrite list_lookup_insert_eq by done.
    by rewrite (fmap_app Some (l1 ++ l2)), <-app_assoc.
  - destruct Hh as [Hlen _]. split; [rewrite Hlen, !length_app; cbn [length]; lia|]. exists rest.
    by rewrite list_lookup_insert_eq.
  - intros a Hne. by rewrite list_lookup_insert_ne.
Qed.
Lemma remove_operators_sim spare share id new ops :
  simulates (mem_remove_operators spare share id new ops) (remove_operators share id new ops).
Proof.
  induction ops as [|o ops IH]; intros m c Hr; [by exists m, c, (Ok tt)|].
  cbn [mem_remove_operators remove_operators]. unfold mbind, st_bind, st_lift, st_get, st_modify.
  destruct (me_byOperatorID m !! o) as [d|] eqn:Hd.
  2:{ pose proof (rf_operators _ _ Hr o) as Ho. rewrite Hd in Ho. destruct (byOperatorID c !! o); [done|].
      by exists m, c, (Err (ENew "operator not found")). }
  destruct (refines_operator _ _ _ _ Hr Hd) as (sc & -> & Hh & Hc).
  destruct (remove_one spare _ _ _ share Hh) as [[-> ->]|(kept & z & h' & sl' & -> & -> & _ & Ha & Hh' & _ & Hframe)].
  { by exists m, c, (Err (ENew "share not found in operator")). }
  assert (owns m h' o sl') as Ho.
  { intros o' d' Hne Hd'. destruct (owns_existing _ _ _ _ Hr Hd o' d' Hne Hd') as [Hap _].
    rewrite Ha. split; [done|]. by apply Hframe. }
  destruct Hh' as [Hlen Hh']. rewrite Hlen, Hc. apply IH.
  destruct (length kept =? 0)%nat; [by eapply refines_delete|by apply refines_set].
Qed.
Lemma update_operators_sim share id new ops :
  simulates (mem_update_operators share id new ops) (update_operators share id new ops).
Proof.
  induction ops as [|o ops IH]; intros m c Hr; [by exists m, c, (Ok tt)|].
  cbn [mem_update_operators update_operators]. unfold mbind, st_bind, st_lift, st_get, st_modify.
  destruct (me_byOperatorID m !! o) as [d|] eqn:Hd.
  2:{ pose proof (rf_operators _ _ Hr o) as Ho. rewrite Hd in Ho. destruct (byOperatorID c !! o); [done|].
      by exists m, c, (Err (ENew "operator not found")). }
  destruct (refines_operator _ _ _ _ Hr Hd) as (sc & -> & Hh & Hc). rewrite (holds_elements _ _ _ Hh).
  destruct (find_share_spec share (sc_shares sc) 0) as [(-> & _ & _ & ->)|(l1 & x & l2 & Hl & -> & _ & _ & _ & ->)].
  { by exists m, c, (Err (ENew "share not found in operator")). }
  rewrite Hc. apply IH. pose proof (holds_valid _ _ _ Hh) as Hlt. destruct (holds_cells _ _ _ Hh) as [rest Hcells].
  apply refines_set; [done| | |done].
  - eapply owns_write; [exact (owns_existing _ _ _ _ Hr Hd)|]. intros a Hne. by rewrite list_lookup_insert_ne.
  - rewrite Hcells, Hl. destruct Hh as [Hlen _]. cbn [od_shares sc_shares].
    split; [rewrite Hlen, Hl, !length_app; done|]. exists rest. rewrite list_lookup_insert_eq by done.
    rewrite !fmap_app, <-!app_assoc. rewrite Nat.add_0_l, insert_app_r_alt by (by rewrite length_fmap).
    by rewrite length_fmap, Nat.sub_diag.
Qed.

(** *** The other indices *)
Lemma on_store_sim {A} (f : StoreM A) :
  (∀ ops c, f (set_operators ops c) = (set_operators ops (f c).1, (f c).2)) →
  (∀ c, byOperatorID (f c).1 = byOperatorID c) → simulates (on_store f) f.
Proof.
  intros Hblind Hsame m c Hr. unfold on_store. rewrite (rf_store _ _ Hr), Hblind.
  eexists _, (f c).1, (f c).2. split; [reflexivity|]. split; [by destruct (f c)|].
  split; cbn; [done| |apply Hr]. intros o. rewrite Hsame. apply Hr.
Qed.

Lemma set_index_operators share ops c : set_index share (set_operators ops c) = set_operators ops (set_index share c).
Proof. unfold set_index. by destruct (HasBeaconMetadata (Some share)). Qed.
Lemma set_index_same share c : byOperatorID (set_index share c) = byOperatorID c.
Proof. unfold set_index. by destruct (HasBeaconMetadata (Some share)). Qed.
Lemma added_sim id share : simulates (on_store (committee_added id share)) (committee_added id share).
Proof.
  apply on_store_sim; unfold committee_added, mbind, st_bind, st_lift, st_get, st_modify.
  - intros ops c. rewrite set_index_operators. cbn [byCommitteeID set_operators]. by case_match.
  - intros c. rewrite <-(set_index_same share c). by case_match.
Qed.
Lemma updated_sim id share : simulates (on_store (committee_updated id share)) (committee_updated id share).
Proof.
  apply on_store_sim; unfold committee_updated, mbind, st_bind, st_lift, st_get, st_modify.
  - intros ops c. rewrite set_index_operators. cbn [byCommitteeID set_operators].
    destruct (byCommitteeID _ !! id); [|done]. by destruct (updateCommitteeWithShare _ share).
  - intros c. rewrite <-(set_index_same share c).
    destruct (byCommitteeID _ !! id); [|done]. by destruct (updateCommitteeWithShare _ share).
Qed.
Lemma removed_sim id share : simulates (on_store (committee_removed id share)) (committee_removed id share).
Proof.
  apply on_store_sim; unfold committee_removed, mbind, st_bind, st_lift, st_get, st_modify; intros;
    destruct (HasBeaconMetadata (Some share)); cbn [byCommitteeID set_operators];
    (destruct (byCommitteeID _ !! id); [|done]); by destruct (removeShareFromCommittee _ share).
Qed.

(** *** The events *)
Lemma add_share_sim spare share : simulates (mem_add_share spare share) (add_share share).
Proof.
  intros m c Hr. unfold mem_add_share. rewrite CommitteeID_eq.
  replace (add_share share c) with
    ((committee_added (cid share) (settled share) ≫= λ committee,
        add_operators (settled share) committee [] (sm_Signer <$> sh_Committee (settled share))) c).
  - apply sim_bind; [apply added_sim|intros; apply add_operators_sim|done].
  - unfold add_share, committee_added. rewrite CommitteeID_eq.
    unfold mbind, st_bind, st_lift, st_get, st_modify.
    destruct (byCommitteeID _ !! cid share) as [committee|]; [|done].
    by destruct (containsShare (co_Shares committee) _); cbn; [|destruct (buildCommittee _)].
Qed.
Lemma update_share_sim share : simulates (mem_update_share share) (update_share share).
Proof.
  intros m c Hr. unfold mem_update_share. rewrite CommitteeID_eq.
  replace (update_share share c) with
    ((committee_updated (cid share) (settled share) ≫= λ committee,
        update_operators (settled share) (cid share) committee (sm_Signer <$> sh_Committee (settled share))) c).
  - apply sim_bind; [apply updated_sim|intros; apply update_operators_sim|done].
  - unfold update_share, committee_updated. rewrite CommitteeID_eq. unfold mbind, st_bind, st_lift, st_get, st_modify.
    destruct (byCommitteeID _ !! cid share); [|done]. by destruct (updateCommitteeWithShare _ (settled share)).
Qed.
Lemma remove_share_sim spare share : simulates (mem_remove_share spare share) (handleShareRemoved (Some share)).
Proof.
  intros m c Hr. unfold mem_remove_share. rewrite CommitteeID_eq.
  replace (handleShareRemoved (Some share) c) with
    ((committee_removed (cid share) (settled share) ≫= λ new,
        remove_operators (settled share) (cid share) (if (length (co_Shares new) =? 0)%nat then [] else [new])
          (sm_Signer <$> sh_Committee (settled share))) c).
  - apply sim_bind; [apply removed_sim|intros; apply remove_operators_sim|done].
  - unfold handleShareRemoved, committee_removed. rewrite CommitteeID_eq. unfold mbind, st_bind, st_lift, st_get, st_modify.
    destruct (byCommitteeID _ !! cid share); [|done]. by destruct (removeShareFromCommittee _ (settled share)).
Qed.
Lemma handle_sim spare e : simulates (mem_handle spare e) (handle e).
Proof.
  destruct e as [s|s|s|]; intros m c Hr; cbn [mem_handle handle].
  - destruct (add_share_sim spare s m c Hr) as (m' & c' & r & Hm & Hc & Hr'). exists m', c', r. split_and!; [done| |done].
    unfold handleSharesAdded. cbn [for_shares]. unfold mbind, st_bind. rewrite Hc. by destruct r as [[]|e|].
  - destruct (update_share_sim s m c Hr) as (m' & c' & r & Hm & Hc & Hr'). exists m', c', r. split_and!; [done| |done].
    unfold handleSharesUpdated. cbn [for_shares]. unfold mbind, st_bind. rewrite Hc. by destruct r as [[]|e|].
  - by apply remove_share_sim.
  - eexists _, _, (Ok tt). split; [reflexivity|]. split; [reflexivity|]. split; cbn; [by rewrite (rf_store _ _ Hr)|done|done].
Qed.
Lemma run_events_sim spare l : simulates (mem_run_events spare l) (run_events l).
Proof.
  induction l as [|e l IH]; [intros m c Hr; by exists m, c, (Ok tt)|].
  apply sim_bind; [apply handle_sim|]. intros _. exact IH.
Qed.
Lemma new_refines : refines newMemStore (newValidatorStore ∅).
Proof. by split. Qed.

(** ** A list that was handed out *)
Lemma find_share_lt share l : ∀ i j, find_share share i l = Ok (Some j) → (i ≤ j < i + length l)%nat.
Proof.
  induction l as [|[s|] l IH]; intros i j; cbn; [done| |done].
  destruct (same_key s share); [intros [= <-]; lia|]. intros Hj%IH. lia.
Qed.
(** The removal never needs a new array. *)
Lemma remove_keeps_array spare d share h h' sl' :
  mem_removeShareFromOperator spare d share h = Ok (Some (h', sl')) →
  sl_array sl' = sl_array (od_shares d) ∧ ∀ a, a ≠ sl_array (od_shares d) → h' !! a = h !! a.
Proof.
  unfold mem_removeShareFromOperator. intros ([j|] & Hj & Hr)%bind_ok; [apply find_share_lt in Hj|done].
  injection Hr as Hr. unfold append, cells_of in Hr. cbn [sl_array sl_len] in Hr.
  fold (cells_of h (od_shares d)) in Hr. rewrite length_drop in Hr. unfold elements in Hj, Hr. rewrite length_take in Hj, Hr.
  rewrite (proj2 (Nat.leb_le _ _)) in Hr by lia. apply pair_equal_spec in Hr as [<- <-]. split; [done|].
  intros a Hne. by rewrite list_lookup_insert_ne.
Qed.

Section handed_out.
Context (spare : nat → nat) (share : SSVShare) (committeeID : bytes) (new : list Committee) (id : OperatorID).
(** The array is not the one of another operator. *)
Definition unshared (a : nat) (m : memStore) : Prop :=
  ∀ o d, o ≠ id → me_byOperatorID m !! o = Some d → sl_array (od_shares d) ≠ a.

(** One step of the loop. *)
Lemma remove_next o ops m m' :
  mem_remove_operators spare share committeeID new (o :: ops) m = (m', Ok tt) →
  ∃ d h sl m1, me_byOperatorID m !! o = Some d ∧ mem_removeShareFromOperator spare d share (me_heap m) = Ok (Some (h, sl)) ∧
    me_heap m1 = h ∧ (∀ o', o' ≠ o → me_byOperatorID m1 !! o' = me_byOperatorID m !! o') ∧
    mem_OperatorValidators o m1 = (if (sl_len sl =? 0)%nat then None else Some sl) ∧
    mem_remove_operators spare share committeeID new ops m1 = (m', Ok tt).
Proof.
  cbn [mem_remove_operators]. unfold mbind, st_bind, st_lift, st_get, st_modify.
  destruct (me_byOperatorID m !! o) as [d|] eqn:Hd; [|done].
  destruct (mem_removeShareFromOperator spare d share (me_heap m)) as [[[h sl]|]|e|] eqn:Hr; [|done..].
  intros Hrest. exists d, h, sl. eexists. split_and!; [done|done| | | |exact Hrest]; destruct (sl_len sl =? 0)%nat; cbn; try done.
  - intros o' Hne. by apply lookup_delete_ne.
  - intros o' Hne. by apply lookup_insert_ne.
  - unfold mem_OperatorValidators. cbn. by rewrite lookup_delete_eq.
  - unfold mem_OperatorValidators. cbn. by rewrite lookup_insert_eq.
Qed.
Lemma unshared_step a o d sl m m1 :
  unshared a m → me_byOperatorID m !! o = Some d → sl_array sl = sl_array (od_shares d) →
  (∀ o', o' ≠ o → me_byOperatorID m1 !! o' = me_byOperatorID m !! o') →
  mem_OperatorValidators o m1 = (if (sl_len sl =? 0)%nat then None else Some sl) → unshared a m1.
Proof.
  intros Ha Hd Harr Hother Hown o' d' Hne Hd'.
  destruct (decide (o' = o)) as [->|Hno]; [|rewrite Hother in Hd' by done; by eapply Ha].
  unfold mem_OperatorValidators in Hown. rewrite Hd' in Hown. cbn in Hown.
  destruct (sl_len sl =? 0)%nat; [done|]. injection Hown as ->. rewrite Harr. by eapply Ha.
Qed.
(** The operators other than [id] leave its array and its entry as they are. *)
Lemma remove_frame a ops : ∀ m m',
  id ∉ ops → unshared a m → mem_remove_operators spare share committeeID new ops m = (m', Ok tt) →
  me_heap m' !! a = me_heap m !! a ∧ me_byOperatorID m' !! id = me_byOperatorID m !! id.
Proof.
  induction ops as [|o ops IH]; intros m m' Hid Ha Hr; [by injection Hr as <-|].
  apply not_elem_of_cons in Hid as [Hne Hid].
  apply remove_next in Hr as (d & h & sl & m1 & Hd & Hrem%remove_keeps_array & Hh & Hother & Hown & Hr).
  destruct Hrem as [Harr Hframe]. destruct (IH m1 m' Hid) as [H1 H2]; [|done|].
  - by eapply unshared_step.
  - rewrite H1, H2, Hh. split; [|by apply Hother]. apply Hframe. intros Heq. by apply (Ha o d).
Qed.
Lemma removed_list d l ops : ∀ m m',
  NoDup ops → id ∈ ops → me_byOperatorID m !! id = Some d → holds (me_heap m) (od_shares d) l →
  unshared (sl_array (od_shares d)) m → mem_remove_operators spare share committeeID new ops m = (m', Ok tt) →
  ∃ kept z, removeShareFromOperator l share = Some kept ∧ last l = Some z ∧
    default [] (elements (me_heap m') <$> mem_OperatorValidators id m') = Some <$> kept ∧
    elements (me_heap m') (od_shares d) = Some <$> kept ++ [z].
Proof.
  induction ops as [|o ops IH]; intros m m' Hnd Hin Hd Hh Ha Hr; [by apply elem_of_nil in Hin|].
  apply NoDup_cons in Hnd as [Hno Hnd].
  apply remove_next in Hr as (d1 & h & sl & m1 & Hd1 & Hrem & Hm1 & Hother & Hown & Hr).
  destruct (decide (o = id)) as [->|Hne].
  - rewrite Hd in Hd1. injection Hd1 as <-. pose proof (remove_keeps_array _ _ _ _ _ _ Hrem) as [Harr _].
    destruct (remove_one spare _ _ _ share Hh) as [[? _]|(kept & z & h' & sl' & Hrem' & Hk & Hz & _ & Hkept & Hold & _)];
      [congruence|]. rewrite Hrem in Hrem'. injection Hrem' as <- <-. rewrite <-Hm1 in Hkept, Hold.
    destruct (remove_frame (sl_array (od_shares d)) ops m1 m' Hno) as [Hheap Hby]; [by eapply unshared_step|done|].
    exists kept, z. split_and!; [done|done| |by eapply holds_elements, holds_frame].
    unfold mem_OperatorValidators in *. rewrite Hby, Hown.
    destruct (Nat.eqb_spec (sl_len sl) 0) as [H0|_].
    + destruct Hkept as [Hl _]. rewrite H0 in Hl. by destruct kept.
    + cbn. eapply holds_elements, holds_frame; [|exact Hkept]. by rewrite Harr.
  - apply elem_of_cons in Hin as [?|Hin]; [done|]. apply remove_keeps_array in Hrem as [Harr Hframe].
    apply (IH m1 m'); [done|done|by rewrite Hother| | |done].
    + eapply holds_frame; [|exact Hh]. rewrite Hm1. apply Hframe. intros Heq. by apply (Ha o d1).
    + by eapply unshared_step.
Qed.
End handed_out.

Lemma removed_others S Q l share kept s :
  listing S Q l → held S share → removeShareFromOperator l share = Some kept → s ∈ l → s ≠ share → s ∈ kept.
Proof.
  intros [_ Hin] Hheld Hk Hs Hne.
  destruct (find_share_spec share l 0) as [(_ & _ & ? & _)|(l1 & x & l2 & -> & _ & _ & Hx & Hk' & _)]; [congruence|].
  rewrite Hk in Hk'. injection Hk' as ->. assert (x = share) as ->.
  { apply same_key_eq in Hx. destruct (proj1 (Hin x)) as [Hsx _]; [set_solver|].
    unfold held in Hheld. rewrite Hx in Hsx. congruence. }
  rewrite elem_of_app, elem_of_cons in Hs. rewrite elem_of_app. naive_solver.
Qed.

(** C35. Let the registry of shares have gone through any sequence of events it allows, and let
    a caller hold the list of shares of an operator, as [OperatorValidators] returned it.  When
    a share of that operator is then removed, the handler succeeds and the list in the store is
    the old one without that share.  The list of the caller has its old length but is written
    over: it is the new list followed by the share that was last in the old one, which, unless
    that one is the removed share, is in it twice.  The room that [append] leaves in new arrays
    does not matter. *)
Theorem handed_out_list_changes spare events share id :
  events_ok ∅ events → held (registry_after events ∅) share → id ∈ OperatorIDs share →
  ∃ m sl l m' kept z,
    mem_run_events spare events newMemStore = (m, Ok tt) ∧ mem_OperatorValidators id m = Some sl ∧
    elements (me_heap m) sl = Some <$> l ∧ listing (registry_after events ∅) (λ s, id ∈ OperatorIDs s) l ∧
    mem_handle spare (EvRemoved share) m = (m', Ok tt) ∧
    removeShareFromOperator l share = Some kept ∧ last l = Some z ∧
    default [] (elements (me_heap m') <$> mem_OperatorValidators id m') = Some <$> kept ∧
    elements (me_heap m') sl = Some <$> kept ++ [z] ∧
    (z ≠ share → ¬ NoDup (kept ++ [z])).
Proof.
  intros Hev Hheld Hid. destruct (empty_ok (newValidatorStore ∅)) as [Hro0 Hok0]; [done..|].
  destruct (run_events_ok events ∅ _ Hro0 Hok0 Hev) as (c & Hrun & Hro & Hok).
  destruct (run_events_sim spare events _ _ new_refines) as (m & c1 & r & Hm & Hc1 & Hr).
  rewrite Hrun in Hc1. injection Hc1 as <- <-.
  destruct (handle_ok _ _ (EvRemoved share) Hro Hok Hheld) as (c' & Hc' & _).
  destruct (handle_sim spare (EvRemoved share) _ _ Hr) as (m' & c1 & r & Hm' & Hc1 & _).
  rewrite Hc' in Hc1. injection Hc1 as <- <-.
  pose proof (so_operator _ _ Hok id) as Hl. unfold OperatorValidators in Hl.
  pose proof (rf_operators _ _ Hr id) as Ho.
  destruct (byOperatorID c !! id) as [sc|] eqn:Hsc; [|by apply (listing_present _ _ _ share Hl Hheld), elem_of_nil in Hid].
  destruct (me_byOperatorID m !! id) as [d|] eqn:Hd; [|done]. destruct Ho as [Hh _].
  pose proof Hm' as Hrem. cbn [mem_handle] in Hrem. unfold mem_remove_share in Hrem.
  rewrite CommitteeID_eq, (ro_settled _ Hro share Hheld) in Hrem.
  apply st_bind_ok in Hrem as (m1 & newC & Hpre & Hrem). unfold on_store in Hpre.
  destruct (committee_removed (cid share) share (me_store m)) as [s q]. injection Hpre as <- ->.
  apply (removed_list _ _ _ _ id d (sc_shares sc)) in Hrem as (kept & z & Hk & Hz & Hstored & Hold);
    [|by apply (ro_operators _ Hro)|done..|intros o d' Hne Hd'; by eapply (rf_apart _ _ Hr o id)].
  exists m, (od_shares d), (sc_shares sc), m', kept, z.
  split_and!; [done|unfold mem_OperatorValidators; by rewrite Hd|by apply holds_elements|done..|].
  intros Hne (_ & Hnd & _)%NoDup_app. apply (Hnd z); [|by left].
  eapply removed_others; [exact Hl|done..|by apply last_Some_elem_of|done].
Qed.

(** Two validators of four operators; the first is removed while a caller holds the list of
    the third operator, and the caller is left with the second one twice. *)
Definition shared_events : list Event := take 3 demo_events.
Lemma shared_events_ok : events_ok ∅ shared_events.
Proof. destruct demo_events_ok as (H1 & H2 & H3 & _). by split_and!. Qed.
Lemma handed_out_list_changes_witness :
  let spare := λ _ : nat, 0%nat in
  let a := settled (demo_a ValidatorStateActiveOngoing) in
  let m := (mem_run_events spare shared_events newMemStore).1 in
  let m' := (mem_handle spare (EvRemoved a) m).1 in
  ∃ sl, mem_OperatorValidators 3 m = Some sl ∧ elements (me_heap m) sl = [Some a; Some (settled demo_b)] ∧
    elements (me_heap m') sl = [Some (settled demo_b); Some (settled demo_b)].
Proof.
  cbv zeta.
  destruct (handed_out_list_changes (λ _, 0%nat) shared_events (settled (demo_a ValidatorStateActiveOngoing)) 3
    shared_events_ok eq_refl ltac:(apply (bool_decide_unpack (3 ∈ [4; 1; 3; 2])); reflexivity))
    as (m & sl & l & m' & kept & z & Hm & Hsl & Hl & _ & Hm' & Hk & Hz & _ & Hold & _).
  rewrite Hm. cbn [fst]. rewrite Hm'. cbn [fst]. exists sl. split; [exact Hsl|].
  assert (l = [settled (demo_a ValidatorStateActiveOngoing); settled demo_b]) as ->.
  { apply (inj (fmap Some)), (inj Some). rewrite <-Hl.
    change (Some (elements (me_heap m) sl)) with (elements (me_heap m) <$> Some sl). rewrite <-Hsl.
    pose proof (f_equal fst Hm) as Hm1. cbn [fst] in Hm1. rewrite <-Hm1. vm_compute. reflexivity. }
  split; [exact Hl|]. injection Hz as <-. injection Hk as <-. exact Hold.
Defined.
