(* ===== verification/ShareEncoding.v ===== *)
(** * The stored form of a share (registry/storage/shares.go, shares_encoding.go)

    A share is kept in the database as an SSZ object.  The generated code writes the
    fixed-size fields with the offsets of the others, then the fields of variable size.
    The primitives of fastssz are the class [FastSSZ]; [FastSSZLaws] says what they do. *)

From stdpp Require Import base list gmap numbers strings.
From Stdlib Require Import Strings.Byte.
From S2P Require Import Prelude Sha256 SpecTypes Network Proposer Subnets.
Open Scope string_scope.
Open Scope list_scope.
Open Scope Z_scope.

Record storageOperator := mkStorageOperator { op_OperatorID : Z; op_PubKey : bytes }.

Record Share := mkShare {
  sp_ValidatorIndex : Z;
  sp_ValidatorPubKey : bytes;
  sp_SharePubKey : bytes;
  sp_Committee : list (option storageOperator);      (* pointers *)
  sp_DomainType : bytes;                             (* [4]byte *)
  sp_FeeRecipientAddress : bytes;                    (* [20]byte *)
  sp_Graffiti : bytes;
  sp_Status : Z;
  sp_ActivationEpoch : Z;
  sp_ExitEpoch : Z;
  sp_OwnerAddress : bytes;                           (* [20]byte *)
  sp_Liquidated : bool;
}.

Abbreviation MaxPossibleShareSize := 1326 (only parsing).
Abbreviation MaxAllowedShareSize := (MaxPossibleShareSize * 8) (only parsing).

(** What the generated code calls of fastssz. *)
Class FastSSZ := {
  MarshalUint64 : bytes → Z → bytes;
  UnmarshallUint64 : bytes → Z;
  WriteOffset : bytes → Z → bytes;
  ReadOffset : bytes → Z;
  MarshalBool : bytes → bool → bytes;
  UnmarshalBool : bytes → bool;
  ssz_MarshalSSZ : result goerr Z → (bytes → result goerr bytes) → result goerr bytes;
  DecodeDynamicLength : bytes → Z → result goerr Z;
  UnmarshalDynamic {S : Type} : bytes → Z → (nat → bytes → ST S goerr unit) → ST S goerr unit;
  ErrBytesLengthFn : string → Z → Z → goerr;
  ErrListTooBigFn : string → Z → Z → goerr;
  ErrSize : goerr;
  ErrOffset : goerr;
  ErrInvalidVariableOffset : goerr;
  ErrBytesLength : goerr;
}.

Definition len {A} (l : list A) : Z := Z.of_nat (length l).
(** [b[i:j]] within the bounds. *)
Definition slice (i j : Z) (b : bytes) : bytes :=
  take (Z.to_nat j - Z.to_nat i) (drop (Z.to_nat i) b).

Section encoding.
Context `{FastSSZ}.

(** ** Operators of a share *)
Definition op_SizeSSZ (s : option storageOperator) : result goerr Z :=
  match s with
  | None => Panic
  | Some s => Ok (12 + len (op_PubKey s))
  end.

Definition op_MarshalSSZTo (s : option storageOperator) (buf : bytes) : result goerr bytes :=
  match s with
  | None => Panic
  | Some s =>
      let dst := buf in
      let offset := 12 in
      let dst := MarshalUint64 dst (op_OperatorID s) in
      let dst := WriteOffset dst offset in
      fail_if (48 <? len (op_PubKey s))
        (ErrBytesLengthFn "storageOperator.PubKey" (len (op_PubKey s)) 48) ;;
      Ok (dst ++ op_PubKey s)
  end.

(** The receiver is a fresh object of the caller, dropped on an error. *)
Definition op_UnmarshalSSZ (s : storageOperator) (buf : bytes) : result goerr storageOperator :=
  let size := len buf in
  fail_if (size <? 12) ErrSize ;;
  let tail := buf in
  let operatorID := UnmarshallUint64 (slice 0 8 buf) in
  let o1 := ReadOffset (slice 8 12 buf) in
  fail_if (size <? o1) ErrOffset ;;
  fail_if (negb (o1 =? 12)) ErrInvalidVariableOffset ;;
  let buf := slice o1 size tail in
  fail_if (48 <? len buf) ErrBytesLength ;;
  Ok (mkStorageOperator operatorID (op_PubKey s ++ buf)).

(** ** Shares *)
(** [per] bytes and the size of each operator are added to the offset. *)
Fixpoint add_sizes (per : Z) (committee : list (option storageOperator)) (offset : Z)
    : result goerr Z :=
  match committee with
  | [] => Ok offset
  | o :: committee => n ← op_SizeSSZ o; add_sizes per committee (offset + per + n)
  end.

Definition SizeSSZ (s : Share) : result goerr Z :=
  let size := 137 in
  let size := size + len (sp_SharePubKey s) in
  size ← add_sizes 4 (sp_Committee s) size;
  Ok (size + len (sp_Graffiti s)).

Fixpoint write_offsets (committee : list (option storageOperator)) (offset : Z) (dst : bytes)
    : result goerr bytes :=
  match committee with
  | [] => Ok dst
  | o :: committee =>
      let dst := WriteOffset dst offset in
      n ← op_SizeSSZ o;
      write_offsets committee (offset + n) dst
  end.
Fixpoint write_operators (committee : list (option storageOperator)) (dst : bytes)
    : result goerr bytes :=
  match committee with
  | [] => Ok dst
  | o :: committee => dst ← op_MarshalSSZTo o dst; write_operators committee dst
  end.

Definition MarshalSSZTo (s : Share) (buf : bytes) : result goerr bytes :=
  let dst := buf in
  let offset := 137 in
  let dst := MarshalUint64 dst (sp_ValidatorIndex s) in
  fail_if (negb (len (sp_ValidatorPubKey s) =? 48))
    (ErrBytesLengthFn "Share.ValidatorPubKey" (len (sp_ValidatorPubKey s)) 48) ;;
  let dst := dst ++ sp_ValidatorPubKey s in
  let dst := WriteOffset dst offset in
  let offset := offset + len (sp_SharePubKey s) in
  let dst := WriteOffset dst offset in
  offset ← add_sizes 4 (sp_Committee s) offset;
  let dst := dst ++ sp_DomainType s in
  let dst := dst ++ sp_FeeRecipientAddress s in
  let dst := WriteOffset dst offset in
  let dst := MarshalUint64 dst (sp_Status s) in
  let dst := MarshalUint64 dst (sp_ActivationEpoch s) in
  let dst := MarshalUint64 dst (sp_ExitEpoch s) in
  let dst := dst ++ sp_OwnerAddress s in
  let dst := MarshalBool dst (sp_Liquidated s) in
  fail_if (48 <? len (sp_SharePubKey s))
    (ErrBytesLengthFn "Share.SharePubKey" (len (sp_SharePubKey s)) 48) ;;
  let dst := dst ++ sp_SharePubKey s in
  fail_if (13 <? len (sp_Committee s))
    (ErrListTooBigFn "Share.Committee" (len (sp_Committee s)) 13) ;;
  dst ← write_offsets (sp_Committee s) (4 * len (sp_Committee s)) dst;
  dst ← write_operators (sp_Committee s) dst;
  fail_if (32 <? len (sp_Graffiti s))
    (ErrBytesLengthFn "Share.Graffiti" (len (sp_Graffiti s)) 32) ;;
  Ok (dst ++ sp_Graffiti s).

Definition MarshalSSZ (s : Share) : result goerr bytes :=
  ssz_MarshalSSZ (SizeSSZ s) (MarshalSSZTo s).

(** The callback that fills the committee. *)
Definition read_operator (indx : nat) (buf : bytes) : ST (list (option storageOperator)) goerr unit :=
  λ committee,
    match committee !! indx with
    | None => (committee, Panic)
    | Some o =>
        let s := default (mkStorageOperator 0 []) o in
        match op_UnmarshalSSZ s buf with
        | Ok s => (<[indx := Some s]> committee, Ok tt)
        | Err e => (<[indx := Some s]> committee, Err e)
        | Panic => (committee, Panic)
        end
    end.

Definition UnmarshalSSZ (s : Share) (buf : bytes) : result goerr Share :=
  let size := len buf in
  fail_if (size <? 137) ErrSize ;;
  let tail := buf in
  let validatorIndex := UnmarshallUint64 (slice 0 8 buf) in
  let validatorPubKey := sp_ValidatorPubKey s ++ slice 8 56 buf in
  let o2 := ReadOffset (slice 56 60 buf) in
  fail_if (size <? o2) ErrOffset ;;
  fail_if (negb (o2 =? 137)) ErrInvalidVariableOffset ;;
  let o3 := ReadOffset (slice 60 64 buf) in
  fail_if ((size <? o3) || (o3 <? o2)) ErrOffset ;;
  let domainType := slice 64 68 buf in
  let feeRecipientAddress := slice 68 88 buf in
  let o6 := ReadOffset (slice 88 92 buf) in
  fail_if ((size <? o6) || (o6 <? o3)) ErrOffset ;;
  let status := UnmarshallUint64 (slice 92 100 buf) in
  let activationEpoch := UnmarshallUint64 (slice 100 108 buf) in
  let exitEpoch := UnmarshallUint64 (slice 108 116 buf) in
  let ownerAddress := slice 116 136 buf in
  let liquidated := UnmarshalBool (slice 136 137 buf) in
  let buf := slice o2 o3 tail in
  fail_if (48 <? len buf) ErrBytesLength ;;
  let sharePubKey := sp_SharePubKey s ++ buf in
  let buf := slice o3 o6 tail in
  num ← DecodeDynamicLength buf 13;
  let '(committee, r) := UnmarshalDynamic buf num read_operator (replicate (Z.to_nat num) None) in
  r ;;
  let buf := slice o6 size tail in
  fail_if (32 <? len buf) ErrBytesLength ;;
  Ok (mkShare validatorIndex validatorPubKey sharePubKey committee domainType feeRecipientAddress
        (sp_Graffiti s ++ buf) status activationEpoch exitEpoch ownerAddress liquidated).

(** ** shares.go *)
Definition Encode (s : Share) : result goerr bytes :=
  match MarshalSSZ s with Err e => Err (EWrap "marshal ssz" e) | r => r end.

Definition Decode (s : Share) (data : bytes) : result goerr Share :=
  fail_if (MaxAllowedShareSize <? len data) (ENew "share size is too big") ;;
  match UnmarshalSSZ s data with Err e => Err (EWrap "decode Share" e) | r => r end.
End encoding.

(** [&Share{}] *)
Definition zero_share : Share :=
  mkShare 0 [] [] [] (replicate 4 x00) (replicate 20 x00) [] 0 0 0 (replicate 20 x00) false.

(** ** What fastssz does *)
Definition le_value (b : bytes) : Z := be_word (rev b).

(** SSZ of a list of objects of variable size: their offsets, then the objects. *)
Fixpoint item_offsets (offset : Z) (items : list bytes) : bytes :=
  match items with
  | [] => []
  | item :: items => le_bytes 4 offset ++ item_offsets (offset + len item) items
  end.
Definition dynamic (items : list bytes) : bytes :=
  item_offsets (4 * len items) items ++ mjoin items.

Fixpoint for_items {S} (f : nat → bytes → ST S goerr unit) (i : nat) (items : list bytes)
    : ST S goerr unit :=
  match items with
  | [] => mret tt
  | item :: items => f i item ;; for_items f (Datatypes.S i) items
  end.

Class FastSSZLaws `{FastSSZ} : Prop := {
  marshal_uint64 dst x : is_u64 x → MarshalUint64 dst x = dst ++ le_bytes 8 x;
  unmarshal_uint64 b : length b = 8%nat → UnmarshallUint64 b = le_value b;
  write_offset dst n : 0 ≤ n < 2 ^ 32 → WriteOffset dst n = dst ++ le_bytes 4 n;
  read_offset b : length b = 4%nat → ReadOffset b = le_value b;
  marshal_bool dst (b : bool) : MarshalBool dst b = dst ++ [if b then x01 else x00];
  unmarshal_bool (b : bool) : UnmarshalBool [if b then x01 else x00] = b;
  marshal_ssz n to : ssz_MarshalSSZ (Ok n) to = to [];
  decode_dynamic items max : len items ≤ max → len (dynamic items) < 2 ^ 32 →
    DecodeDynamicLength (dynamic items) max = Ok (len items);
  unmarshal_dynamic {S} items (f : nat → bytes → ST S goerr unit) s :
    len (dynamic items) < 2 ^ 32 →
    UnmarshalDynamic (dynamic items) (len items) f s = for_items f 0 items s;
}.

(** ** Little-endian numbers *)
Lemma le_bytes_length n z : length (le_bytes n z) = n.
Proof. unfold le_bytes, be_bytes. by rewrite rev_involutive, length_map, length_seq. Qed.

Lemma le_value_foldr b : le_value b = foldr (λ x acc, acc * 256 + byte_to_Z x) 0 b.
Proof. unfold le_value, be_word. by rewrite <-fold_left_rev_right, rev_involutive. Qed.

Lemma le_bytes_S n z : le_bytes (S n) z = byte_of_Z z :: le_bytes n (z / 256).
Proof.
  unfold le_bytes, be_bytes. rewrite !rev_involutive. cbn [seq map]. f_equal.
  rewrite <-seq_shift, map_map. apply map_ext. intros i.
  replace (8 * Z.of_nat (S i)) with (8 + 8 * Z.of_nat i) by lia.
  rewrite <-Z.shiftr_shiftr by lia. do 2 f_equal. by rewrite Z.shiftr_div_pow2.
Qed.

Lemma byte_to_of_Z z : byte_to_Z (byte_of_Z z) = z `mod` 256.
Proof.
  unfold byte_to_Z, byte_of_Z. pose proof (Z.mod_pos_bound z 256 ltac:(lia)).
  destruct (Byte.of_N _) as [b|] eqn:E.
  - simpl. apply Byte.to_of_N in E. rewrite E. lia.
  - apply Byte.of_N_None_iff in E. lia.
Qed.

Lemma le_value_le_bytes n z : 0 ≤ z < 256 ^ Z.of_nat n → le_value (le_bytes n z) = z.
Proof.
  revert z. induction n as [|n IH]; intros z Hz.
  { change (256 ^ Z.of_nat 0) with 1 in Hz. by assert (z = 0) as -> by lia. }
  rewrite le_bytes_S, le_value_foldr. cbn [foldr]. rewrite <-le_value_foldr, byte_to_of_Z, IH.
  - pose proof (Z.div_mod z 256 ltac:(lia)). lia.
  - rewrite Nat2Z.inj_succ, Z.pow_succ_r in Hz by lia. split; [apply Z.div_pos; lia|].
    apply Z.div_lt_upper_bound; lia.
Qed.

(** ** Slices of concatenations *)
Lemma slice_chunk (l : list bytes) k c i j :
  l !! k = Some c → i = len (mjoin (take k l)) → j = i + len c → slice i j (mjoin l) = c.
Proof.
  intros Hk -> ->. assert (mjoin l = mjoin (take k l) ++ c ++ mjoin (drop (S k) l)) as ->.
  { rewrite <-(take_drop_middle l k c Hk) at 1. by rewrite join_app. }
  unfold slice, len. rewrite Nat2Z.id, drop_app_length.
  replace (_ - _)%nat with (length c) by lia. by rewrite take_app_length.
Qed.

Lemma len_app {A} (a b : list A) : len (a ++ b) = len a + len b.
Proof. unfold len. rewrite length_app. lia. Qed.
Lemma len_cons {A} (x : A) l : len (x :: l) = 1 + len l.
Proof. unfold len. simpl length. lia. Qed.
Lemma len_pos {A} (l : list A) : 0 ≤ len l.
Proof. unfold len. lia. Qed.
Lemma len_le n z : len (le_bytes n z) = Z.of_nat n.
Proof. unfold len. by rewrite le_bytes_length. Qed.

Lemma len_join_cons (c : bytes) l : len (mjoin (c :: l)) = len c + len (mjoin l).
Proof. apply (len_app c (mjoin l)). Qed.
Lemma len_join_nil : len (mjoin (M:=list) ([] : list bytes)) = 0.
Proof. done. Qed.
#[local] Opaque le_bytes.

(** Read the chunk [c], the [k]-th, of the bytes [i] to [j]. *)
Ltac read_chunk k c i j :=
  rewrite (slice_chunk _ k c i j);
  [|reflexivity|cbn [take]; rewrite ?len_join_cons, ?len_join_nil, ?len_le; lia|rewrite ?len_le; lia].
Ltac next_ok := cbn [mbind result_bind fail_if negb orb].
Ltac not_below a b := rewrite (proj2 (Z.ltb_ge a b)) by lia; next_ok.

(** ** The bytes of a share *)
Definition op_item (p : storageOperator) : bytes :=
  le_bytes 8 (op_OperatorID p) ++ le_bytes 4 12 ++ op_PubKey p.

Section operators.
Context `{FastSSZLaws}.

Lemma op_item_len p : len (op_item p) = 12 + len (op_PubKey p).
Proof. unfold op_item. rewrite !len_app, !len_le. lia. Qed.

Lemma op_marshal p dst :
  is_u64 (op_OperatorID p) → len (op_PubKey p) ≤ 48 →
  op_MarshalSSZTo (Some p) dst = Ok (dst ++ op_item p).
Proof.
  intros Hid Hk. unfold op_MarshalSSZTo. rewrite marshal_uint64, write_offset by (done || lia).
  rewrite (proj2 (Z.ltb_ge _ _)) by done. simpl. f_equal. unfold op_item. by rewrite <-!app_assoc.
Qed.

Lemma op_unmarshal p :
  is_u64 (op_OperatorID p) → len (op_PubKey p) ≤ 48 →
  op_UnmarshalSSZ (mkStorageOperator 0 []) (op_item p) = Ok p.
Proof.
  intros Hid Hk. unfold op_UnmarshalSSZ.
  assert (op_item p = mjoin [le_bytes 8 (op_OperatorID p); le_bytes 4 12; op_PubKey p]) as He.
  { unfold op_item. simpl. by rewrite app_nil_r. }
  assert (0 ≤ len (op_PubKey p)) as Hp by (unfold len; lia). unfold is_u64, max_u64 in Hid.
  rewrite op_item_len. not_below (12 + len (op_PubKey p)) 12. rewrite He.
  read_chunk 0%nat (le_bytes 8 (op_OperatorID p)) 0 8. read_chunk 1%nat (le_bytes 4 12) 8 12.
  rewrite read_offset, unmarshal_uint64, !le_value_le_bytes by (rewrite ?le_bytes_length; (done || lia)).
  not_below (12 + len (op_PubKey p)) 12. rewrite Z.eqb_refl. next_ok.
  read_chunk 2%nat (op_PubKey p) 12 (12 + len (op_PubKey p)).
  not_below 48 (len (op_PubKey p)). by destruct p.
Qed.

Lemma add_sizes_spec per ops offset :
  add_sizes per (Some <$> ops) offset = Ok (offset + per * len ops + len (mjoin (op_item <$> ops))).
Proof.
  revert offset. induction ops as [|p ops IH]; intros offset;
    cbn [add_sizes fmap list_fmap op_SizeSSZ mbind result_bind].
  - f_equal. rewrite len_join_nil. change (len []) with 0. lia.
  - rewrite IH. f_equal. rewrite len_join_cons, op_item_len, len_cons. lia.
Qed.

Lemma write_offsets_spec ops offset dst :
  0 ≤ offset → offset + len (mjoin (op_item <$> ops)) < 2 ^ 32 →
  write_offsets (Some <$> ops) offset dst = Ok (dst ++ item_offsets offset (op_item <$> ops)).
Proof.
  revert offset dst. induction ops as [|p ops IH]; intros offset dst Ho Hm;
    cbn [write_offsets item_offsets fmap list_fmap op_SizeSSZ mbind result_bind] in *; [by rewrite app_nil_r|].
  rewrite len_join_cons, op_item_len in Hm.
  pose proof (len_pos (mjoin (op_item <$> ops))). pose proof (len_pos (op_PubKey p)).
  rewrite write_offset by lia. rewrite IH by lia. by rewrite op_item_len, <-app_assoc.
Qed.

Lemma write_operators_spec ops dst :
  Forall (λ p, is_u64 (op_OperatorID p) ∧ len (op_PubKey p) ≤ 48) ops →
  write_operators (Some <$> ops) dst = Ok (dst ++ mjoin (op_item <$> ops)).
Proof.
  intros Hall. revert dst. induction Hall as [|p ops [Hid Hk] Hall IH]; intros dst;
    cbn [write_operators fmap list_fmap]; [by rewrite app_nil_r|].
  rewrite op_marshal by done. next_ok. rewrite IH. by rewrite <-app_assoc.
Qed.

Lemma read_operators_spec ops done_ :
  Forall (λ p, is_u64 (op_OperatorID p) ∧ len (op_PubKey p) ≤ 48) ops →
  for_items read_operator (length done_) (op_item <$> ops) (done_ ++ replicate (length ops) None)
  = (done_ ++ (Some <$> ops), Ok tt).
Proof.
  intros Hall. revert done_. induction Hall as [|p ops [Hid Hk] Hall IH]; intros done_; [done|].
  cbn [for_items fmap list_fmap length replicate]. unfold mbind, st_bind, read_operator at 1. rewrite list_lookup_middle by done. simpl.
  rewrite op_unmarshal by done. rewrite insert_app_r_alt by lia. rewrite Nat.sub_diag. simpl.
  specialize (IH (done_ ++ [Some p])). rewrite <-!app_assoc, length_app in IH. simpl in IH.
  rewrite Nat.add_1_r in IH. exact IH.
Qed.

Lemma items_len ops :
  Forall (λ p, is_u64 (op_OperatorID p) ∧ len (op_PubKey p) ≤ 48) ops →
  0 ≤ len (mjoin (op_item <$> ops)) ≤ 60 * len ops.
Proof.
  induction 1 as [|p ops [_ Hk] Hall IH]; cbn [fmap list_fmap]; [rewrite len_join_nil; change (len []) with 0; lia|].
  rewrite len_join_cons, op_item_len, len_cons. pose proof (len_pos (op_PubKey p)). lia.
Qed.

Lemma item_offsets_len offset items : len (item_offsets offset items) = 4 * len items.
Proof.
  revert offset. induction items as [|i items IH]; intros offset; [done|]. simpl.
  rewrite len_app, len_le, IH, len_cons. lia.
Qed.
End operators.

(** ** Sizes a share may have *)
Record share_fits (s : Share) : Prop := mkShareFits {
  sf_key : len (sp_ValidatorPubKey s) = 48;
  sf_shareKey : len (sp_SharePubKey s) ≤ 48;
  sf_committee : len (sp_Committee s) ≤ 13;
  sf_operators p : Some p ∈ sp_Committee s → len (op_PubKey p) ≤ 48;
  sf_graffiti : len (sp_Graffiti s) ≤ 32;
}.
(** The ranges and array lengths of the Go types; no operator is nil. *)
Record share_typed (s : Share) : Prop := mkShareTyped {
  ty_index : is_u64 (sp_ValidatorIndex s);
  ty_status : is_u64 (sp_Status s);
  ty_activation : is_u64 (sp_ActivationEpoch s);
  ty_exit : is_u64 (sp_ExitEpoch s);
  ty_domain : len (sp_DomainType s) = 4;
  ty_fee : len (sp_FeeRecipientAddress s) = 20;
  ty_owner : len (sp_OwnerAddress s) = 20;
  ty_operators : Forall (λ o, ∃ p, o = Some p ∧ is_u64 (op_OperatorID p)) (sp_Committee s);
}.

Definition share_chunks (s : Share) (ops : list storageOperator) : list bytes :=
  let items := op_item <$> ops in
  let o3 := 137 + len (sp_SharePubKey s) in
  [le_bytes 8 (sp_ValidatorIndex s); sp_ValidatorPubKey s; le_bytes 4 137; le_bytes 4 o3;
   sp_DomainType s; sp_FeeRecipientAddress s; le_bytes 4 (o3 + 4 * len ops + len (mjoin items));
   le_bytes 8 (sp_Status s); le_bytes 8 (sp_ActivationEpoch s); le_bytes 8 (sp_ExitEpoch s);
   sp_OwnerAddress s; [if sp_Liquidated s then x01 else x00]; sp_SharePubKey s; dynamic items;
   sp_Graffiti s].

Section shares.
Context `{FastSSZLaws}.
Context (s : Share) (ops : list storageOperator).
Hypothesis Hty : share_typed s.
Hypothesis Hops : sp_Committee s = Some <$> ops.

Lemma committee_len : len (sp_Committee s) = len ops.
Proof. unfold len. by rewrite Hops, length_fmap. Qed.

Section fits.
Hypothesis Hfits : share_fits s.

Lemma ops_fit : Forall (λ p, is_u64 (op_OperatorID p) ∧ len (op_PubKey p) ≤ 48) ops.
Proof.
  apply Forall_forall. intros p Hp. assert (Some p ∈ sp_Committee s) as Hin.
  { rewrite Hops. by apply list_elem_of_fmap_2. }
  split; [|by apply (sf_operators _ Hfits)].
  destruct (proj1 (Forall_forall _ _) (ty_operators _ Hty) _ Hin) as (p' & [= <-] & Hid). done.
Qed.

Lemma ops_len : 0 ≤ len ops ≤ 13 ∧ 0 ≤ len (mjoin (op_item <$> ops)) ≤ 60 * 13.
Proof.
  pose proof (sf_committee _ Hfits) as Hc. rewrite committee_len in Hc. pose proof (len_pos ops).
  pose proof (items_len ops ops_fit). lia.
Qed.

Lemma dynamic_len : len (dynamic (op_item <$> ops)) = 4 * len ops + len (mjoin (op_item <$> ops)).
Proof. unfold dynamic. rewrite len_app, item_offsets_len. unfold len. by rewrite length_fmap. Qed.

Lemma share_marshal : MarshalSSZTo s [] = Ok (mjoin (share_chunks s ops)).
Proof.
  pose proof ops_len as [Hn Hi]. pose proof (len_pos (sp_SharePubKey s)). destruct Hfits as [Hk Hsk Hc _ Hg].
  destruct Hty as [Hix Hst Hac Hex _ _ _ _]. unfold MarshalSSZTo.
  rewrite (proj2 (Z.eqb_eq _ _) Hk). next_ok. rewrite committee_len, Hops, add_sizes_spec. next_ok.
  not_below 48 (len (sp_SharePubKey s)). not_below 13 (len ops).
  rewrite write_offsets_spec by lia. next_ok.
  rewrite write_operators_spec by (by apply ops_fit). next_ok. not_below 32 (len (sp_Graffiti s)).
  rewrite !marshal_uint64, !write_offset, marshal_bool by (done || lia).
  f_equal. unfold share_chunks, dynamic. cbn. rewrite <-!app_assoc, app_nil_r.
  do 13 f_equal. unfold len. by rewrite length_fmap.
Qed.

(** The whole length: the fixed part and the fields of variable size. *)
Lemma share_len :
  len (mjoin (share_chunks s ops)) =
    137 + len (sp_SharePubKey s) + 4 * len ops + len (mjoin (op_item <$> ops)) + len (sp_Graffiti s).
Proof.
  unfold share_chunks. rewrite !len_join_cons, len_join_nil, !len_le, dynamic_len.
  rewrite (sf_key _ Hfits), (ty_domain _ Hty), (ty_fee _ Hty), (ty_owner _ Hty). change (len [_]) with 1. lia.
Qed.

Lemma share_unmarshal : UnmarshalSSZ zero_share (mjoin (share_chunks s ops)) = Ok s.
Proof.
  pose proof ops_len as [Hn Hi]. pose proof (len_pos (sp_SharePubKey s)). pose proof (len_pos (sp_Graffiti s)).
  pose proof dynamic_len as Hd. pose proof share_len as Hlen. pose proof ops_fit as Hof.
  destruct Hfits as [Hk Hsk Hc _ Hg].
  destruct Hty as [Hix Hst Hac Hex Hdo Hfe How _]. unfold UnmarshalSSZ.
  set (o3 := 137 + len (sp_SharePubKey s)).
  set (o6 := o3 + 4 * len ops + len (mjoin (op_item <$> ops))).
  set (size := len (mjoin (share_chunks s ops))) in *. unfold is_u64, max_u64 in *.
  assert (size = o6 + len (sp_Graffiti s)) as Hsz by lia. unfold share_chunks in *. fold o3 o6.
  not_below size 137.
  read_chunk 0%nat (le_bytes 8 (sp_ValidatorIndex s)) 0 8. read_chunk 1%nat (sp_ValidatorPubKey s) 8 56.
  read_chunk 2%nat (le_bytes 4 137) 56 60. read_chunk 3%nat (le_bytes 4 o3) 60 64.
  read_chunk 4%nat (sp_DomainType s) 64 68. read_chunk 5%nat (sp_FeeRecipientAddress s) 68 88.
  read_chunk 6%nat (le_bytes 4 o6) 88 92. read_chunk 7%nat (le_bytes 8 (sp_Status s)) 92 100.
  read_chunk 8%nat (le_bytes 8 (sp_ActivationEpoch s)) 100 108.
  read_chunk 9%nat (le_bytes 8 (sp_ExitEpoch s)) 108 116. read_chunk 10%nat (sp_OwnerAddress s) 116 136.
  rewrite (slice_chunk _ 11 [if sp_Liquidated s then x01 else x00] 136 137);
    [|reflexivity|cbn [take]; rewrite ?len_join_cons, ?len_join_nil, ?len_le; lia|done].
  rewrite unmarshal_bool, !read_offset, !unmarshal_uint64, !le_value_le_bytes
    by (rewrite ?le_bytes_length; (done || lia)).
  not_below size 137. rewrite Z.eqb_refl. next_ok. not_below size o3. not_below o3 137.
  not_below size o6. not_below o6 o3.
  rewrite (slice_chunk _ 12 (sp_SharePubKey s) 137 o3);
    [|reflexivity|cbn [take]; rewrite ?len_join_cons, ?len_join_nil, ?len_le; change (len [_]) with 1; lia|lia].
  not_below 48 (len (sp_SharePubKey s)).
  rewrite (slice_chunk _ 13 (dynamic (op_item <$> ops)) o3 o6);
    [|reflexivity|cbn [take]; rewrite ?len_join_cons, ?len_join_nil, ?len_le; change (len [_]) with 1; lia|lia].
  rewrite (slice_chunk _ 14 (sp_Graffiti s) o6 size);
    [|reflexivity|cbn [take]; rewrite ?len_join_cons, ?len_join_nil, ?len_le; change (len [_]) with 1; lia|lia].
  assert (len ops = len (op_item <$> ops)) as Hlo by (unfold len; by rewrite length_fmap).
  rewrite decode_dynamic by lia. next_ok. rewrite unmarshal_dynamic by lia.
  pose proof (read_operators_spec ops [] Hof) as Hr. cbn [length app] in Hr.
  unfold len at 1. rewrite length_fmap, Nat2Z.id, Hr. next_ok. not_below 32 (len (sp_Graffiti s)).
  rewrite <-Hops. by destruct s.
Qed.
End fits.

(** A share that does not fit is refused. *)
Lemma write_offsets_total offset dst : ∃ dst', write_offsets (Some <$> ops) offset dst = Ok dst'.
Proof.
  clear Hops. revert offset dst. induction ops as [|p l IH]; intros offset dst; [by eexists|]. apply IH.
Qed.

Lemma write_operators_big p dst :
  p ∈ ops → 48 < len (op_PubKey p) → ∃ e, write_operators (Some <$> ops) dst = Err e.
Proof.
  clear Hops. intros Hp Hbig. revert dst. induction ops as [|q l IH]; intros dst; [by apply not_elem_of_nil in Hp|].
  cbn [fmap list_fmap write_operators op_MarshalSSZTo].
  destruct (Z.ltb_spec 48 (len (op_PubKey q))); [by eexists|]. next_ok.
  apply elem_of_cons in Hp as [->|Hp]; [lia|]. by apply IH.
Qed.

Lemma fits_or_refused : share_fits s ∨ ∃ e, MarshalSSZTo s [] = Err e.
Proof.
  unfold MarshalSSZTo.
  destruct (Z.eqb_spec (len (sp_ValidatorPubKey s)) 48) as [Hk|Hk]; next_ok; [|right; by eexists].
  rewrite Hops, add_sizes_spec. next_ok. rewrite <-Hops.
  destruct (Z.ltb_spec 48 (len (sp_SharePubKey s))); next_ok; [right; by eexists|].
  destruct (Z.ltb_spec 13 (len (sp_Committee s))); next_ok; [right; by eexists|].
  rewrite Hops. match goal with |- context [write_offsets _ ?o ?d] =>
    destruct (write_offsets_total o d) as [dst ->] end. next_ok.
  destruct (decide (Exists (λ p, 48 < len (op_PubKey p)) ops)) as [Hbig|Hsmall].
  - apply Exists_exists in Hbig as (p & Hp & Hbig). destruct (write_operators_big p dst Hp Hbig) as [e ->].
    right. by eexists.
  - destruct (write_operators (Some <$> ops) dst) as [d|e|] eqn:Hw; next_ok; [|right; by eexists|].
    + destruct (Z.ltb_spec 32 (len (sp_Graffiti s))); next_ok; [right; by eexists|]. left. split; try done.
      intros p. rewrite Hops. intros (q & [= ->] & Hq)%list_elem_of_fmap.
      apply Z.nlt_ge. intros Hb. apply Hsmall, Exists_exists. by exists q.
    + exfalso. clear Hops Hsmall. revert dst Hw. induction ops as [|q l IH]; intros dst; [done|].
      cbn [fmap list_fmap write_operators op_MarshalSSZTo]. destruct (_ <? _); [done|]. next_ok. apply IH.
Qed.
End shares.

Lemma typed_operators s : share_typed s → ∃ ops, sp_Committee s = Some <$> ops.
Proof.
  intros Hty. pose proof (ty_operators _ Hty) as Hall. induction Hall as [|o l (p & -> & _) Hall [ops ->]].
  - by exists [].
  - by exists (p :: ops).
Qed.

Lemma size_defined `{FastSSZLaws} s : share_typed s → ∃ n, SizeSSZ s = Ok n.
Proof.
  intros Hty. destruct (typed_operators s Hty) as [ops Hops].
  unfold SizeSSZ. rewrite Hops, add_sizes_spec. by eexists.
Qed.

Lemma encode_fits `{FastSSZLaws} s :
  share_typed s → share_fits s →
  ∃ data, Encode s = Ok data ∧ SizeSSZ s = Ok (len data) ∧ len data ≤ MaxPossibleShareSize ∧
    Decode zero_share data = Ok s.
Proof.
  intros Hty Hf. destruct (typed_operators s Hty) as [ops Hops]. destruct (size_defined s Hty) as [n Hn].
  pose proof (share_unmarshal s ops Hty Hops Hf) as Hdec. pose proof (ops_len s ops Hty Hops Hf).
  pose proof (share_len s ops Hty Hf) as Hlen. pose proof (share_marshal s ops Hty Hops Hf) as Hm.
  pose proof (sf_shareKey _ Hf). pose proof (sf_graffiti _ Hf).
  generalize dependent (mjoin (share_chunks s ops)). intros enc Hdec Hlen Hm. exists enc.
  split; [|split; [|split]].
  - unfold Encode, MarshalSSZ. by rewrite Hn, marshal_ssz, Hm.
  - rewrite Hlen. unfold SizeSSZ. rewrite Hops, add_sizes_spec. next_ok. by f_equal.
  - lia.
  - unfold Decode. rewrite (proj2 (Z.ltb_ge MaxAllowedShareSize (len enc)));
      [by next_ok; rewrite Hdec|lia].
Qed.

(** C23. The stored form of a share is faithful: a share is encoded exactly when its key has
    48 bytes and its other fields are within their limits; the encoding then has the size
    announced, at most the largest size a share may have, and decoding it into an empty
    share gives the share back. *)
Theorem share_encoding_round_trip `{FastSSZLaws} s :
  share_typed s →
  (share_fits s ↔ is_ok (Encode s) = true) ∧
  ∀ data, Encode s = Ok data →
    SizeSSZ s = Ok (len data) ∧ len data ≤ MaxPossibleShareSize ∧ Decode zero_share data = Ok s.
Proof.
  intros Hty. destruct (typed_operators s Hty) as [ops Hops].
  destruct (fits_or_refused s ops Hops) as [Hf|[e He]].
  - destruct (encode_fits s Hty Hf) as (enc & -> & Hrest). split; [done|]. intros data Heq. by injection Heq as <-.
  - destruct (size_defined s Hty) as [n Hn].
    assert (Encode s = Err (EWrap "marshal ssz" e)) as Henc
      by (unfold Encode, MarshalSSZ; by rewrite Hn, marshal_ssz, He).
    rewrite Henc. split; [|done]. split; [|done]. intros Hf.
    destruct (encode_fits s Hty Hf) as (enc & Hok & _). congruence.
Qed.

(** ** The primitives, executable *)
Fixpoint ref_items {S} (f : nat → bytes → ST S goerr unit) (src : bytes) (n i : nat) (offset : Z)
    (dst : bytes) : ST S goerr unit :=
  match n with
  | O => mret tt
  | Datatypes.S n =>
      let endOffset := match n with O => len src | _ => le_value (take 4 dst) end in
      f i (slice offset endOffset src) ;; ref_items f src n (Datatypes.S i) endOffset (drop 4 dst)
  end.

#[global] Instance ref_ssz : FastSSZ := {|
  MarshalUint64 dst x := dst ++ le_bytes 8 x;
  UnmarshallUint64 := le_value;
  WriteOffset dst n := dst ++ le_bytes 4 n;
  ReadOffset := le_value;
  MarshalBool dst b := dst ++ [if b : bool then x01 else x00];
  UnmarshalBool b := bool_decide (b = [x01]);
  ssz_MarshalSSZ size to := _ ← size; to [];
  DecodeDynamicLength buf max :=
    let offset := le_value (take 4 buf) in
    fail_if (negb (offset mod 4 =? 0) || (max <? offset / 4)) (ENew "incorrect list size") ;;
    Ok (offset / 4);
  UnmarshalDynamic S src n f := ref_items f src (Z.to_nat n) 0 (le_value (take 4 src)) (drop 4 src);
  ErrBytesLengthFn name _ _ := ENew name;
  ErrListTooBigFn name _ _ := ENew name;
  ErrSize := ENew "incorrect size";
  ErrOffset := ENew "incorrect offset";
  ErrInvalidVariableOffset := ENew "invalid ssz encoding";
  ErrBytesLength := ENew "bytes array does not have the correct length";
|}.

Lemma take_le z (rest : bytes) : 0 ≤ z < 2 ^ 32 → le_value (take 4 (le_bytes 4 z ++ rest)) = z.
Proof.
  intros Hz. rewrite take_app_length' by (by rewrite le_bytes_length). apply le_value_le_bytes. lia.
Qed.
Lemma drop_le z (rest : bytes) : drop 4 (le_bytes 4 z ++ rest) = rest.
Proof. by rewrite drop_app_length' by (by rewrite le_bytes_length). Qed.

Lemma join_len_app (a b : list bytes) : len (mjoin (a ++ b)) = len (mjoin a) + len (mjoin b).
Proof. by rewrite join_app, len_app. Qed.

Section ref_items.
Context {S : Type} (f : nat → bytes → ST S goerr unit) (all : list bytes).
Abbreviation start := (4 * len all).
Abbreviation src := (item_offsets start all ++ mjoin all).
Hypothesis Hsmall : len src < 2 ^ 32.

Lemma src_len : len src = start + len (mjoin all).
Proof. by rewrite len_app, item_offsets_len. Qed.

Lemma src_item pre item items :
  all = pre ++ item :: items →
  slice (start + len (mjoin pre)) (start + len (mjoin pre) + len item) src = item.
Proof.
  intros Hall. change src with (mjoin (item_offsets start all :: all)).
  apply (slice_chunk _ (Datatypes.S (length pre))); [|cbn [take]; rewrite len_join_cons, item_offsets_len|done].
  - simpl. rewrite Hall. by apply list_lookup_middle.
  - by rewrite Hall at 3; rewrite take_app_length.
Qed.

Lemma ref_items_S s n i offset dst :
  ref_items f s (Datatypes.S (Datatypes.S n)) i offset dst
  = (f i (slice offset (le_value (take 4 dst)) s) ;;
     ref_items f s (Datatypes.S n) (Datatypes.S i) (le_value (take 4 dst)) (drop 4 dst)).
Proof. done. Qed.

Lemma ref_items_spec items pre item rest st :
  all = pre ++ item :: items →
  ref_items f src (Datatypes.S (length items)) (length pre) (start + len (mjoin pre))
    (item_offsets (start + len (mjoin pre) + len item) items ++ rest) st
  = for_items f (length pre) (item :: items) st.
Proof.
  revert pre item rest st. induction items as [|it items IH]; intros pre item rest st Hall.
  - cbn [ref_items for_items length]. rewrite src_len.
    replace (start + len (mjoin all)) with (start + len (mjoin pre) + len item).
    { by rewrite (src_item pre item []). }
    rewrite Hall at 3. rewrite join_len_app, len_join_cons, len_join_nil. lia.
  - cbn [for_items length item_offsets]. rewrite <-app_assoc. set (z := start + len (mjoin pre) + len item).
    assert (0 ≤ z < 2 ^ 32) as Hz.
    { rewrite src_len in Hsmall. rewrite Hall in Hsmall at 2. rewrite join_len_app, !len_join_cons in Hsmall.
      pose proof (len_pos it). pose proof (len_pos (mjoin items)). pose proof (len_pos all).
      pose proof (len_pos (mjoin pre)). pose proof (len_pos item). lia. }
    rewrite ref_items_S, take_le, drop_le by done.
    pose proof (src_item pre item (it :: items) Hall) as Hs. fold z in Hs. rewrite Hs.
    unfold mbind, st_bind. destruct (f (length pre) item st) as [st' [[]|e|]]; try done.
    specialize (IH (pre ++ [item]) it rest st'). rewrite <-app_assoc in IH. specialize (IH Hall).
    rewrite length_app, join_len_app, len_join_cons, len_join_nil in IH. cbn [length] in IH.
    rewrite Nat.add_1_r, Z.add_0_r, Z.add_assoc in IH. exact IH.
Qed.

Lemma first_offset item items :
  all = item :: items →
  le_value (take 4 src) = start ∧ drop 4 src = item_offsets (start + len item) items ++ mjoin all.
Proof.
  intros Hall. pose proof src_len. pose proof (len_pos all). pose proof (len_pos (mjoin all)).
  assert (src = le_bytes 4 start ++ item_offsets (start + len item) items ++ mjoin all) as ->.
  { rewrite Hall at 2. cbn [item_offsets]. by rewrite <-app_assoc. }
  by rewrite drop_le, take_le by lia.
Qed.
End ref_items.

#[global] Instance ref_ssz_laws : FastSSZLaws.
Proof.
  split; try done.
  - by intros [].
  - intros items max Hmax Hsmall. unfold DecodeDynamicLength, ref_ssz, dynamic.
    destruct items as [|item items].
    { change (len []) with 0 in *. cbn [item_offsets]. change (le_value (take 4 ([] ++ mjoin []))) with 0.
      change (0 / 4) with 0. by not_below max 0. }
    rewrite (proj1 (first_offset (item :: items) Hsmall item items eq_refl)).
    rewrite (Z.mul_comm 4), Z_mod_mult, Z.div_mul by done. simpl. by not_below max (len (item :: items)).
  - intros S items f st Hsmall. unfold UnmarshalDynamic, ref_ssz. destruct items as [|item items]; [done|].
    destruct (first_offset (item :: items) Hsmall item items eq_refl) as [Ho Hd].
    pose proof (ref_items_spec f (item :: items) Hsmall items [] item (mjoin (item :: items)) st eq_refl) as Hr.
    rewrite len_join_nil, Z.add_0_r in Hr. unfold dynamic.
    replace (Z.to_nat (len (item :: items))) with (Datatypes.S (length items)) by (unfold len; simpl; lia).
    rewrite Ho, Hd. exact Hr.
Qed.

(** ** A stored share
    The encoding that the repository keeps to check that old databases can be read. *)
Definition stored_hex : string :=
  ("c4a519000000000083cfeef36e9f114f2432b39ff3f47f8b15d39074a96960377b3b0e5f0e422099" +:+
   "ee54a4eddaf8815c8fe2dab89528c86e89000000b900000000003113d1dc869556f1f3027def029d" +:+
   "23cd0968cf08cb0eb90100000300000000000000abb8000000000000ffffffffffffffff5cc0dde1" +:+
   "4e7256340cc820415a6022a7d1c93a35018f5f803c3531ca8eebb62cf858c228a8729d568bafc9e0" +:+
   "7d797d6c83368474f5c2170f653891aad55fda74a825e5d1e4100000004c00000088000000c40000" +:+
   "0013010000000000000c000000a754fefa9bf4b967d9581ac7a9476dc65a806e42573c6322ad9eb9" +:+
   "0e3527fc1634afebeb3f7532d7c80b84794b2992bd14010000000000000c0000008f5f803c3531ca" +:+
   "8eebb62cf858c228a8729d568bafc9e07d797d6c83368474f5c2170f653891aad55fda74a825e5d1" +:+
   "e415010000000000000c000000b1d28fc4c98309e8249bb1bfb737ccd7e4a8996ce692958e848aa7" +:+
   "d0ee41ffacc562c5b9ce869d6f3b69d72a1b44408e16010000000000000c00000097e9bd027e9769" +:+
   "a34fb730fff5cba87823508267b33aa843f44b450ace06f0e9a5aaedf4ddab255737e1e84b7bb8fd" +:+
   "4a83cfeef36e9f114f2432b39ff3f47f8b15d39074a96960377b3b").
Definition stored_bytes : bytes :=
  Eval vm_compute in
  match hex_DecodeString stored_hex with Ok l => byte_of_Z <$> l | _ => [] end.
Definition stored_share : Share :=
  Eval vm_compute in
  match Decode zero_share stored_bytes with Ok s => s | _ => zero_share end.

Lemma stored_share_typed : share_typed stored_share.
Proof.
  split; [unfold is_u64, max_u64; cbn; lia..|reflexivity|reflexivity|reflexivity|].
  repeat (apply Forall_cons; split; [eexists; split; [reflexivity|unfold is_u64, max_u64; cbn; lia]|]).
  apply Forall_nil_2.
Qed.

Lemma share_encoding_round_trip_witness :
  sp_ValidatorIndex stored_share = 1680836 ∧ Encode stored_share = Ok stored_bytes ∧
  Decode zero_share stored_bytes = Ok stored_share.
Proof.
  assert (Encode stored_share = Ok stored_bytes) as He by (vm_compute; reflexivity).
  split; [reflexivity|]. split; [exact He|].
  apply (proj2 (share_encoding_round_trip stored_share stored_share_typed) stored_bytes He).
Defined.
