(* ===== verification/SharesStorage.v ===== *)
(** * The shares of the node and their database (registry/storage/shares.go)

    Shares are kept in memory by public key, in the indices of the validator store, and
    in a key-value database from which they are loaded when the node starts.  The
    database is the class [Database]; a transaction passed to an operation counts as
    the database it is committed to.  The map of shares is keyed by the hexadecimal form
    of the public key in the code, by the key itself here. *)

From stdpp Require Import base list gmap numbers strings.
From Stdlib Require Import Strings.Byte.
From S2P Require Import Prelude Sha256 SpecTypes Network Proposer Subnets Share ValidatorStore.
From S2P Require Import ShareEncoding.
Open Scope string_scope.
Open Scope list_scope.
Open Scope Z_scope.

(** basedb.Database: objects are written under a prefix and listed without it. *)
Class Database (DB : Type) := {
  db_GetAll : bytes → DB → result goerr (list (bytes * bytes));
  db_SetMany : bytes → list (result goerr (bytes * bytes)) → ST DB goerr unit;
  db_Delete : bytes → bytes → ST DB goerr unit;
  db_DropPrefix : bytes → ST DB goerr unit;
}.

(** The numbers of go-eth2-client's validator states. *)
Class StatusCodes := {
  status_code : ValidatorStatus → Z;
  status_of : Z → ValidatorStatus;
}.

Abbreviation sharesPrefix := (String.list_byte_of_string "shares_v2/").
Abbreviation pubkeyIndexMapping := (String.list_byte_of_string "val_pki").
Definition SharesDBPrefix (storagePrefix : bytes) : bytes := storagePrefix ++ sharesPrefix.
Definition SharesDBKey (pk : bytes) : bytes := sharesPrefix ++ pk.
Definition PubkeyToIndexMappingDBKey (storagePrefix : bytes) : bytes :=
  storagePrefix ++ pubkeyIndexMapping.

Record sharesStorage (DB : Type) := mkSharesStorage {
  ss_db : DB;
  ss_shares : gmap bytes SSVShare;
  ss_validatorStore : validatorStore;
}.
Arguments mkSharesStorage {DB}.
Arguments ss_db {DB}.
Arguments ss_shares {DB}.
Arguments ss_validatorStore {DB}.

Section storage.
Context {DB : Type} `{Database DB} `{FastSSZ} `{StatusCodes} (storagePrefix : bytes).
Abbreviation StorageM := (ST (sharesStorage DB) goerr).

Definition FromSSVShare (share : SSVShare) : Share :=
  let committee := (λ c, Some (mkStorageOperator (sm_Signer c) (sm_SharePubKey c))) <$> sh_Committee share in
  mkShare (sh_ValidatorIndex share) (sh_ValidatorPubKey share) (sh_SharePubKey share) committee
    (sh_DomainType share) (replicate 20 x00) (sh_Graffiti share) (status_code (sh_Status share))
    (sh_ActivationEpoch share) (sh_ExitEpoch share) (sh_OwnerAddress share) (sh_Liquidated share).

Fixpoint to_members (committee : list (option storageOperator)) : result goerr (list ShareMember) :=
  match committee with
  | [] => Ok []
  | None :: _ => Panic
  | Some c :: committee =>
      rest ← to_members committee;
      Ok (mkShareMember (op_PubKey c) (op_OperatorID c) :: rest)
  end.
Definition ToSSVShare (stShare : Share) : result goerr SSVShare :=
  committee ← to_members (sp_Committee stShare);
  fail_if (negb (len (sp_ValidatorPubKey stShare) =? 48)) (ENew "invalid ValidatorPubKey length") ;;
  Ok (mkSSVShare (sp_ValidatorIndex stShare) (sp_ValidatorPubKey stShare) (sp_SharePubKey stShare)
        committee (sp_DomainType stShare) (sp_Graffiti stShare) (status_of (sp_Status stShare))
        (sp_ActivationEpoch stShare) (sp_ExitEpoch stShare) (sp_OwnerAddress stShare)
        (sp_Liquidated stShare) None None None 0).

(** ** Loading *)
Fixpoint load_shares (objs : list (bytes * bytes)) (shares : gmap bytes SSVShare)
    : result goerr (gmap bytes SSVShare) :=
  match objs with
  | [] => Ok shares
  | (_, value) :: objs =>
      val ← match Decode zero_share value with
            | Err e => Err (EWrap "failed to deserialize share" e) | r => r end;
      share ← match ToSSVShare val with
              | Err e => Err (EWrap "failed to convert storage share to domain share" e) | r => r end;
      load_shares objs (<[sp_ValidatorPubKey val := share]> shares)
  end.
Definition loadFromDB (db : DB) : result goerr (gmap bytes SSVShare) :=
  objs ← db_GetAll (SharesDBPrefix storagePrefix) db;
  load_shares objs ∅.

(** binary.LittleEndian.Uint64 panics on fewer than eight bytes. *)
Fixpoint load_mappings (objs : list (bytes * bytes)) (m : gmap bytes ValidatorIndex)
    : result goerr (gmap bytes ValidatorIndex) :=
  match objs with
  | [] => Ok m
  | (key, value) :: objs =>
      fail_if (negb (len key =? 48)) (ENew "invalid validator PK: bad length") ;;
      if len value <? 8 then Panic
      else load_mappings objs (<[key := le_value (take 8 value)]> m)
  end.
Definition loadPubkeyToIndexMappings (db : DB) : result goerr (gmap bytes ValidatorIndex) :=
  objs ← db_GetAll (PubkeyToIndexMappingDBKey storagePrefix) db;
  load_mappings objs ∅.

Definition NewSharesStorage (db : DB) : result goerr (sharesStorage DB) :=
  shares ← loadFromDB db;
  pubkeyIndexMapping ←
    match loadPubkeyToIndexMappings db with
    | Err e => Err (EWrap "load validator pubkey index mapping" e) | r => r end;
  let '(store, r) := handleSharesAdded ((λ kv, Some kv.2) <$> map_to_list shares)
                       (newValidatorStore pubkeyIndexMapping) in
  r ;;
  Ok (mkSharesStorage db shares store).

(** ** Queries *)
Definition storage_Get (pubKey : bytes) (s : sharesStorage DB) : option SSVShare :=
  ss_shares s !! pubKey.
Abbreviation SharesFilter := (SSVShare → bool).
Definition storage_List (filters : list SharesFilter) (s : sharesStorage DB) : list SSVShare :=
  List.filter (λ share, forallb (λ filter, filter share) filters) (map_to_list (ss_shares s)).*2.

(** ** Writing *)
Definition with_db {A} (m : ST DB goerr A) : StorageM A := λ s,
  let '(db, r) := m (ss_db s) in (mkSharesStorage db (ss_shares s) (ss_validatorStore s), r).
Definition with_store {A} (m : ST validatorStore goerr A) : StorageM A := λ s,
  let '(store, r) := m (ss_validatorStore s) in (mkSharesStorage (ss_db s) (ss_shares s) store, r).
Definition set_shares (shares : gmap bytes SSVShare) (s : sharesStorage DB) : sharesStorage DB :=
  mkSharesStorage (ss_db s) shares (ss_validatorStore s).
Definition st_wrap {A} (text : string) (m : StorageM A) : StorageM A := λ s,
  match m s with (s', Err e) => (s', Err (EWrap text e)) | r => r end.

Definition saveToDB (shares : list SSVShare) : StorageM unit :=
  st_wrap "save validator pubkey to index mapping"
    (with_db (db_SetMany (PubkeyToIndexMappingDBKey storagePrefix)
      ((λ share, Ok (sh_ValidatorPubKey share, le_bytes 8 (sh_ValidatorIndex share))) <$> shares))) ;;
  with_db (db_SetMany storagePrefix
    ((λ share, match Encode (FromSSVShare share) with
               | Ok value => Ok (SharesDBKey (sh_ValidatorPubKey share), value)
               | Err e => Err (EWrap "failed to serialize share" e)
               | Panic => Panic
               end) <$> shares)).

(** The loop of [Save]: the shares to update and to add, and the map. *)
Fixpoint split_shares (shares : list SSVShare) (m : gmap bytes SSVShare)
    : list SSVShare * list SSVShare * gmap bytes SSVShare :=
  match shares with
  | [] => ([], [], m)
  | share :: shares =>
      let key := sh_ValidatorPubKey share in
      let '(updates, adds, m') := split_shares shares (<[key := share]> m) in
      if bool_decide (is_Some (m !! key)) then (share :: updates, adds, m')
      else (updates, share :: adds, m')
  end.

Definition Save (shares : list (option SSVShare)) : StorageM unit :=
  if (length shares =? 0)%nat then mret tt else
  match mapM id shares with
  | None => st_err (ENew "nil share")
  | Some shares =>
      s ← st_get;
      let '(updateShares, addShares, m) := split_shares shares (ss_shares s) in
      st_modify (set_shares m) ;;
      st_wrap "handleSharesUpdated" (with_store (handleSharesUpdated (Some <$> updateShares))) ;;
      st_wrap "handleSharesAdded" (with_store (handleSharesAdded (Some <$> addShares))) ;;
      saveToDB shares
  end.

(** A share that is not there is not an error. *)
Definition Delete (pubKey : bytes) : StorageM unit :=
  s ← st_get;
  match ss_shares s !! pubKey with
  | None => mret tt
  | Some share =>
      st_modify (set_shares (delete pubKey (ss_shares s))) ;;
      with_store (handleShareRemoved (Some share)) ;;
      with_db (db_Delete storagePrefix (SharesDBKey pubKey))
  end.

Definition metadata_Equals (m : ValidatorMetadata) (other : option ValidatorMetadata) : bool :=
  match other with
  | None => false
  | Some other =>
      bool_decide (md_Status m = md_Status other) && (md_Index m =? md_Index other)
        && (md_ActivationEpoch m =? md_ActivationEpoch other) && (md_ExitEpoch m =? md_ExitEpoch other)
  end.

(** The loop of [UpdateValidatorsMetadata] over the entries in the order of the map's
    iteration: the shares that changed and the map after it.  The code writes through the
    pointer that the indices hold as well; they are rebuilt from the changed shares. *)
Fixpoint apply_metadata (data : list (bytes * option ValidatorMetadata)) (m : gmap bytes SSVShare)
    : list SSVShare * list (bytes * ValidatorMetadata) * gmap bytes SSVShare :=
  match data with
  | [] => ([], [], m)
  | (pk, metadata) :: data =>
      match metadata, m !! pk with
      | Some metadata, Some share =>
          if metadata_Equals metadata (Some (BeaconMetadata share)) then apply_metadata data m
          else
            let share := SetBeaconMetadata (Some metadata) share in
            let '(changed, changedMetadata, m') := apply_metadata data (<[pk := share]> m) in
            (share :: changed, (pk, metadata) :: changedMetadata, m')
      | _, _ => apply_metadata data m
      end
  end.

Definition UpdateValidatorsMetadata (data : list (bytes * option ValidatorMetadata))
    : StorageM (list (bytes * ValidatorMetadata)) :=
  s ← st_get;
  let '(changedShares, changedMetadata, m) := apply_metadata data (ss_shares s) in
  st_modify (set_shares m) ;;
  if (length changedShares =? 0)%nat then mret changedMetadata
  else
    with_store (handleSharesUpdated (Some <$> changedShares)) ;;
    saveToDB changedShares ;;
    mret changedMetadata.

Definition Drop : StorageM unit :=
  st_modify (set_shares ∅) ;;
  with_store (st_modify handleDrop) ;;
  with_db (db_DropPrefix (SharesDBPrefix storagePrefix)).
End storage.
