(* ===== verification/SharesProps.v ===== *)
(** * The shares storage follows the registry and survives a restart

    What a working database promises, and the relation [storage_ok] between a registry
    of shares and the storage: the shares in memory, the indices of the validator store
    and the database.  Every operation preserves it, and a restart rebuilds the storage
    from the database alone. *)

From stdpp Require Import base list gmap numbers strings.
From Stdlib Require Import Strings.Byte.
From S2P Require Import Prelude Sha256 SpecTypes Network Proposer Subnets Share ValidatorStore.
From S2P Require Import StoreRegistry ShareEncoding SharesStorage.
Open Scope string_scope.
Open Scope list_scope.
Open Scope Z_scope.
#[local] Opaque ComputeCommitteeID le_bytes.

Class DatabaseLaws (DB : Type) `{Database DB} := {
  view : DB → gmap bytes bytes;
  getall_spec prefix db : ∃ objs, db_GetAll prefix db = Ok objs ∧ NoDup objs.*1 ∧
    ∀ k v, (k, v) ∈ objs ↔ view db !! (prefix ++ k) = Some v;
  setmany_spec prefix kvs db : ∃ db', db_SetMany prefix (Ok <$> kvs) db = (db', Ok tt) ∧
    view db' = foldl (λ m kv, <[prefix ++ kv.1 := kv.2]> m) (view db) kvs;
  delete_spec prefix k db : ∃ db', db_Delete prefix k db = (db', Ok tt) ∧
    view db' = delete (prefix ++ k) (view db);
  dropprefix_spec prefix db : ∃ db', db_DropPrefix prefix db = (db', Ok tt) ∧
    ∀ k, view db' !! k = if bool_decide (prefix `prefix_of` k) then None else view db !! k;
}.
Class StatusLaws `{StatusCodes} : Prop := status_round_trip s : status_of (status_code s) = s.

(** ** Lists of events *)
Lemma added_events l c : handleSharesAdded (Some <$> l) c = run_events (EvAdded <$> l) c.
Proof.
  revert c. induction l as [|s l IH]; intros c; [done|].
  cbn [fmap list_fmap run_events handle]. unfold handleSharesAdded in *. cbn [for_shares].
  unfold mbind, st_bind. destruct (add_share s c) as [c' [[]|e|]]; [apply IH|done..].
Qed.
Lemma updated_events l c : handleSharesUpdated (Some <$> l) c = run_events (EvUpdated <$> l) c.
Proof.
  revert c. induction l as [|s l IH]; intros c; [done|].
  cbn [fmap list_fmap run_events handle]. unfold handleSharesUpdated in *. cbn [for_shares].
  unfold mbind, st_bind. destruct (update_share s c) as [c' [[]|e|]]; [apply IH|done..].
Qed.

Lemma run_events_registry l S c :
  registry_ok S → store_ok S c → events_ok S l →
  ∃ c', run_events l c = (c', Ok tt) ∧ registry_ok (registry_after l S) ∧ store_ok (registry_after l S) c'.
Proof.
  revert S c. induction l as [|e l IH]; intros S c Hro Hok Hl; [by exists c|]. destruct Hl as [He Hl].
  destruct (handle_ok S c e Hro Hok He) as (c1 & Hf & Hro1 & Hok1).
  destruct (IH _ c1 Hro1 Hok1 Hl) as (c2 & Hr & Hok2). exists c2. split; [|done].
  simpl. unfold mbind, st_bind. by rewrite Hf.
Qed.

Lemma registry_ok_subseteq S S' : registry_ok S → S' ⊆ S → registry_ok S'.
Proof.
  intros [Hk Hs Ho Hc Hi] Hsub.
  assert (∀ s, held S' s → held S s) as Hh.
  { intros s Hh. exact (lookup_weaken _ _ _ _ Hh Hsub). }
  split; [|naive_solver..]. intros k s Hl. by apply Hk, (lookup_weaken _ _ _ _ Hl Hsub).
Qed.

(** Shares put under their keys, in some order. *)
Definition puts (l : list SSVShare) (m : gmap bytes SSVShare) : gmap bytes SSVShare :=
  foldl (λ m s, <[sh_ValidatorPubKey s := s]> m) m l.

Lemma puts_lookup l m k :
  NoDup (sh_ValidatorPubKey <$> l) →
  (∀ s, s ∈ l → sh_ValidatorPubKey s = k → puts l m !! k = Some s) ∧
  (k ∉ sh_ValidatorPubKey <$> l → puts l m !! k = m !! k).
Proof.
  revert m. induction l as [|s l IH]; intros m Hnd.
  - split; [by intros s ?%not_elem_of_nil|done].
  - apply NoDup_cons in Hnd as [Hs Hnd]. destruct (IH (<[sh_ValidatorPubKey s := s]> m) Hnd) as [H1 H2].
    split; simpl.
    + intros x [->|Hx]%elem_of_cons Hk; [|by apply H1]. rewrite H2 by (by rewrite <-Hk).
      by rewrite Hk, lookup_insert_eq.
    + intros [Hne Hk]%not_elem_of_cons. rewrite H2 by done. by rewrite lookup_insert_ne.
Qed.

Lemma puts_permutation l l' m :
  NoDup (sh_ValidatorPubKey <$> l) → l ≡ₚ l' → puts l m = puts l' m.
Proof.
  intros Hnd Hp. apply map_eq. intros k. assert (NoDup (sh_ValidatorPubKey <$> l')) as Hnd' by (by rewrite <-Hp).
  destruct (decide (k ∈ sh_ValidatorPubKey <$> l)) as [(s & -> & Hs)%list_elem_of_fmap|Hk].
  - rewrite (proj1 (puts_lookup l m _ Hnd) s Hs eq_refl).
    rewrite Hp in Hs. by rewrite (proj1 (puts_lookup l' m _ Hnd') s Hs eq_refl).
  - rewrite (proj2 (puts_lookup l m k Hnd) Hk). rewrite Hp in Hk. by rewrite (proj2 (puts_lookup l' m k Hnd') Hk).
Qed.

Lemma NoDup_fmap_inv_key {A B} (f : A → B) l x y : NoDup (f <$> l) → x ∈ l → y ∈ l → f x = f y → x = y.
Proof.
  induction l as [|z l IH]; [by intros _ ?%not_elem_of_nil|]. rewrite fmap_cons, NoDup_cons, !elem_of_cons.
  intros [Hz Hnd] [->|Hx] [->|Hy] Heq; [done|..|by apply IH]; destruct Hz;
    [rewrite Heq|rewrite <-Heq]; by apply list_elem_of_fmap_2.
Qed.

Lemma settled_puts l m : settled <$> puts l m = puts (settled <$> l) (settled <$> m).
Proof.
  revert m. induction l as [|s l IH]; intros m; [done|]. simpl. rewrite IH, fmap_insert.
  by destruct (settled_fields s) as [-> _].
Qed.
Lemma settled_keys (l : list SSVShare) : sh_ValidatorPubKey <$> (settled <$> l) = sh_ValidatorPubKey <$> l.
Proof. rewrite <-list_fmap_compose. apply list_fmap_ext. intros _ s _. apply settled_fields. Qed.

Lemma registry_after_puts (ev : SSVShare → Event) l S :
  (∀ s S, next_registry (ev s) S = <[sh_ValidatorPubKey s := settled s]> S) →
  registry_after (ev <$> l) S = puts (settled <$> l) S.
Proof.
  intros Hev. revert S. induction l as [|s l IH]; intros S; [done|]. simpl.
  destruct (settled_fields s) as [-> _]. rewrite Hev. apply IH.
Qed.

Lemma split_spec shares m :
  ∃ updates adds, split_shares shares m = (updates, adds, puts shares m) ∧ updates ++ adds ≡ₚ shares.
Proof.
  revert m. induction shares as [|s shares IH]; intros m; [by exists [], []|]. simpl.
  destruct (IH (<[sh_ValidatorPubKey s := s]> m)) as (u & a & -> & Hp).
  case_bool_decide; [exists (s :: u), a|exists u, (s :: a)]; (split; [done|]).
  - simpl. by rewrite Hp.
  - by rewrite <-Permutation_middle, Hp.
Qed.

(** ** The database *)
Lemma inserts_lookup (p : bytes) (kvs : list (bytes * bytes)) (v : gmap bytes bytes) :
  NoDup kvs.*1 →
  (∀ k y, (k, y) ∈ kvs → foldl (λ m kv, <[p ++ kv.1 := kv.2]> m) v kvs !! (p ++ k) = Some y) ∧
  (∀ x, (∀ k, k ∈ kvs.*1 → x ≠ p ++ k) → foldl (λ m kv, <[p ++ kv.1 := kv.2]> m) v kvs !! x = v !! x).
Proof.
  revert v. induction kvs as [|[k0 y0] kvs IH]; intros v Hnd; [by split; [intros ?? ?%not_elem_of_nil|]|].
  apply NoDup_cons in Hnd as [Hk0 Hnd]. destruct (IH (<[p ++ k0 := y0]> v) Hnd) as [H1 H2]. simpl. split.
  - intros k y [[= -> ->]|Hin]%elem_of_cons; [|by apply H1]. rewrite H2; [by rewrite lookup_insert_eq|].
    intros k Hk Heq. apply app_inv_head in Heq. by subst.
  - intros x Hx. rewrite H2 by (intros k Hk; apply Hx; by right).
    rewrite lookup_insert_ne; [done|]. intros Heq. apply (Hx k0); [by left|done].
Qed.

Section storage.
Context {DB : Type} `{DatabaseLaws DB} `{FastSSZLaws} `{StatusLaws} (sp : bytes).

Lemma mapping_not_share k k' : PubkeyToIndexMappingDBKey sp ++ k ≠ SharesDBPrefix sp ++ k'.
Proof.
  unfold PubkeyToIndexMappingDBKey, SharesDBPrefix. rewrite <-!app_assoc. by intros ?%app_inv_head.
Qed.

(** Shares that the database can hold; their caches are right. *)
Record storable (s : SSVShare) : Prop := mkStorable {
  sb_typed : share_typed (FromSSVShare s);
  sb_fits : share_fits (FromSSVShare s);
  sb_caches : share_wf s;
}.

Record db_ok (S : Registry) (v : gmap bytes bytes) : Prop := mkDbOk {
  dk_share k x : v !! (SharesDBPrefix sp ++ k) = Some x ↔
    ∃ s, S !! k = Some s ∧ Encode (FromSSVShare s) = Ok x;
  dk_index s : held S s →
    v !! (PubkeyToIndexMappingDBKey sp ++ sh_ValidatorPubKey s) = Some (le_bytes 8 (sh_ValidatorIndex s));
  dk_mapping k x : v !! (PubkeyToIndexMappingDBKey sp ++ k) = Some x → len k = 48 ∧ len x = 8;
}.

Record storage_ok (S : Registry) (st : sharesStorage DB) : Prop := mkStorageOk {
  sk_registry : registry_ok S;
  sk_storable s : held S s → storable s;
  sk_shares : settled <$> ss_shares st = S;
  sk_store : store_ok S (ss_validatorStore st);
  sk_db : db_ok S (view (ss_db st));
}.

Lemma FromSSVShare_settled s : FromSSVShare (settled s) = FromSSVShare s.
Proof. unfold settled, CommitteeID. by destruct (sh_committeeID s). Qed.

Lemma encode_storable s :
  storable s → ∃ x, Encode (FromSSVShare s) = Ok x ∧ Decode zero_share x = Ok (FromSSVShare s).
Proof. intros [Hty Hf _]. destruct (encode_fits _ Hty Hf) as (x & He & _ & _ & Hd). by exists x. Qed.

Lemma puts_settled_cases l S k s :
  NoDup (sh_ValidatorPubKey <$> l) →
  puts (settled <$> l) S !! k = Some s ↔
    (∃ x, x ∈ l ∧ sh_ValidatorPubKey x = k ∧ s = settled x) ∨ k ∉ sh_ValidatorPubKey <$> l ∧ S !! k = Some s.
Proof.
  intros Hnd. rewrite <-settled_keys in Hnd. destruct (puts_lookup (settled <$> l) S k Hnd) as [Hin Hout].
  rewrite settled_keys in *. destruct (decide (k ∈ sh_ValidatorPubKey <$> l)) as [Hk|Hk].
  - apply list_elem_of_fmap in Hk as (x & -> & Hx). destruct (settled_fields x) as [Hkx _].
    rewrite (Hin (settled x)) by (done || by apply list_elem_of_fmap_2). split; [intros [= <-]; left; by exists x|].
    intros [(y & Hy & Hky & ->)|[Hno _]]; [|by destruct Hno; apply list_elem_of_fmap_2].
    do 2 f_equal. symmetry. by apply (NoDup_fmap_inv_key sh_ValidatorPubKey l).
  - rewrite Hout by done. split; [by right|]. intros [(y & Hy & <- & _)|[_ ?]]; [|done].
    destruct Hk. by apply list_elem_of_fmap_2.
Qed.

(** The entries written for a list of shares. *)
Lemma share_objects l :
  (∀ s, s ∈ l → storable s) →
  ∃ kvs, ((λ share, match Encode (FromSSVShare share) with
                    | Ok value => Ok (SharesDBKey (sh_ValidatorPubKey share), value)
                    | Err e => Err (EWrap "failed to serialize share" e)
                    | Panic => Panic
                    end) <$> l) = Ok <$> kvs ∧
    kvs.*1 = SharesDBKey <$> (sh_ValidatorPubKey <$> l) ∧
    ∀ s x, s ∈ l → Encode (FromSSVShare s) = Ok x → (SharesDBKey (sh_ValidatorPubKey s), x) ∈ kvs.
Proof.
  induction l as [|s l IH]; intros Hall.
  { exists []. split; [done|]. split; [done|]. by intros s x ?%not_elem_of_nil. }
  destruct IH as (kvs & Hk & Hk1 & Hk2); [intros x Hx; apply Hall; by right|].
  destruct (encode_storable s) as (x & Hx & _); [apply Hall; by left|].
  exists ((SharesDBKey (sh_ValidatorPubKey s), x) :: kvs). cbn [fmap list_fmap]. rewrite Hx. split; [|split].
  - by f_equal.
  - by f_equal.
  - intros s' x' [->|Hs']%elem_of_cons He; [rewrite Hx in He; injection He as ->; by left|].
    right. by apply Hk2.
Qed.

(** What is written: the index and the encoding of every share, nothing else. *)
Lemma saveToDB_view st l :
  NoDup (sh_ValidatorPubKey <$> l) → (∀ s, s ∈ l → storable s) →
  ∃ db', saveToDB sp l st = (mkSharesStorage db' (ss_shares st) (ss_validatorStore st), Ok tt) ∧
    (∀ s, s ∈ l → view db' !! (PubkeyToIndexMappingDBKey sp ++ sh_ValidatorPubKey s)
                  = Some (le_bytes 8 (sh_ValidatorIndex s))) ∧
    (∀ s x, s ∈ l → Encode (FromSSVShare s) = Ok x →
       view db' !! (SharesDBPrefix sp ++ sh_ValidatorPubKey s) = Some x) ∧
    ∀ k, k ∉ sh_ValidatorPubKey <$> l →
      view db' !! (PubkeyToIndexMappingDBKey sp ++ k) = view (ss_db st) !! (PubkeyToIndexMappingDBKey sp ++ k) ∧
      view db' !! (SharesDBPrefix sp ++ k) = view (ss_db st) !! (SharesDBPrefix sp ++ k).
Proof.
  intros Hnd Hall.
  set (pki := (λ share, (sh_ValidatorPubKey share, le_bytes 8 (sh_ValidatorIndex share))) <$> l).
  destruct (share_objects l Hall) as (kvs & Hkvs & Hkeys & Hin).
  destruct (setmany_spec (PubkeyToIndexMappingDBKey sp) pki (ss_db st)) as (db1 & Hset1 & Hv1).
  destruct (setmany_spec sp kvs db1) as (db2 & Hset2 & Hv2).
  assert (pki.*1 = sh_ValidatorPubKey <$> l) as Hpk1 by (unfold pki; by rewrite <-list_fmap_compose).
  destruct (inserts_lookup (PubkeyToIndexMappingDBKey sp) pki (view (ss_db st))) as [Hin1 Hout1]; [by rewrite Hpk1|].
  destruct (inserts_lookup sp kvs (view db1)) as [Hin2 Hout2].
  { rewrite Hkeys. apply NoDup_fmap_2; [|done]. intros a b. apply app_inv_head. }
  rewrite <-Hv1 in Hin1, Hout1. rewrite <-Hv2 in Hin2, Hout2.
  assert (∀ k, view db2 !! (PubkeyToIndexMappingDBKey sp ++ k) = view db1 !! (PubkeyToIndexMappingDBKey sp ++ k)) as Hmap.
  { intros k. apply Hout2. rewrite Hkeys. intros k' (k'' & -> & _)%list_elem_of_fmap Heq.
    apply (mapping_not_share k k''). unfold SharesDBPrefix. rewrite Heq. unfold SharesDBKey. by rewrite <-app_assoc. }
  exists db2. split; [|split; [|split]].
  - unfold saveToDB, mbind, st_bind, st_wrap, with_db. unfold pki in Hset1. rewrite <-list_fmap_compose in Hset1.
    setoid_rewrite Hset1. simpl. rewrite Hkvs, Hset2. done.
  - intros s Hs. rewrite Hmap. apply Hin1, list_elem_of_fmap. by exists s.
  - intros s x Hs He. unfold SharesDBPrefix. rewrite <-app_assoc. by apply (Hin2 (SharesDBKey _)), Hin.
  - intros k Hk. rewrite Hmap. split.
    + apply Hout1. rewrite Hpk1. intros k' Hk' ->%app_inv_head. done.
    + rewrite Hout2; [apply Hout1; intros k' _ Heq; by apply (mapping_not_share k' k)|].
      rewrite Hkeys. intros k' (k'' & -> & Hk'')%list_elem_of_fmap. unfold SharesDBPrefix, SharesDBKey.
      rewrite <-!app_assoc. intros Heq%app_inv_head%app_inv_head. by subst.
Qed.

Lemma saveToDB_ok S st l :
  NoDup (sh_ValidatorPubKey <$> l) → (∀ s, s ∈ l → storable s) → db_ok S (view (ss_db st)) →
  ∃ db', saveToDB sp l st = (mkSharesStorage db' (ss_shares st) (ss_validatorStore st), Ok tt) ∧
    db_ok (puts (settled <$> l) S) (view db').
Proof.
  intros Hnd Hall [Hs Hi Hm]. destruct (saveToDB_view st l Hnd Hall) as (db' & Hsave & Hidx & Henc & Hrest).
  exists db'. split; [done|]. split.
  - intros k x. setoid_rewrite puts_settled_cases; [|done].
    destruct (decide (k ∈ sh_ValidatorPubKey <$> l)) as [Hk|Hk].
    + apply list_elem_of_fmap in Hk as (s & -> & Hsl). destruct (encode_storable s (Hall s Hsl)) as (y & Hy & _).
      rewrite (Henc s y Hsl Hy). split.
      * intros [= <-]. exists (settled s). rewrite FromSSVShare_settled. split; [left; by exists s|done].
      * intros (s' & [(z & Hz & Hkz & ->)|[Hno _]] & He); [|destruct Hno; by apply list_elem_of_fmap_2].
        assert (z = s) as -> by (by apply (NoDup_fmap_inv_key sh_ValidatorPubKey l)).
        rewrite FromSSVShare_settled in He. congruence.
    + rewrite (proj2 (Hrest k Hk)), Hs. split; intros (s & Hlook & He); exists s; (split; [|done]); [by right|].
      destruct Hlook as [(z & Hz & <- & _)|[_ ?]]; [|done]. destruct Hk. by apply list_elem_of_fmap_2.
  - intros s Hh. apply puts_settled_cases in Hh as [(x & Hx & _ & ->)|[Hno Hh]]; [| |done].
    + destruct (settled_fields x) as (-> & -> & _). by apply Hidx.
    + rewrite (proj1 (Hrest _ Hno)). by apply Hi.
  - intros k x. destruct (decide (k ∈ sh_ValidatorPubKey <$> l)) as [Hk|Hk].
    + apply list_elem_of_fmap in Hk as (s & -> & Hsl). rewrite Hidx by done. intros [= <-].
      split; [apply (sf_key _ (sb_fits _ (Hall s Hsl)))|by rewrite len_le].
    + rewrite (proj1 (Hrest k Hk)). apply Hm.
Qed.

(** ** Saving *)
Lemma mapM_Some_id {A} (l : list A) : mapM id (Some <$> l) = Some l.
Proof. apply mapM_Some_2, Forall2_fmap_l. induction l; by constructor. Qed.

Lemma storable_settled s : storable s → storable (settled s).
Proof.
  intros [Hty Hf Hw]. split; [by rewrite FromSSVShare_settled..|].
  pose proof (CommitteeID_spec s Hw) as Hc. rewrite CommitteeID_eq in Hc. apply Hc.
Qed.

Lemma storable_puts S l s :
  NoDup (sh_ValidatorPubKey <$> l) → (∀ x, x ∈ l → storable x) → (∀ x, held S x → storable x) →
  held (puts (settled <$> l) S) s → storable s.
Proof.
  intros Hnd Hl HS Hh. apply puts_settled_cases in Hh as [(x & Hx & _ & ->)|[_ Hh]]; [| |done].
  - by apply storable_settled, Hl.
  - by apply HS.
Qed.

Lemma events_ok_app S l1 l2 :
  events_ok S (l1 ++ l2) ↔ events_ok S l1 ∧ events_ok (registry_after l1 S) l2.
Proof.
  revert S. induction l1 as [|e l1 IH]; intros S; simpl; [tauto|]. rewrite IH. unfold registry_after. simpl. tauto.
Qed.

Lemma run_events_app l1 l2 c c1 c2 :
  run_events l1 c = (c1, Ok tt) → run_events l2 c1 = (c2, Ok tt) → run_events (l1 ++ l2) c = (c2, Ok tt).
Proof.
  revert c. induction l1 as [|e l1 IH]; intros c; simpl.
  - by intros [= <-].
  - unfold mbind, st_bind. destruct (handle e c) as [c' [[]|?|]]; [apply IH|done..].
Qed.

Definition save_events (l : list SSVShare) (m : gmap bytes SSVShare) : list Event :=
  let '(updates, adds, _) := split_shares l m in (EvUpdated <$> updates) ++ (EvAdded <$> adds).

Lemma Save_ok S st l :
  storage_ok S st → NoDup (sh_ValidatorPubKey <$> l) → (∀ s, s ∈ l → storable s) →
  events_ok S (save_events l (ss_shares st)) →
  ∃ st', Save sp (Some <$> l) st = (st', Ok tt) ∧ storage_ok (puts (settled <$> l) S) st' ∧
    ss_shares st' = puts l (ss_shares st) ∧
    run_events (save_events l (ss_shares st)) (ss_validatorStore st) = (ss_validatorStore st', Ok tt).
Proof.
  intros Hok Hnd Hall Hev. destruct l as [|s0 l0]; [by exists st|]. set (l := s0 :: l0) in *.
  pose proof Hok as [Hro Hst Hsh Hstore Hdb].
  destruct (split_spec l (ss_shares st)) as (u & a & Hsplit & Hp). unfold save_events in *.
  rewrite Hsplit in *.
  apply events_ok_app in Hev as [Hev1 Hev2].
  destruct (run_events_registry _ S _ Hro Hstore Hev1) as (c1 & Hr1 & Hro1 & Hok1).
  destruct (run_events_registry _ _ c1 Hro1 Hok1 Hev2) as (c2 & Hr2 & Hro2 & Hok2).
  pose proof (run_events_app _ _ _ _ _ Hr1 Hr2) as Hr12.
  rewrite <-updated_events in Hr1. rewrite <-added_events in Hr2.
  assert (registry_after (EvAdded <$> a) (registry_after (EvUpdated <$> u) S) = puts (settled <$> l) S) as Hreg.
  { rewrite !registry_after_puts by done. rewrite (puts_permutation (settled <$> l) (settled <$> (u ++ a)) S).
    - unfold puts. by rewrite fmap_app, foldl_app.
    - by rewrite settled_keys.
    - by rewrite Hp. }
  rewrite Hreg in Hro2, Hok2.
  destruct (saveToDB_ok S (mkSharesStorage (ss_db st) (puts l (ss_shares st)) c2) l Hnd Hall Hdb) as (db' & Hsave & Hdb').
  exists (mkSharesStorage db' (puts l (ss_shares st)) c2). split; [|split; [|by split]].
  - unfold Save. change (length (Some <$> l) =? 0)%nat with false. cbv iota.
    assert (mapM id (Some <$> l) = Some l) as -> by apply mapM_Some_id.
    unfold mbind, st_bind, st_get, st_modify, st_wrap, with_store, set_shares. rewrite Hsplit. cbn.
    setoid_rewrite Hr1. cbn. setoid_rewrite Hr2. exact Hsave.
  - split; [done| |cbn [ss_shares]; by rewrite settled_puts, Hsh|done|done]. intros s. by apply storable_puts.
Qed.

(** ** Deleting and dropping *)
Lemma removed_settled s c : handleShareRemoved (Some s) c = handleShareRemoved (Some (settled s)) c.
Proof.
  unfold handleShareRemoved. rewrite !CommitteeID_eq.
  by destruct (settled_fields s) as (_ & _ & _ & _ & -> & ->).
Qed.

Lemma Delete_ok S st pk :
  storage_ok S st →
  ∃ st', Delete sp pk st = (st', Ok tt) ∧ storage_ok (delete pk S) st' ∧
    ss_shares st' = delete pk (ss_shares st).
Proof.
  intros Hok. pose proof Hok as [Hro Hst Hsh Hstore [Hds Hdi Hdm]].
  unfold Delete, mbind, st_bind, st_get, st_modify, with_store, with_db, set_shares.
  destruct (ss_shares st !! pk) as [s|] eqn:Hs.
  - assert (S !! pk = Some (settled s)) as HS by (rewrite <-Hsh, lookup_fmap, Hs; done).
    assert (sh_ValidatorPubKey (settled s) = pk) as Hk by (by apply (ro_key _ Hro)).
    destruct (remove_share_ok S (ss_validatorStore st) (settled s) Hro Hstore) as (c' & Hr & Hc').
    { simpl. unfold held. by rewrite Hk. }
    simpl in Hc'. rewrite Hk in Hc'. cbn [ss_validatorStore ss_db ss_shares]. rewrite removed_settled, Hr.
    cbn [ss_validatorStore ss_db ss_shares].
    destruct (delete_spec sp (SharesDBKey pk) (ss_db st)) as (db' & Hdel & Hv). rewrite Hdel.
    eexists. split; [done|]. split; [|done].
    pose proof (registry_ok_delete S (settled s) Hro) as Hro'. rewrite Hk in Hro'.
    assert (∀ x, held (delete pk S) x → sh_ValidatorPubKey x ≠ pk ∧ held S x) as Hheld.
    { intros x. rewrite <-Hk. apply held_delete. }
    split; cbn [ss_shares ss_validatorStore ss_db]; [done|by intros x [_ Hx]%Hheld; apply Hst| |done|split].
    + by rewrite fmap_delete, Hsh.
    + intros k x. rewrite Hv. unfold SharesDBPrefix, SharesDBKey. rewrite <-app_assoc.
      destruct (decide (k = pk)) as [->|Hne].
      * rewrite lookup_delete_eq. setoid_rewrite lookup_delete_eq. split; [done|]. by intros (? & ? & _).
      * rewrite lookup_delete_ne by (by intros ?%app_inv_head%app_inv_head).
        setoid_rewrite lookup_delete_ne; [|done]. rewrite app_assoc. apply Hds.
    + intros x [_ Hx]%Hheld. rewrite Hv, lookup_delete_ne; [by apply Hdi|].
      unfold SharesDBKey. rewrite app_assoc. intros Heq. by apply (mapping_not_share (sh_ValidatorPubKey x) pk).
    + intros k x. rewrite Hv. intros [_ Hl]%lookup_delete_Some. by apply (Hdm k).
  - exists st. split; [done|]. assert (S !! pk = None) as HS by (rewrite <-Hsh, lookup_fmap, Hs; done).
    by rewrite !delete_id by done.
Qed.

Lemma Drop_ok S st :
  storage_ok S st → ∃ st', Drop sp st = (st', Ok tt) ∧ storage_ok ∅ st' ∧ ss_shares st' = ∅.
Proof.
  intros [Hro Hst Hsh Hstore [Hds Hdi Hdm]].
  destruct (dropprefix_spec (SharesDBPrefix sp) (ss_db st)) as (db' & Hdrop & Hv).
  unfold Drop, mbind, st_bind, st_modify, with_store, with_db, set_shares.
  cbn [ss_validatorStore ss_db ss_shares]. rewrite Hdrop.
  eexists. split; [done|]. split; [|done].
  destruct (empty_ok (handleDrop (ss_validatorStore st))) as [Hro' Hc']; [done..|].
  assert (∀ s, ¬ held ∅ s) as Hno by (intros s; unfold held; by rewrite lookup_empty).
  split; cbn [ss_shares ss_validatorStore ss_db]; [done|by intros s ?%Hno|by rewrite fmap_empty|done|split].
  - intros k x. rewrite Hv, bool_decide_true by (by exists k).
    split; [done|]. intros (s & Hs & _). by rewrite lookup_empty in Hs.
  - by intros s ?%Hno.
  - intros k x. rewrite Hv, bool_decide_false; [apply Hdm|]. intros [k' Heq].
    by apply (mapping_not_share k k').
Qed.

(** ** Metadata *)
Lemma apply_metadata_spec data m :
  (∀ k s, m !! k = Some s → sh_ValidatorPubKey s = k) → NoDup data.*1 →
  ∃ changed md, apply_metadata data m = (changed, md, puts changed m) ∧
    sublist (sh_ValidatorPubKey <$> changed) data.*1.
Proof.
  revert m. induction data as [|[pk metadata] data IH]; intros m Hk Hnd; [by exists [], []|].
  apply NoDup_cons in Hnd as [Hpk Hnd]. cbn [apply_metadata fmap list_fmap fst].
  assert (∃ changed md, apply_metadata data m = (changed, md, puts changed m) ∧
    sublist (sh_ValidatorPubKey <$> changed) (pk :: data.*1)) as Hskip.
  { destruct (IH m Hk Hnd) as (ch & md & Heq & Hsub). exists ch, md. split; [done|]. by constructor. }
  destruct metadata as [metadata|]; [|done]. destruct (m !! pk) as [share|] eqn:Hs; [|done].
  destruct (metadata_Equals _ _); [done|]. set (share' := SetBeaconMetadata (Some metadata) share).
  assert (sh_ValidatorPubKey share' = pk) as Hk' by (by apply Hk in Hs).
  destruct (IH (<[pk := share']> m)) as (ch & md & Heq & Hsub); [|done|].
  { intros k s [[<- <-]|[_ Hl]]%lookup_insert_Some; [done|by apply Hk]. }
  exists (share' :: ch), ((pk, metadata) :: md). rewrite Heq. split.
  - unfold puts. cbn [foldl]. by rewrite Hk'.
  - rewrite fmap_cons, Hk'. by constructor.
Qed.

Lemma UpdateValidatorsMetadata_ok S st data changed md :
  storage_ok S st → NoDup data.*1 →
  apply_metadata data (ss_shares st) = (changed, md, puts changed (ss_shares st)) →
  (∀ s, s ∈ changed → storable s) → events_ok S (EvUpdated <$> changed) →
  NoDup (sh_ValidatorPubKey <$> changed) →
  ∃ st', UpdateValidatorsMetadata sp data st = (st', Ok md) ∧
    storage_ok (puts (settled <$> changed) S) st' ∧ ss_shares st' = puts changed (ss_shares st).
Proof.
  intros Hok Hnd Happ Hall Hev Hndc. pose proof Hok as [Hro Hst Hsh Hstore Hdb].
  unfold UpdateValidatorsMetadata, mbind, st_bind, st_get, st_modify, with_store, set_shares. rewrite Happ.
  destruct (run_events_registry _ S _ Hro Hstore Hev) as (c1 & Hr & Hro' & Hok').
  rewrite registry_after_puts in Hro', Hok' by done. rewrite <-updated_events in Hr.
  destruct (length changed =? 0)%nat eqn:Hl.
  { apply Nat.eqb_eq, nil_length_inv in Hl as ->. eexists. split; [done|]. split; [|done]. simpl in *.
    by split. }
  destruct (saveToDB_ok S (mkSharesStorage (ss_db st) (puts changed (ss_shares st)) c1) changed Hndc Hall Hdb)
    as (db' & Hsave & Hdb').
  exists (mkSharesStorage db' (puts changed (ss_shares st)) c1).
  cbn [ss_validatorStore ss_db ss_shares]. rewrite Hr, Hsave. split; [done|]. split; [|done].
  split; [done| |cbn [ss_shares]; by rewrite settled_puts, Hsh|done|done]. intros s. by apply storable_puts.
Qed.

(** ** Restart *)
(** What is left of a share: its caches and its participation epoch are not stored. *)
Definition reloaded (s : SSVShare) : SSVShare :=
  mkSSVShare (sh_ValidatorIndex s) (sh_ValidatorPubKey s) (sh_SharePubKey s) (sh_Committee s)
    (sh_DomainType s) (sh_Graffiti s) (sh_Status s) (sh_ActivationEpoch s) (sh_ExitEpoch s)
    (sh_OwnerAddress s) (sh_Liquidated s) None None None 0.

Lemma to_members_from l :
  to_members ((λ c, Some (mkStorageOperator (sm_Signer c) (sm_SharePubKey c))) <$> l) = Ok l.
Proof. induction l as [|[key id] l IH]; [done|]. rewrite fmap_cons. cbn [to_members]. by rewrite IH. Qed.

Lemma ToSSVShare_From s : len (sh_ValidatorPubKey s) = 48 → ToSSVShare (FromSSVShare s) = Ok (reloaded s).
Proof.
  intros Hk. unfold ToSSVShare, FromSSVShare. cbn [sp_Committee sp_ValidatorPubKey].
  rewrite to_members_from. cbn [mbind result_bind]. rewrite Hk. cbn. unfold reloaded. by rewrite status_round_trip.
Qed.


Lemma reloaded_settled s : reloaded (settled s) = reloaded s.
Proof. unfold settled, CommitteeID. by destruct (sh_committeeID s). Qed.

Lemma load_shares_spec S objs m :
  (∀ s, held S s → storable s) → (∀ k s, S !! k = Some s → sh_ValidatorPubKey s = k) →
  NoDup objs.*1 → (∀ k x, (k, x) ∈ objs → ∃ s, S !! k = Some s ∧ Encode (FromSSVShare s) = Ok x) →
  ∃ m', load_shares objs m = Ok m' ∧
    ∀ k, m' !! k = if decide (k ∈ objs.*1) then reloaded <$> S !! k else m !! k.
Proof.
  intros Hst Hkey. revert m. induction objs as [|[k x] objs IH]; intros m Hnd Hall.
  { exists m. split; [done|]. intros k. by rewrite decide_False by apply not_elem_of_nil. }
  apply NoDup_cons in Hnd as [Hk Hnd]. destruct (Hall k x ltac:(by left)) as (s & Hs & He).
  assert (storable s) as Hsb by (apply Hst; unfold held; by rewrite (Hkey k s Hs)).
  destruct (encode_storable s Hsb) as (y & Hy & Hdec). assert (y = x) as -> by congruence.
  cbn [load_shares]. rewrite Hdec. cbn [mbind result_bind].
  rewrite ToSSVShare_From by apply (sf_key _ (sb_fits _ Hsb)). cbn [mbind result_bind].
  destruct (IH (<[sp_ValidatorPubKey (FromSSVShare s) := reloaded s]> m) Hnd) as (m' & Hl & Hm').
  { intros k' x' Hin. apply Hall. by right. }
  exists m'. split; [done|]. intros k'. rewrite Hm'. cbn [sp_ValidatorPubKey FromSSVShare].
  rewrite (Hkey k s Hs). destruct (decide (k' = k)) as [->|Hne].
  - rewrite decide_False by done. rewrite decide_True by (by left). by rewrite lookup_insert_eq, Hs.
  - rewrite lookup_insert_ne by done. destruct (decide (k' ∈ objs.*1)) as [Hin|Hin].
    + by rewrite decide_True by (by right).
    + rewrite decide_False; [done|]. intros [?|?]%elem_of_cons; done.
Qed.

Lemma loadFromDB_ok S st : storage_ok S st → loadFromDB sp (ss_db st) = Ok (reloaded <$> S).
Proof.
  intros [Hro Hst Hsh Hstore [Hds Hdi Hdm]]. unfold loadFromDB.
  destruct (getall_spec (SharesDBPrefix sp) (ss_db st)) as (objs & -> & Hnd & Hobj). cbn [mbind result_bind].
  destruct (load_shares_spec S objs ∅ Hst (ro_key _ Hro) Hnd) as (m' & -> & Hm').
  { intros k x Hin. by apply Hds, Hobj. }
  f_equal. apply map_eq. intros k. rewrite Hm', lookup_fmap, lookup_empty.
  destruct (decide (k ∈ objs.*1)) as [|Hno]; [done|]. destruct (S !! k) as [s|] eqn:Hs; [|done].
  destruct Hno. assert (held S s) as Hh by (unfold held; by rewrite (ro_key _ Hro k s Hs)).
  destruct (encode_storable s (Hst s Hh)) as (x & Hx & _). apply list_elem_of_fmap. exists (k, x).
  split; [done|]. apply Hobj, Hds. by exists s.
Qed.

Lemma load_mappings_spec objs m :
  NoDup objs.*1 → (∀ k x, (k, x) ∈ objs → len k = 48 ∧ len x = 8) →
  ∃ m', load_mappings objs m = Ok m' ∧ ∀ k x, (k, x) ∈ objs → m' !! k = Some (le_value x).
Proof.
  assert (∀ objs m m' k, load_mappings objs m = Ok m' → k ∉ objs.*1 → m' !! k = m !! k) as Hframe.
  { clear. induction objs as [|[k0 x0] objs IH]; intros m m' k; [by intros [= <-]|]. cbn [load_mappings].
    intros Hl Hk. apply not_elem_of_cons in Hk as [Hne Hk]. apply bind_ok in Hl as (? & _ & Hl).
    destruct (_ <? _); [done|]. rewrite (IH _ _ _ Hl Hk). by rewrite lookup_insert_ne. }
  revert m. induction objs as [|[k x] objs IH]; intros m Hnd Hall.
  { exists m. split; [done|]. by intros k x ?%not_elem_of_nil. }
  apply NoDup_cons in Hnd as [Hk Hnd]. destruct (Hall k x ltac:(by left)) as [Hlk Hlx].
  cbn [load_mappings]. rewrite Hlk, Hlx. cbn.
  destruct (IH (<[k := le_value (take 8 x)]> m) Hnd) as (m' & Hl & Hm').
  { intros k' x' Hin. apply Hall. by right. }
  exists m'. split; [done|]. intros k' x' [[= -> ->]|Hin]%elem_of_cons; [|by apply Hm'].
  rewrite (Hframe _ _ _ k Hl Hk), lookup_insert_eq. do 2 f_equal. apply take_ge. unfold len in Hlx. lia.
Qed.

(** The registry after a restart. *)
Definition restarted (S : Registry) : Registry := (λ s, settled (reloaded s)) <$> S.

Lemma restarted_fields s :
  sh_ValidatorPubKey (settled (reloaded s)) = sh_ValidatorPubKey s ∧
  sh_ValidatorIndex (settled (reloaded s)) = sh_ValidatorIndex s ∧
  HasBeaconMetadata (Some (settled (reloaded s))) = HasBeaconMetadata (Some s) ∧
  OperatorIDs (settled (reloaded s)) = OperatorIDs s ∧
  (share_wf s → cid (settled (reloaded s)) = cid s).
Proof.
  destruct (settled_fields (reloaded s)) as (-> & -> & -> & -> & -> & _). do 4 (split; [done|]).
  intros Hw. unfold cid at 1. unfold CommitteeID. cbn [reloaded sh_committeeID sh_Committee fst].
  unfold cid, CommitteeID. destruct (sh_committeeID s) as [id|] eqn:E; [|done]. symmetry. by apply (wf_cid s Hw).
Qed.

Lemma restarted_lookup S k x :
  restarted S !! k = Some x ↔ ∃ s, S !! k = Some s ∧ x = settled (reloaded s).
Proof.
  unfold restarted. rewrite lookup_fmap, fmap_Some. naive_solver.
Qed.

Lemma restarted_held S x :
  registry_ok S → held (restarted S) x → ∃ s, held S s ∧ x = settled (reloaded s).
Proof.
  intros Hro (s & Hs & ->)%restarted_lookup. exists s. split; [|done]. unfold held.
  by rewrite (ro_key _ Hro _ _ Hs).
Qed.

Lemma restarted_ok S :
  registry_ok S → (∀ s, held S s → storable s) →
  registry_ok (restarted S) ∧ ∀ x, held (restarted S) x → storable x.
Proof.
  intros Hro Hst. split; [split|].
  - intros k x (s & Hs & ->)%restarted_lookup. rewrite (proj1 (restarted_fields s)). by apply (ro_key _ Hro).
  - intros x (s & _ & ->)%restarted_held; [|done]. apply settled_fields.
  - intros x (s & Hs & ->)%restarted_held; [|done].
    destruct (restarted_fields s) as (_ & _ & _ & -> & _). by apply (ro_operators _ Hro).
  - intros x y (s & Hs & ->)%restarted_held (s' & Hs' & ->)%restarted_held; [|done..].
    destruct (restarted_fields s) as (_ & _ & _ & -> & Hc). destruct (restarted_fields s') as (_ & _ & _ & -> & Hc').
    rewrite Hc, Hc' by (apply sb_caches; by apply Hst). by apply (ro_committee _ Hro).
  - intros x y (s & Hs & ->)%restarted_held (s' & Hs' & ->)%restarted_held; [|done..].
    destruct (restarted_fields s) as (_ & -> & -> & _). destruct (restarted_fields s') as (_ & -> & -> & _).
    intros Hm Hm' Hi. by rewrite (ro_index _ Hro s s').
  - intros x (s & Hs & ->)%restarted_held; [|done]. apply storable_settled.
    destruct (Hst s Hs) as [Hty Hf Hw]. by split.
Qed.

Lemma restarted_db S v : registry_ok S → db_ok S v → db_ok (restarted S) v.
Proof.
  intros Hro [Hds Hdi Hdm]. split; [|intros x (s & Hs & ->)%restarted_held; [|done]|done].
  - intros k x. rewrite Hds. setoid_rewrite restarted_lookup. split.
    + intros (s & Hs & He). exists (settled (reloaded s)). split; [by exists s|]. by rewrite FromSSVShare_settled.
    + intros (y & (s & Hs & ->) & He). exists s. by rewrite FromSSVShare_settled in He.
  - destruct (restarted_fields s) as (-> & -> & _). by apply Hdi.
Qed.

(** Shares of a registry can be added one after the other. *)
Lemma added_all_ok R l S :
  registry_ok R → S ⊆ R → (∀ s, s ∈ l → R !! sh_ValidatorPubKey s = Some (settled s)) →
  NoDup (sh_ValidatorPubKey <$> l) → (∀ s, s ∈ l → S !! sh_ValidatorPubKey s = None) →
  events_ok S (EvAdded <$> l).
Proof.
  intros HR. revert S. induction l as [|s l IH]; intros S Hsub Hall Hnd Hnew; [done|].
  apply NoDup_cons in Hnd as [Hs Hnd]. cbn [fmap list_fmap events_ok event_ok next_registry].
  assert (<[sh_ValidatorPubKey s := settled s]> S ⊆ R) as Hsub'.
  { apply insert_subseteq_l; [|done]. apply Hall. by left. }
  split; [split; [by apply (registry_ok_subseteq R)|apply Hnew; by left]|].
  apply IH; [done|intros x Hx; apply Hall; by right|done|].
  intros x Hx. rewrite lookup_insert_ne; [apply Hnew; by right|]. intros Heq. destruct Hs. rewrite Heq.
  by apply list_elem_of_fmap_2.
Qed.

(** The shares of a map by their own keys. *)
Lemma map_values_keys (m : gmap bytes SSVShare) :
  (∀ k s, m !! k = Some s → sh_ValidatorPubKey s = k) →
  sh_ValidatorPubKey <$> (map_to_list m).*2 = (map_to_list m).*1.
Proof.
  intros Hk. rewrite <-list_fmap_compose. apply list_fmap_ext. intros i [k s] Hi%list_elem_of_lookup_2.
  simpl. by apply Hk, elem_of_map_to_list.
Qed.

Lemma map_values_elem (m : gmap bytes SSVShare) s :
  (∀ k s, m !! k = Some s → sh_ValidatorPubKey s = k) →
  s ∈ (map_to_list m).*2 ↔ m !! sh_ValidatorPubKey s = Some s.
Proof.
  intros Hk. rewrite list_elem_of_fmap. split.
  - intros ([k x] & -> & Hin%elem_of_map_to_list). simpl. by rewrite (Hk _ _ Hin).
  - intros Hs. exists (sh_ValidatorPubKey s, s). split; [done|]. by apply elem_of_map_to_list.
Qed.

Lemma loadMappings_ok S st :
  storage_ok S st → ∃ m, loadPubkeyToIndexMappings sp (ss_db st) = Ok m ∧
    ∀ s, held S s → m !! sh_ValidatorPubKey s = Some (sh_ValidatorIndex s).
Proof.
  intros [Hro Hst Hsh Hstore [Hds Hdi Hdm]]. unfold loadPubkeyToIndexMappings.
  destruct (getall_spec (PubkeyToIndexMappingDBKey sp) (ss_db st)) as (objs & -> & Hnd & Hobj).
  destruct (load_mappings_spec objs ∅ Hnd) as (m & Hm & Hl); [intros k x Hin; by apply (Hdm k), Hobj|].
  exists m. split; [done|]. intros s Hs.
  rewrite (Hl _ (le_bytes 8 (sh_ValidatorIndex s))) by (by apply Hobj, Hdi).
  f_equal. apply le_value_le_bytes. pose proof (ty_index _ (sb_typed _ (Hst s Hs))) as Hi.
  unfold is_u64, max_u64 in Hi. simpl in Hi. lia.
Qed.

Lemma Restart_ok S st :
  storage_ok S st →
  ∃ st' m, NewSharesStorage sp (ss_db st) = Ok st' ∧ ss_shares st' = reloaded <$> ss_shares st ∧
    storage_ok (restarted S) st' ∧ (∀ s, held S s → m !! sh_ValidatorPubKey s = Some (sh_ValidatorIndex s)) ∧
    run_events (EvAdded <$> (map_to_list (reloaded <$> S)).*2) (newValidatorStore m)
      = (ss_validatorStore st', Ok tt).
Proof.
  intros Hok. pose proof Hok as [Hro Hst Hsh Hstore Hdb].
  destruct (loadMappings_ok S st Hok) as (mp & Hmp & Hmpi).
  destruct (restarted_ok S Hro Hst) as [Hro' Hst']. set (m := reloaded <$> S).
  assert (∀ k s, m !! k = Some s → sh_ValidatorPubKey s = k) as Hk.
  { intros k s (s0 & <- & Hs0)%lookup_fmap_Some. by apply (ro_key _ Hro) in Hs0. }
  assert (restarted S = settled <$> m) as Hrs by (unfold restarted, m; by rewrite <-map_fmap_compose).
  set (l := (map_to_list m).*2).
  assert (NoDup (sh_ValidatorPubKey <$> l)) as Hnd by (unfold l; rewrite map_values_keys by done; apply NoDup_fst_map_to_list).
  assert (puts (settled <$> l) ∅ = restarted S) as Hputs.
  { rewrite Hrs. apply map_eq. intros k. apply option_eq. intros x. rewrite puts_settled_cases by done.
    rewrite lookup_fmap, lookup_empty, fmap_Some. split.
    - intros [(s & Hs & <- & ->)|[_ ?]]; [|done]. exists s. split; [|done]. by apply map_values_elem.
    - intros (s & Hs & ->). left. exists s. pose proof (Hk k s Hs) as Hks. split; [|done].
      apply map_values_elem; [done|]. by rewrite Hks. }
  destruct (empty_ok (newValidatorStore mp)) as [Hro0 Hok0]; [done..|].
  destruct (run_events_registry (EvAdded <$> l) ∅ _ Hro0 Hok0) as (c & Hrun & _ & Hc).
  { apply (added_all_ok (restarted S)); [done|apply map_empty_subseteq| |done|intros; apply lookup_empty].
    intros s Hs. rewrite Hrs, lookup_fmap. apply map_values_elem in Hs; [|done]. by rewrite Hs. }
  rewrite registry_after_puts, Hputs in Hc by done.
  exists (mkSharesStorage (ss_db st) m c), mp. split; [|split; [|split; [|by split]]].
  - unfold NewSharesStorage. rewrite (loadFromDB_ok S st Hok). cbn [mbind result_bind]. rewrite Hmp.
    cbn [mbind result_bind]. fold m.
    assert ((λ kv, Some kv.2) <$> map_to_list m = Some <$> l) as -> by (unfold l; by rewrite <-list_fmap_compose).
    by rewrite added_events, Hrun.
  - cbn [ss_shares]. unfold m. rewrite <-Hsh, <-map_fmap_compose. apply map_fmap_ext.
    intros k s _. apply reloaded_settled.
  - split; [done|done|done|done|]. by apply restarted_db.
Qed.

(** ** Sequences of operations *)
Inductive StorageOp :=
| OpSave (shares : list SSVShare)
| OpDelete (pubKey : bytes)
| OpMetadata (data : list (bytes * option ValidatorMetadata))
| OpDrop
| OpRestart.

Definition run_op (op : StorageOp) : ST (sharesStorage DB) goerr unit :=
  match op with
  | OpSave shares => Save sp (Some <$> shares)
  | OpDelete pubKey => Delete sp pubKey
  | OpMetadata data => _ ← UpdateValidatorsMetadata sp data; mret tt
  | OpDrop => Drop sp
  | OpRestart => λ st,
      match NewSharesStorage sp (ss_db st) with
      | Ok st' => (st', Ok tt) | Err e => (st, Err e) | Panic => (st, Panic) end
  end.
Fixpoint run_ops (ops : list StorageOp) : ST (sharesStorage DB) goerr unit :=
  match ops with [] => mret tt | op :: ops => run_op op ;; run_ops ops end.

Definition registry_of (st : sharesStorage DB) : Registry := settled <$> ss_shares st.

(** Operations the registry allows: storable shares, one entry per key, and events that keep
    the registry well-formed. *)
Definition op_ok (st : sharesStorage DB) (op : StorageOp) : Prop :=
  match op with
  | OpSave shares => NoDup (sh_ValidatorPubKey <$> shares) ∧ (∀ s, s ∈ shares → storable s) ∧
      events_ok (registry_of st) (save_events shares (ss_shares st))
  | OpMetadata data =>
      let changed := (apply_metadata data (ss_shares st)).1.1 in
      NoDup data.*1 ∧ (∀ s, s ∈ changed → storable s) ∧ events_ok (registry_of st) (EvUpdated <$> changed)
  | _ => True
  end.
Fixpoint ops_ok (st : sharesStorage DB) (ops : list StorageOp) : Prop :=
  match ops with [] => True | op :: ops => op_ok st op ∧ ops_ok (run_op op st).1 ops end.

(** The specification: a map of stored shares, which a restart does not change. *)
Definition set_stored (md : ValidatorMetadata) (s : Share) : Share :=
  mkShare (md_Index md) (sp_ValidatorPubKey s) (sp_SharePubKey s) (sp_Committee s) (sp_DomainType s)
    (sp_FeeRecipientAddress s) (sp_Graffiti s) (status_code (md_Status md)) (md_ActivationEpoch md)
    (md_ExitEpoch md) (sp_OwnerAddress s) (sp_Liquidated s).
Definition spec_op (op : StorageOp) (M : gmap bytes Share) : gmap bytes Share :=
  match op with
  | OpSave shares => foldl (λ M s, <[sh_ValidatorPubKey s := FromSSVShare s]> M) M shares
  | OpDelete pubKey => delete pubKey M
  | OpMetadata data =>
      foldl (λ M kv, match kv.2 with Some md => alter (set_stored md) kv.1 M | None => M end) M data
  | OpDrop => ∅
  | OpRestart => M
  end.

Lemma content_puts l m :
  FromSSVShare <$> puts l m = foldl (λ M s, <[sh_ValidatorPubKey s := FromSSVShare s]> M) (FromSSVShare <$> m) l.
Proof. revert m. induction l as [|s l IH]; intros m; [done|]. simpl. by rewrite IH, fmap_insert. Qed.

Lemma alter_present {A} (f : A → A) (k : bytes) (m : gmap bytes A) x :
  m !! k = Some x → alter f k m = <[k := f x]> m.
Proof.
  intros Hx. apply map_eq. intros k'. destruct (decide (k' = k)) as [->|Hne].
  - by rewrite lookup_alter_eq, lookup_insert_eq, Hx.
  - by rewrite lookup_alter_ne, lookup_insert_ne.
Qed.

Lemma metadata_unchanged md s :
  metadata_Equals md (Some (BeaconMetadata s)) = true → set_stored md (FromSSVShare s) = FromSSVShare s.
Proof.
  unfold metadata_Equals, BeaconMetadata. cbn [md_Status md_Index md_ActivationEpoch md_ExitEpoch].
  rewrite !andb_true_iff, bool_decide_eq_true, !Z.eqb_eq. intros [[[Hs Hi] Ha] He].
  unfold set_stored, FromSSVShare. cbn. by rewrite Hs, Hi, Ha, He.
Qed.

Lemma content_metadata data m :
  FromSSVShare <$> (apply_metadata data m).2 = spec_op (OpMetadata data) (FromSSVShare <$> m).
Proof.
  revert m. cbn [spec_op]. induction data as [|[pk metadata] data IH]; intros m; [done|].
  cbn [apply_metadata foldl fst snd]. destruct metadata as [md|]; [|apply IH].
  destruct (m !! pk) as [s|] eqn:Hs.
  - assert ((FromSSVShare <$> m) !! pk = Some (FromSSVShare s)) as HM by (rewrite lookup_fmap, Hs; done).
    rewrite (alter_present _ _ _ _ HM). destruct (metadata_Equals md _) eqn:He.
    + by rewrite (metadata_unchanged md s He), insert_id, IH.
    + specialize (IH (<[pk := SetBeaconMetadata (Some md) s]> m)).
      destruct (apply_metadata data (<[pk := SetBeaconMetadata (Some md) s]> m)) as [[ch cm] m'].
      cbn [snd] in *. rewrite IH, fmap_insert. done.
  - rewrite IH. f_equal. symmetry. apply map_eq. intros k. destruct (decide (k = pk)) as [->|Hne].
    + by rewrite lookup_alter_eq, lookup_fmap, Hs.
    + by rewrite lookup_alter_ne.
Qed.

Lemma registry_of_eq S st : storage_ok S st → registry_of st = S.
Proof. intros Hok. apply (sk_shares _ _ Hok). Qed.

Lemma run_op_ok st op :
  storage_ok (registry_of st) st → op_ok st op →
  ∃ st', run_op op st = (st', Ok tt) ∧ storage_ok (registry_of st') st' ∧
    FromSSVShare <$> ss_shares st' = spec_op op (FromSSVShare <$> ss_shares st).
Proof.
  intros Hok Hop.
  assert (∀ S st', storage_ok S st' → storage_ok (registry_of st') st') as Hre.
  { intros S st' H'. by rewrite (registry_of_eq S st'). }
  destruct op as [l|pk|data| |]; cbn [run_op op_ok spec_op] in *.
  - destruct Hop as (Hnd & Hall & Hev). destruct (Save_ok _ st l Hok Hnd Hall Hev) as (st' & Hr & Hok' & Hsh & _).
    exists st'. rewrite Hsh, content_puts. eauto.
  - destruct (Delete_ok _ st pk Hok) as (st' & Hr & Hok' & Hsh). exists st'. rewrite Hsh, fmap_delete. eauto.
  - destruct Hop as (Hnd & Hall & Hev).
    destruct (apply_metadata_spec data (ss_shares st)) as (ch & md & Happ & Hsub); [|done|].
    { intros k s Hs. assert (registry_of st !! k = Some (settled s)) as HS
        by (unfold registry_of; rewrite lookup_fmap, Hs; done).
      apply (ro_key _ (sk_registry _ _ Hok)) in HS. by rewrite (proj1 (settled_fields s)) in HS. }
    pose proof (content_metadata data (ss_shares st)) as Hc. rewrite Happ in Hc, Hall, Hev.
    cbn [fst snd spec_op] in *.
    destruct (UpdateValidatorsMetadata_ok _ st data ch md Hok Hnd Happ Hall Hev) as (st' & Hr & Hok' & Hsh).
    { by eapply sublist_NoDup. }
    exists st'. rewrite Hsh. split; [|eauto]. unfold mbind at 1, st_bind. by rewrite Hr.
  - destruct (Drop_ok _ st Hok) as (st' & Hr & Hok' & Hsh). exists st'. rewrite Hsh, fmap_empty. eauto.
  - destruct (Restart_ok _ st Hok) as (st' & m & Hr & Hsh & Hok' & _). exists st'. rewrite Hr, Hsh.
    split; [done|]. split; [by eapply Hre|]. rewrite <-map_fmap_compose. by apply map_fmap_ext.
Qed.

Lemma run_ops_ok ops st :
  storage_ok (registry_of st) st → ops_ok st ops →
  ∃ st', run_ops ops st = (st', Ok tt) ∧ storage_ok (registry_of st') st' ∧
    FromSSVShare <$> ss_shares st' = foldl (λ M op, spec_op op M) (FromSSVShare <$> ss_shares st) ops.
Proof.
  revert st. induction ops as [|op ops IH]; intros st Hok Hops; [by exists st|]. destruct Hops as [Hop Hops].
  destruct (run_op_ok st op Hok Hop) as (st1 & Hr & Hok1 & Hc1). rewrite Hr in Hops.
  destruct (IH st1 Hok1 Hops) as (st2 & Hr2 & Hok2 & Hc2). exists st2. cbn [run_ops foldl].
  unfold mbind, st_bind. rewrite Hr, Hr2. rewrite Hc2, Hc1. done.
Qed.

(** A storage over an empty database. *)
Lemma new_empty db :
  view db = ∅ →
  NewSharesStorage sp db = Ok (mkSharesStorage db ∅ (newValidatorStore ∅)) ∧
  storage_ok (registry_of (mkSharesStorage db ∅ (newValidatorStore ∅))) (mkSharesStorage db ∅ (newValidatorStore ∅)).
Proof.
  intros Hv. assert (∀ prefix, db_GetAll prefix db = Ok []) as Hall.
  { intros prefix. destruct (getall_spec prefix db) as (objs & -> & _ & Hobj). f_equal.
    destruct objs as [|[k x] objs]; [done|]. pose proof (proj1 (Hobj k x) ltac:(by left)) as Hl.
    by rewrite Hv, lookup_empty in Hl. }
  split.
  - unfold NewSharesStorage, loadFromDB, loadPubkeyToIndexMappings. rewrite !Hall. done.
  - unfold registry_of. cbn [ss_shares]. rewrite fmap_empty.
    destruct (empty_ok (newValidatorStore ∅)) as [Hro Hok]; [done..|].
    assert (∀ s, ¬ held ∅ s) as Hno by (intros s; unfold held; by rewrite lookup_empty).
    split; cbn [ss_shares ss_db ss_validatorStore]; [done|by intros s ?%Hno|by rewrite fmap_empty|done|].
    rewrite Hv. split.
    + intros k x. rewrite !lookup_empty. split; [done|]. by intros (s & ? & _).
    + by intros s ?%Hno.
    + intros k x. by rewrite lookup_empty.
Qed.
End storage.

(** C17. The shares storage keeps its shares through restarts.  Over an empty database, after
    any sequence of saves, deletions, metadata updates, drops and restarts of the node that
    the registry allows, every operation succeeded, the stored form of the shares is that of
    a plain map to which the operations were applied and which a restart leaves alone, and
    memory, the indices of the validator store and the database agree. *)
Theorem storage_keeps_shares {DB} `{DatabaseLaws DB} `{FastSSZLaws} `{StatusLaws} sp (db : DB) ops :
  view db = ∅ →
  ∃ st0, NewSharesStorage sp db = Ok st0 ∧
    (ops_ok sp st0 ops →
     ∃ st, run_ops sp ops st0 = (st, Ok tt) ∧ storage_ok sp (registry_of st) st ∧
       FromSSVShare <$> ss_shares st = foldl (λ M op, spec_op op M) ∅ ops).
Proof.
  intros Hv. destruct (new_empty sp db Hv) as [Hnew Hok]. eexists. split; [exact Hnew|]. intros Hops.
  destruct (run_ops_ok sp ops _ Hok Hops) as (st & Hr & Hok' & Hc). exists st. split; [done|]. split; [done|].
  rewrite Hc. cbn [ss_shares]. by rewrite fmap_empty.
Qed.

(** ** The mapping of keys to indices *)
Lemma add_operators_mapping s co ops seen c :
  pubkeyToIndex (add_operators s co seen ops c).1 = pubkeyToIndex c.
Proof.
  revert seen c. induction ops as [|o ops IH]; intros seen c; [done|].
  cbn [add_operators]. unfold mbind, st_bind, st_lift, st_get, st_modify.
  destruct (fail_if _ _) as [[]| |]; [|done..]. destruct (fail_if _ _) as [[]| |]; [|done..]. by rewrite IH.
Qed.

Lemma add_share_mapping s c :
  pubkeyToIndex (add_share s c).1 = pubkeyToIndex (set_index (settled s) c).
Proof.
  unfold add_share. rewrite CommitteeID_eq. unfold mbind, st_bind, st_lift, st_get, st_modify.
  destruct (match byCommitteeID _ !! _ with Some _ => _ | None => _ end) as [co| |]; [|done..].
  by rewrite add_operators_mapping.
Qed.

Lemma added_mapping l c c' k :
  run_events (EvAdded <$> l) c = (c', Ok tt) →
  (∀ s, s ∈ l → sh_ValidatorPubKey s = k → HasBeaconMetadata (Some s) = false) →
  ValidatorIndex_of k c' = ValidatorIndex_of k c.
Proof.
  unfold ValidatorIndex_of. revert c. induction l as [|s l IH]; intros c; [by intros [= <-]|].
  cbn [fmap list_fmap run_events handle]. unfold handleSharesAdded. cbn [for_shares]. unfold mbind, st_bind.
  pose proof (add_share_mapping s c) as Hm. destruct (add_share s c) as [c1 [[]| |]]; [|done..]. cbn [fst mret st_ret] in *.
  intros Hr Hall. rewrite (IH c1 Hr) by (intros x Hx; apply Hall; by right). rewrite Hm.
  unfold set_index. destruct (settled_fields s) as (Hk & _ & _ & -> & _).
  destruct (HasBeaconMetadata (Some s)) eqn:Hb; [|done]. cbn [pubkeyToIndex]. rewrite Hk, lookup_insert_ne; [done|].
  intros Heq. specialize (Hall s ltac:(by left) Heq). congruence.
Qed.

(** C36. A restart gives a validator the beacon chain does not know an index.  When a share
    without beacon metadata is saved, its key has no validator index; the database records
    the share's index field all the same, and after a restart the key has that index. *)
Theorem restart_invents_index {DB} `{DatabaseLaws DB} `{FastSSZLaws} `{StatusLaws} sp S (st : sharesStorage DB) s :
  storage_ok sp S st → storable s → HasBeaconMetadata (Some s) = false → event_ok S (EvAdded s) →
  ValidatorIndex_of (sh_ValidatorPubKey s) (ss_validatorStore st) = None →
  ∃ st1 st2, Save sp [Some s] st = (st1, Ok tt) ∧
    ValidatorIndex_of (sh_ValidatorPubKey s) (ss_validatorStore st1) = None ∧
    NewSharesStorage sp (ss_db st1) = Ok st2 ∧
    ValidatorIndex_of (sh_ValidatorPubKey s) (ss_validatorStore st2) = Some (sh_ValidatorIndex s).
Proof.
  intros Hok Hsb Hb Hev Hnone.
  assert (ss_shares st !! sh_ValidatorPubKey s = None) as Hnew.
  { destruct Hev as [_ Hn]. rewrite <-(sk_shares _ _ _ Hok), lookup_fmap in Hn. by destruct (_ !! _). }
  assert (save_events [s] (ss_shares st) = [EvAdded s]) as Hse.
  { unfold save_events. simpl. rewrite Hnew. done. }
  destruct (Save_ok sp S st [s] Hok) as (st1 & Hsave & Hok1 & Hsh1 & Hrun).
  { apply NoDup_singleton. } { by intros x ->%list_elem_of_singleton. } { rewrite Hse. by split. }
  rewrite Hse in Hrun. apply (added_mapping [s]) with (k := sh_ValidatorPubKey s) in Hrun;
    [|by intros x ->%list_elem_of_singleton].
  destruct (Restart_ok sp _ st1 Hok1) as (st2 & m & Hnew2 & _ & _ & Hm & Hrun2).
  exists st1, st2. split; [done|]. split; [by rewrite Hrun|]. split; [done|].
  assert (held (puts (settled <$> [s]) S) (settled s)) as Hheld.
  { unfold held. simpl. by rewrite lookup_insert_eq. }
  apply added_mapping with (k := sh_ValidatorPubKey s) in Hrun2.
  - rewrite Hrun2. unfold ValidatorIndex_of. cbn [newValidatorStore pubkeyToIndex].
    specialize (Hm (settled s) Hheld). destruct (settled_fields s) as (Hk & Hi & _). by rewrite Hk, Hi in Hm.
  - intros x ([k y] & -> & Hin%elem_of_map_to_list)%list_elem_of_fmap Hk. cbn [snd] in *.
    apply lookup_fmap_Some in Hin as (z & <- & Hz). pose proof (ro_key _ (sk_registry _ _ _ Hok1) k z Hz) as Hkz.
    cbn [reloaded sh_ValidatorPubKey] in Hk. unfold held in Hheld. destruct (settled_fields s) as (Hks & _ & _ & Hbs & _).
    rewrite Hks, <-Hk, Hkz, Hz in Hheld. injection Hheld as ->. rewrite <-Hb, <-Hbs. done.
Qed.
