(* ===== verification/SharesWitness.v ===== *)
(** * The shares storage over a database in memory

    An executable instance of [Database] that satisfies its laws, the codes of validator
    states, and the theorems on the shares storage applied to a share that is saved, loaded
    by a restart and deleted. *)

From stdpp Require Import base list gmap numbers strings.
From Stdlib Require Import Strings.Byte.
From S2P Require Import Prelude Sha256 SpecTypes Network Proposer Subnets Share ValidatorStore.
From S2P Require Import StoreRegistry ShareEncoding SharesStorage SharesProps.
Open Scope string_scope.
Open Scope list_scope.
Open Scope Z_scope.
#[local] Opaque ComputeCommitteeID le_bytes.

Abbreviation MemDB := (gmap bytes bytes).

Definition strip (prefix : bytes) (kv : bytes * bytes) : option (bytes * bytes) :=
  if bool_decide (prefix `prefix_of` kv.1) then Some (drop (length prefix) kv.1, kv.2) else None.

Definition mem_set (prefix : bytes) (kvs : list (bytes * bytes)) (db : MemDB) : MemDB :=
  foldl (λ m kv, <[prefix ++ kv.1 := kv.2]> m) db kvs.

#[global] Instance mem_database : Database MemDB := {|
  db_GetAll prefix db := Ok (omap (strip prefix) (map_to_list db));
  db_SetMany prefix objs := λ db,
    match collect id objs with
    | Ok kvs => (mem_set prefix kvs db, Ok tt) | Err e => (db, Err e) | Panic => (db, Panic) end;
  db_Delete prefix k := λ db, (delete (prefix ++ k) db, Ok tt);
  db_DropPrefix prefix := λ db, (filter (λ kv, ¬ prefix `prefix_of` kv.1) db, Ok tt);
|}.

Lemma strip_Some prefix k v k' v' : strip prefix (k, v) = Some (k', v') ↔ k = prefix ++ k' ∧ v = v'.
Proof.
  unfold strip. cbn [fst snd]. case_bool_decide as Hp.
  - destruct Hp as [k0 ->]. rewrite drop_app_length. split; [by intros [= <- <-]|].
    by intros [->%app_inv_head ->].
  - split; [done|]. intros [-> _]. destruct Hp. by exists k'.
Qed.

Lemma strip_keys prefix (l : list (bytes * bytes)) : NoDup l.*1 → NoDup (omap (strip prefix) l).*1.
Proof.
  induction l as [|[k v] l IH]; intros Hnd; [done|]. apply NoDup_cons in Hnd as [Hk Hnd].
  cbn [omap list_omap]. destruct (strip prefix (k, v)) as [[k' v']|] eqn:Hs; [|by apply IH].
  apply strip_Some in Hs as [-> ->]. rewrite fmap_cons. apply NoDup_cons. split; [|by apply IH].
  intros ([k0 v0] & Hk0 & ([k1 v1] & Hin & [-> ->]%strip_Some)%list_elem_of_omap)%list_elem_of_fmap.
  cbn [fst] in Hk0. subst k0. destruct Hk. apply list_elem_of_fmap. by exists (prefix ++ k', v0).
Qed.

#[global] Instance mem_laws : DatabaseLaws MemDB.
Proof.
  refine {| view := λ db : MemDB, db |}.
  - intros prefix db. eexists. split; [reflexivity|]. split; [apply strip_keys, NoDup_fst_map_to_list|].
    intros k v. rewrite list_elem_of_omap. split.
    + intros ([k' v'] & Hin%elem_of_map_to_list & [-> ->]%strip_Some). done.
    + intros Hl. exists (prefix ++ k, v). split; [by apply elem_of_map_to_list|by apply strip_Some].
  - intros prefix kvs db. eexists. cbn [db_SetMany mem_database].
    assert (collect id (Ok (E := goerr) <$> kvs) = Ok kvs) as ->; [|done].
    apply collect_ok, Forall2_fmap_l. induction kvs; by constructor.
  - intros prefix k db. by eexists.
  - intros prefix db. eexists. split; [reflexivity|]. intros k. case_bool_decide as Hp.
    + apply map_lookup_filter_None. right. intros x _ Hn. by apply Hn.
    + destruct (db !! k) as [x|] eqn:Hk.
      * by apply map_lookup_filter_Some.
      * apply map_lookup_filter_None. by left.
Defined.

Lemma mem_empty : view (∅ : MemDB) = ∅.
Proof. reflexivity. Qed.

#[global] Instance demo_codes : StatusCodes := {|
  status_code s :=
    match s with
    | ValidatorStateUnknown => 0 | ValidatorStatePendingQueued => 2 | ValidatorStateActiveOngoing => 3
    | ValidatorStateActiveSlashed => 5 | ValidatorStateExitedSlashed => 7
    | ValidatorStateWithdrawalPossible => 8
    | ValidatorStateOther n => if n <? 0 then n else n + 10
    end;
  status_of n :=
    if n =? 0 then ValidatorStateUnknown else if n =? 2 then ValidatorStatePendingQueued else
    if n =? 3 then ValidatorStateActiveOngoing else if n =? 5 then ValidatorStateActiveSlashed else
    if n =? 7 then ValidatorStateExitedSlashed else if n =? 8 then ValidatorStateWithdrawalPossible else
    ValidatorStateOther (if n <? 0 then n else n - 10);
|}.
#[global] Instance demo_codes_laws : StatusLaws.
Proof.
  intros [| | | | | |n]; try done. cbn [status_of status_code demo_codes].
  destruct (Z.ltb_spec n 0).
  all: repeat match goal with |- context [if ?b then _ else _] => destruct b eqn:?; try lia end; f_equal; lia.
Qed.

Definition kept_share : SSVShare :=
  mkSSVShare 0 (replicate 48 x01) [] [mkShareMember [] 4; mkShareMember [] 1; mkShareMember [] 3; mkShareMember [] 2]
    (replicate 4 x00) [] ValidatorStateUnknown 0 0 (replicate 20 x07) false None None None 0.

Lemma kept_storable : storable kept_share.
Proof.
  split.
  - split; try reflexivity; try (unfold is_u64, max_u64; cbn; lia).
    repeat (apply Forall_cons; split; [eexists; split; [reflexivity|unfold is_u64, max_u64; cbn; lia]|]).
    apply Forall_nil_2.
  - split; [reflexivity|by vm_compute|by vm_compute| |by vm_compute].
    intros p Hp. repeat (apply elem_of_cons in Hp as [[= ->]|Hp]; [by vm_compute|]). by apply not_elem_of_nil in Hp.
  - by constructor.
Qed.

Lemma single_registry s :
  NoDup (OperatorIDs s) → registry_ok (<[sh_ValidatorPubKey s := settled s]> ∅).
Proof.
  intros Hnd.
  assert (∀ k x, <[sh_ValidatorPubKey s := settled s]> (∅ : Registry) !! k = Some x →
    k = sh_ValidatorPubKey s ∧ x = settled s) as Hx.
  { intros k x [[<- <-]|[_ Hs]]%lookup_insert_Some; [done|]. by rewrite lookup_empty in Hs. }
  destruct (settled_fields s) as (Hk & _ & Ho & _ & _ & Hi). unfold held. split.
  - by intros k x [-> ->]%Hx.
  - by intros x [_ ->]%Hx.
  - intros x [_ ->]%Hx. by rewrite Ho.
  - by intros x y [_ ->]%Hx [_ ->]%Hx.
  - by intros x y [_ ->]%Hx [_ ->]%Hx.
Qed.

Lemma kept_event : event_ok ∅ (EvAdded kept_share).
Proof.
  split; [|apply lookup_empty]. apply single_registry.
  apply (bool_decide_unpack (NoDup [4; 1; 3; 2])). reflexivity.
Qed.

Lemma storage_keeps_shares_witness :
  ∃ st0 st : sharesStorage MemDB, NewSharesStorage [] ∅ = Ok st0 ∧
    run_ops [] [OpSave [kept_share]; OpRestart; OpDelete []; OpRestart] st0 = (st, Ok tt) ∧
    (FromSSVShare <$> ss_shares st) !! replicate 48 x01 = Some (FromSSVShare kept_share).
Proof.
  destruct (storage_keeps_shares [] (∅ : MemDB) [OpSave [kept_share]; OpRestart; OpDelete []; OpRestart] mem_empty)
    as (st0 & Hnew & Hrun).
  destruct Hrun as (st & Hr & _ & Hc).
  - injection Hnew as <-. split; [|done]. split; [apply NoDup_singleton|].
    split; [by intros s ->%list_elem_of_singleton; apply kept_storable|].
    split; [|done]. exact kept_event.
  - exists st0, st. split; [exact Hnew|]. split; [exact Hr|]. rewrite Hc. reflexivity.
Defined.

Lemma restart_invents_index_witness :
  ∃ st1 st2 : sharesStorage MemDB,
    Save [] [Some kept_share] (mkSharesStorage ∅ ∅ (newValidatorStore ∅)) = (st1, Ok tt) ∧
    ValidatorIndex_of (replicate 48 x01) (ss_validatorStore st1) = None ∧
    NewSharesStorage [] (ss_db st1) = Ok st2 ∧
    ValidatorIndex_of (replicate 48 x01) (ss_validatorStore st2) = Some 0.
Proof.
  destruct (new_empty [] (∅ : MemDB) mem_empty) as [_ Hok].
  apply (restart_invents_index [] ∅ (mkSharesStorage (∅ : MemDB) ∅ (newValidatorStore ∅)) kept_share).
  - exact Hok.
  - exact kept_storable.
  - reflexivity.
  - exact kept_event.
  - reflexivity.
Defined.
