(* ===== verification/Doppelganger.v ===== *)
(** * Doppelganger protection (doppelganger)

    Before a validator of this node may sign, the node watches the beacon chain for two
    epochs: a validator that is live although this node does not sign for it runs
    elsewhere.  [tick] is one turn of the loop of [Start]; quorum reports and removals may
    come at any time, also while the beacon node is asked.  A tick lists the actions it
    took on the handler. *)

From stdpp Require Import base list sorting gmap numbers strings.
From S2P Require Import Prelude SpecTypes Network Share.
Open Scope string_scope.
Open Scope list_scope.
Open Scope Z_scope.

Abbreviation initialRemainingDetectionEpochs := 2 (only parsing).

(** ** State of a validator (state.go) *)
Record doppelgangerState := mkDoppelgangerState {
  remainingEpochs : Epoch;
  observedQuorum : bool;
}.

Definition safe (ds : doppelgangerState) : bool := (remainingEpochs ds =? 0) || observedQuorum ds.

Definition decreaseRemainingEpochs (ds : doppelgangerState) : result goerr doppelgangerState :=
  fail_if (remainingEpochs ds =? 0) (ENew "attempted to decrease remaining epochs at 0") ;;
  Ok (mkDoppelgangerState (remainingEpochs ds -u 1) (observedQuorum ds)).

Definition resetRemainingEpochs (ds : doppelgangerState) : doppelgangerState :=
  mkDoppelgangerState initialRemainingDetectionEpochs (observedQuorum ds).

(** ** The handler (doppelganger.go) *)
Abbreviation handler := (gmap ValidatorIndex doppelgangerState).

Definition CanSign (validatorIndex : ValidatorIndex) (h : handler) : bool :=
  match h !! validatorIndex with None => false | Some state => safe state end.

Definition ReportQuorum (validatorIndex : ValidatorIndex) (h : handler) : handler :=
  match h !! validatorIndex with
  | None => h
  | Some state =>
      if negb (safe state)
      then <[validatorIndex := mkDoppelgangerState (remainingEpochs state) true]> h else h
  end.

Definition add_validator (h : handler) (idx : ValidatorIndex) : handler :=
  match h !! idx with
  | None => <[idx := mkDoppelgangerState initialRemainingDetectionEpochs false]> h
  | Some _ => h
  end.
Definition updateDoppelgangerState (validatorIndices : list ValidatorIndex) (h : handler) : handler :=
  filter (λ kv, kv.1 ∈ validatorIndices) (foldl add_validator h validatorIndices).

Definition RemoveValidatorState (validatorIndex : ValidatorIndex) (h : handler) : handler :=
  delete validatorIndex h.

(** One response: the validator's index and whether it is live. *)
Definition process_response (h : handler) (response : ValidatorIndex * bool) : handler :=
  match h !! response.1 with
  | None => h
  | Some state =>
      if response.2 then <[response.1 := resetRemainingEpochs state]> h
      else match decreaseRemainingEpochs state with
           | Ok state => <[response.1 := state]> h
           | _ => h
           end
  end.
Definition processLivenessData (livenessData : list (ValidatorIndex * bool)) (h : handler) : handler :=
  foldl process_response h livenessData.

Definition resetDoppelgangerStates (h : handler) : handler := resetRemainingEpochs <$> h.

Definition indicesFromShares (shares : list SSVShare) : list ValidatorIndex :=
  sh_ValidatorIndex <$> shares.

(** What other goroutines do to the handler. *)
Inductive Op := OpReportQuorum (v : ValidatorIndex) | OpRemoveValidator (v : ValidatorIndex).
Inductive Action :=
| ActUpdate (indices : list ValidatorIndex)
| ActReset
| ActProcess (epoch : Epoch) (data : list (ValidatorIndex * bool))
| ActOp (op : Op).

Definition run_op (h : handler) (op : Op) : handler :=
  match op with OpReportQuorum v => ReportQuorum v h | OpRemoveValidator v => RemoveValidatorState v h end.

(** What the other goroutines do between the locked sections of a tick: before the reset,
    before the unsafe validators are read, and while the beacon node is asked. *)
Record Interleaved := mkInterleaved { before_reset : list Op; before_check : list Op; during_call : list Op }.

Section loop.
Context (beaconConfig : Beacon).

(** [ValidatorLiveness] is the beacon node's answer; a call that misses the deadline is
    an [Err]. *)
Definition checkLiveness (slot : Slot) (epoch : Epoch) (during : list Op)
    (ValidatorLiveness : Epoch → list ValidatorIndex → result goerr (list (ValidatorIndex * bool)))
    (h : handler) : result goerr (handler * list Action) :=
  _deadline ← SlotStartTime beaconConfig (slot +u 1);
  let validatorsToCheck := (map_to_list (filter (λ kv, safe kv.2 = false) h)).*1 in
  if (length validatorsToCheck =? 0)%nat then Ok (h, [])
  else
    let h := foldl run_op h during in
    match ValidatorLiveness epoch validatorsToCheck with
    | Ok livenessData =>
        Ok (processLivenessData livenessData h, (ActOp <$> during) ++ [ActProcess epoch livenessData])
    | Err _ => Ok (h, ActOp <$> during)
    | Panic => Panic
    end.

(** The variables of the loop of [Start]. *)
Record loop := mkLoop { startEpoch : Epoch; previousEpoch : Epoch; firstRun : bool }.

Definition tick (currentSlot : Slot) (SelfParticipatingValidators : Epoch → list SSVShare)
    (others : Interleaved)
    (ValidatorLiveness : Epoch → list ValidatorIndex → result goerr (list (ValidatorIndex * bool)))
    (l : loop) (h : handler) : result goerr (loop * handler * list Action) :=
  currentEpoch ← EstimatedEpochAtSlot beaconConfig currentSlot;
  let validatorIndices := indicesFromShares (SelfParticipatingValidators currentEpoch) in
  let h := updateDoppelgangerState validatorIndices h in
  pos ← mod_u64 currentSlot (SlotsPerEpoch beaconConfig);
  if (negb (firstRun l) && negb (pos =? SlotsPerEpoch beaconConfig -u 1)) || (startEpoch l =? currentEpoch)
  then Ok (l, h, [ActUpdate validatorIndices])
  else
    let startEpoch := if firstRun l then currentEpoch else startEpoch l in
    let h := foldl run_op h (before_reset others) in
    let skipped := (0 <? previousEpoch l) && negb (currentEpoch =? previousEpoch l +u 1) in
    let h := if skipped then resetDoppelgangerStates h else h in
    let h := foldl run_op h (before_check others) in
    '(h, actions) ← checkLiveness currentSlot (currentEpoch -u 1) (during_call others) ValidatorLiveness h;
    Ok (mkLoop startEpoch currentEpoch false, h,
        [ActUpdate validatorIndices] ++ (ActOp <$> before_reset others)
        ++ (if skipped then [ActReset] else []) ++ (ActOp <$> before_check others) ++ actions).
End loop.

Definition NewHandler : handler := ∅.
Definition loop_start : loop := mkLoop 0 0 true.

(** ** What happened to a validator

    [quiet]: the epochs, newest first, for which the beacon node said that it was not live,
    since it was last added, reset or seen live.  [reports]: for each quorum that was
    reported since it was added, how many quiet epochs there were at that moment.  This is
    a record of the run; nothing in it depends on what the handler does. *)
Record Watched := mkWatched { reports : list nat; quiet : list Epoch }.
Abbreviation watch := (gmap ValidatorIndex Watched).

Definition watch_op (w : watch) (op : Op) : watch :=
  match op with
  | OpReportQuorum v => alter (λ x, mkWatched (length (quiet x) :: reports x) (quiet x)) v w
  | OpRemoveValidator v => delete v w
  end.
Definition watch_response (epoch : Epoch) (w : watch) (r : ValidatorIndex * bool) : watch :=
  alter (λ x, mkWatched (reports x) (if r.2 then [] else epoch :: quiet x)) r.1 w.
Definition watch_act (w : watch) (a : Action) : watch :=
  match a with
  | ActUpdate indices =>
      filter (λ kv, kv.1 ∈ indices) (w ∪ list_to_map ((λ v, (v, mkWatched [] [])) <$> indices))
  | ActReset => (λ x, mkWatched (reports x) []) <$> w
  | ActProcess epoch data => foldl (watch_response epoch) w data
  | ActOp op => watch_op w op
  end.

(** The runs: ticks at any slots past the first epoch, beacon nodes that answer with at
    most one entry per validator, and other goroutines at any time. *)
Inductive dg_run (b : Beacon) : loop → handler → watch → Prop :=
| dg_start : dg_run b loop_start NewHandler ∅
| dg_op l h w op :
    dg_run b l h w → dg_run b l (run_op h op) (watch_op w op)
| dg_tick l h w slot shares others answer l' h' acts :
    dg_run b l h w →
    SlotsPerEpoch b ≤ slot < 2 ^ 64 →
    (∀ e vs data, answer e vs = Ok data → NoDup data.*1) →
    tick b slot shares others answer l h = Ok (l', h', acts) →
    dg_run b l' h' (foldl watch_act w acts).

(** ** What the handler keeps of it *)
(** A quorum was reported while fewer than two epochs had been quiet. *)
Definition quorum (x : Watched) : bool := existsb (λ n, (n <? 2)%nat) (reports x).
Lemma quorum_true x : quorum x = true ↔ ∃ n, n ∈ reports x ∧ (n < 2)%nat.
Proof.
  unfold quorum. rewrite existsb_exists. setoid_rewrite list_elem_of_In. by setoid_rewrite Nat.ltb_lt.
Qed.
Definition tracks (s : option doppelgangerState) (x : option Watched) : Prop :=
  match s, x with
  | None, None => True
  | Some s, Some x =>
      remainingEpochs s = 2 - Z.of_nat (Nat.min 2 (length (quiet x))) ∧ observedQuorum s = quorum x
  | _, _ => False
  end.
Definition linked (h : handler) (w : watch) : Prop := ∀ v, tracks (h !! v) (w !! v).

Lemma tracks_safe s x :
  tracks (Some s) (Some x) → safe s = quorum x || (2 <=? length (quiet x))%nat.
Proof.
  intros [Hr Hq]. unfold safe. rewrite Hr, Hq, orb_comm. f_equal.
  destruct (quiet x) as [|e1 [|e2 r]]; reflexivity.
Qed.

Ltac pick v v' := destruct (decide (v = v')) as [<-|?]; simplify_map_eq.

Lemma linked_op op h w : linked h w → linked (run_op h op) (watch_op w op).
Proof.
  intros Hl v. destruct op as [u|u]; cbn [run_op watch_op]; specialize (Hl v) as Hv.
  - unfold ReportQuorum. pose proof (Hl u) as Hu.
    destruct (h !! u) as [s|] eqn:Hs; destruct (w !! u) as [x|] eqn:Hx; try easy.
    + rewrite (tracks_safe s x) by done.
      destruct Hu as [Hr Hq], (decide (u = v)) as [<-|?];
        [|rewrite lookup_alter_ne by done; by case_match; [rewrite lookup_insert_ne|]].
      rewrite lookup_alter_eq, Hx. destruct x as [rs qs]. unfold quorum in *.
      cbn [reports quiet fmap option_fmap option_map] in *.
      destruct (existsb _ rs) eqn:Hrs, qs as [|? [|? ?]]; cbn in *; rewrite ?lookup_insert_eq, ?Hs; cbn;
        unfold quorum; cbn; by rewrite ?Hrs.
    + destruct (decide (u = v)) as [<-|?];
        [by rewrite lookup_alter_eq, Hs, Hx|by rewrite lookup_alter_ne].
  - unfold RemoveValidatorState. destruct (decide (u = v)) as [<-|?];
      [by rewrite !lookup_delete_eq|by rewrite !lookup_delete_ne].
Qed.

Lemma linked_ops ops h w :
  linked h w → linked (foldl run_op h ops) (foldl watch_act w (ActOp <$> ops)).
Proof. revert h w. induction ops as [|o ops IH]; intros h w Hl; [done|]. apply IH, linked_op, Hl. Qed.

Lemma added_lookup vs (h : handler) v :
  foldl add_validator h vs !! v =
  match h !! v with
  | Some s => Some s
  | None => if decide (v ∈ vs) then Some (mkDoppelgangerState 2 false) else None
  end.
Proof.
  revert h. induction vs as [|u vs IH]; intros h; cbn [foldl].
  { rewrite decide_False by apply not_elem_of_nil. by destruct (h !! v). }
  rewrite IH. unfold add_validator. destruct (h !! u) as [s|] eqn:Hu.
  - destruct (h !! v) eqn:Hv; [done|]. assert (u ≠ v) by congruence.
    apply decide_ext. rewrite elem_of_cons. naive_solver.
  - pick u v.
    + by rewrite decide_True by apply list_elem_of_here.
    + destruct (h !! v); [done|]. apply decide_ext. rewrite elem_of_cons. naive_solver.
Qed.

Lemma kept_lookup {A} (vs : list ValidatorIndex) (m : gmap ValidatorIndex A) v :
  filter (λ kv, kv.1 ∈ vs) m !! v = if decide (v ∈ vs) then m !! v else None.
Proof.
  rewrite map_lookup_filter. destruct (m !! v) as [a|]; cbn; [|by destruct (decide _)].
  by repeat (case_guard || case_decide).
Qed.

Lemma fresh_lookup (vs : list ValidatorIndex) v :
  v ∈ vs →
  (list_to_map ((λ v, (v, mkWatched [] [])) <$> vs) : watch) !! v = Some (mkWatched [] []).
Proof.
  induction vs as [|u vs IH]; intros Hin; [by apply not_elem_of_nil in Hin|].
  cbn [fmap list_fmap list_to_map foldr uncurry]. pick u v; [done|].
  apply elem_of_cons in Hin as [|]; [by subst|]. by apply IH.
Qed.

Lemma linked_update vs h w :
  linked h w → linked (updateDoppelgangerState vs h) (watch_act w (ActUpdate vs)).
Proof.
  intros Hl v. specialize (Hl v). unfold updateDoppelgangerState. cbn [watch_act].
  rewrite !kept_lookup, added_lookup, lookup_union.
  destruct (decide (v ∈ vs)) as [Hin|]; [rewrite (fresh_lookup _ _ Hin)|done].
  by destruct (h !! v), (w !! v).
Qed.

Lemma linked_reset h w : linked h w → linked (resetDoppelgangerStates h) (watch_act w ActReset).
Proof.
  intros Hl v. specialize (Hl v). unfold resetDoppelgangerStates. cbn [watch_act].
  rewrite !lookup_fmap. destruct (h !! v), (w !! v); cbn in *; naive_solver.
Qed.

Lemma decrease_counts n q :
  decreaseRemainingEpochs (mkDoppelgangerState (2 - Z.of_nat (Nat.min 2 n)) q)
  = if (n <? 2)%nat then Ok (mkDoppelgangerState (2 - Z.of_nat (Nat.min 2 (S n))) q)
    else Err (ENew "attempted to decrease remaining epochs at 0").
Proof. by destruct n as [|[|n]]. Qed.

Lemma linked_process epoch data h w :
  linked h w → linked (processLivenessData data h) (watch_act w (ActProcess epoch data)).
Proof.
  unfold processLivenessData. cbn [watch_act]. revert h w.
  induction data as [|[u live] data IH]; intros h w Hl; [done|]. apply IH. intros v.
  pose proof (Hl u) as Hu. specialize (Hl v).
  unfold process_response, watch_response; cbn [fst snd].
  destruct (decide (u = v)) as [<-|Hne]; [rewrite lookup_alter_eq|rewrite lookup_alter_ne by done].
  - destruct (h !! u) as [[r q]|] eqn:Hh, (w !! u) as [[rs qs]|]; try easy; [|by rewrite Hh].
    destruct Hu as [Hr Hq], live; cbn [remainingEpochs observedQuorum quiet fmap option_map] in *.
    + by rewrite lookup_insert_eq.
    + subst r q. rewrite decrease_counts. destruct (Nat.ltb_spec (length qs) 2).
      * by rewrite lookup_insert_eq.
      * rewrite Hh. split; [cbn [length]; f_equal; cbn [quiet length remainingEpochs]; lia|done].
  - destruct (h !! u) as [s|]; [|done].
    destruct live; [by rewrite lookup_insert_ne|].
    destruct (decreaseRemainingEpochs s); [by rewrite lookup_insert_ne|done..].
Qed.

(** ** The quiet epochs are different ones *)
Definition descending (bound : Epoch) (x : Watched) : Prop :=
  StronglySorted Z.gt (quiet x) ∧ Forall (λ e, 0 ≤ e < bound) (quiet x).
Definition watch_ok (bound : Epoch) (w : watch) : Prop := map_Forall (λ _, descending bound) w.

Lemma descending_nil bound rs : descending bound (mkWatched rs []).
Proof. split; constructor. Qed.
#[local] Hint Resolve descending_nil : go.

Lemma watch_ok_ops bound ops w :
  watch_ok bound w → watch_ok bound (foldl watch_act w (ActOp <$> ops)).
Proof.
  revert w. induction ops as [|[u|u] ops IH]; intros w Hw; [done|apply IH..]; cbn [watch_act watch_op].
  - intros v x Hx. apply lookup_alter_Some in Hx as [(<- & y & Hy & ->)|[_ Hx]]; [|by apply (Hw v)].
    exact (Hw _ _ Hy).
  - intros v x [_ Hx]%lookup_delete_Some. by apply (Hw v).
Qed.

Lemma watch_ok_update bound vs w : watch_ok bound w → watch_ok bound (watch_act w (ActUpdate vs)).
Proof.
  intros Hw v x. cbn [watch_act]. rewrite kept_lookup, lookup_union.
  destruct (decide _) as [Hin|]; [rewrite (fresh_lookup _ _ Hin)|done].
  destruct (w !! v) as [y|] eqn:Hy; cbn; intros [= <-]; [by apply (Hw v)|auto with go].
Qed.

Lemma watch_ok_reset bound w : watch_ok bound (watch_act w ActReset).
Proof. intros v x. cbn [watch_act]. rewrite lookup_fmap_Some. intros (y & <- & _). auto with go. Qed.

Lemma descending_weaken bound bound' x : bound ≤ bound' → descending bound x → descending bound' x.
Proof. intros Hb [? Hf]. split; [done|]. eapply Forall_impl; [exact Hf|]. cbn. lia. Qed.
Lemma watch_ok_weaken bound bound' w : bound ≤ bound' → watch_ok bound w → watch_ok bound' w.
Proof. intros ? Hw v x Hx. eapply descending_weaken; [done|by apply (Hw v)]. Qed.

Lemma watch_ok_empty bound : watch_ok bound ∅.
Proof. apply map_Forall_empty. Qed.

(** One entry per validator: no epoch is counted twice. *)
Lemma watch_ok_process epoch data w :
  0 ≤ epoch → NoDup data.*1 → watch_ok epoch w →
  watch_ok (epoch + 1) (watch_act w (ActProcess epoch data)).
Proof.
  intros He Hnd Hw. cbn [watch_act].
  assert (Hall : watch_ok (epoch + 1) w) by (eapply watch_ok_weaken; [|done]; lia).
  assert (Hin : ∀ v x, v ∈ data.*1 → w !! v = Some x → descending epoch x) by (intros v x _; apply Hw).
  clear Hw. revert w Hall Hin. induction data as [|[u live] data IH]; intros w Hall Hin; [done|].
  apply NoDup_cons in Hnd as [Hu Hnd]. cbn [foldl]. apply IH; [done|..]; unfold watch_response; cbn [fst snd].
  - intros v x Hx. apply lookup_alter_Some in Hx as [(<- & y & Hy & ->)|[_ Hx]]; [|by apply (Hall v)].
    destruct live; [auto with go|].
    destruct (Hin u y (list_elem_of_here _ _) Hy) as [Hs Hf]. split; cbn [quiet].
    + constructor; [done|]. eapply Forall_impl; [exact Hf|]. cbn. lia.
    + constructor; [lia|]. eapply Forall_impl; [exact Hf|]. cbn. lia.
  - intros v x Hv Hx. apply lookup_alter_Some in Hx as [(<- & _)|[_ Hx]]; [done|].
    apply (Hin v); [by apply list_elem_of_further|done].
Qed.

(** ** Runs *)
Lemma checkLiveness_ok b slot epoch during answer h h' acts w :
  checkLiveness b slot epoch during answer h = Ok (h', acts) →
  0 ≤ epoch → (∀ e vs data, answer e vs = Ok data → NoDup data.*1) →
  linked h w → watch_ok epoch w →
  linked h' (foldl watch_act w acts) ∧ watch_ok (epoch + 1) (foldl watch_act w acts).
Proof.
  intros Hc He Hnd Hl Hw. unfold checkLiveness in Hc.
  destruct (SlotStartTime _ _) as [t| |]; try done. cbn in Hc.
  assert (Hweak : ∀ w, watch_ok epoch w → watch_ok (epoch + 1) w)
    by (intros; eapply watch_ok_weaken; [|done]; lia).
  destruct (_ =? 0)%nat; [injection Hc as <- <-; split; [done|by apply Hweak]|].
  destruct (answer _ _) as [data|e|] eqn:Ha; [..|done]; injection Hc as <- <-.
  - rewrite foldl_app. split; [by apply linked_process, linked_ops|].
    apply watch_ok_process; [done|by eapply Hnd|by apply watch_ok_ops].
  - split; [by apply linked_ops|by apply Hweak, watch_ok_ops].
Qed.

Definition dg_inv (l : loop) (h : handler) (w : watch) : Prop :=
  linked h w ∧ watch_ok (previousEpoch l) w ∧ 0 ≤ previousEpoch l < 2 ^ 64.

(** At a check the epochs counted so far all lie before the one that is asked for. *)
Lemma before_check_ok prev cur w :
  1 ≤ cur < 2 ^ 64 → 0 ≤ prev < 2 ^ 64 → watch_ok prev w →
  watch_ok (cur - 1)
    (foldl watch_act w (if (0 <? prev) && negb (cur =? prev +u 1) then [ActReset] else [])).
Proof.
  intros Hcur Hprev Hw. destruct (_ && _) eqn:Hs; [apply watch_ok_reset|].
  apply (watch_ok_weaken prev); [|done]. unfold u64 in Hs.
  destruct (Z.ltb_spec 0 prev) as [Hpos|]; [|lia]. cbn in Hs.
  destruct (Z.eqb_spec cur ((prev + 1) `mod` 2 ^ 64)) as [Heq|]; [|done].
  destruct (decide (prev = 2 ^ 64 - 1)) as [->|]; [vm_compute in Heq; lia|].
  rewrite Z.mod_small in Heq by lia. lia.
Qed.

Lemma tick_inv b slot shares others answer l h l' h' acts w :
  0 < SlotsPerEpoch b → SlotsPerEpoch b ≤ slot < 2 ^ 64 →
  (∀ e vs data, answer e vs = Ok data → NoDup data.*1) →
  tick b slot shares others answer l h = Ok (l', h', acts) →
  dg_inv l h w → dg_inv l' h' (foldl watch_act w acts).
Proof.
  intros Hspe Hslot Hnd Ht (Hl & Hw & Hp).
  unfold tick, EstimatedEpochAtSlot, div_u64, mod_u64 in Ht.
  rewrite (proj2 (Z.eqb_neq (SlotsPerEpoch b) 0)) in Ht by lia. cbn [mbind result_bind] in Ht.
  set (cur := slot / SlotsPerEpoch b) in *.
  assert (Hcur : 1 ≤ cur < 2 ^ 64).
  { subst cur. split; [apply Z.div_le_lower_bound; lia|].
    eapply Z.le_lt_trans; [|apply Hslot]. apply Z.div_le_upper_bound; nia. }
  apply (linked_update (indicesFromShares (shares cur))) in Hl.
  apply (watch_ok_update _ (indicesFromShares (shares cur))) in Hw.
  destruct (_ || _); [by injection Ht as <- <- <-|].
  destruct (checkLiveness _ _ _ _ _ _) as [[h1 a1]| |] eqn:Hc; try done.
  injection Ht as <- <- <-. cbn [foldl]. rewrite !foldl_app.
  apply (linked_ops (before_reset others)) in Hl. apply (watch_ok_ops _ (before_reset others)) in Hw.
  apply (before_check_ok _ cur) in Hw; [|done..].
  assert (Hu : cur -u 1 = cur - 1) by (unfold u64; rewrite Z.mod_small; lia).
  rewrite Hu in Hc. eapply checkLiveness_ok in Hc as [Hl' Hw']; [|lia|exact Hnd| |].
  - split; [exact Hl'|]. cbn [previousEpoch]. split; [|lia]. eapply watch_ok_weaken; [|exact Hw']. lia.
  - apply linked_ops. destruct (_ && _); [by apply linked_reset|done].
  - by apply watch_ok_ops.
Qed.

Lemma dg_run_inv b l h w : 0 < SlotsPerEpoch b → dg_run b l h w → dg_inv l h w.
Proof.
  intros Hspe. induction 1 as [|l h w op _ (Hl & Hw & Hp)|l h w slot shares others answer l' h' acts _ IH
                              Hslot Hnd Ht].
  - split; [done|]. split; [apply watch_ok_empty|cbn; lia].
  - split; [by apply linked_op|]. split; [|done]. by apply (watch_ok_ops _ [op]).
  - by eapply tick_inv.
Qed.

(** C18. Doppelganger protection: in every run of ticks past the first epoch, with a beacon
    node that answers at most once per validator, and with quorum reports and removals
    coming at any time, also in the middle of a check, a validator can sign exactly when it
    is tracked and either a quorum was reported since it was added, at a moment when fewer
    than two epochs had been found quiet, or the beacon node said for two different epochs
    that it was not live, after it was last added, reset by an epoch gap or seen live.  A
    quorum that is reported when two epochs have been quiet already does not count later. *)
Theorem can_sign_exact b l h w v :
  0 < SlotsPerEpoch b → dg_run b l h w →
  CanSign v h = true ↔
  ∃ x, w !! v = Some x ∧
       ((∃ n, n ∈ reports x ∧ (n < 2)%nat) ∨ ∃ e1 e2 older, quiet x = e2 :: e1 :: older ∧ 0 ≤ e1 < e2).
Proof.
  intros Hspe (Hl & Hw & _)%dg_run_inv; [|done]. specialize (Hl v). unfold CanSign.
  destruct (h !! v) as [s|], (w !! v) as [x|] eqn:Hx; try done; [|naive_solver].
  rewrite (tracks_safe s x Hl), orb_true_iff, quorum_true, Nat.leb_le.
  destruct (Hw _ _ Hx) as [Hs Hf]. split.
  - intros [Hq|Hlen]; exists x; (split; [done|]); [by left|right].
    destruct (quiet x) as [|e2 [|e1 older]]; cbn in Hlen; [lia..|].
    exists e1, e2, older. inversion_clear Hs as [|?? _ H12]. inversion_clear H12.
    inversion_clear Hf as [|?? _ H1]. inversion_clear H1. split; [done|lia].
  - intros (y & [= <-] & [Hq|(e1 & e2 & older & -> & _)]); [by left|right; cbn; lia].
Qed.

(** ** Epoch gaps *)
Lemma process_other data h v : v ∉ data.*1 → processLivenessData data h !! v = h !! v.
Proof.
  unfold processLivenessData. revert h. induction data as [|[u live] data IH]; intros h Hv; [done|].
  cbn in Hv. apply not_elem_of_cons in Hv as [Hne Hv]. cbn [foldl]. rewrite IH by done.
  unfold process_response; cbn [fst snd]. destruct (h !! u) as [s|]; [|done].
  destruct live; [by rewrite lookup_insert_ne|].
  destruct (decreaseRemainingEpochs s); [by rewrite lookup_insert_ne|done..].
Qed.

(** One answer cannot end a detection period that has just begun. *)
Lemma process_after_reset data h v s :
  NoDup data.*1 → h !! v = Some s → remainingEpochs s = 2 →
  CanSign v (processLivenessData data h) = observedQuorum s.
Proof.
  intros Hnd Hs H2. unfold CanSign.
  assert (Hsafe : ∀ r, r = 1 ∨ r = 2 → safe (mkDoppelgangerState r (observedQuorum s)) = observedQuorum s)
    by (by intros r [-> | ->]).
  destruct s as [r q]. cbn in *. subst r.
  revert h Hs Hnd. induction data as [|[u live] data IH]; intros h Hs Hnd.
  { cbn. rewrite Hs. apply Hsafe. auto. }
  cbn in Hnd. apply NoDup_cons in Hnd as [Hu Hnd].
  change (processLivenessData ((u, live) :: data) h)
    with (processLivenessData data (process_response h (u, live))).
  destruct (decide (u = v)) as [<-|Hne].
  - rewrite process_other by done. unfold process_response; cbn [fst snd]. rewrite Hs.
    destruct live; cbn; rewrite lookup_insert_eq; apply Hsafe; auto.
  - apply IH; [|done]. unfold process_response; cbn [fst snd]. destruct (h !! u) as [s|]; [|done].
    destruct live; [by rewrite lookup_insert_ne|].
    destruct (decreaseRemainingEpochs s); [by rewrite lookup_insert_ne|done..].
Qed.

Lemma update_keeps vs h v s :
  v ∈ vs → h !! v = Some s → updateDoppelgangerState vs h !! v = Some s.
Proof.
  intros Hv Hs. unfold updateDoppelgangerState.
  by rewrite kept_lookup, added_lookup, Hs, decide_True.
Qed.

(** A tick that finds that an epoch was skipped puts every validator back to the full
    detection period, so that it cannot sign after the check of that tick, unless a quorum
    was ever reported for it: the reset keeps the quorum, and such a validator can sign
    on through the gap and whatever the beacon node answers. *)
Theorem gap_resets_unless_quorum b slot shares answer l h l' h' acts v s :
  tick b slot shares (mkInterleaved [] [] []) answer l h = Ok (l', h', acts) →
  (∀ e vs data, answer e vs = Ok data → NoDup data.*1) →
  0 < SlotsPerEpoch b →
  firstRun l = false → slot `mod` SlotsPerEpoch b = SlotsPerEpoch b -u 1 →
  startEpoch l ≠ slot / SlotsPerEpoch b →
  0 < previousEpoch l → slot / SlotsPerEpoch b ≠ previousEpoch l +u 1 →
  h !! v = Some s → v ∈ indicesFromShares (shares (slot / SlotsPerEpoch b)) →
  CanSign v h' = observedQuorum s.
Proof.
  intros Ht Hnd Hspe Hf Hlast Hstart Hprev Hgap Hs Hv.
  unfold tick, EstimatedEpochAtSlot, div_u64, mod_u64 in Ht.
  rewrite (proj2 (Z.eqb_neq (SlotsPerEpoch b) 0)) in Ht by lia. cbn [mbind result_bind] in Ht.
  rewrite Hf, Hlast, Z.eqb_refl, (proj2 (Z.eqb_neq _ _) Hstart), (proj2 (Z.eqb_neq _ _) Hgap),
    (proj2 (Z.ltb_lt _ _) Hprev) in Ht.
  cbn [negb andb orb before_reset before_check during_call foldl] in Ht.
  apply (update_keeps _ _ _ _ Hv) in Hs. set (h1 := updateDoppelgangerState _ _) in *.
  assert (Hr : resetDoppelgangerStates h1 !! v = Some (resetRemainingEpochs s))
    by (unfold resetDoppelgangerStates; by rewrite lookup_fmap, Hs).
  unfold checkLiveness in Ht. destruct (SlotStartTime _ _) as [t| |]; try done. cbn [mbind result_bind] in Ht.
  destruct (_ =? 0)%nat; [|destruct (answer _ _) as [data|e|] eqn:Ha; [..|done]];
    cbn [mbind result_bind] in Ht; injection Ht as _ <- _; cbn [foldl].
  - unfold CanSign. by rewrite Hr.
  - by apply (process_after_reset data _ v (resetRemainingEpochs s)); [eapply Hnd| |].
  - unfold CanSign. by rewrite Hr.
Qed.

(** ** A run

    Validator 7 is quiet at the first tick, in epoch 10, and at the last slot of epoch 11. *)
Definition sample_beacon : Beacon := mkBeacon "sample" 12 32 256 512 4 16 16 [] 0 [] ∅.
Definition sample_dg_share : SSVShare :=
  mkSSVShare 7 [] [] [] [] [] ValidatorStateActiveOngoing 0 FarFutureEpoch [] false None None None 0.
Definition nobody_else : Interleaved := mkInterleaved [] [] [].
Definition quiet_7 (_ : Epoch) (_ : list ValidatorIndex) : result goerr (list (ValidatorIndex * bool)) :=
  Ok [(7, false)].
Definition sample_tick (slot : Slot) (l : loop) (h : handler) : result goerr (loop * handler * list Action) :=
  tick sample_beacon slot (λ _, [sample_dg_share]) nobody_else quiet_7 l h.

Lemma quiet_7_once e vs data : quiet_7 e vs = Ok data → NoDup data.*1.
Proof. intros [= <-]. apply NoDup_singleton. Qed.

Lemma first_tick :
  sample_tick 330 loop_start NewHandler
  = Ok (mkLoop 10 10 false, {[7 := mkDoppelgangerState 1 false]}, [ActUpdate [7]; ActProcess 9 [(7, false)]]).
Proof. reflexivity. Qed.
Lemma second_tick :
  sample_tick 383 (mkLoop 10 10 false) {[7 := mkDoppelgangerState 1 false]}
  = Ok (mkLoop 10 11 false, {[7 := mkDoppelgangerState 0 false]}, [ActUpdate [7]; ActProcess 10 [(7, false)]]).
Proof. reflexivity. Qed.

Lemma sample_run :
  dg_run sample_beacon (mkLoop 10 11 false) {[7 := mkDoppelgangerState 0 false]}
    {[7 := mkWatched [] [10; 9]]}.
Proof.
  refine (dg_tick _ _ _ {[7 := mkWatched [] [9]]} 383 _ _ quiet_7 _ _ _ _ _ quiet_7_once second_tick);
    [|by cbn].
  by refine (dg_tick _ _ _ ∅ 330 _ _ quiet_7 _ _ _ (dg_start _) _ quiet_7_once first_tick).
Qed.

(** A quorum is reported only now; the node then sleeps through epochs 12 to 19. *)
Lemma late_tick :
  sample_tick 671 (mkLoop 10 11 false) {[7 := mkDoppelgangerState 0 false]}
  = Ok (mkLoop 10 20 false, {[7 := mkDoppelgangerState 1 false]},
        [ActUpdate [7]; ActReset; ActProcess 19 [(7, false)]]).
Proof. reflexivity. Qed.
Lemma late_run :
  dg_run sample_beacon (mkLoop 10 20 false) {[7 := mkDoppelgangerState 1 false]} {[7 := mkWatched [2%nat] [19]]}.
Proof.
  refine (dg_tick _ _ _ {[7 := mkWatched [2%nat] [10; 9]]} 671 _ _ quiet_7 _ _ _ _ _ quiet_7_once late_tick);
    [|by cbn].
  exact (dg_op _ _ _ _ (OpReportQuorum 7) sample_run).
Qed.

Lemma can_sign_exact_witness :
  CanSign 7 {[7 := mkDoppelgangerState 0 false]} = true ∧ CanSign 7 {[7 := mkDoppelgangerState 1 false]} = false.
Proof.
  split.
  - apply (can_sign_exact sample_beacon _ _ _ 7 ltac:(cbn; lia) sample_run).
    exists (mkWatched [] [10; 9]). split; [reflexivity|]. right. exists 9, 10, []. split; [reflexivity|lia].
  - apply not_true_iff_false. intros Hsign.
    apply (can_sign_exact sample_beacon _ _ _ 7 ltac:(cbn; lia) late_run) in Hsign as (x & Hx & Hsign).
    vm_compute in Hx. injection Hx as <-. destruct Hsign as [(n & Hn & Hlt)|(e1 & e2 & older & He & _)].
    + apply list_elem_of_singleton in Hn as ->. lia.
    + discriminate He.
Defined.

(** The node sleeps through epochs 12 to 19; validator 7 was marked by a quorum. *)
Lemma gap_tick :
  sample_tick 671 (mkLoop 10 11 false) {[7 := mkDoppelgangerState 2 true]}
  = Ok (mkLoop 10 20 false, {[7 := mkDoppelgangerState 2 true]}, [ActUpdate [7]; ActReset]).
Proof. reflexivity. Qed.

