(* ===== verification/PartialSig.v ===== *)
(** * Collecting partial signatures (protocol/v2/ssv: partial_sig_container.go,
      runner/runner_signatures.go, runner/runner_validations.go, runner/runner.go;
      protocol/v2/types/crypto.go; utils/threshold)

    A duty is signed by a quorum of the operators of a validator.  The container keeps
    one partial signature per validator, signing root and operator, unverified until a
    reconstruction fails.  BLS is a class: the library is not part of the repository. *)

From stdpp Require Import base list gmap numbers strings.
From Stdlib Require Import Strings.Byte.
From S2P Require Import Prelude SpecTypes Network Subnets Share ValState.
Open Scope string_scope.
Open Scope list_scope.
Open Scope Z_scope.

(** ** Errors of the runners (error.go)

    [RCode] carries the name of the code; [RCanceled] is [context.Canceled]. *)
Inductive rerror :=
| RNew (text : string)
| RWrap (text : string) (inner : rerror)
| RCode (code : string) (inner : rerror)
| RRetryable (originalErr : rerror)
| RRecoverableReconstruct (err : rerror)
| RCanceled
| RSpec (e : goerr).
Abbreviation rres := (result rerror).

Fixpoint isRecoverableReconstructError (e : rerror) : bool :=
  match e with
  | RRecoverableReconstruct _ => true
  | RWrap _ i | RCode _ i | RRetryable i => isRecoverableReconstructError i
  | _ => false
  end.
Fixpoint is_context_canceled (e : rerror) : bool :=
  match e with
  | RCanceled => true
  | RWrap _ i | RCode _ i | RRetryable i | RRecoverableReconstruct i => is_context_canceled i
  | _ => false
  end.

(** A call whose error is passed on under a message. *)
Definition wrap_err {A} (text : string) (r : rres A) : rres A :=
  match r with Err e => Err (RWrap text e) | r => r end.

(** ** The BLS library *)
Class BLS := {
  PublicKey : Type;
  Sign : Type;
  ID : Type;
  pk_Deserialize : bytes → option PublicKey;
  sig_Deserialize : bytes → option Sign;
  sig_Serialize : Sign → bytes;
  VerifyByte : Sign → PublicKey → bytes → bool;
  SetDecString : string → option ID;
  Recover : list Sign → list ID → option Sign;
}.

Abbreviation copy96 b := (take 96 b ++ replicate (96 - length b) x00) (only parsing).

Section bls.
Context `{BLS}.

(** The cache of [DeserializeBLSPublicKey] holds results of the library only. *)
Definition DeserializeBLSPublicKey (b : bytes) : rres PublicKey :=
  match pk_Deserialize b with None => Err (RNew "err blsPublicKeyDeserialize") | Some pk => Ok pk end.
Definition DeserializeSign (b : bytes) : rres Sign :=
  match sig_Deserialize b with None => Err (RNew "err blsSignatureDeserialize") | Some s => Ok s end.

(** *** crypto.go *)
Definition VerifyReconstructedSignature (sig : Sign) (validatorPubKey root : bytes) : rres unit :=
  pk ← wrap_err "could not deserialize validator pk" (DeserializeBLSPublicKey validatorPubKey);
  fail_if (negb (VerifyByte sig pk root))
    (RCode "ReconstructSignatureErrorCode" (RNew "could not reconstruct a valid signature")).

Fixpoint VerifyBeaconPartialSignature (signer : OperatorID) (signature root : bytes)
    (committee : list ShareMember) : rres unit :=
  match committee with
  | [] => Err (RNew "unknown signer")
  | member :: committee =>
      if negb (sm_Signer member =? signer) then VerifyBeaconPartialSignature signer signature root committee
      else
        pk ← wrap_err "could not deserialize share public key" (DeserializeBLSPublicKey (sm_SharePubKey member));
        sig ← wrap_err "could not deserialize signature" (DeserializeSign signature);
        fail_if (negb (VerifyByte sig pk root)) (RNew "wrong signature")
  end.

(** *** utils/threshold: the signatures in the order of the map *)
Fixpoint parse_signatures (signatures : list (OperatorID * bytes)) : rres (list ID * list Sign) :=
  match signatures with
  | [] => Ok ([], [])
  | (index, signature) :: rest =>
      blsID ← match SetDecString (Sprint_d index) with
              | None => Err (RNew "err blsIdSetDecStr") | Some i => Ok i end;
      blsSig ← DeserializeSign signature;
      '(idVec, sigVec) ← parse_signatures rest;
      Ok (blsID :: idVec, blsSig :: sigVec)
  end.
Definition ReconstructSignatures (signatures : gmap OperatorID bytes) : rres Sign :=
  '(idVec, sigVec) ← parse_signatures (map_to_list signatures);
  match Recover sigVec idVec with None => Err (RNew "err blsSignatureRecover") | Some s => Ok s end.

(** ** PartialSigContainer *)
Record PartialSigContainer := mkContainer {
  Signatures : gmap ValidatorIndex (gmap bytes (gmap OperatorID bytes));
  psc_Quorum : Z;
}.

Definition NewPartialSigContainer (quorum : Z) : PartialSigContainer := mkContainer ∅ quorum.

(** [ps.Signatures[validatorIndex][signingRoot]], [None] when it is a nil map. *)
Definition root_sigs (ps : PartialSigContainer) (validatorIndex : ValidatorIndex) (root : bytes)
    : option (gmap OperatorID bytes) :=
  Signatures ps !! validatorIndex ≫= λ roots, roots !! root.
Definition set_root_sigs (validatorIndex : ValidatorIndex) (root : bytes) (m : gmap OperatorID bytes)
    (ps : PartialSigContainer) : PartialSigContainer :=
  mkContainer
    (<[validatorIndex := <[root := m]> (default ∅ (Signatures ps !! validatorIndex))]> (Signatures ps))
    (psc_Quorum ps).

(** [copy] into a fresh array of 96 bytes. *)

Definition AddSignature (sigMsg : PartialSignatureMessage) (ps : PartialSigContainer) : PartialSigContainer :=
  let m := default ∅ (root_sigs ps (psm_ValidatorIndex sigMsg) (psm_SigningRoot sigMsg)) in
  set_root_sigs (psm_ValidatorIndex sigMsg) (psm_SigningRoot sigMsg)
    match m !! psm_Signer sigMsg with
    | None => <[psm_Signer sigMsg := copy96 (psm_PartialSignature sigMsg)]> m
    | Some _ => m
    end ps.

Definition GetSignature (validatorIndex : ValidatorIndex) (signer : OperatorID) (signingRoot : bytes)
    (ps : PartialSigContainer) : rres bytes :=
  match root_sigs ps validatorIndex signingRoot ≫= λ m, m !! signer with
  | None => Err (RNew "no signature for validator, root and signer")
  | Some sig => Ok sig
  end.
Definition HasSignature (validatorIndex : ValidatorIndex) (signer : OperatorID) (signingRoot : bytes)
    (ps : PartialSigContainer) : bool :=
  match root_sigs ps validatorIndex signingRoot ≫= λ m, m !! signer with None => false | Some _ => true end.
(** The copy of a nil map is nil; its length is 0. *)
Definition GetSignatures (validatorIndex : ValidatorIndex) (signingRoot : bytes) (ps : PartialSigContainer)
    : gmap OperatorID bytes :=
  default ∅ (root_sigs ps validatorIndex signingRoot).

Definition Remove (validatorIndex : ValidatorIndex) (signer : OperatorID) (signingRoot : bytes)
    (ps : PartialSigContainer) : PartialSigContainer :=
  match root_sigs ps validatorIndex signingRoot with
  | None => ps
  | Some signers => set_root_sigs validatorIndex signingRoot (delete signer signers) ps
  end.

Definition ResolveDuplicateSignature (msg : PartialSignatureMessage) (committee : list ShareMember)
    (ps : PartialSigContainer) : PartialSigContainer * rres unit :=
  let verify sig := VerifyBeaconPartialSignature (psm_Signer msg) sig (psm_SigningRoot msg) committee in
  let replace :=
    let ps := Remove (psm_ValidatorIndex msg) (psm_Signer msg) (psm_SigningRoot msg) ps in
    match verify (psm_PartialSignature msg) with
    | Ok _ => (AddSignature msg ps, Ok tt)
    | e => (ps, e)
    end in
  match GetSignature (psm_ValidatorIndex msg) (psm_Signer msg) (psm_SigningRoot msg) ps with
  | Ok existing => match verify existing with Ok _ => (ps, Ok tt) | _ => replace end
  | _ => replace
  end.

Definition ReconstructSignature (root validatorPubKey : bytes) (validatorIndex : ValidatorIndex)
    (ps : PartialSigContainer) : rres bytes :=
  match root_sigs ps validatorIndex root with
  | None => Err (RNew "no signatures for validator and root")
  | Some rootSigs =>
      signature ← wrap_err "reconstruct signatures" (ReconstructSignatures rootSigs);
      wrap_err "verify reconstructed signature" (VerifyReconstructedSignature signature validatorPubKey root) ;;
      Ok (sig_Serialize signature)
  end.

Definition HasQuorum (validatorIndex : ValidatorIndex) (root : bytes) (ps : PartialSigContainer)
    : bool * list OperatorID :=
  let rootSigs := default ∅ (root_sigs ps validatorIndex root) in
  (psc_Quorum ps <=? Z.of_nat (size rootSigs), (map_to_list rootSigs).*1).

(** ** What the runners do with it *)
Fixpoint verifyBeaconPartialSignature (signer : OperatorID) (signature root : bytes)
    (committee : list ShareMember) : rres unit :=
  match committee with
  | [] => Err (RNew "unknown signer")
  | n :: committee =>
      if sm_Signer n =? signer then
        pk ← wrap_err "could not deserialized pk" (DeserializeBLSPublicKey (sm_SharePubKey n));
        sig ← wrap_err "could not deserialized Signature" (DeserializeSign signature);
        fail_if (negb (VerifyByte sig pk root)) (RNew "wrong signature")
      else verifyBeaconPartialSignature signer signature root committee
  end.

Definition resolveDuplicateSignature (Share : gmap ValidatorIndex SSVShare) (msg : PartialSignatureMessage)
    (container : PartialSigContainer) : PartialSigContainer :=
  match Share !! psm_ValidatorIndex msg with
  | None => Remove (psm_ValidatorIndex msg) (psm_Signer msg) (psm_SigningRoot msg) container
  | Some share =>
      let verify sig :=
        verifyBeaconPartialSignature (psm_Signer msg) sig (psm_SigningRoot msg) (sh_Committee share) in
      let replace :=
        let container := Remove (psm_ValidatorIndex msg) (psm_Signer msg) (psm_SigningRoot msg) container in
        match verify (psm_PartialSignature msg) with Ok _ => AddSignature msg container | _ => container end in
      match GetSignature (psm_ValidatorIndex msg) (psm_Signer msg) (psm_SigningRoot msg) container with
      | Ok previousSignature => match verify previousSignature with Ok _ => container | _ => replace end
      | _ => replace
      end
  end.

(** The roots that just reached quorum, with the signers per validator. *)
Abbreviation QuorumRoots := (gmap bytes (gmap ValidatorIndex (list OperatorID))).

Definition add_partial (Share : gmap ValidatorIndex SSVShare) (msg : PartialSignatureMessage)
    (container : PartialSigContainer) : PartialSigContainer :=
  if HasSignature (psm_ValidatorIndex msg) (psm_Signer msg) (psm_SigningRoot msg) container
  then resolveDuplicateSignature Share msg container
  else AddSignature msg container.

Definition process_partial (Share : gmap ValidatorIndex SSVShare)
    (acc : PartialSigContainer * bool * QuorumRoots) (msg : PartialSignatureMessage)
    : PartialSigContainer * bool * QuorumRoots :=
  let '(container, gotAnyQuorum, roots) := acc in
  let quorumReachedPreviously := (HasQuorum (psm_ValidatorIndex msg) (psm_SigningRoot msg) container).1 in
  let container := add_partial Share msg container in
  let '(hasQuorum, quorumSigners) := HasQuorum (psm_ValidatorIndex msg) (psm_SigningRoot msg) container in
  if negb quorumReachedPreviously && hasQuorum
  then (container, true,
        <[psm_SigningRoot msg :=
            <[psm_ValidatorIndex msg := quorumSigners]> (default ∅ (roots !! psm_SigningRoot msg))]> roots)
  else (container, gotAnyQuorum, roots).

Definition basePartialSigMsgProcessing (Share : gmap ValidatorIndex SSVShare)
    (signedMsg : PartialSignatureMessages) (container : PartialSigContainer)
    : PartialSigContainer * bool * QuorumRoots :=
  foldl (process_partial Share) (container, false, ∅) (ps_Messages signedMsg).

Definition fall_back_one (root : bytes) (committee : list ShareMember) (validatorIndex : ValidatorIndex)
    (container : PartialSigContainer) (entry : OperatorID * bytes) : PartialSigContainer :=
  match verifyBeaconPartialSignature entry.1 entry.2 root committee with
  | Ok _ => container
  | _ => Remove validatorIndex entry.1 root container
  end.
Definition FallBackAndVerifyEachSignature (root : bytes) (committee : list ShareMember)
    (validatorIndex : ValidatorIndex) (container : PartialSigContainer) : PartialSigContainer :=
  foldl (fall_back_one root committee validatorIndex) container
    (map_to_list (GetSignatures validatorIndex root container)).

(** runner_state.go *)
Definition ReconstructBeaconSig (container : PartialSigContainer) (root validatorPubKey : bytes)
    (validatorIndex : ValidatorIndex) : rres bytes :=
  wrap_err "could not reconstruct beacon sig"
    (ReconstructSignature root validatorPubKey validatorIndex container).

(** The loop, with a bound on its turns; [Panic] is running out of them. *)
Fixpoint reconstruct_loop (fuel : nat) (root : bytes) (share : SSVShare) (phase : string)
    (container : PartialSigContainer) : PartialSigContainer * rres bytes :=
  match fuel with
  | O => (container, Panic)
  | S fuel =>
      match ReconstructBeaconSig container root (sh_ValidatorPubKey share) (sh_ValidatorIndex share) with
      | Ok sig => (container, Ok (copy96 sig))
      | Panic => (container, Panic)
      | Err err =>
          let err := RWrap ("got " ++ phase ++ " quorum but it has invalid signatures") err in
          let shares := size (GetSignatures (sh_ValidatorIndex share) root container) in
          let container :=
            FallBackAndVerifyEachSignature root (sh_Committee share) (sh_ValidatorIndex share) container in
          if negb (HasQuorum (sh_ValidatorIndex share) root container).1
          then (container, Err (RRecoverableReconstruct err))
          else if (size (GetSignatures (sh_ValidatorIndex share) root container) =? shares)%nat
          then (container, Err err)
          else reconstruct_loop fuel root share phase container
      end
  end.
(** Every turn but the last drops a signature. *)
Definition reconstructQuorumSig (container : PartialSigContainer) (root : bytes) (share : SSVShare)
    (phase : string) : PartialSigContainer * rres bytes :=
  reconstruct_loop (S (size (GetSignatures (sh_ValidatorIndex share) root container))) root share phase container.
End bls.
