(* ===== verification/Runner.v ===== *)
(** * The base runner and the voluntary exit runner (protocol/v2/ssv/runner: runner.go,
      runner_state.go, runner_signatures.go, runner_validations.go, type_assertions.go,
      voluntary_exit.go)

    A duty without a consensus phase from its start to its submission: the runner signs
    its own share, checks and collects the partial signatures of the others, reconstructs
    the validator's signature at quorum and submits the exit.  The beacon node, the two
    signers, the network and ssv-spec's methods are a class; what the runner hands to them
    is logged. *)

From stdpp Require Import base list sorting gmap numbers strings.
From Stdlib Require Import Strings.Byte.
From S2P Require Import Prelude SpecTypes Network Subnets Share ValState PartialSig.
Open Scope string_scope.
Open Scope list_scope.
Open Scope Z_scope.

(** ** Data *)
Record VoluntaryExit := mkVoluntaryExit { ve_Epoch : Epoch; ve_ValidatorIndex : ValidatorIndex }.
Record ValidatorDuty := mkValidatorDuty { vd_Slot : Slot; vd_ValidatorIndex : ValidatorIndex }.

(** [spectypes.Duty]; the pointer of a validator duty may be nil. *)
Inductive Duty :=
| DValidator (d : option ValidatorDuty)
| DCommittee (slot : Slot)
| DAggregatorCommittee (slot : Slot).
Definition DutySlot (d : Duty) : rres Slot :=
  match d with
  | DValidator (Some d) => Ok (vd_Slot d)
  | DValidator None => Panic
  | DCommittee slot | DAggregatorCommittee slot => Ok slot
  end.

Inductive dutyOutcome :=
  dutyOutcomeSucceeded | dutyOutcomeNotRequired | dutyOutcomeFailed | dutyOutcomeStuck | dutyOutcomeNoQuorum.

(** The consensus fields of [State] play no part in these duties. *)
Record RunnerState := mkRunnerState {
  PreConsensusContainer : PartialSigContainer;
  PostConsensusContainer : PartialSigContainer;
  CurrentDuty : Duty;
  Succeeded : bool;
}.
Definition NewRunnerState (quorum : Z) (duty : Duty) : RunnerState :=
  mkRunnerState (NewPartialSigContainer quorum) (NewPartialSigContainer quorum) duty false.

(** [dutyConcluded]: whether the channel to the duty's watcher is set. *)
Record BaseRunner := mkBaseRunner {
  br_State : option RunnerState;
  br_Share : gmap ValidatorIndex SSVShare;
  br_NetworkConfig : NetCfg;
  br_RunnerRoleType : RunnerRole;
  br_dutyConcluded : bool;
}.

Inductive Effect :=
| Reported (outcome : dutyOutcome) (reason : option rerror)
| BroadcastMsg (msg : SignedSSVMessage) (slot : Slot)
| SubmittedExit (message : option VoluntaryExit) (signature : bytes).

Record VoluntaryExitRunner := mkVERunner {
  ve_Base : BaseRunner;
  voluntaryExit : option VoluntaryExit;
  ve_log : list Effect;
}.

(** ** What the runner calls *)
Class RunnerEnv := {
  DomainVoluntaryExit : bytes;
  DomainData : Epoch → bytes → rres bytes;
  ComputeETHSigningRoot : VoluntaryExit → bytes → rres bytes;
  SignBeaconObject : VoluntaryExit → bytes → bytes → Slot → bytes → rres (bytes * bytes);
  SignSSVMessage : SSVMessage → rres bytes;
  GetOperatorID : OperatorID;
  BroadcastAtSlot : SignedSSVMessage → Slot → rres unit;
  SubmitVoluntaryExit : option VoluntaryExit → bytes → rres unit;
  Messages_Validate : PartialSignatureMessages → rres unit;
  Messages_Encode : PartialSignatureMessages → rres bytes;
  NewValidatorMsgID : bytes → bytes → RunnerRole → bytes;
}.

Definition of_spec {A} (r : result goerr A) : rres A :=
  match r with Ok a => Ok a | Err e => Err (RSpec e) | Panic => Panic end.

(** ** Fields *)
Definition set_State (s : option RunnerState) (b : BaseRunner) : BaseRunner :=
  mkBaseRunner s (br_Share b) (br_NetworkConfig b) (br_RunnerRoleType b) (br_dutyConcluded b).
Definition set_concluded (c : bool) (b : BaseRunner) : BaseRunner :=
  mkBaseRunner (br_State b) (br_Share b) (br_NetworkConfig b) (br_RunnerRoleType b) c.
Definition set_Pre (c : PartialSigContainer) (s : RunnerState) : RunnerState :=
  mkRunnerState c (PostConsensusContainer s) (CurrentDuty s) (Succeeded s).
Definition set_Succeeded (s : RunnerState) : RunnerState :=
  mkRunnerState (PreConsensusContainer s) (PostConsensusContainer s) (CurrentDuty s) true.
Definition on_base (f : BaseRunner → BaseRunner) (r : VoluntaryExitRunner) : VoluntaryExitRunner :=
  mkVERunner (f (ve_Base r)) (voluntaryExit r) (ve_log r).
Definition on_pre (f : PartialSigContainer → PartialSigContainer) (r : VoluntaryExitRunner)
    : VoluntaryExitRunner :=
  on_base (λ b, set_State ((λ s, set_Pre (f (PreConsensusContainer s)) s) <$> br_State b) b) r.
Definition log (e : Effect) (r : VoluntaryExitRunner) : VoluntaryExitRunner :=
  mkVERunner (ve_Base r) (voluntaryExit r) (ve_log r ++ [e]).
Abbreviation run := (ST VoluntaryExitRunner rerror).

(** ** BaseRunner *)
Abbreviation hasDutySucceeded b :=
  (match br_State b with None => false | Some s => Succeeded s end) (only parsing).
Definition GetShare (b : BaseRunner) : option SSVShare := head ((map_to_list (br_Share b)).*2).

Definition validatorDutyFromDuty (duty : option Duty) : rres ValidatorDuty :=
  match duty with
  | None => Err (RNew "duty is nil")
  | Some (DValidator (Some d)) => Ok d
  | Some (DValidator None) => Err (RNew "validator duty is nil")
  | Some _ => Err (RNew "duty is not a ValidatorDuty")
  end.
Definition currentValidatorDuty (b : BaseRunner) : rres ValidatorDuty :=
  match br_State b with
  | None => Err (RNew "no current duty assigned")
  | Some s => validatorDutyFromDuty (Some (CurrentDuty s))
  end.

Definition concludeDuty (outcome : dutyOutcome) (reason : option rerror) (r : VoluntaryExitRunner)
    : VoluntaryExitRunner :=
  if br_dutyConcluded (ve_Base r)
  then log (Reported outcome reason) (on_base (set_concluded false) r) else r.
Definition markDutySucceeded (r : VoluntaryExitRunner) : VoluntaryExitRunner :=
  concludeDuty dutyOutcomeSucceeded None (on_base (λ b, set_State (set_Succeeded <$> br_State b) b) r).
Definition markDutyFailed (reason : rerror) (r : VoluntaryExitRunner) : VoluntaryExitRunner :=
  if is_context_canceled reason then r else concludeDuty dutyOutcomeFailed (Some reason) r.

Definition ShouldProcessNonBeaconDuty (duty : Duty) (b : BaseRunner) : rres unit :=
  match br_State b with
  | None => Ok tt
  | Some s =>
      current ← DutySlot (CurrentDuty s);
      slot ← DutySlot duty;
      fail_if (slot <=? current) (RCode "DutyAlreadyPassedErrorCode" (RNew "duty already passed"))
  end.

(** ** Checks of a packet *)
Definition PartialSigMsgSigner (msg : PartialSignatureMessages) : rres OperatorID :=
  match ps_Messages msg with [] => Panic | m :: _ => Ok (psm_Signer m) end.

Section validation.
Context `{RunnerEnv}.

Definition validatePartialSigMsg (psigMsgs : PartialSignatureMessages) (expectedSlot : Slot) (b : BaseRunner)
    : rres unit :=
  wrap_err "PartialSignatureMessages invalid" (Messages_Validate psigMsgs) ;;
  fail_if (ps_Slot psigMsgs <? expectedSlot)
    (RCode "PartialSigMessageInvalidSlotErrorCode" (RNew "invalid partial sig slot")) ;;
  fail_if (expectedSlot <? ps_Slot psigMsgs)
    (RRetryable (RCode "PartialSigMessageFutureSlotErrorCode" (RNew "future partial sig msg"))) ;;
  msgSigner ← PartialSigMsgSigner psigMsgs;
  match GetShare b with
  | None => Err (RNew "can not get committee because there is not a single Share in runner")
  | Some shareSample =>
      fail_if (negb (existsb (λ operator, sm_Signer operator =? msgSigner) (sh_Committee shareSample)))
        (RNew "unknown signer")
  end.

Definition validateValidatorIndexInPartialSigMsg (psigMsgs : PartialSignatureMessages) (b : BaseRunner)
    : rres unit :=
  fail_if (existsb (λ msg, match br_Share b !! psm_ValidatorIndex msg with None => true | Some _ => false end)
             (ps_Messages psigMsgs))
    (RCode "UnknownValidatorIndexErrorCode" (RNew "unknown validator index")).

(** [sort.Slice] by the bytes of the roots. *)
Fixpoint bytes_le (a b : bytes) : bool :=
  match a, b with
  | [], _ => true
  | _ :: _, [] => false
  | x :: a, y :: b =>
      (Byte.to_N x <? Byte.to_N y)%N || ((Byte.to_N x =? Byte.to_N y)%N && bytes_le a b)
  end.
Definition root_le (a b : bytes) : Prop := bytes_le a b = true.
#[global] Instance root_le_dec : RelDecision root_le.
Proof. intros a b. unfold root_le. apply _. Defined.
Definition sort_roots (roots : list bytes) : list bytes := merge_sort root_le roots.

Fixpoint signing_roots {O : Type} (sign : O → rres bytes) (objs : list O) : rres (list bytes) :=
  match objs with
  | [] => Ok []
  | o :: objs =>
      r ← wrap_err "could not compute ETH signing root" (sign o);
      rest ← signing_roots sign objs;
      Ok (r :: rest)
  end.

Definition verifyExpectedRoot (psigMsgs : PartialSignatureMessages) (expectedRootObjs : list VoluntaryExit)
    (domain : bytes) (b : BaseRunner) : rres unit :=
  fail_if (negb (length expectedRootObjs =? length (ps_Messages psigMsgs))%nat)
    (RCode "WrongRootsCountErrorCode" (RNew "wrong expected roots count")) ;;
  slot ← match br_State b with None => Panic | Some s => DutySlot (CurrentDuty s) end;
  epoch ← of_spec (EstimatedEpochAtSlot (n_Beacon (br_NetworkConfig b)) slot);
  d ← wrap_err "could not get pre consensus root domain" (DomainData epoch domain);
  expected ← signing_roots (λ o, ComputeETHSigningRoot o d) expectedRootObjs;
  fail_if (bool_decide (sort_roots expected ≠ sort_roots (psm_SigningRoot <$> ps_Messages psigMsgs)))
    (RCode "WrongSigningRootErrorCode" (RNew "wrong signing root")).

(** *** Post-consensus roots, for any kind of object that is signed *)
Record PostConsensusRoot {O : Type} := mkPCR { pcr_Root : O; pcr_Domain : bytes; pcr_Optional : bool }.
Arguments PostConsensusRoot : clear implicits.

Definition singleDomainPostConsensusRoots {O} (domain : bytes) (roots : list O) : list (PostConsensusRoot O) :=
  (λ root, mkPCR O root domain false) <$> roots.

(** The signing roots with their optional flag. *)
Fixpoint resolvePostConsensusSigningRoots {O} (compute : O → bytes → rres bytes) (epoch : Epoch)
    (expected : list (PostConsensusRoot O)) : rres (list (bytes * bool)) :=
  match expected with
  | [] => Ok []
  | e :: expected =>
      domain ← wrap_err "could not get post consensus root domain" (DomainData epoch (pcr_Domain e));
      signingRoot ← wrap_err "could not compute ETH signing root" (compute (pcr_Root e) domain);
      resolved ← resolvePostConsensusSigningRoots compute epoch expected;
      Ok ((signingRoot, pcr_Optional e) :: resolved)
  end.

Fixpoint cover_roots (signingRoots : list (bytes * bool)) (covered : gset bytes) (roots : list bytes)
    : rres (gset bytes) :=
  match roots with
  | [] => Ok covered
  | root :: roots =>
      if bool_decide (root ∈ signingRoots.*1) then
        fail_if (bool_decide (root ∈ covered))
          (RCode "WrongRootsCountErrorCode" (RNew "duplicate expected signing root")) ;;
        cover_roots signingRoots ({[root]} ∪ covered) roots
      else Err (RCode "WrongSigningRootErrorCode" (RNew "unexpected signing root"))
  end.

Definition verifyExpectedPostConsensusRoots {O} (compute : O → bytes → rres bytes)
    (psigMsgs : PartialSignatureMessages) (expected : list (PostConsensusRoot O)) (b : BaseRunner) : rres unit :=
  fail_if (length expected <? length (ps_Messages psigMsgs))%nat
    (RCode "WrongRootsCountErrorCode" (RNew "wrong expected roots count")) ;;
  slot ← match br_State b with None => Panic | Some s => DutySlot (CurrentDuty s) end;
  epoch ← of_spec (EstimatedEpochAtSlot (n_Beacon (br_NetworkConfig b)) slot);
  signingRoots ← resolvePostConsensusSigningRoots compute epoch expected;
  covered ← cover_roots signingRoots ∅ (psm_SigningRoot <$> ps_Messages psigMsgs);
  fail_if (existsb (λ sr, negb sr.2 && negb (bool_decide (sr.1 ∈ covered))) signingRoots)
    (RCode "WrongRootsCountErrorCode" (RNew "missing required signing root")).
End validation.

(** ** Pre-consensus messages of the voluntary exit runner *)
Section exit_runner.
Context `{BLS} `{RunnerEnv}.

Definition calculateVoluntaryExit (duty : ValidatorDuty) (b : BaseRunner) : rres VoluntaryExit :=
  epoch ← of_spec (EstimatedEpochAtSlot (n_Beacon (br_NetworkConfig b)) (vd_Slot duty));
  Ok (mkVoluntaryExit epoch (vd_ValidatorIndex duty)).

Definition expectedPreConsensusRootsAndDomain (b : BaseRunner) : rres (list VoluntaryExit * bytes) :=
  validatorDuty ← wrap_err "current validator duty" (currentValidatorDuty b);
  vr ← wrap_err "could not calculate voluntary exit" (calculateVoluntaryExit validatorDuty b);
  Ok ([vr], DomainVoluntaryExit).

Definition ValidatePreConsensusMsg (psigMsgs : PartialSignatureMessages) (b : BaseRunner) : rres unit :=
  match br_State b with
  | None => Err (RCode "NoRunningDutyErrorCode" (RNew "no duty assigned"))
  | Some s =>
      fail_if (hasDutySucceeded b) (RCode "NoRunningDutyErrorCode" (RNew "running duty already succeeded")) ;;
      slot ← DutySlot (CurrentDuty s);
      if decide (br_RunnerRoleType b = RoleAggregatorCommittee) then validatePartialSigMsg psigMsgs slot b
      else
        validatePartialSigMsg psigMsgs slot b ;;
        '(roots, domain) ← wrap_err "compute pre-consensus roots and domain"
                             (expectedPreConsensusRootsAndDomain b);
        verifyExpectedRoot psigMsgs roots domain b
  end.

(** The roots that just reached quorum, in the order of the map. *)
Definition basePreConsensusMsgProcessing (signedMsg : PartialSignatureMessages) : run (bool * list bytes) :=
  r ← st_get;
  st_lift (wrap_err "invalid pre-consensus message" (ValidatePreConsensusMsg signedMsg (ve_Base r))) ;;
  match br_State (ve_Base r) with
  | None => st_lift Panic
  | Some s =>
      let '(container, hasQuorum, quorumRoots) :=
        basePartialSigMsgProcessing (br_Share (ve_Base r)) signedMsg (PreConsensusContainer s) in
      st_modify (on_pre (λ _, container)) ;;
      mret (hasQuorum, (map_to_list quorumRoots).*1)
  end.

(** The part after the quorum, whose error fails the duty unless it is recoverable. *)
Definition submit_exit (roots : list bytes) : run unit :=
  r ← st_get;
  match roots, br_State (ve_Base r), GetShare (ve_Base r) with
  | root :: _, Some s, Some share =>
      let '(container, sig) := reconstructQuorumSig (PreConsensusContainer s) root share "pre-consensus" in
      st_modify (on_pre (λ _, container)) ;;
      specSig ← st_lift sig;
      st_modify (log (SubmittedExit (voluntaryExit r) specSig)) ;;
      st_lift (wrap_err "could not submit voluntary exit" (SubmitVoluntaryExit (voluntaryExit r) specSig)) ;;
      (* the message logged next reads the epoch of the exit *)
      match voluntaryExit r with
      | None => st_lift Panic
      | Some _ => st_modify markDutySucceeded
      end
  | _, _, _ => st_lift Panic
  end.

(** The deferred function. *)
Definition fail_on_error {A} (m : run A) : run A := λ r,
  match m r with
  | (r', Err e) => (if isRecoverableReconstructError e then r' else markDutyFailed e r', Err e)
  | x => x
  end.

Definition ProcessPreConsensus (signedMsg : PartialSignatureMessages) : run unit := λ r,
  match basePreConsensusMsgProcessing signedMsg r with
  | (r, Ok (hasQuorum, roots)) =>
      if negb hasQuorum then (r, Ok tt) else fail_on_error (submit_exit roots) r
  | (r, Err e) => (r, Err (RWrap "failed processing voluntary exit message" e))
  | (r, Panic) => (r, Panic)
  end.

(** ** Starting the duty *)
(** The conversion of the share's key to an array panics on a shorter key. *)
Definition signAsValidator (validatorIndex : ValidatorIndex) (obj : VoluntaryExit) (slot : Slot)
    (signatureDomain domain : bytes) (b : BaseRunner) : rres PartialSignatureMessage :=
  match br_Share b !! validatorIndex with
  | None => Err (RNew "unknown validator index")
  | Some share =>
      if (length (sh_SharePubKey share) <? 48)%nat then Panic
      else
        '(sig, r) ← wrap_err "could not sign beacon object"
                      (SignBeaconObject obj domain (take 48 (sh_SharePubKey share)) slot signatureDomain);
        Ok (mkPSM sig r GetOperatorID validatorIndex)
  end.
Definition signBeaconObject (duty : ValidatorDuty) (obj : VoluntaryExit) (slot : Slot) (signatureDomain : bytes)
    (b : BaseRunner) : rres PartialSignatureMessage :=
  epoch ← of_spec (EstimatedEpochAtSlot (n_Beacon (br_NetworkConfig b)) slot);
  domain ← wrap_err "failed to fetch beacon domain" (DomainData epoch signatureDomain);
  signAsValidator (vd_ValidatorIndex duty) obj slot signatureDomain domain b.

Definition signAndBroadcastPartialSigMsgs (validatorPubKey : bytes) (msgs : PartialSignatureMessages) : run unit :=
  r ← st_get;
  domain ← st_lift (of_spec (DomainTypeAtSlot (br_NetworkConfig (ve_Base r)) (ps_Slot msgs)));
  let msgID := NewValidatorMsgID domain validatorPubKey (br_RunnerRoleType (ve_Base r)) in
  encodedMsg ← st_lift (wrap_err "could not encode partial signature messages" (Messages_Encode msgs));
  let ssvMsg := mkSSVMessage SSVPartialSignatureMsgType msgID encodedMsg in
  sig ← st_lift (wrap_err "could not sign SSVMessage" (SignSSVMessage ssvMsg));
  let signed := mkSigned [sig] [GetOperatorID] (Some ssvMsg) None in
  st_modify (log (BroadcastMsg signed (ps_Slot msgs))) ;;
  st_lift (wrap_err "could not broadcast signed SSV message" (BroadcastAtSlot signed (ps_Slot msgs))).

Definition executeDuty (duty : Duty) : run unit :=
  validatorDuty ← st_lift (validatorDutyFromDuty (Some duty));
  r ← st_get;
  exit ← st_lift (wrap_err "could not calculate voluntary exit" (calculateVoluntaryExit validatorDuty (ve_Base r)));
  msg ← st_lift (wrap_err "could not sign voluntary exit"
                   (signBeaconObject validatorDuty exit (vd_Slot validatorDuty) DomainVoluntaryExit (ve_Base r)));
  let msgs := mkPSMs VoluntaryExitPartialSig (vd_Slot validatorDuty) [msg] in
  match GetShare (ve_Base r) with
  | None => st_lift Panic
  | Some share =>
      (λ r, match signAndBroadcastPartialSigMsgs (sh_ValidatorPubKey share) msgs r with
            | (r, Err e) => (r, Err (RWrap "could not sign/broadcast voluntary exit partial sig" e))
            | x => x
            end) ;;
      st_modify (λ r, mkVERunner (ve_Base r) (Some exit) (ve_log r))
  end.

(** [watchDutyOutcome] sets the channel; its goroutine only reports. *)
Definition baseStartNewNonBeaconDuty (duty : ValidatorDuty) (quorum : Z) : run unit := λ r,
  match ShouldProcessNonBeaconDuty (DValidator (Some duty)) (ve_Base r) with
  | Err e => (r, Err (RWrap "can't start non-beacon duty" e))
  | Panic => (r, Panic)
  | Ok _ =>
      let r := on_base (λ b, set_concluded true
                               (set_State (Some (NewRunnerState quorum (DValidator (Some duty)))) b)) r in
      match executeDuty (DValidator (Some duty)) r with
      | (r, Err e) => (markDutyFailed e r, Err e)
      | x => x
      end
  end.

Definition StartNewDuty (duty : option Duty) (quorum : Z) : run unit :=
  validatorDuty ← st_lift (validatorDutyFromDuty duty);
  baseStartNewNonBeaconDuty validatorDuty quorum.
End exit_runner.

Definition NewVoluntaryExitRunner (NetworkConfig : NetCfg) (Share : gmap ValidatorIndex SSVShare)
    : rres VoluntaryExitRunner :=
  fail_if (negb (size Share =? 1)%nat) (RNew "must have one share") ;;
  Ok (mkVERunner (mkBaseRunner None Share NetworkConfig RoleVoluntaryExit false) None []).
