(* ===== verification/RunnerProps.v ===== *)
(** * Partial signatures reach the beacon node

    What the container and the runners do with partial signatures, proved against the
    laws of the BLS library: invalid signatures never keep a quorum of valid ones from
    being reconstructed. *)

From stdpp Require Import base list sorting gmap numbers strings.
From Stdlib Require Import Strings.Byte.
From S2P Require Import Prelude SpecTypes Network Subnets Share ValState PartialSig Runner.
Open Scope string_scope.
Open Scope list_scope.
Open Scope Z_scope.

(** ** The container *)
Lemma root_sigs_set ps v root m v' root' :
  root_sigs (set_root_sigs v root m ps) v' root' =
  if decide (v = v' ∧ root = root') then Some m else root_sigs ps v' root'.
Proof.
  unfold root_sigs, set_root_sigs; cbn [Signatures]. destruct (decide (v = v')) as [<-|Hv].
  - rewrite lookup_insert_eq. cbn. destruct (decide (root = root')) as [<-|Hr].
    + by rewrite lookup_insert_eq, decide_True.
    + rewrite lookup_insert_ne, decide_False by naive_solver. by destruct (_ !! v).
  - by rewrite lookup_insert_ne, decide_False by naive_solver.
Qed.

Lemma GetSignatures_set ps v root m v' root' :
  GetSignatures v' root' (set_root_sigs v root m ps) =
  if decide (v = v' ∧ root = root') then m else GetSignatures v' root' ps.
Proof. unfold GetSignatures. rewrite root_sigs_set. by destruct (decide _). Qed.

Lemma Remove_sigs v o root ps v' root' :
  GetSignatures v' root' (Remove v o root ps) =
  if decide (v = v' ∧ root = root') then delete o (GetSignatures v' root' ps) else GetSignatures v' root' ps.
Proof.
  unfold Remove. destruct (root_sigs ps v root) as [m|] eqn:Hm.
  - rewrite GetSignatures_set. destruct (decide _) as [[<- <-]|]; [|done].
    unfold GetSignatures. by rewrite Hm.
  - destruct (decide _) as [[<- <-]|]; [|done]. unfold GetSignatures. rewrite Hm. cbn. by rewrite delete_empty.
Qed.

Lemma AddSignature_sigs msg ps v' root' :
  GetSignatures v' root' (AddSignature msg ps) =
  let m := GetSignatures v' root' ps in
  if decide (psm_ValidatorIndex msg = v' ∧ psm_SigningRoot msg = root')
  then match m !! psm_Signer msg with
       | None => <[psm_Signer msg := copy96 (psm_PartialSignature msg)]> m
       | Some _ => m
       end
  else m.
Proof.
  unfold AddSignature. rewrite GetSignatures_set. cbv zeta. by destruct (decide _) as [[<- <-]|].
Qed.

Lemma HasSignature_sigs v o root ps :
  HasSignature v o root ps = bool_decide (is_Some (GetSignatures v root ps !! o)).
Proof.
  unfold HasSignature, GetSignatures. destruct (root_sigs ps v root) as [m|]; cbn.
  - by destruct (m !! o).
  - by rewrite lookup_empty.
Qed.

Lemma GetSignature_sigs v o root ps :
  GetSignature v o root ps =
  match GetSignatures v root ps !! o with
  | None => Err (RNew "no signature for validator, root and signer")
  | Some sig => Ok sig
  end.
Proof.
  unfold GetSignature, GetSignatures. destruct (root_sigs ps v root) as [m|]; cbn; [done|].
  by rewrite lookup_empty.
Qed.

Lemma Quorum_Remove v o root ps : psc_Quorum (Remove v o root ps) = psc_Quorum ps.
Proof. unfold Remove. by destruct (root_sigs _ _ _). Qed.
Lemma Quorum_Add msg ps : psc_Quorum (AddSignature msg ps) = psc_Quorum ps.
Proof. done. Qed.

(** ** Laws of the BLS library *)
Class BLSLaws `{BLS} : Prop := {
  (* a signature has 96 bytes *)
  sig_length : ∀ b s, sig_Deserialize b = Some s → length b = 96%nat;
  sig_round_trip : ∀ s, sig_Deserialize (sig_Serialize s) = Some s;
  (* the decimal number of an operator is an identifier *)
  id_decimal : ∀ n, 0 ≤ n < 2 ^ 64 → is_Some (SetDecString (Sprint_d n));
}.

Section collecting.
Context `{BLSLaws}.

(** A verified partial signature of an operator. *)
Definition valid (committee : list ShareMember) (root : bytes) (o : OperatorID) (sig : bytes) : Prop :=
  verifyBeaconPartialSignature o sig root committee = Ok tt.
#[global] Instance valid_dec committee root o sig : Decision (valid committee root o sig).
Proof.
  unfold valid. destruct (verifyBeaconPartialSignature o sig root committee) as [[]| |];
    [by left|by right..].
Defined.

Lemma valid_inv committee root o sig :
  valid committee root o sig →
  ∃ m pk s, m ∈ committee ∧ sm_Signer m = o ∧ pk_Deserialize (sm_SharePubKey m) = Some pk ∧
            sig_Deserialize sig = Some s ∧ VerifyByte s pk root = true.
Proof.
  unfold valid. induction committee as [|m committee IH]; [done|]. cbn.
  destruct (Z.eqb_spec (sm_Signer m) o) as [Ho|_].
  - unfold DeserializeBLSPublicKey, DeserializeSign.
    destruct (pk_Deserialize _) as [pk|] eqn:Hpk; [|done]. destruct (sig_Deserialize _) as [s|] eqn:Hs; [|done].
    cbn. destruct (VerifyByte s pk root) eqn:Hv; [|done]. intros _.
    exists m, pk, s. split; [apply list_elem_of_here|done].
  - intros (m' & pk & s & Hm & Hrest)%IH. exists m', pk, s. split; [by apply list_elem_of_further|done].
Qed.

Lemma valid_copy committee root o sig : valid committee root o sig → copy96 sig = sig.
Proof.
  intros (m & pk & s & _ & _ & _ & Hs & _)%valid_inv. apply sig_length in Hs.
  rewrite take_ge by lia. rewrite Hs. apply app_nil_r.
Qed.

(** The two copies of the check agree. *)
Lemma verify_copies o sig root committee :
  VerifyBeaconPartialSignature o sig root committee = Ok tt ↔ valid committee root o sig.
Proof.
  unfold valid. induction committee as [|m committee IH]; [done|]. cbn.
  destruct (sm_Signer m =? o); cbn; [|done].
  by destruct (DeserializeBLSPublicKey _); cbn; [|done..]; destruct (DeserializeSign _).
Qed.

(** The keys of the committee are shares of the validator's key: signatures of a quorum
    of distinct operators, each valid under its share, recover one valid under the key. *)
Record ThresholdKeys (quorum : Z) (share : SSVShare) : Prop := {
  tk_ids : Forall (λ m, 0 ≤ sm_Signer m < 2 ^ 64) (sh_Committee share);
  tk_recover : ∀ root (entries : list (OperatorID * ID * Sign)),
    NoDup entries.*1.*1 → quorum ≤ Z.of_nat (length entries) →
    Forall (λ e, SetDecString (Sprint_d e.1.1) = Some e.1.2 ∧
                 ∃ m pk, m ∈ sh_Committee share ∧ sm_Signer m = e.1.1 ∧
                         pk_Deserialize (sm_SharePubKey m) = Some pk ∧ VerifyByte e.2 pk root = true) entries →
    ∃ s vpk, Recover entries.*2 entries.*1.*2 = Some s ∧
             pk_Deserialize (sh_ValidatorPubKey share) = Some vpk ∧ VerifyByte s vpk root = true;
}.

(** A signature of the validator. *)
Definition signs (share : SSVShare) (root sig : bytes) : Prop :=
  ∃ s vpk, sig_Deserialize sig = Some s ∧ pk_Deserialize (sh_ValidatorPubKey share) = Some vpk ∧
           VerifyByte s vpk root = true.

Lemma parse_valid quorum share root l :
  ThresholdKeys quorum share → Forall (λ e, valid (sh_Committee share) root e.1 e.2) l →
  ∃ entries, parse_signatures l = Ok (entries.*1.*2, entries.*2) ∧ entries.*1.*1 = l.*1 ∧
    Forall (λ e, SetDecString (Sprint_d e.1.1) = Some e.1.2 ∧
                 ∃ m pk, m ∈ sh_Committee share ∧ sm_Signer m = e.1.1 ∧
                         pk_Deserialize (sm_SharePubKey m) = Some pk ∧ VerifyByte e.2 pk root = true) entries.
Proof.
  intros Hkeys. induction 1 as [|[o sig] l Hv _ (entries & Hp & Hos & Hall)]; [by exists []|].
  apply valid_inv in Hv as (m & pk & s & Hm & Ho & Hpk & Hs & Hver). cbn in Ho, Hs.
  pose proof (tk_ids _ _ Hkeys) as Hids. rewrite Forall_forall in Hids. specialize (Hids m Hm).
  destruct (id_decimal (sm_Signer m) Hids) as [id Hid]. rewrite Ho in Hid.
  exists ((o, id, s) :: entries). cbn. unfold DeserializeSign. rewrite Hid, Hs. cbn. rewrite Hp. cbn.
  split; [done|]. split; [by rewrite Hos|]. constructor; [|done]. cbn. split; [done|]. by exists m, pk.
Qed.

Lemma ReconstructBeaconSig_signs c root vpk idx share sig :
  sh_ValidatorPubKey share = vpk → ReconstructBeaconSig c root vpk idx = Ok sig →
  signs share root (copy96 sig) ∧ copy96 sig = sig.
Proof.
  intros <- Hr. unfold ReconstructBeaconSig, ReconstructSignature in Hr.
  destruct (root_sigs c idx root) as [m|]; [|done].
  destruct (ReconstructSignatures m) as [s| |]; cbn in Hr; try done.
  unfold VerifyReconstructedSignature, DeserializeBLSPublicKey in Hr.
  destruct (pk_Deserialize _) as [pk|] eqn:Hpk; cbn in Hr; [|done].
  destruct (VerifyByte s pk root) eqn:Hv; cbn in Hr; [|done]. injection Hr as <-.
  pose proof (sig_round_trip s) as Hrt. pose proof (sig_length _ _ Hrt) as Hlen.
  assert (Hc : copy96 (sig_Serialize s) = sig_Serialize s).
  { rewrite take_ge by lia. rewrite Hlen. apply app_nil_r. }
  split; [|done]. rewrite Hc. by exists s, pk.
Qed.

(** ** Adding and dropping signatures of one validator and root *)
Lemma HasQuorum_sigs v root c :
  (HasQuorum v root c).1 = (psc_Quorum c <=? Z.of_nat (size (GetSignatures v root c))).
Proof. done. Qed.

Section one_root.
Context (Share : gmap ValidatorIndex SSVShare) (v : ValidatorIndex) (share : SSVShare) (root : bytes).
Context (Hshare : Share !! v = Some share).
Abbreviation ok := (valid (sh_Committee share) root).

(** The container holds a valid signature of the operator. *)
Definition holds (c : PartialSigContainer) (o : OperatorID) : Prop :=
  ∃ sig, GetSignatures v root c !! o = Some sig ∧ ok o sig.

Lemma add_partial_quorum msg c : psc_Quorum (add_partial Share msg c) = psc_Quorum c.
Proof.
  unfold add_partial, resolveDuplicateSignature.
  repeat match goal with
  | |- context [if ?b then _ else _] => destruct b
  | |- context [match ?x with _ => _ end] => destruct x
  end; rewrite ?Quorum_Add, ?Quorum_Remove; done.
Qed.

Lemma add_partial_other msg c :
  psm_ValidatorIndex msg ≠ v → GetSignatures v root (add_partial Share msg c) = GetSignatures v root c.
Proof using.
  intros Hne. unfold add_partial, resolveDuplicateSignature.
  repeat match goal with
  | |- context [if ?b then _ else _] => destruct b
  | |- context [match ?x with _ => _ end] => destruct x
  end; rewrite ?AddSignature_sigs, ?Remove_sigs; cbv zeta; rewrite ?Remove_sigs;
    rewrite ?decide_False by naive_solver; done.
Qed.

Lemma resolve_keeps msg c o : holds c o → holds (resolveDuplicateSignature Share msg c) o.
Proof.
  intros (sig & Hsig & Hok). unfold resolveDuplicateSignature.
  destruct (decide (psm_ValidatorIndex msg = v ∧ psm_SigningRoot msg = root ∧ psm_Signer msg = o))
    as [(-> & -> & ->)|Hother].
  - rewrite Hshare, GetSignature_sigs, Hsig, Hok. by exists sig.
  - assert (Hrem : GetSignatures v root
                     (Remove (psm_ValidatorIndex msg) (psm_Signer msg) (psm_SigningRoot msg) c) !! o = Some sig).
    { rewrite Remove_sigs. destruct (decide _) as [[? ?]|]; [|done]. rewrite lookup_delete_ne; naive_solver. }
    assert (Hadd : GetSignatures v root
                     (AddSignature msg
                        (Remove (psm_ValidatorIndex msg) (psm_Signer msg) (psm_SigningRoot msg) c)) !! o = Some sig).
    { rewrite AddSignature_sigs. cbv zeta. destruct (decide _) as [[? ?]|]; [|done].
      destruct (_ !! psm_Signer msg); [done|]. rewrite lookup_insert_ne; naive_solver. }
    exists sig. split; [|done].
    repeat match goal with
    | |- context [match ?x with _ => _ end] => destruct x
    end; done.
Qed.

Lemma add_partial_keeps msg c o : holds c o → holds (add_partial Share msg c) o.
Proof.
  intros Hh. unfold add_partial. destruct (HasSignature _ _ _ _); [by apply resolve_keeps|].
  destruct Hh as (sig & Hsig & Hok). exists sig. split; [|done]. rewrite AddSignature_sigs. cbv zeta.
  destruct (decide _) as [_|]; [|done]. destruct (_ !! psm_Signer msg) eqn:Hs; [done|].
  rewrite lookup_insert_ne; [done|]. congruence.
Qed.

(** A valid signature takes the place of an invalid one. *)
Lemma add_partial_delivers c o sig :
  ok o sig → holds (add_partial Share (mkPSM sig root o v) c) o.
Proof.
  intros Hok. pose proof (valid_copy _ _ _ _ Hok) as Hcopy.
  assert (Hfresh : ∀ c, GetSignatures v root c !! o = None → holds (AddSignature (mkPSM sig root o v) c) o).
  { intros c' Hnone. exists sig. split; [|done]. rewrite AddSignature_sigs.
    cbn [psm_ValidatorIndex psm_Signer psm_SigningRoot psm_PartialSignature]; cbv zeta.
    by rewrite decide_True, Hnone, Hcopy, lookup_insert_eq by done. }
  unfold add_partial, resolveDuplicateSignature.
  cbn [psm_ValidatorIndex psm_Signer psm_SigningRoot psm_PartialSignature].
  rewrite HasSignature_sigs, Hshare, GetSignature_sigs, Hok.
  assert (Hrem : GetSignatures v root (Remove v o root c) !! o = None).
  { rewrite Remove_sigs, decide_True by done. apply lookup_delete_eq. }
  destruct (GetSignatures v root c !! o) as [old|] eqn:Hold; cbn; [|by apply Hfresh].
  destruct (verifyBeaconPartialSignature o old root (sh_Committee share)) as [[]| |] eqn:Hv;
    [by exists old|by apply Hfresh..].
Qed.

Lemma fall_back_one_eq c u sig :
  fall_back_one root (sh_Committee share) v c (u, sig) = if decide (ok u sig) then c else Remove v u root c.
Proof.
  unfold fall_back_one; cbn [fst snd]. destruct (decide (ok u sig)) as [Hok|Hno]; [by rewrite Hok|].
  unfold valid in Hno. by destruct (verifyBeaconPartialSignature _ _ _ _) as [[]| |].
Qed.

Lemma fall_back_lookup l c o :
  GetSignatures v root (foldl (fall_back_one root (sh_Committee share) v) c l) !! o =
  if decide (Exists (λ e, e.1 = o ∧ ¬ ok e.1 e.2) l) then None else GetSignatures v root c !! o.
Proof.
  revert c. induction l as [|[u sig] l IH]; intros c; cbn [foldl].
  { by rewrite decide_False by (by intros ?%Exists_nil). }
  rewrite IH, fall_back_one_eq. destruct (decide (Exists _ l)) as [He|He].
  { by rewrite decide_True by (by apply Exists_cons_tl). }
  destruct (decide (ok u sig)) as [Hok|Hno].
  - rewrite decide_False; [done|]. rewrite Exists_cons. naive_solver.
  - rewrite Remove_sigs, decide_True by done. destruct (decide (u = o)) as [->|Hne].
    + rewrite lookup_delete_eq, decide_True; [done|]. by apply Exists_cons_hd.
    + rewrite lookup_delete_ne, decide_False; [done| |done]. rewrite Exists_cons. naive_solver.
Qed.

Lemma fall_back_quorum l c :
  psc_Quorum (foldl (fall_back_one root (sh_Committee share) v) c l) = psc_Quorum c.
Proof.
  revert c. induction l as [|e l IH]; intros c; cbn [foldl]; [done|]. rewrite IH.
  unfold fall_back_one. destruct (verifyBeaconPartialSignature _ _ _ _); by rewrite ?Quorum_Remove.
Qed.

(** Falling back keeps exactly the valid signatures. *)
Lemma fall_back_sigs c :
  GetSignatures v root (FallBackAndVerifyEachSignature root (sh_Committee share) v c) =
  filter (λ e, ok e.1 e.2) (GetSignatures v root c).
Proof.
  apply map_eq. intros o. unfold FallBackAndVerifyEachSignature. rewrite fall_back_lookup.
  destruct (decide _) as [He|He]; symmetry.
  - apply Exists_exists in He as ([u sig] & Hin & [= ->] & Hno). apply elem_of_map_to_list in Hin.
    apply map_lookup_filter_None. right. intros sig' Hsig'. cbn in *. naive_solver.
  - destruct (GetSignatures v root c !! o) as [sig|] eqn:Hsig; [|by apply map_lookup_filter_None; left].
    apply map_lookup_filter_Some. split; [done|]. destruct (decide (ok o sig)) as [|Hno]; [done|].
    destruct He. apply Exists_exists. exists (o, sig). by rewrite elem_of_map_to_list.
Qed.
End one_root.

(** *** Reconstruction *)
Lemma parse_total l : parse_signatures l ≠ Panic.
Proof.
  induction l as [|[o sig] l IH]; [done|]. cbn. destruct (SetDecString _); [|done]. cbn.
  unfold DeserializeSign. destruct (sig_Deserialize sig); [|done]. cbn.
  by destruct (parse_signatures l) as [[]| |].
Qed.
Lemma ReconstructBeaconSig_total c root vpk idx : ReconstructBeaconSig c root vpk idx ≠ Panic.
Proof.
  unfold ReconstructBeaconSig, ReconstructSignature, ReconstructSignatures, VerifyReconstructedSignature,
    DeserializeBLSPublicKey.
  destruct (root_sigs c idx root) as [m|]; [|done].
  pose proof (parse_total (map_to_list m)). destruct (parse_signatures _) as [[ids sigs]| |]; [|done..]. cbn.
  destruct (Recover sigs ids) as [s|]; [|done]. cbn. destruct (pk_Deserialize vpk) as [pk|]; [|done].
  cbn. by destruct (VerifyByte s pk root).
Qed.

Section reconstruct.
Context (share : SSVShare) (root : bytes).
Abbreviation v := (sh_ValidatorIndex share).
Abbreviation ok := (valid (sh_Committee share) root).
Definition all_valid (c : PartialSigContainer) : Prop := map_Forall ok (GetSignatures v root c).

Lemma reconstruct_all_valid c :
  ThresholdKeys (psc_Quorum c) share → 1 ≤ psc_Quorum c → all_valid c → (HasQuorum v root c).1 = true →
  ∃ sig, ReconstructBeaconSig c root (sh_ValidatorPubKey share) v = Ok sig.
Proof.
  intros Hkeys Hpos Hall Hq. rewrite HasQuorum_sigs, Z.leb_le in Hq.
  unfold ReconstructBeaconSig, ReconstructSignature. unfold all_valid, GetSignatures in *.
  destruct (root_sigs c v root) as [m|]; cbn in Hq; [|rewrite map_size_empty in Hq; lia]. cbn in Hall.
  assert (Hl : Forall (λ e, ok e.1 e.2) (map_to_list m)) 
    by (apply Forall_forall; intros [o sig] Hin%elem_of_map_to_list; by apply Hall).
  destruct (parse_valid _ _ _ _ Hkeys Hl) as (entries & Hp & Hos & Hent).
  destruct (tk_recover _ _ Hkeys root entries) as (s & vpk & Hrec & Hvpk & Hver); [| |exact Hent|].
  { rewrite Hos. apply NoDup_fst_map_to_list. }
  { apply (f_equal length) in Hos. rewrite !length_fmap in Hos. rewrite Hos.
    by rewrite length_map_to_list. }
  unfold ReconstructSignatures. rewrite Hp. cbn. rewrite Hrec. cbn.
  unfold VerifyReconstructedSignature, DeserializeBLSPublicKey. rewrite Hvpk. cbn. rewrite Hver. cbn.
  by eexists.
Qed.

Lemma fall_back_size c :
  size (GetSignatures v root (FallBackAndVerifyEachSignature root (sh_Committee share) v c))
  = size (GetSignatures v root c) → all_valid c.
Proof.
  rewrite fall_back_sigs. intros Hsize o sig Hsig.
  assert (Heq : filter (λ e, ok e.1 e.2) (GetSignatures v root c) = GetSignatures v root c).
  { apply map_subseteq_size_eq; [apply map_filter_subseteq|lia]. }
  rewrite <- Heq in Hsig. by apply map_lookup_filter_Some in Hsig as [_ ?].
Qed.

Lemma fall_back_all_valid c :
  all_valid (FallBackAndVerifyEachSignature root (sh_Committee share) v c).
Proof. intros o sig. rewrite fall_back_sigs. by intros [_ ?]%map_lookup_filter_Some. Qed.

Lemma fall_back_holds c o :
  holds v share root c o →
  holds v share root (FallBackAndVerifyEachSignature root (sh_Committee share) v c) o.
Proof.
  intros (sig & Hsig & Hok). exists sig. split; [|done]. rewrite fall_back_sigs.
  by apply map_lookup_filter_Some.
Qed.

(** What a call at quorum returns. *)
Lemma reconstructQuorumSig_outcomes c phase c' res :
  ThresholdKeys (psc_Quorum c) share → 1 ≤ psc_Quorum c →
  reconstructQuorumSig c root share phase = (c', res) →
  psc_Quorum c' = psc_Quorum c ∧ (∀ o, holds v share root c o → holds v share root c' o) ∧
  ((∃ sig, res = Ok sig ∧ signs share root sig) ∨
   (∃ e, res = Err (RRecoverableReconstruct e) ∧ (HasQuorum v root c').1 = false ∧ all_valid c')).
Proof.
  intros Hkeys Hpos Hrun. unfold reconstructQuorumSig in Hrun. cbn [reconstruct_loop] in Hrun.
  destruct (ReconstructBeaconSig c root (sh_ValidatorPubKey share) v) as [sig|e|] eqn:Hr.
  { injection Hrun as <- <-. split_and!; [done..|]. left. eexists. split; [done|].
    by eapply ReconstructBeaconSig_signs. }
  2: { by apply ReconstructBeaconSig_total in Hr. }
  set (c1 := FallBackAndVerifyEachSignature root (sh_Committee share) v c) in *.
  assert (Hquorum : psc_Quorum c1 = psc_Quorum c) by apply fall_back_quorum.
  assert (Hkeep : ∀ o, holds v share root c o → holds v share root c1 o) by apply fall_back_holds.
  assert (Hall : all_valid c1) by apply fall_back_all_valid.
  destruct (HasQuorum v root c1).1 eqn:Hq; cbn [negb] in Hrun.
  2: { injection Hrun as <- <-. split_and!; [done..|]. right. by eexists. }
  destruct (Nat.eqb_spec (size (GetSignatures v root c1)) (size (GetSignatures v root c))) as [Hsize|Hsize].
  { exfalso. apply fall_back_size in Hsize as Hv.
    assert (Hq0 : (HasQuorum v root c).1 = true) by (rewrite HasQuorum_sigs, <- Hsize, <- Hquorum; exact Hq).
    destruct (reconstruct_all_valid c) as [sig Hsig]; [done..|]. congruence. }
  destruct (reconstruct_all_valid c1) as [sig Hsig]; [by rewrite Hquorum|by rewrite Hquorum|done..|].
  destruct (size (GetSignatures v root c)) as [|n] eqn:Hn.
  { apply map_size_empty_inv in Hn. destruct Hsize. unfold c1.
    by rewrite fall_back_sigs, Hn, map_filter_empty, map_size_empty. }
  cbn [reconstruct_loop] in Hrun. rewrite Hsig in Hrun. injection Hrun as <- <-.
  split_and!; [done..|]. left. eexists. split; [done|]. by eapply ReconstructBeaconSig_signs.
Qed.

Lemma reconstruct_loop_ends fuel phase c :
  (size (GetSignatures v root c) < fuel)%nat → (reconstruct_loop fuel root share phase c).2 ≠ Panic.
Proof.
  revert c. induction fuel as [|fuel IH]; intros c Hf; [lia|]. cbn [reconstruct_loop].
  destruct (ReconstructBeaconSig _ _ _ _) as [sig|e|] eqn:Hr;
    [done| |by apply ReconstructBeaconSig_total in Hr].
  destruct (negb _); [done|]. destruct (Nat.eqb_spec (size (GetSignatures v root
    (FallBackAndVerifyEachSignature root (sh_Committee share) v c))) (size (GetSignatures v root c)))
    as [|Hne]; [done|].
  apply IH. rewrite fall_back_sigs in *. pose proof (map_subseteq_size _ _ (map_filter_subseteq
    (λ e, ok e.1 e.2) (GetSignatures v root c))). lia.
Qed.
End reconstruct.
End collecting.

(** C19. The loop of the reconstruction ends: whatever the BLS library returns, a call makes
    at most one turn more than there are signatures, and returns. *)
Theorem reconstruct_ends `{BLS} c root share phase :
  (reconstructQuorumSig c root share phase).2 ≠ Panic.
Proof. apply reconstruct_loop_ends. lia. Qed.

(** Reconstruction at quorum: for a share whose keys are threshold shares of the
    validator's key, the call returns a signature valid under the validator's key, or the
    error that a later signature can cure, after which the root is below quorum and only
    valid signatures are left; it never fails for good, and no valid signature is lost. *)
Theorem reconstruct_outcomes `{BLSLaws} c root share phase :
  ThresholdKeys (psc_Quorum c) share → 1 ≤ psc_Quorum c →
  ∃ c' res, reconstructQuorumSig c root share phase = (c', res) ∧
  (∀ o, holds (sh_ValidatorIndex share) share root c o → holds (sh_ValidatorIndex share) share root c' o) ∧
  ((∃ sig, res = Ok sig ∧ signs share root sig) ∨
   (∃ e, res = Err (RRecoverableReconstruct e) ∧ (HasQuorum (sh_ValidatorIndex share) root c').1 = false ∧
         all_valid share root c')).
Proof.
  intros Hkeys Hpos. destruct (reconstructQuorumSig c root share phase) as [c' res] eqn:Hr.
  destruct (reconstructQuorumSig_outcomes share root c phase c' res) as (_ & ? & ?); [done..|].
  by exists c', res.
Qed.
