(* ===== verification/ExitProps.v ===== *)
(** * Voluntary exits reach the beacon node

    The voluntary exit runner over any sequence of packets: one submission, with a valid
    signature, once a quorum of operators has sent valid ones; and what happens when the
    node failed to send its own. *)

From stdpp Require Import base list sorting gmap numbers strings.
From Stdlib Require Import Strings.Byte.
From S2P Require Import Prelude SpecTypes Network Subnets Share ValState PartialSig Runner.
From S2P Require Import RunnerProps.
Open Scope string_scope.
Open Scope list_scope.
Open Scope Z_scope.

(** ** Roots of a packet *)
#[global] Instance root_le_total : Total root_le.
Proof.
  intros a. unfold root_le. induction a as [|x a IH]; intros [|y b]; [by left|by left|by right|]. cbn.
  destruct (N.ltb_spec (Byte.to_N x) (Byte.to_N y)); [by left|].
  destruct (N.ltb_spec (Byte.to_N y) (Byte.to_N x)); [by right|].
  replace (Byte.to_N x) with (Byte.to_N y) by lia. rewrite N.eqb_refl. cbn. apply IH.
Qed.
#[global] Instance root_le_trans : Transitive root_le.
Proof.
  intros a. unfold root_le. induction a as [|x a IH]; intros [|y b] [|z c]; try done. cbn.
  rewrite !orb_true_iff, !andb_true_iff, !N.ltb_lt, !N.eqb_eq.
  intros [Hxy|[Hxy Hab]] [Hyz|[Hyz Hbc]]; [left; lia..|right]. split; [lia|by apply (IH b)].
Qed.
#[global] Instance root_le_antisym : AntiSymm (=) root_le.
Proof.
  intros a. unfold root_le. induction a as [|x a IH]; intros [|y b]; try done. cbn.
  rewrite !orb_true_iff, !andb_true_iff, !N.ltb_lt, !N.eqb_eq.
  intros [|[Hxy Hab]] [|[Hyx Hba]]; try (exfalso; lia).
  apply (f_equal Byte.of_N) in Hxy. rewrite !Byte.of_to_N in Hxy. injection Hxy as ->.
  by rewrite (IH b Hab Hba).
Qed.

Lemma sort_roots_eq l k : sort_roots l = sort_roots k ↔ l ≡ₚ k.
Proof.
  unfold sort_roots. split.
  - intros Heq. rewrite <- (merge_sort_Permutation root_le l), Heq. apply merge_sort_Permutation.
  - intros Hp. apply (StronglySorted_unique root_le); [apply (StronglySorted_merge_sort root_le)..|].
    by rewrite !merge_sort_Permutation.
Qed.

Section checks.
Context `{RunnerEnv}.

Lemma cover_roots_ok signingRoots covered roots :
  (∃ covered', cover_roots signingRoots covered roots = Ok covered') ↔
  NoDup roots ∧ (∀ r, r ∈ roots → r ∈ signingRoots.*1 ∧ r ∉ covered).
Proof.
  revert covered. induction roots as [|r roots IH]; intros covered; cbn [cover_roots].
  { split; [|by eexists]. intros _. split; [constructor|]. by intros r ?%not_elem_of_nil. }
  destruct (bool_decide_reflect (r ∈ signingRoots.*1)) as [Hr|Hr].
  2: { split; [by intros [? [=]]|]. intros [_ Hall]. by destruct (Hall r (list_elem_of_here _ _)). }
  destruct (bool_decide_reflect (r ∈ covered)) as [Hc|Hc]; cbn.
  { split; [by intros [? [=]]|]. intros [_ Hall]. by destruct (Hall r (list_elem_of_here _ _)). }
  rewrite IH, NoDup_cons. setoid_rewrite elem_of_cons. set_solver.
Qed.
Lemma cover_roots_covered signingRoots covered roots covered' :
  cover_roots signingRoots covered roots = Ok covered' → covered' = list_to_set roots ∪ covered.
Proof.
  revert covered. induction roots as [|r roots IH]; intros covered; cbn [cover_roots].
  { intros [= <-]. set_solver. }
  destruct (bool_decide _); [|done]. destruct (bool_decide (r ∈ covered)); [done|]. cbn.
  intros ->%IH. set_solver.
Qed.

Lemma signing_roots_length {O} (sign : O → rres bytes) objs roots :
  signing_roots sign objs = Ok roots → length roots = length objs.
Proof.
  revert roots. induction objs as [|o objs IH]; cbn; intros roots; [by intros [= <-]|].
  destruct (sign o); cbn; [|done..]. destruct (signing_roots sign objs) as [rs| |]; cbn; [|done..].
  intros [= <-]. cbn. by rewrite (IH rs).
Qed.
Lemma resolve_length {O} (compute : O → bytes → rres bytes) epoch expected roots :
  resolvePostConsensusSigningRoots compute epoch expected = Ok roots → length roots = length expected.
Proof.
  revert roots. induction expected as [|e expected IH]; cbn; intros roots; [by intros [= <-]|].
  destruct (DomainData _ _) as [d| |]; cbn; [|done..]. destruct (compute _ _); cbn; [|done..].
  destruct (resolvePostConsensusSigningRoots _ _ _) as [rs| |]; cbn; [|done..].
  intros [= <-]. cbn. by rewrite (IH rs).
Qed.

(** The slot of the duty is [slot], in the epoch [epoch]. *)
Definition duty_epoch (b : BaseRunner) (epoch : Epoch) : Prop :=
  ∃ s slot, br_State b = Some s ∧ DutySlot (CurrentDuty s) = Ok slot ∧
            EstimatedEpochAtSlot (n_Beacon (br_NetworkConfig b)) slot = Ok epoch.

Lemma verifyExpectedRoot_iff b epoch msgs objs domain d expected :
  duty_epoch b epoch → DomainData epoch domain = Ok d →
  signing_roots (λ o, ComputeETHSigningRoot o d) objs = Ok expected →
  verifyExpectedRoot msgs objs domain b = Ok tt ↔ psm_SigningRoot <$> ps_Messages msgs ≡ₚ expected.
Proof.
  intros (s & slot & Hs & Hslot & He) Hd Hexp. unfold verifyExpectedRoot.
  rewrite Hs, Hslot; cbn [mbind result_bind]. rewrite He; cbn [of_spec mbind result_bind]. rewrite Hd.
  cbn [wrap_err mbind result_bind]. rewrite Hexp. cbn [mbind result_bind]. split.
  - intros Hok. inv_ok. destruct (bool_decide_reflect (sort_roots expected ≠
      sort_roots (psm_SigningRoot <$> ps_Messages msgs))) as [|Heq]; [done|].
    symmetry. apply sort_roots_eq. by apply dec_stable in Heq.
  - intros Hp. apply signing_roots_length in Hexp as Hlen. apply Permutation_length in Hp as Hlen'.
    rewrite length_fmap in Hlen'. rewrite <- Hlen, Hlen', Nat.eqb_refl. cbn.
    rewrite bool_decide_eq_false_2; [done|]. intros Hne. apply Hne. apply sort_roots_eq. by symmetry.
Qed.
End checks.

(** Roots of a packet: before consensus a packet is accepted exactly when its signing
    roots are the expected ones, in any order; after consensus exactly when no root
    occurs twice, every root is expected and every required root is there. *)
Theorem packet_roots_exact `{RunnerEnv} {O} (compute : O → bytes → rres bytes) b epoch msgs :
  duty_epoch b epoch →
  (∀ objs domain d expected,
     DomainData epoch domain = Ok d → signing_roots (λ o, ComputeETHSigningRoot o d) objs = Ok expected →
     verifyExpectedRoot msgs objs domain b = Ok tt ↔ psm_SigningRoot <$> ps_Messages msgs ≡ₚ expected) ∧
  (∀ expected roots,
     resolvePostConsensusSigningRoots compute epoch expected = Ok roots →
     verifyExpectedPostConsensusRoots compute msgs expected b = Ok tt ↔
     let sent := psm_SigningRoot <$> ps_Messages msgs in
     NoDup sent ∧ sent ⊆ roots.*1 ∧ ∀ r, (r, false) ∈ roots → r ∈ sent).
Proof.
  intros He. split; [intros; by eapply verifyExpectedRoot_iff|].
  intros expected roots Hres. destruct He as (s & slot & Hs & Hslot & He).
  unfold verifyExpectedPostConsensusRoots.
  rewrite Hs, Hslot; cbn [mbind result_bind]. rewrite He; cbn [of_spec mbind result_bind]. rewrite Hres.
  cbn [mbind result_bind]. set (sent := psm_SigningRoot <$> ps_Messages msgs). cbv zeta.
  assert (Hcov : (∃ covered', cover_roots roots ∅ sent = Ok covered') ↔ NoDup sent ∧ sent ⊆ roots.*1)
    by (rewrite cover_roots_ok; set_solver).
  assert (Hlen : NoDup sent ∧ sent ⊆ roots.*1 → (length expected <? length (ps_Messages msgs))%nat = false).
  { intros [Hnd Hsub]. apply Nat.ltb_ge. rewrite <- (resolve_length _ _ _ _ Hres).
    rewrite <- (length_fmap psm_SigningRoot (ps_Messages msgs)), <- (length_fmap fst roots).
    by apply submseteq_length, NoDup_submseteq. }
  assert (Hreq : ∀ covered, cover_roots roots ∅ sent = Ok covered →
    existsb (λ sr, negb sr.2 && negb (bool_decide (sr.1 ∈ covered))) roots = false ↔
    ∀ r, (r, false) ∈ roots → r ∈ sent).
  { intros covered ->%cover_roots_covered. rewrite <- not_true_iff_false, existsb_exists. split.
    - intros Hno r Hr. destruct (decide (r ∈ sent)) as [|Hout]; [done|]. destruct Hno.
      exists (r, false). rewrite <- list_elem_of_In. split; [done|]. cbn.
      rewrite bool_decide_eq_false_2; [done|set_solver].
    - intros Hall ([r opt] & Hin & Hb). apply list_elem_of_In in Hin. cbn in Hb.
      destruct opt; [done|]. rewrite bool_decide_eq_true_2 in Hb; [done|]. set_solver. }
  split.
  - intros Hok. inv_ok. destruct (cover_roots roots ∅ sent) as [covered| |] eqn:Hc; inv_ok.
    destruct (proj1 Hcov) as [? ?]; [by eexists|]. split_and!; [done..|]. by eapply Hreq.
  - intros (Hnd & Hsub & Hall). rewrite Hlen by done. cbn.
    destruct (proj2 Hcov) as [covered Hc]; [done|]. rewrite Hc. cbn.
    by rewrite (proj2 (Hreq covered Hc) Hall).
Qed.

(** ** The runner over a sequence of packets *)
Section exit.
Context `{BLSLaws} `{RunnerEnv}.
Context (share : SSVShare) (duty : ValidatorDuty) (net : NetCfg) (quorum : Z).
Abbreviation v := (sh_ValidatorIndex share).

Definition deliver (r : VoluntaryExitRunner) (packets : list PartialSignatureMessages) : VoluntaryExitRunner :=
  foldl (λ r p, (ProcessPreConsensus p r).1) r packets.

(** The exit of the duty and the root the operators sign. *)
Record ExitRoot (exit : VoluntaryExit) (root : bytes) : Prop := {
  er_exit : exit = mkVoluntaryExit (ve_Epoch exit) (vd_ValidatorIndex duty);
  er_epoch : EstimatedEpochAtSlot (n_Beacon net) (vd_Slot duty) = Ok (ve_Epoch exit);
  er_root : ∃ d, DomainData (ve_Epoch exit) DomainVoluntaryExit = Ok d ∧ ComputeETHSigningRoot exit d = Ok root;
}.

Context (exit : VoluntaryExit) (root : bytes) (Hroot : ExitRoot exit root).
Context (Hkeys : ThresholdKeys quorum share) (Hquorum : 1 ≤ quorum).

(** A packet with a valid signature of an operator of the committee. *)
Definition good (p : PartialSignatureMessages) (o : OperatorID) : Prop :=
  ∃ ty sig, p = mkPSMs ty (vd_Slot duty) [mkPSM sig root o v] ∧ Messages_Validate p = Ok tt ∧
            valid (sh_Committee share) root o sig.

Definition base_of (c c2 : PartialSigContainer) (succeeded armed : bool) : BaseRunner :=
  mkBaseRunner (Some (mkRunnerState c c2 (DValidator (Some duty)) succeeded)) {[v := share]} net
    RoleVoluntaryExit armed.

(** Below quorum, with the signatures of the operators in [D]. *)
Definition collecting (ex : option VoluntaryExit) (armed : bool) (lg : list Effect) (D : OperatorID → Prop)
    (r : VoluntaryExitRunner) : Prop :=
  ∃ c c2, r = mkVERunner (base_of c c2 false armed) ex lg ∧ psc_Quorum c = quorum ∧
          (HasQuorum v root c).1 = false ∧ ∀ o, D o → holds v share root c o.

Lemma share_of c c2 succeeded armed : GetShare (base_of c c2 succeeded armed) = Some share.
Proof. unfold GetShare, base_of. cbn [br_Share]. by rewrite map_to_list_singleton. Qed.

Lemma validate_iff p c c2 armed :
  ValidatePreConsensusMsg p (base_of c c2 false armed) = Ok tt ↔
  validatePartialSigMsg p (vd_Slot duty) (base_of c c2 false armed) = Ok tt ∧
  ∃ m, ps_Messages p = [m] ∧ psm_SigningRoot m = root.
Proof.
  destruct Hroot as [He Hep (d & Hd & Hr)].
  assert (Hv : verifyExpectedRoot p [exit] DomainVoluntaryExit (base_of c c2 false armed) = Ok tt ↔
               psm_SigningRoot <$> ps_Messages p ≡ₚ [root]).
  { eapply verifyExpectedRoot_iff; [|exact Hd|].
    - eexists _, _. split; [done|]. split; [done|]. exact Hep.
    - cbn. by rewrite Hr. }
  unfold ValidatePreConsensusMsg, base_of in *. cbn [br_State Succeeded CurrentDuty DutySlot
    fail_if mbind result_bind br_RunnerRoleType].
  rewrite decide_False by done. unfold expectedPreConsensusRootsAndDomain, currentValidatorDuty,
    calculateVoluntaryExit. cbn [br_State CurrentDuty validatorDutyFromDuty wrap_err mbind result_bind
    br_NetworkConfig]. rewrite Hep. cbn [of_spec mbind result_bind wrap_err]. rewrite <- He.
  destruct (validatePartialSigMsg _ _ _) as [[]| |]; [|naive_solver..]. cbn [mbind result_bind].
  rewrite Hv. split.
  - intros Hp. split; [done|]. destruct (ps_Messages p) as [|m [|m' l]]; apply Permutation_length in Hp as Hl;
      try done. exists m. split; [done|]. by apply Permutation_singleton_r in Hp as [= ->].
  - by intros (_ & m & -> & <-).
Qed.

Lemma good_accepted p o c c2 armed :
  good p o → ValidatePreConsensusMsg p (base_of c c2 false armed) = Ok tt.
Proof.
  intros (ty & sig & -> & Hval & Hok). apply validate_iff. split; [|by eexists].
  unfold validatePartialSigMsg. rewrite Hval, share_of. cbn. rewrite Z.ltb_irrefl. cbn.
  apply valid_inv in Hok as (m & pk & s & Hm & Ho & _).
  assert (Hex : existsb (λ operator, sm_Signer operator =? o) (sh_Committee share) = true).
  { apply existsb_exists. exists m. rewrite <- list_elem_of_In, Z.eqb_eq. done. }
  by rewrite Hex.
Qed.

(** The runner after a submission of [ex]. *)
Definition submitted (ex : option VoluntaryExit) (armed : bool) (lg : list Effect) (c c2 : PartialSigContainer)
    (sig : bytes) : VoluntaryExitRunner * rres unit :=
  let r := mkVERunner (base_of c c2 false armed) ex (lg ++ [SubmittedExit ex sig]) in
  fail_on_error (λ r, match wrap_err "could not submit voluntary exit" (SubmitVoluntaryExit ex sig), ex with
                      | Ok _, Some _ => (markDutySucceeded r, Ok tt)
                      | Ok _, None => (r, Panic)
                      | Err e, _ => (r, Err e)
                      | Panic, _ => (r, Panic)
                      end) r.

Lemma submit_exit_outcomes ex armed lg c c2 r' res :
  psc_Quorum c = quorum →
  fail_on_error (submit_exit [root]) (mkVERunner (base_of c c2 false armed) ex lg) = (r', res) →
  collecting ex armed lg (holds v share root c) r' ∨
  ∃ c' sig, signs share root sig ∧ (r', res) = submitted ex armed lg c' c2 sig.
Proof.
  intros Hq Hrun. unfold fail_on_error, submit_exit in Hrun.
  unfold mbind at 1 in Hrun. unfold st_bind at 1, st_get in Hrun.
  cbn [ve_Base voluntaryExit] in Hrun. rewrite share_of in Hrun.
  cbn [br_State base_of PreConsensusContainer] in Hrun.
  destruct (reconstructQuorumSig c root share "pre-consensus") as [c' sig] eqn:Hrec.
  destruct (reconstructQuorumSig_outcomes share root c "pre-consensus" c' sig) as (Hq' & Hkeep & Hout);
    [by rewrite Hq|by rewrite Hq|done|].
  destruct Hout as [(bs & -> & Hsigns)|(e & -> & Hbelow & _)].
  - right. exists c', bs. split; [done|]. rewrite <- Hrun. unfold submitted, fail_on_error, mbind, st_bind,
      st_modify, st_lift. cbn. by destruct (SubmitVoluntaryExit ex bs); [destruct ex|..].
  - left. cbn in Hrun. injection Hrun as <- <-. exists c', c2. by rewrite Hq'.
Qed.

Lemma process_step ex armed lg D r p r' res :
  collecting ex armed lg D r → ProcessPreConsensus p r = (r', res) →
  collecting ex armed lg (λ o, D o ∨ good p o) r' ∨
  ∃ c' c2 sig, signs share root sig ∧ (r', res) = submitted ex armed lg c' c2 sig.
Proof.
  intros (c & c2 & -> & Hq & Hbelow & HD) Hrun.
  unfold ProcessPreConsensus, basePreConsensusMsgProcessing, mbind, st_bind, st_get, st_lift in Hrun.
  cbn [ve_Base] in Hrun.
  destruct (ValidatePreConsensusMsg p (base_of c c2 false armed)) as [[]|e|] eqn:Hval.
  2, 3: injection Hrun as <- <-; left; exists c, c2; (split_and!; [done..|]);
    intros o [Ho|Hg]; [by apply HD|]; eapply good_accepted in Hg; rewrite Hval in Hg; done.
  apply validate_iff in Hval as (_ & m & Hm & Hmr).
  cbn [wrap_err base_of br_State br_Share PreConsensusContainer] in Hrun.
  unfold basePartialSigMsgProcessing in Hrun. rewrite Hm in Hrun. cbn [foldl] in Hrun.
  unfold process_partial in Hrun. rewrite Hmr in Hrun.
  set (c' := add_partial {[v := share]} m c) in *.
  assert (Hshare : ({[v := share]} : gmap ValidatorIndex SSVShare) !! v = Some share) by apply lookup_singleton_eq.
  assert (Hq' : psc_Quorum c' = quorum) by (by rewrite <- Hq; apply add_partial_quorum).
  assert (HD' : ∀ o, D o ∨ good p o → holds v share root c' o).
  { intros o [Ho|(ty & sig & -> & _ & Hok)].
    - apply (add_partial_keeps _ _ _ _ Hshare). by apply HD.
    - cbn in Hm. injection Hm as <-. by apply (add_partial_delivers _ _ _ _ Hshare). }
  assert (Hno : negb (HasQuorum (psm_ValidatorIndex m) root c).1 && (HasQuorum (psm_ValidatorIndex m) root c').1
                = false → (HasQuorum v root c').1 = false).
  { destruct (decide (psm_ValidatorIndex m = v)) as [->|Hne]; [by rewrite Hbelow|]. intros _.
    rewrite HasQuorum_sigs in *. unfold c'. rewrite add_partial_other, add_partial_quorum by done. exact Hbelow. }
  destruct (HasQuorum (psm_ValidatorIndex m) root c') as [q signers]. cbn [fst] in Hno.
  destruct (negb _ && q).
  - unfold st_modify, mret, st_ret in Hrun. cbn beta iota in Hrun.
    rewrite insert_empty, map_to_list_singleton in Hrun.
    change (fail_on_error (submit_exit [root]) (mkVERunner (base_of c' c2 false armed) ex lg) = (r', res)) in Hrun.
    apply submit_exit_outcomes in Hrun as [(c3 & c4 & -> & ? & ? & Hkeep)|(c3 & sig & Hs & Heq)]; [| |done].
    + left. exists c3, c4. split_and!; [done..|]. intros o Ho. by apply Hkeep, HD'.
    + right. by exists c3, c2, sig.
  - left. cbn in Hrun. injection Hrun as <- <-. exists c', c2. split_and!; [done..| |done]. by apply Hno.
Qed.

(** Packets up to the submission, if there is one. *)
Lemma deliver_outcomes ex armed lg D r packets :
  collecting ex armed lg D r →
  collecting ex armed lg (λ o, D o ∨ ∃ p, p ∈ packets ∧ good p o) (deliver r packets) ∨
  ∃ c c2 sig rest, signs share root sig ∧
    deliver r packets = deliver (submitted ex armed lg c c2 sig).1 rest.
Proof.
  revert D r. induction packets as [|p packets IH]; intros D r Hc.
  { left. destruct Hc as (c & c2 & ? & ? & ? & HD). exists c, c2. split_and!; [done..|].
    intros o [?|(p & Hp & _)]; [by apply HD|]. by apply not_elem_of_nil in Hp. }
  cbn. destruct (ProcessPreConsensus p r) as [r' res] eqn:Hrun.
  destruct (process_step _ _ _ _ _ _ _ _ Hc Hrun) as [Hc'|(c & c2 & sig & Hs & Heq)].
  - destruct (IH _ _ Hc') as [(c & c2 & ? & ? & ? & HD)|Hsub]; [left|by right].
    exists c, c2. split_and!; [done..|]. intros o Ho. apply HD. setoid_rewrite elem_of_cons in Ho. naive_solver.
  - right. exists c, c2, sig, packets. split; [done|]. cbn. by rewrite <- Heq.
Qed.

(** A quorum of operators is not below quorum. *)
Lemma quorum_not_collecting ex armed lg (D : OperatorID → Prop) r operators :
  NoDup operators → quorum ≤ Z.of_nat (length operators) → (∀ o, o ∈ operators → D o) →
  ¬ collecting ex armed lg D r.
Proof.
  intros Hnd Hlen Hall (c & c2 & _ & Hq & Hbelow & HD). rewrite HasQuorum_sigs, Z.leb_gt, Hq in Hbelow.
  assert (Hsub : list_to_set operators ⊆@{gset OperatorID} dom (GetSignatures v root c)).
  { intros o Ho%elem_of_list_to_set. destruct (HD o (Hall o Ho)) as (sig & Hsig & _).
    apply elem_of_dom. by exists sig. }
  apply subseteq_size in Hsub. rewrite size_dom, size_list_to_set in Hsub by done. lia.
Qed.


Lemma concludeDuty_log outcome reason r : ve_log r `prefix_of` ve_log (concludeDuty outcome reason r).
Proof using. unfold concludeDuty. destruct (br_dutyConcluded _); [by eexists|done]. Qed.
Lemma markDutyFailed_log e r : ve_log r `prefix_of` ve_log (markDutyFailed e r).
Proof using. unfold markDutyFailed. destruct (is_context_canceled e); [done|apply concludeDuty_log]. Qed.
Lemma markDutySucceeded_log r : ve_log r `prefix_of` ve_log (markDutySucceeded r).
Proof using. unfold markDutySucceeded. eapply transitivity; [|apply concludeDuty_log]. done. Qed.

Lemma fail_on_error_log (m : run unit) r :
  ve_log r `prefix_of` ve_log (m r).1 → ve_log r `prefix_of` ve_log (fail_on_error m r).1.
Proof using.
  intros Hp. unfold fail_on_error. destruct (m r) as [r' [a|e|]]; [done| |done].
  cbn in *. destruct (isRecoverableReconstructError e); [done|]. etrans; [done|apply markDutyFailed_log].
Qed.

Lemma submit_exit_log roots r : ve_log r `prefix_of` ve_log (submit_exit roots r).1.
Proof using.
  unfold submit_exit, mbind, st_bind, st_get, st_lift, st_modify.
  destruct roots as [|root' roots]; [done|]. destruct (br_State (ve_Base r)) as [s|]; [|done].
  destruct (GetShare (ve_Base r)) as [sh|]; [|done]. destruct (reconstructQuorumSig _ _ _ _) as [c' sig].
  destruct sig as [bs| |]; [|done..]. destruct (wrap_err _ _); [|by eexists..].
  destruct (voluntaryExit r); [|by eexists]. etrans; [|apply markDutySucceeded_log]. by eexists.
Qed.

Lemma deliver_log r packets : ve_log r `prefix_of` ve_log (deliver r packets).
Proof using.
  revert r. induction packets as [|p packets IH]; intros r; [done|]. cbn. etrans; [|apply IH].
  unfold ProcessPreConsensus. destruct (basePreConsensusMsgProcessing p r) as [r' res] eqn:Hb.
  assert (Hlog : ve_log r' = ve_log r).
  { unfold basePreConsensusMsgProcessing, mbind, st_bind, st_get, st_lift, st_modify, mret, st_ret in Hb.
    destruct (wrap_err _ _) as [[]| |]; [|by injection Hb as <- <-..].
    destruct (br_State (ve_Base r)); [|by injection Hb as <- <-].
    destruct (basePartialSigMsgProcessing _ _ _) as [[c' q] roots]. by injection Hb as <- <-. }
  rewrite <- Hlog. destruct res as [[q roots]| |]; [|done..]. destruct (negb q); [done|].
  apply fail_on_error_log, submit_exit_log.
Qed.

(** *** Starting the duty *)
Lemma broadcast_frame pk msgs r :
  ∃ l, (signAndBroadcastPartialSigMsgs pk msgs r).1 = mkVERunner (ve_Base r) (voluntaryExit r) (ve_log r ++ l).
Proof using.
  unfold signAndBroadcastPartialSigMsgs, mbind, st_bind, st_get, st_lift, st_modify.
  assert (Hid : ∃ l, r = mkVERunner (ve_Base r) (voluntaryExit r) (ve_log r ++ l))
    by (exists []; rewrite app_nil_r; by destruct r).
  destruct (of_spec _); [|done..]. destruct (wrap_err _ _); [|done..]. destruct (wrap_err _ _); [|done..].
  by eexists.
Qed.

Lemma executeDuty_frame c c2 armed ex lg r' res :
  executeDuty (DValidator (Some duty)) (mkVERunner (base_of c c2 false armed) ex lg) = (r', res) →
  ∃ l, r' = mkVERunner (base_of c c2 false armed)
              (match res with Ok _ => Some exit | _ => ex end) (lg ++ l).
Proof.
  intros Hrun. destruct Hroot as [He Hep _].
  unfold executeDuty, mbind, st_bind, st_get, st_lift, st_modify in Hrun.
  cbn [validatorDutyFromDuty ve_Base] in Hrun. rewrite share_of in Hrun.
  unfold calculateVoluntaryExit in Hrun. cbn [br_NetworkConfig base_of] in Hrun. rewrite Hep in Hrun.
  cbn [of_spec mbind result_bind wrap_err] in Hrun. rewrite <- He in Hrun.
  assert (Hid : lg = lg ++ []) by (by rewrite app_nil_r).
  destruct (wrap_err _ (signBeaconObject _ _ _ _ _)) as [msg| |];
    [|injection Hrun as <- <-; exists []; by rewrite <- Hid..].
  match type of Hrun with context [signAndBroadcastPartialSigMsgs ?pk ?ms ?r0] =>
    destruct (broadcast_frame pk ms r0) as [l Hl]; destruct (signAndBroadcastPartialSigMsgs pk ms r0) as [r1 rs]
  end.
  cbn in Hl. subst r1. exists l. by destruct rs; injection Hrun as <- <-.
Qed.


Definition exit_runner (r : VoluntaryExitRunner) : Prop :=
  ∃ s armed, ve_Base r = mkBaseRunner s {[v := share]} net RoleVoluntaryExit armed.

Lemma new_collecting ex armed lg :
  collecting ex armed lg (λ _, False)
    (mkVERunner (base_of (NewPartialSigContainer quorum) (NewPartialSigContainer quorum) false armed) ex lg).
Proof using Hquorum.
  eexists _, _. split; [done|]. split; [done|]. split; [|done]. rewrite HasQuorum_sigs. apply Z.leb_gt.
  cbn [psc_Quorum NewPartialSigContainer]. unfold GetSignatures, root_sigs, NewPartialSigContainer. cbn.
  rewrite lookup_empty. cbn. rewrite map_size_empty. lia.
Qed.

(** What a start leaves behind, whether the node's own signature was sent or not. *)
Lemma start_collecting r0 r1 res :
  exit_runner r0 → StartNewDuty (Some (DValidator (Some duty))) quorum r0 = (r1, res) →
  ShouldProcessNonBeaconDuty (DValidator (Some duty)) (ve_Base r0) = Ok tt → res ≠ Panic →
  ∃ armed, (res = Ok tt → armed = true) ∧
    collecting (match res with Ok _ => Some exit | _ => voluntaryExit r0 end) armed (ve_log r1) (λ _, False) r1.
Proof.
  intros (s & armed0 & Hbase) Hrun Hshould Hres.
  unfold StartNewDuty, baseStartNewNonBeaconDuty, mbind, st_bind, st_lift in Hrun.
  cbn [validatorDutyFromDuty] in Hrun. rewrite Hshould in Hrun.
  assert (Hb : on_base (λ b, set_concluded true
                 (set_State (Some (NewRunnerState quorum (DValidator (Some duty)))) b)) r0
          = mkVERunner (base_of (NewPartialSigContainer quorum) (NewPartialSigContainer quorum) false true)
              (voluntaryExit r0) (ve_log r0)) by (unfold on_base; by rewrite Hbase).
  rewrite Hb in Hrun. destruct (executeDuty _ _) as [r' res'] eqn:Hex.
  apply executeDuty_frame in Hex as [l ->]. destruct res' as [[]|e|]; injection Hrun as <- <-; [| |done].
  - exists true. split; [done|]. apply new_collecting.
  - unfold markDutyFailed, concludeDuty. destruct (is_context_canceled e).
    + exists true. split; [done|]. apply new_collecting.
    + exists false. split; [done|]. apply new_collecting.
Qed.
End exit.


(** C37. When the node failed to sign or to send its own signature at the start of its first
    exit duty, the runner keeps collecting those of the others, but has not stored the
    exit: with a quorum of them it submits a signed exit without a message. *)
Theorem exit_without_message `{BLSLaws} `{RunnerEnv} share duty net quorum exit root r0 r1 e packets operators :
  ExitRoot duty net exit root → ThresholdKeys quorum share → 1 ≤ quorum →
  NewVoluntaryExitRunner net {[sh_ValidatorIndex share := share]} = Ok r0 →
  StartNewDuty (Some (DValidator (Some duty))) quorum r0 = (r1, Err e) →
  NoDup operators → quorum ≤ Z.of_nat (length operators) →
  (∀ o, o ∈ operators → ∃ p, p ∈ packets ∧ good share duty root p o) →
  ∃ sig, signs share root sig ∧ SubmittedExit None sig ∈ ve_log (deliver r1 packets).
Proof.
  intros Hroot Hkeys Hquorum Hnew Hstart Hnd Hlen Hall.
  unfold NewVoluntaryExitRunner in Hnew. destruct (negb _); [done|]. cbn in Hnew. injection Hnew as <-.
  apply (start_collecting share duty net quorum exit root Hroot Hquorum) in Hstart
    as (armed & _ & Hc); [|by eexists _, _|done..].
  destruct (deliver_outcomes share duty net quorum exit root Hroot Hkeys Hquorum _ _ _ _ _ packets Hc)
    as [Hc'|(c & c2 & sig & rest & Hs & Hd)].
  { exfalso. eapply quorum_not_collecting in Hc'; [done|exact Hnd|exact Hlen|]. intros o Ho. right. by apply Hall. }
  exists sig. split; [done|]. rewrite Hd.
  eapply elem_of_prefix; [|apply deliver_log]. unfold submitted.
  eapply elem_of_prefix; [|apply fail_on_error_log]; cbn [ve_log].
  - apply elem_of_app. right. apply list_elem_of_here.
  - by destruct (wrap_err _ _).
Qed.
