(* ===== verification/ExitWitness.v ===== *)
(** * A committee that exits a validator

    A signature scheme small enough to compute with, for four operators and a quorum of
    three, and runs of the exit runner over it. *)

From stdpp Require Import base list sorting gmap numbers strings.
From Stdlib Require Import Strings.Byte.
From S2P Require Import Prelude SpecTypes Network Subnets Share ValState PartialSig Runner.
From S2P Require Import RunnerProps ExitProps.
Open Scope string_scope.
Open Scope list_scope.
Open Scope Z_scope.

(** A signature is the signer's number and the first byte of the root; the number of the
    validator is 0. *)
Definition byte_Z (b : byte) : Z := Z.of_N (Byte.to_N b).
Definition toy_sig (signer first : byte) : bytes := signer :: first :: replicate 94 x00.
Definition toy_recover (sigs : list (byte * byte)) (ids : list Z) : option (byte * byte) :=
  match sigs with
  | [] => None
  | (_, r) :: _ =>
      if (3 <=? length sigs)%nat && forallb (λ e, (byte_Z e.1.1 =? e.2) && bool_decide (e.1.2 = r)) (zip sigs ids)
      then Some (x00, r) else Some (xff, r)
  end.
#[local] Instance toy : BLS := {|
  PublicKey := byte;
  Sign := byte * byte;
  ID := Z;
  pk_Deserialize b := if (length b =? 48)%nat then head b else None;
  sig_Deserialize b := match b with
                       | s :: r :: rest => if decide (rest = replicate 94 x00) then Some (s, r) else None
                       | _ => None
                       end;
  sig_Serialize s := toy_sig s.1 s.2;
  VerifyByte s pk root := bool_decide (s.1 = pk) && bool_decide (Some s.2 = head root);
  SetDecString s := match ParseUint s with Ok n => Some n | _ => None end;
  Recover := toy_recover;
|}.

#[local] Instance toy_laws : BLSLaws.
Proof.
  split.
  - intros [|s [|r rest]] x; cbn; try done. destruct (decide _) as [->|]; [done|done].
  - intros [s r]. cbn. by rewrite decide_True.
  - intros n Hn. cbn. rewrite ParseUint_Sprint by (unfold is_u64, max_u64; lia). by eexists.
Qed.

(** ** The committee and its duty *)
Definition member (key : byte) (o : OperatorID) : ShareMember := mkShareMember (replicate 48 key) o.
Definition exit_share : SSVShare :=
  mkSSVShare 77 (replicate 48 x00) (replicate 48 x01) [member x01 1; member x02 2; member x03 3; member x04 4]
    [] [] ValidatorStateActiveOngoing 0 FarFutureEpoch [] false None None None 0.
Definition exit_net : NetCfg :=
  mkNetCfg (mkBeacon "sample" 12 32 256 512 4 16 16 [] 0 [] ∅) [x00] [x01] max_u64.
Definition exit_duty : ValidatorDuty := mkValidatorDuty 320 77.
Definition the_exit : VoluntaryExit := mkVoluntaryExit 10 77.
Definition exit_root : bytes := replicate 32 x05.

Definition sample_env (broadcasts : bool) : RunnerEnv := {|
  DomainVoluntaryExit := [x04; x00; x00; x00];
  DomainData _ domain := Ok domain;
  ComputeETHSigningRoot _ _ := Ok exit_root;
  SignBeaconObject _ _ _ _ _ := Ok (toy_sig x01 x05, exit_root);
  SignSSVMessage _ := Ok [];
  GetOperatorID := 1;
  BroadcastAtSlot _ _ := if broadcasts then Ok tt else Err (RNew "no peers");
  SubmitVoluntaryExit _ _ := Ok tt;
  Messages_Validate m := match ps_Messages m with [] => Err (RNew "no messages") | _ => Ok tt end;
  Messages_Encode _ := Ok [];
  NewValidatorMsgID _ _ _ := [];
|}.

Lemma toy_recover_ok x sigs ids :
  (3 ≤ S (length sigs))%nat → Forall (λ e, byte_Z e.1.1 = e.2 ∧ e.1.2 = x.2) (zip (x :: sigs) ids) →
  toy_recover (x :: sigs) ids = Some (x00, x.2).
Proof.
  intros Hlen Hall. destruct x as [s r]. unfold toy_recover.
  rewrite (proj2 (Nat.leb_le 3 (length ((s, r) :: sigs))) Hlen).
  assert (Hf : forallb (λ e, (byte_Z e.1.1 =? e.2) && bool_decide (e.1.2 = r)) (zip ((s, r) :: sigs) ids) = true);
    [|by rewrite Hf].
  apply forallb_forall. intros e He%list_elem_of_In. rewrite Forall_forall in Hall.
  destruct (Hall e He) as [H1 H2]. cbn in H2. by rewrite H1, Z.eqb_refl, bool_decide_eq_true_2.
Qed.

Lemma toy_keys : ThresholdKeys 3 exit_share.
Proof.
  split; [repeat constructor; cbn; lia|]. intros root entries _ Hlen Hall.
  assert (Hent : Forall (λ e, byte_Z e.2.1 = e.1.2 ∧ Some e.2.2 = head root) entries).
  { eapply Forall_impl; [exact Hall|]. intros [[o id] [s r]] (Hid & m & pk & Hm & Ho & Hpk & Hver). cbn in *.
    apply andb_true_iff in Hver as [Hs Hr]. apply bool_decide_eq_true in Hs, Hr. subst s. split; [|done].
    repeat (apply elem_of_cons in Hm as [->|Hm]; [cbn in *; subst o; injection Hpk as <-;
      vm_compute in Hid; injection Hid as <-; reflexivity|]).
    by apply not_elem_of_nil in Hm. }
  destruct entries as [|[[o id] [s r]] entries]; [cbn in Hlen; lia|].
  inversion_clear Hent as [|?? [Hs Hr] Hrest]. cbn in Hs, Hr.
  exists (x00, r), x00. split; [|split; [done|]].
  - change (toy_recover ((s, r) :: entries.*2) (id :: entries.*1.*2) = Some (x00, r)).
    apply (toy_recover_ok (s, r) entries.*2 (id :: entries.*1.*2)).
    + cbn [length] in *. rewrite length_fmap. lia.
    + cbn. constructor; [done|]. clear -Hrest Hr.
      induction Hrest as [|[[o' id'] [s' r']] l [Hs' Hr'] _ IH]; [constructor|]. cbn in *.
      constructor; [|done]. cbn. split; [done|congruence].
  - apply andb_true_iff. split; by apply bool_decide_eq_true_2.
Qed.

Lemma sample_exit_root up : @ExitRoot (sample_env up) exit_duty exit_net the_exit exit_root.
Proof. split; [done..|]. by exists [x04; x00; x00; x00]. Qed.

(** ** Packets: operator 2 sends garbage first *)
Definition exit_packet (o : OperatorID) (sig : bytes) : PartialSignatureMessages :=
  mkPSMs VoluntaryExitPartialSig 320 [mkPSM sig exit_root o 77].
Definition exit_packets : list PartialSignatureMessages :=
  [exit_packet 2 [xff]; exit_packet 1 (toy_sig x01 x05); exit_packet 4 (toy_sig x02 x05);
   exit_packet 3 (toy_sig x03 x05); exit_packet 2 (toy_sig x02 x05)].

Lemma good_packets up o : o ∈ [1; 2; 3] → ∃ p, p ∈ exit_packets ∧ @good _ (sample_env up) exit_share exit_duty exit_root p o.
Proof.
  intros Ho. assert (Hin : o = 1 ∨ o = 2 ∨ o = 3) by set_solver. clear Ho.
  destruct Hin as [->|[->| ->]]; [exists (exit_packet 1 (toy_sig x01 x05))|exists (exit_packet 2 (toy_sig x02 x05))
    |exists (exit_packet 3 (toy_sig x03 x05))];
    (split; [unfold exit_packets; repeat first [apply list_elem_of_here|apply list_elem_of_further]|]);
    eexists _, _; (split; [reflexivity|split; reflexivity]).
Qed.

Definition first_runner : VoluntaryExitRunner :=
  mkVERunner (mkBaseRunner None {[77 := exit_share]} exit_net RoleVoluntaryExit false) None [].
Definition started (up : bool) : VoluntaryExitRunner :=
  (@StartNewDuty (sample_env up) (Some (DValidator (Some exit_duty))) 3 first_runner).1.


Lemma exit_without_message_witness :
  ∃ sig, signs exit_share exit_root sig ∧
    SubmittedExit None sig ∈ ve_log (@deliver _ (sample_env false) (started false) exit_packets).
Proof.
  refine (@exit_without_message _ toy_laws (sample_env false) exit_share exit_duty exit_net 3 the_exit exit_root
           first_runner (started false) _ exit_packets [1; 2; 3] (sample_exit_root false) toy_keys ltac:(lia)
           ltac:(reflexivity) ltac:(reflexivity) _ _ _).
  - repeat constructor; set_solver.
  - cbn; lia.
  - apply good_packets.
Defined.

(** Three signatures, one of them invalid. *)
Definition spoiled : PartialSigContainer :=
  foldl (λ c m, AddSignature m c) (NewPartialSigContainer 3)
    [mkPSM (toy_sig x01 x05) exit_root 1 77; mkPSM [xff] exit_root 2 77; mkPSM (toy_sig x03 x05) exit_root 3 77].

