(* ===== verification/Slashing.v ===== *)
(** * Slashing protection (ssvsigner/ekm: signer_storage.go and slashing_protector.go)

    What a key has signed is remembered as its highest attestation and proposal.  The
    record is checked and raised before a signature, bumped to the current epoch and slot
    when a share is added, and removed with the share.  A transaction's writes are taken
    as done.  The database, the SSZ form of attestations and eth2-key-manager's protection
    are classes. *)

From stdpp Require Import base list gmap numbers strings.
From Stdlib Require Import Strings.Byte.
From S2P Require Import Prelude Sha256 SpecTypes Network ShareEncoding.
Open Scope string_scope.
Open Scope list_scope.
Open Scope Z_scope.

(** ** Data of the beacon chain *)
Record Checkpoint := mkCheckpoint { cp_Epoch : Epoch; cp_Root : bytes }.
Record AttestationData := mkAttestationData {
  ad_Slot : Slot;
  ad_Index : Z;
  ad_BeaconBlockRoot : bytes;
  ad_Source : Checkpoint;
  ad_Target : Checkpoint;
}.
Definition zeroRoot : bytes := replicate 32 x00.

(** ** What the storage and the protector rest on *)
Class SignerDatabase (DB : Type) := {
  sdb_Get : bytes → bytes → DB → result goerr (option bytes);
  sdb_Set : bytes → bytes → bytes → ST DB goerr unit;
  sdb_Delete : bytes → bytes → ST DB goerr unit;
}.
Class AttestationSSZ := {
  att_MarshalSSZ : AttestationData → result goerr bytes;
  att_UnmarshalSSZ : bytes → result goerr AttestationData;
}.
(** eth2-key-manager's NormalProtection over the storage: the statuses are [None] and
    [ValidProposal] when nothing is slashable. *)
Inductive ProposalStatus := ValidProposal | SlashableProposal (status : string).
Class NormalProtection (DB : Type) := {
  np_IsSlashableAttestation : bytes → AttestationData → ST DB goerr (option string);
  np_IsSlashableProposal : bytes → Slot → ST DB goerr ProposalStatus;
  np_UpdateHighestAttestation : bytes → AttestationData → ST DB goerr unit;
  np_UpdateHighestProposal : bytes → Slot → ST DB goerr unit;
}.

Definition wrap {A} (text : string) (r : result goerr A) : result goerr A :=
  match r with Err e => Err (EWrap text e) | r => r end.
Definition st_wrap {S A} (text : string) (m : ST S goerr A) : ST S goerr A := λ s,
  let '(s, r) := m s in (s, wrap text r).
Definition st_gets {S E A} (f : S → result E A) : ST S E A := λ s, (s, f s).

(** ** Storage (signer_storage.go) *)
Abbreviation prefix_signer := (String.list_byte_of_string "signer_data-").
Abbreviation highestAttPrefix := (prefix_signer ++ String.list_byte_of_string "highest_att-").
Abbreviation highestProposalPrefix := (prefix_signer ++ String.list_byte_of_string "highest_prop-").

Section slashing.
Context {DB : Type} `{SignerDatabase DB} `{AttestationSSZ} `{FastSSZ} (networkName : bytes).
Abbreviation DBM := (ST DB goerr).

Definition objPrefix (obj : bytes) : bytes := networkName ++ obj.

(** The public keys are arrays, so never nil. *)
Definition SaveHighestAttestationTxn (pubKey : bytes) (attestation : option AttestationData) : DBM unit :=
  match attestation with
  | None => st_err (ENew "attestation data could not be nil")
  | Some a =>
      data ← st_lift (wrap "marshal attestation" (att_MarshalSSZ a));
      sdb_Set (objPrefix highestAttPrefix) pubKey data
  end.

Definition RetrieveHighestAttestationTxn (pubKey : bytes) (db : DB) : result goerr (option AttestationData) :=
  obj ← wrap "could not get highest attestation from db" (sdb_Get (objPrefix highestAttPrefix) pubKey db);
  match obj with
  | None => Ok None
  | Some value =>
      fail_if (length value =? 0)%nat (ENew "highest attestation value is empty") ;;
      ret ← wrap "could not unmarshal attestation data" (att_UnmarshalSSZ value);
      Ok (Some ret)
  end.

Definition RemoveHighestAttestationTxn (pubKey : bytes) : DBM unit :=
  sdb_Delete (objPrefix highestAttPrefix) pubKey.

Definition SaveHighestProposalTxn (pubKey : bytes) (slot : Slot) : DBM unit :=
  if slot =? 0 then st_err (ENew "invalid proposal slot, slot could not be 0")
  else sdb_Set (objPrefix highestProposalPrefix) pubKey (MarshalUint64 [] slot).

(** Decoding reads eight bytes. *)
Definition RetrieveHighestProposalTxn (pubKey : bytes) (db : DB) : result goerr (option Slot) :=
  obj ← wrap "could not get highest proposal from db" (sdb_Get (objPrefix highestProposalPrefix) pubKey db);
  match obj with
  | None => Ok None
  | Some value =>
      fail_if (length value =? 0)%nat (ENew "highest proposal value is empty") ;;
      if (length value <? 8)%nat then Panic else Ok (Some (UnmarshallUint64 (take 8 value)))
  end.

Definition RemoveHighestProposalTxn (pubKey : bytes) : DBM unit :=
  sdb_Delete (objPrefix highestProposalPrefix) pubKey.

(** ** SlashingProtector (slashing_protector.go) *)
Abbreviation minSPAttestationEpochGap := 0.
Abbreviation minSPProposalSlotGap := 0.

Definition computeMinimalAttestationSP (epoch : Epoch) : AttestationData :=
  let highestTarget := epoch +u minSPAttestationEpochGap in
  let highestSource := if 0 <? highestTarget then highestTarget -u 1 else 0 in
  mkAttestationData 0 0 zeroRoot (mkCheckpoint highestSource zeroRoot) (mkCheckpoint highestTarget zeroRoot).
Definition computeMinimalProposerSP (slot : Slot) : Slot := slot +u minSPProposalSlotGap.

Context (beaconCfg : Beacon).

Definition updateHighestAttestation (pubKey : bytes) (slot : Slot) : DBM unit :=
  retrievedHighAtt ← st_wrap "could not retrieve highest attestation"
                       (st_gets (RetrieveHighestAttestationTxn pubKey));
  currentEpoch ← st_lift (EstimatedEpochAtSlot beaconCfg slot);
  let minimalSP := computeMinimalAttestationSP currentEpoch in
  if match retrievedHighAtt with
     | Some high => (cp_Epoch (ad_Source minimalSP) <=? cp_Epoch (ad_Source high))
                    || (cp_Epoch (ad_Target minimalSP) <=? cp_Epoch (ad_Target high))
     | None => false
     end
  then mret tt
  else st_wrap "could not save highest attestation" (SaveHighestAttestationTxn pubKey (Some minimalSP)).

Definition updateHighestProposal (pubKey : bytes) (slot : Slot) : DBM unit :=
  retrievedHighProp ← st_wrap "could not retrieve highest proposal"
                        (st_gets (RetrieveHighestProposalTxn pubKey));
  let minimalSPSlot := computeMinimalProposerSP slot in
  if match retrievedHighProp with
     | Some high => negb (high =? 0) && (minimalSPSlot <=? high)
     | None => false
     end
  then mret tt
  else st_wrap "could not save highest proposal" (SaveHighestProposalTxn pubKey minimalSPSlot).

(** [EstimatedCurrentSlot()] at the time [now]. *)
Definition BumpSlashingProtectionTxn (now : Time) (pubKey : bytes) : DBM unit :=
  currentSlot ← st_lift (EstimatedSlotAtTime beaconCfg now);
  updateHighestAttestation pubKey currentSlot ;;
  updateHighestProposal pubKey currentSlot.

Context `{NormalProtection DB}.

Definition IsAttestationSlashable (pubKey : bytes) (attData : AttestationData) : DBM unit :=
  val ← np_IsSlashableAttestation pubKey attData;
  match val with
  | Some status => st_err (EWrap "slashable attestation, not signing" (ENew status))
  | None => mret tt
  end.

Definition IsBeaconBlockSlashable (pubKey : bytes) (slot : Slot) : DBM unit :=
  status ← np_IsSlashableProposal pubKey slot;
  match status with
  | ValidProposal => mret tt
  | SlashableProposal s => st_err (EWrap "slashable proposal, not signing" (ENew s))
  end.

Definition UpdateHighestAttestation (pubKey : bytes) (attData : AttestationData) : DBM unit :=
  np_UpdateHighestAttestation pubKey attData.
Definition UpdateHighestProposal (pubKey : bytes) (slot : Slot) : DBM unit :=
  np_UpdateHighestProposal pubKey slot.
End slashing.
