(* ===== verification/KeyManager.v ===== *)
(** * The remote key manager (ssvsigner/ekm/remote_key_manager.go and
      ssvsigner/web3signer/block_data.go)

    Shares are added to and removed from the remote signer together with their slashing
    protection; a request to sign an attestation or a block passes the protection first.
    The remote signer's answers, ssv-spec's signing root and eth2-key-manager's bounds on
    the future are arguments; the requests that are sent are logged. *)

From stdpp Require Import base list gmap numbers strings.
From Stdlib Require Import Strings.Byte.
From S2P Require Import Prelude Sha256 SpecTypes Network ShareEncoding Slashing.
Open Scope string_scope.
Open Scope list_scope.
Open Scope Z_scope.

(** ** Objects that are signed *)
Record BeaconBlockHeader := mkHeader {
  bh_Slot : Slot;
  bh_ProposerIndex : ValidatorIndex;
  bh_ParentRoot : bytes;
  bh_StateRoot : bytes;
  bh_BodyRoot : bytes;
}.
(** A Capella, Deneb or Electra block; [blk_Body] is the hash tree root of its body. *)
Record Block := mkBlock {
  blk_Blinded : bool;
  blk_Slot : Slot;
  blk_ProposerIndex : ValidatorIndex;
  blk_ParentRoot : bytes;
  blk_StateRoot : bytes;
  blk_Body : result goerr bytes;
}.
(** Aggregates, contributions and registrations are passed on whole: [data] stands for
    what they hold. *)
Inductive SignedObject :=
| ObjAttestationData (a : AttestationData)
| ObjBlock (b : Block)
| ObjGloasBlock
| ObjVoluntaryExit (epoch : Epoch) (index : ValidatorIndex)
| ObjAggregate (electra : bool) (data : bytes)
| ObjGloasAggregate
| ObjUint64 (n : Z)
| ObjBytes (b : bytes)
| ObjSyncSelection (slot : Slot) (subcommittee : Z)
| ObjContribution (data : bytes)
| ObjRegistration (data : bytes)
| ObjOther.

Inductive SignatureDomain :=
| DomainAttester | DomainProposer | DomainVoluntaryExit | DomainAggregateAndProof | DomainSelectionProof
| DomainRandao | DomainSyncCommittee | DomainSyncCommitteeSelectionProof | DomainContributionAndProof
| DomainApplicationBuilder | DomainPTCAttester | DomainProposerPreferences | DomainBeaconBuilder
| DomainBuilderRequestAuth | DomainUnknown.

(** What a request is about: its type with the field that is set. *)
Inductive RequestBody :=
| TypeAttestation (a : AttestationData)
| TypeBlockV2 (version : DataVersion) (header : BeaconBlockHeader)
| TypeVoluntaryExit (epoch : Epoch) (index : ValidatorIndex)
| TypeAggregateAndProof (electra : bool) (data : bytes)
| TypeAggregationSlot (slot : Slot)
| TypeRandaoReveal (epoch : Epoch)
| TypeSyncCommitteeMessage (root : bytes) (slot : Slot)
| TypeSyncCommitteeSelectionProof (slot : Slot) (subcommittee : Z)
| TypeSyncCommitteeContributionAndProof (data : bytes)
| TypeValidatorRegistration (data : bytes).
Record SignRequest := mkSignRequest {
  req_Fork : Fork;
  req_GenesisValidatorsRoot : bytes;
  req_Body : RequestBody;
  req_SigningRoot : bytes;
}.

Inductive KeyStatus :=
| StatusImported | StatusDuplicated | StatusDeleted | StatusNotActive | StatusNotFound | StatusError
| StatusOther (s : string).

(** The database, and the requests sent to the signer with their keys. *)
Record KeyManager (DB : Type) := mkKeyManager { km_db : DB; km_sent : list (bytes * SignRequest) }.
Arguments mkKeyManager {DB}.
Arguments km_db {DB}.
Arguments km_sent {DB}.

(** ** web3signer *)
Definition ConvertBlockToBeaconBlockData (obj : SignedObject) (version : DataVersion)
    : result goerr (DataVersion * BeaconBlockHeader) :=
  match obj with
  | ObjBlock v =>
      bodyRoot ← wrap (if blk_Blinded v then "could not hash blinded beacon block"
                       else "could not hash beacon block") (blk_Body v);
      Ok (version, mkHeader (blk_Slot v) (blk_ProposerIndex v) (blk_ParentRoot v) (blk_StateRoot v) bodyRoot)
  | _ => Err (ENew "obj type is unknown")
  end.

Class SigningEnv := {
  IsValidFarFutureEpoch : Time → Epoch → bool;
  IsValidFarFutureSlot : Time → Slot → bool;
  ComputeETHSigningRoot : SignedObject → bytes → result goerr bytes;
}.

Section manager.
Context {DB : Type} `{SignerDatabase DB} `{AttestationSSZ} `{FastSSZ} `{NormalProtection DB} `{SigningEnv}.
Context (networkName : bytes) (beaconConfig : Beacon).
Abbreviation KM := (ST (KeyManager DB) goerr).

Definition on_db {A} (m : ST DB goerr A) : KM A := λ km,
  let '(db, r) := m (km_db km) in (mkKeyManager db (km_sent km), r).

(** ** Shares *)
Fixpoint check_statuses (allowed : KeyStatus → bool) (statuses : list KeyStatus) : result goerr unit :=
  match statuses with
  | [] => Ok tt
  | s :: rest => fail_if (negb (allowed s)) (ENew "unexpected status") ;; check_statuses allowed rest
  end.

Definition BumpSlashingProtection (now : Time) (pubKey : bytes) : KM unit :=
  on_db (BumpSlashingProtectionTxn networkName beaconConfig now pubKey).

(** [answer]: what [AddValidators] returns. *)
Definition AddShare (now : Time) (answer : result goerr (list KeyStatus)) (pubKey : bytes) : KM unit :=
  statuses ← st_lift (wrap "add validator" answer);
  st_lift (check_statuses (λ s, match s with StatusImported | StatusDuplicated => true | _ => false end)
             statuses) ;;
  st_wrap "could not bump slashing protection" (BumpSlashingProtection now pubKey).

Definition removeHighestAttestation (pubKey : bytes) : KM unit :=
  on_db (RemoveHighestAttestationTxn networkName pubKey).
Definition removeHighestProposal (pubKey : bytes) : KM unit :=
  on_db (RemoveHighestProposalTxn networkName pubKey).

(** [answer]: what [RemoveValidators] returns. *)
Definition RemoveShare (answer : result goerr (list KeyStatus)) (pubKey : bytes) : KM unit :=
  statuses ← st_lift (wrap "remove validator" answer);
  st_lift (check_statuses (λ s, match s with StatusDeleted | StatusNotFound => true | _ => false end)
             statuses) ;;
  st_wrap "could not remove highest attestation" (removeHighestAttestation pubKey) ;;
  st_wrap "could not remove highest proposal" (removeHighestProposal pubKey).

(** ** Signing *)
Definition handleDomainAttester (now : Time) (obj : SignedObject) (sharePubkey : bytes) : KM AttestationData :=
  match obj with
  | ObjAttestationData data =>
      st_lift (fail_if (negb (IsValidFarFutureEpoch now (cp_Epoch (ad_Target data))))
                 (ENew "target epoch too far into the future")) ;;
      st_lift (fail_if (negb (IsValidFarFutureEpoch now (cp_Epoch (ad_Source data))))
                 (ENew "source epoch too far into the future")) ;;
      on_db (IsAttestationSlashable sharePubkey data) ;;
      on_db (UpdateHighestAttestation sharePubkey data) ;;
      mret data
  | _ => st_err (ENew "could not cast obj to AttestationData")
  end.

Definition handleDomainProposer (now : Time) (obj : SignedObject) (slot : Slot) (sharePubkey : bytes)
    : KM (DataVersion * BeaconBlockHeader) :=
  epoch ← st_lift (EstimatedEpochAtSlot beaconConfig slot);
  '(version, _) ← st_lift (ForkAtEpoch beaconConfig epoch);
  ret ← st_lift (ConvertBlockToBeaconBlockData obj version);
  let blockSlot := bh_Slot ret.2 in
  st_lift (fail_if (negb (IsValidFarFutureSlot now blockSlot)) (ENew "proposed block slot too far into the future")) ;;
  on_db (IsBeaconBlockSlashable sharePubkey blockSlot) ;;
  on_db (UpdateHighestProposal sharePubkey blockSlot) ;;
  mret ret.

Definition GetForkInfo (epoch : Epoch) : result goerr (Fork * bytes) :=
  '(_, currentFork) ← ForkAtEpoch beaconConfig epoch;
  Ok (currentFork, GenesisValidatorsRoot beaconConfig).
Definition voluntaryExitForkInfo : result goerr (Fork * bytes) :=
  match ForkAtVersion beaconConfig DataVersionCapella with
  | None => Err (ENew "capella fork not configured")
  | Some fork => Ok (fork, GenesisValidatorsRoot beaconConfig)
  end.
Definition validatorRegistrationForkInfo : result goerr (Fork * bytes) :=
  match ForkAtVersion beaconConfig DataVersionPhase0 with
  | None => Err (ENew "genesis fork not configured")
  | Some fork => Ok (fork, zeroRoot)
  end.

(** The body of the request, and the fork information that replaces the slot's. *)
Definition request_body (now : Time) (obj : SignedObject) (sharePubkey : bytes) (slot : Slot)
    (signatureDomain : SignatureDomain) : KM (RequestBody * option (Fork * bytes)) :=
  match signatureDomain with
  | DomainAttester =>
      data ← handleDomainAttester now obj sharePubkey; mret (TypeAttestation data, None)
  | DomainProposer =>
      block ← handleDomainProposer now obj slot sharePubkey; mret (TypeBlockV2 block.1 block.2, None)
  | DomainVoluntaryExit =>
      match obj with
      | ObjVoluntaryExit epoch index =>
          forkInfo ← st_lift voluntaryExitForkInfo; mret (TypeVoluntaryExit epoch index, Some forkInfo)
      | _ => st_err (ENew "could not cast obj to VoluntaryExit")
      end
  | DomainAggregateAndProof =>
      match obj with
      | ObjAggregate electra data => mret (TypeAggregateAndProof electra data, None)
      | ObjGloasAggregate =>
          st_err (ENew "gloas aggregate and proof signing is not supported by the remote signer")
      | _ => st_err (ENew "obj type is unknown")
      end
  | DomainSelectionProof =>
      match obj with
      | ObjUint64 n => mret (TypeAggregationSlot n, None)
      | _ => st_err (ENew "could not cast obj to SSZUint64")
      end
  | DomainRandao =>
      match obj with
      | ObjUint64 n => mret (TypeRandaoReveal n, None)
      | _ => st_err (ENew "could not cast obj to SSZUint64")
      end
  | DomainSyncCommittee =>
      match obj with
      | ObjBytes data =>
          if (length data <? 32)%nat then st_lift Panic
          else mret (TypeSyncCommitteeMessage (take 32 data) slot, None)
      | _ => st_err (ENew "could not cast obj to SSZBytes")
      end
  | DomainSyncCommitteeSelectionProof =>
      match obj with
      | ObjSyncSelection s i => mret (TypeSyncCommitteeSelectionProof s i, None)
      | _ => st_err (ENew "could not cast obj to SyncAggregatorSelectionData")
      end
  | DomainContributionAndProof =>
      match obj with
      | ObjContribution data => mret (TypeSyncCommitteeContributionAndProof data, None)
      | _ => st_err (ENew "could not cast obj to ContributionAndProof")
      end
  | DomainApplicationBuilder =>
      match obj with
      | ObjRegistration data =>
          forkInfo ← st_lift validatorRegistrationForkInfo; mret (TypeValidatorRegistration data, Some forkInfo)
      | _ => st_err (ENew "could not cast obj to ValidatorRegistration")
      end
  | DomainPTCAttester => st_err (ENew "payload attestation signing is not supported by the remote signer")
  | DomainProposerPreferences => st_err (ENew "proposer preferences signing is not supported by the remote signer")
  | DomainBeaconBuilder => st_err (ENew "execution payload envelope signing is not supported by the remote signer")
  | DomainBuilderRequestAuth => st_err (ENew "request auth signing is not supported by the remote signer")
  | DomainUnknown => st_err (ENew "domain unknown")
  end.

Definition prepareSignRequest (now : Time) (obj : SignedObject) (domain sharePubkey : bytes) (slot : Slot)
    (signatureDomain : SignatureDomain) : KM (SignRequest * bytes) :=
  epoch ← st_lift (EstimatedEpochAtSlot beaconConfig slot);
  forkInfo ← st_lift (GetForkInfo epoch);
  '(body, pinned) ← request_body now obj sharePubkey slot signatureDomain;
  let forkInfo := default forkInfo pinned in
  root ← st_lift (wrap "compute root" (ComputeETHSigningRoot obj domain));
  mret (mkSignRequest forkInfo.1 forkInfo.2 body root, root).

(** [answer]: what the remote signer returns to a request. *)
Definition SignBeaconObject (now : Time) (answer : SignRequest → result goerr bytes) (obj : SignedObject)
    (domain sharePubkey : bytes) (slot : Slot) (signatureDomain : SignatureDomain) : KM (bytes * bytes) :=
  '(req, root) ← prepareSignRequest now obj domain sharePubkey slot signatureDomain;
  st_modify (λ km, mkKeyManager (km_db km) (km_sent km ++ [(sharePubkey, req)])) ;;
  sig ← st_lift (wrap "remote signer" (answer req));
  mret (sig, root).
End manager.
