(* ===== verification/SlashingProps.v ===== *)
(** * Correctness of slashing protection

    A record with the votes signed under it is an abstract machine ([protect]): a record
    starts at the clock, rises, is dropped, and admits a vote above it.  Every operation of
    the key manager refines one of its steps, for each key and each kind of vote, and the
    machine never admits two votes that conflict. *)

From stdpp Require Import base list gmap numbers strings sorting.
From Stdlib Require Import Strings.Byte.
From S2P Require Import Prelude Sha256 SpecTypes Network ShareEncoding Slashing KeyManager.
Open Scope Z_scope.

(** ** The abstract machine

    A vote is a pair: source and target of an attestation, twice the slot of a block. *)
Definition vote : Type := Z * Z.
Definition vote_le (v w : vote) : Prop := v.1 ≤ w.1 ∧ v.2 ≤ w.2.
Definition vote_lt (v w : vote) : Prop := v.1 ≤ w.1 ∧ v.2 < w.2.

(** [lim] holds the clock and whether the record may be dropped. *)
Inductive protect (lim : vote * bool) : option vote * list vote → option vote * list vote → Prop :=
| protect_keep s : protect lim s s
| protect_start h votes : vote_le lim.1 h → protect lim (None, votes) (Some h, votes)
| protect_raise h h' votes : vote_le h h' → protect lim (Some h, votes) (Some h', votes)
| protect_drop h votes : lim.2 = true → protect lim (h, votes) (None, votes)
| protect_sign h h' v votes :
    vote_lt h v → vote_le h h' → vote_le v h' → protect lim (Some h, votes) (Some h', votes ++ [v]).

Definition bounded (s : option vote * list vote) : Prop :=
  StronglySorted vote_lt s.2 ∧ ∀ h, s.1 = Some h → Forall (λ v, vote_le v h) s.2.

Lemma vote_le_trans u v w : vote_le u v → vote_le v w → vote_le u w.
Proof. unfold vote_le. lia. Qed.
Lemma vote_le_lt_trans u v w : vote_le u v → vote_lt v w → vote_lt u w.
Proof. unfold vote_le, vote_lt. lia. Qed.

Lemma sorted_snoc (votes : list vote) v :
  StronglySorted vote_lt votes → Forall (λ u, vote_lt u v) votes → StronglySorted vote_lt (votes ++ [v]).
Proof.
  induction 1 as [|u votes Hs IH Hu]; intros Hv; cbn [app]; [repeat constructor|].
  apply Forall_cons in Hv as [Huv Hv]. constructor; [by apply IH|].
  apply Forall_app. split; [done|by constructor].
Qed.

(** A step keeps the record a bound, if one that starts over knows the votes. *)
Lemma protect_bounded lim s s' :
  bounded s → protect lim s s' →
  (s.1 = None → Forall (λ v, vote_le v lim.1) s.2) → bounded s'.
Proof.
  intros [Hs Hb] Hp Hn. destruct Hp as [s|h votes Hc|h h' votes Hh|h votes _|h h' v votes Hv Hh Hv'];
    cbn [fst snd] in *; [by split| | |by split|].
  - split; [done|]. intros ? [= <-]. apply (Forall_impl _ _ _ (Hn eq_refl)).
    intros v Hv. exact (vote_le_trans _ _ _ Hv Hc).
  - split; [done|]. intros ? [= <-]. apply (Forall_impl _ _ _ (Hb h eq_refl)).
    intros v Hv. exact (vote_le_trans _ _ _ Hv Hh).
  - specialize (Hb h eq_refl). split; cbn [fst snd].
    + apply sorted_snoc; [done|]. apply (Forall_impl _ _ _ Hb).
      intros u Hu. exact (vote_le_lt_trans _ _ _ Hu Hv).
    + intros ? [= <-]. apply Forall_app. split; [|by constructor].
      apply (Forall_impl _ _ _ Hb). intros u Hu. exact (vote_le_trans _ _ _ Hu Hh).
Qed.

(** ** The laws

    The database has a view; a failed write may or may not have been done. *)
Class SignerDatabaseLaws (DB : Type) `{SignerDatabase DB} := {
  sdb_view : DB → gmap (bytes * bytes) bytes;
  sdb_get_view p k db o : sdb_Get p k db = Ok o → o = sdb_view db !! (p, k);
  sdb_set_view p k v db db' r : sdb_Set p k v db = (db', r) →
    sdb_view db' = <[(p, k) := v]> (sdb_view db) ∨ (r ≠ Ok tt ∧ sdb_view db' = sdb_view db);
  sdb_delete_view p k db db' r : sdb_Delete p k db = (db', r) →
    sdb_view db' = delete (p, k) (sdb_view db) ∨ (r ≠ Ok tt ∧ sdb_view db' = sdb_view db);
}.

Definition is_root (r : bytes) : Prop := length r = 32%nat.
Definition checkpoint_typed (c : Checkpoint) : Prop := is_u64 (cp_Epoch c) ∧ is_root (cp_Root c).
Definition att_typed (a : AttestationData) : Prop :=
  is_u64 (ad_Slot a) ∧ is_u64 (ad_Index a) ∧ is_root (ad_BeaconBlockRoot a) ∧
  checkpoint_typed (ad_Source a) ∧ checkpoint_typed (ad_Target a).

Class AttestationSSZLaws `{AttestationSSZ} : Prop := {
  att_ssz_round_trip a v : att_typed a → att_MarshalSSZ a = Ok v → v ≠ [] ∧ att_UnmarshalSSZ v = Ok a;
}.

Definition att_vote (a : AttestationData) : vote := (cp_Epoch (ad_Source a), cp_Epoch (ad_Target a)).
Definition slot_vote (slot : Slot) : vote := (slot, slot).

Section stored.
Context {DB : Type} `{SignerDatabaseLaws DB} `{AttestationSSZ} `{FastSSZ} (networkName : bytes).
Definition att_key (pubKey : bytes) : bytes * bytes := (objPrefix networkName highestAttPrefix, pubKey).
Definition prop_key (pubKey : bytes) : bytes * bytes := (objPrefix networkName highestProposalPrefix, pubKey).
(** What is stored for a key, as far as it can be read. *)
Definition stored_att (db : DB) (pubKey : bytes) : option vote :=
  value ← sdb_view db !! att_key pubKey;
  if (length value =? 0)%nat then None
  else match att_UnmarshalSSZ value with Ok a => Some (att_vote a) | _ => None end.
Definition stored_prop (db : DB) (pubKey : bytes) : option vote :=
  value ← sdb_view db !! prop_key pubKey;
  if (length value <? 8)%nat then None else Some (slot_vote (UnmarshallUint64 (take 8 value))).
(** [f] leaves everything but the value under [key] as it was. *)
Definition others_kept (key : bytes * bytes) (db db' : DB) : Prop :=
  ∀ k, k ≠ key → sdb_view db' !! k = sdb_view db !! k.
End stored.

(** eth2-key-manager's protection over the storage: a vote passes only above the record,
    and an update raises the record over the vote and what it was. *)
Class NormalProtectionLaws (DB : Type) `{SignerDatabaseLaws DB} `{AttestationSSZ} `{FastSSZ}
    `{NormalProtection DB} (networkName : bytes) : Prop := {
  np_check_att pk a db db' r : np_IsSlashableAttestation pk a db = (db', r) →
    sdb_view db' = sdb_view db ∧
    (r = Ok None → ∃ h, stored_att networkName db pk = Some h ∧ vote_lt h (att_vote a));
  np_check_prop pk slot db db' r : np_IsSlashableProposal pk slot db = (db', r) →
    sdb_view db' = sdb_view db ∧
    (r = Ok ValidProposal → ∃ h, stored_prop networkName db pk = Some h ∧ vote_lt h (slot_vote slot));
  np_update_att pk a h db db' r :
    att_typed a → stored_att networkName db pk = Some h → np_UpdateHighestAttestation pk a db = (db', r) →
    others_kept (att_key networkName pk) db db' ∧
    ∃ h', stored_att networkName db' pk = Some h' ∧ vote_le h h' ∧ (r = Ok tt → vote_le (att_vote a) h');
  np_update_prop pk slot h db db' r :
    is_u64 slot → stored_prop networkName db pk = Some h → np_UpdateHighestProposal pk slot db = (db', r) →
    others_kept (prop_key networkName pk) db db' ∧
    ∃ h', stored_prop networkName db' pk = Some h' ∧ vote_le h h' ∧ (r = Ok tt → vote_le (slot_vote slot) h');
}.

(** ** Records of the database *)
Inductive vote_kind := KAttestation | KProposal.
#[global] Instance vote_kind_eq_dec : EqDecision vote_kind.
Proof. solve_decision. Defined.

Section records.
Context {DB : Type} `{SignerDatabaseLaws DB} `{AttestationSSZLaws} `{FastSSZLaws} (networkName : bytes).
Definition record_key (k : vote_kind) (pk : bytes) : bytes * bytes :=
  match k with KAttestation => att_key networkName pk | KProposal => prop_key networkName pk end.
Definition record (k : vote_kind) (db : DB) (pk : bytes) : option vote :=
  match k with KAttestation => stored_att networkName db pk | KProposal => stored_prop networkName db pk end.

(** An operation on one record that the abstract machine allows. *)
Definition touches (lim : vote * bool) (k : vote_kind) (pk : bytes) (db db' : DB) : Prop :=
  others_kept (record_key k pk) db db' ∧
  ∀ votes, protect lim (record k db pk, votes) (record k db' pk, votes).

Lemma record_key_inj k k' pk pk' : record_key k pk = record_key k' pk' → k = k' ∧ pk = pk'.
Proof using.
  intros Heq. pose proof (f_equal fst Heq) as Hp. pose proof (f_equal snd Heq) as Hk.
  destruct k, k'; cbn [record_key att_key prop_key fst snd] in Hp, Hk; try done;
    apply app_inv_head in Hp; by vm_compute in Hp.
Qed.
Lemma record_frame k pk (db db' : DB) :
  sdb_view db' !! record_key k pk = sdb_view db !! record_key k pk → record k db' pk = record k db pk.
Proof using. destruct k; cbn; unfold stored_att, stored_prop; by intros ->. Qed.
Lemma others_record k pk k' pk' (db db' : DB) :
  others_kept (record_key k pk) db db' → (k', pk') ≠ (k, pk) → record k' db' pk' = record k' db pk'.
Proof using.
  intros Ho Hne. apply record_frame, Ho. intros [-> ->]%record_key_inj. done.
Qed.
Lemma touches_other lim lim' k pk k' pk' (db db' : DB) votes :
  touches lim k pk db db' → (k', pk') ≠ (k, pk) →
  protect lim' (record k' db pk', votes) (record k' db' pk', votes).
Proof using. intros [Ho _] Hne. rewrite (others_record _ _ _ _ _ _ Ho Hne). constructor. Qed.
Lemma same_view_touches lim k pk (db db' : DB) :
  sdb_view db' = sdb_view db → touches lim k pk db db'.
Proof using.
  intros Hv. split; [intros ? _; by rewrite Hv|].
  intros votes. rewrite (record_frame k pk db db') by (by rewrite Hv). constructor.
Qed.
Lemma touches_refl lim k pk (db : DB) : touches lim k pk db db.
Proof using. by apply same_view_touches. Qed.

(** A write of one record, done or not. *)
Lemma set_touches lim k pk v (db db' : DB) r :
  sdb_Set (record_key k pk).1 (record_key k pk).2 v db = (db', r) →
  (∀ db'', sdb_view db'' = <[record_key k pk := v]> (sdb_view db) →
     ∀ votes, protect lim (record k db pk, votes) (record k db'' pk, votes)) →
  touches lim k pk db db'.
Proof using.
  intros Hset Hp. apply sdb_set_view in Hset as [Hv|[_ Hv]]; [|by apply same_view_touches].
  rewrite <-surjective_pairing in Hv. split; [|by apply Hp].
  intros k' Hne. rewrite Hv. by apply lookup_insert_ne.
Qed.
Lemma delete_touches lim k pk (db db' : DB) r :
  lim.2 = true → sdb_Delete (record_key k pk).1 (record_key k pk).2 db = (db', r) → touches lim k pk db db'.
Proof using.
  intros Hlim Hd. apply sdb_delete_view in Hd as [Hv|[_ Hv]]; [|by apply same_view_touches].
  rewrite <-surjective_pairing in Hv. split.
  - intros k' Hne. rewrite Hv. by apply lookup_delete_ne.
  - intros votes. assert (record k db' pk = None) as ->; [|by constructor].
    destruct k; cbn in *; unfold stored_att, stored_prop; by rewrite Hv, lookup_delete_eq.
Qed.

(** ** Reading a record *)
Lemma unwrap_ok {A} text (r : result goerr A) a : wrap text r = Ok a → r = Ok a.
Proof using. by destruct r. Qed.

Lemma retrieve_att pk (db : DB) o :
  RetrieveHighestAttestationTxn networkName pk db = Ok o → record KAttestation db pk = att_vote <$> o.
Proof using.
  unfold RetrieveHighestAttestationTxn. cbn [record]. unfold stored_att, att_key.
  intros (obj & Hg%unwrap_ok%sdb_get_view & Hr)%bind_ok. rewrite <-Hg.
  destruct obj as [value|]; [|by inv_ok].
  apply bind_ok in Hr as (u & Hlen%fail_if_ok & Hr). apply bind_ok in Hr as (a & Ha%unwrap_ok & [= <-]).
  cbn [mbind option_bind fmap option_fmap option_map]. by rewrite Hlen, Ha.
Qed.
Lemma retrieve_prop pk (db : DB) o :
  RetrieveHighestProposalTxn networkName pk db = Ok o → record KProposal db pk = slot_vote <$> o.
Proof using.
  unfold RetrieveHighestProposalTxn. cbn [record]. unfold stored_prop, prop_key.
  intros (obj & Hg%unwrap_ok%sdb_get_view & Hr)%bind_ok. rewrite <-Hg.
  destruct obj as [value|]; [|by inv_ok].
  apply bind_ok in Hr as (u & Hlen%fail_if_ok & Hr). cbn [mbind option_bind].
  destruct (length value <? 8)%nat; [done|]. by injection Hr as <-.
Qed.

(** ** The clock *)
Context (b : Beacon).
Definition slot_at (now : Time) : Slot := Z.min max_i64 (now - GenesisTime b) / SlotDuration b.
(** The record that a bump starts with. *)
Definition clock (k : vote_kind) (now : Time) : vote :=
  match k with
  | KAttestation => let e := slot_at now / SlotsPerEpoch b in (Z.max 0 (e - 1), e)
  | KProposal => slot_vote (slot_at now)
  end.

Context (Hd : 0 < SlotDuration b) (Hspe : 0 < SlotsPerEpoch b).

Lemma clock_mono k t t' : t ≤ t' → vote_le (clock k t) (clock k t').
Proof using Hd Hspe.
  intros Ht. assert (slot_at t ≤ slot_at t') as Hs by (unfold slot_at; apply Z.div_le_mono; lia).
  destruct k; unfold clock, vote_le, slot_vote; cbn [fst snd]; [|lia].
  pose proof (Z.div_le_mono _ _ _ Hspe Hs). lia.
Qed.
Lemma slot_at_correct now slot :
  EstimatedSlotAtTime b now = Ok slot → slot = slot_at now ∧ 0 ≤ slot ≤ max_i64.
Proof using Hd.
  unfold EstimatedSlotAtTime. destruct (Z.ltb_spec now (GenesisTime b)); [done|].
  unfold div_i64. destruct (Z.eqb_spec (SlotDuration b) 0); [lia|]. cbn -[Z.pow u64 i64 max_i64].
  unfold time_Sub. rewrite Z.max_r by (unfold max_i64; lia). set (q := Z.min _ _).
  assert (0 ≤ q ≤ max_i64) as Hq by (unfold q, max_i64; lia).
  rewrite Z.quot_div_nonneg by lia. intros [= <-].
  assert (0 ≤ q / SlotDuration b ≤ max_i64) as Hr.
  { split; [apply Z.div_pos; lia|]. apply Z.div_le_upper_bound; [lia|]. nia. }
  rewrite i64_small, u64_small; [done| |]; unfold is_u64, is_i64, max_u64, max_i64 in *; lia.
Qed.

(** ** Bumping *)
Lemma save_att pk a (db db' : DB) r lim :
  att_typed a → SaveHighestAttestationTxn networkName pk (Some a) db = (db', r) →
  match record KAttestation db pk with
  | None => vote_le lim.1 (att_vote a)
  | Some h => vote_le h (att_vote a)
  end → touches lim KAttestation pk db db'.
Proof using Type*.
  intros Ha Hs Hle. unfold SaveHighestAttestationTxn in Hs.
  destruct (att_MarshalSSZ a) as [v|e|] eqn:Hm; cbn in Hs;
    [|injection Hs as <- _; apply touches_refl..].
  eapply (set_touches _ KAttestation); [exact Hs|]. intros db'' Hv votes.
  destruct (att_ssz_round_trip _ _ Ha Hm) as [Hne Hu].
  assert (record KAttestation db'' pk = Some (att_vote a)) as ->.
  { cbn [record record_key] in *. unfold stored_att. rewrite Hv, lookup_insert_eq. cbn [mbind option_bind].
    rewrite Hu. by destruct v. }
  destruct (record KAttestation db pk); by constructor.
Qed.
Lemma save_prop pk slot (db db' : DB) r lim :
  is_u64 slot → SaveHighestProposalTxn networkName pk slot db = (db', r) →
  match record KProposal db pk with
  | None => vote_le lim.1 (slot_vote slot)
  | Some h => vote_le h (slot_vote slot)
  end → touches lim KProposal pk db db'.
Proof using Type*.
  intros Hslot Hs Hle. unfold SaveHighestProposalTxn in Hs.
  destruct (slot =? 0); [injection Hs as <- _; apply touches_refl|].
  eapply (set_touches _ KProposal); [exact Hs|]. intros db'' Hv votes.
  assert (record KProposal db'' pk = Some (slot_vote slot)) as ->.
  { cbn [record record_key] in *. unfold stored_prop. rewrite Hv, lookup_insert_eq. cbn [mbind option_bind].
    rewrite marshal_uint64 by done. cbn [app]. rewrite le_bytes_length. cbn [Nat.ltb Nat.leb].
    rewrite take_ge by (by rewrite le_bytes_length).
    rewrite unmarshal_uint64 by apply le_bytes_length.
    rewrite le_value_le_bytes; [done|]. unfold is_u64, max_u64 in Hslot. lia. }
  destruct (record KProposal db pk); by constructor.
Qed.

Lemma minimal_att now slot :
  EstimatedSlotAtTime b now = Ok slot →
  let a := computeMinimalAttestationSP (slot / SlotsPerEpoch b) in
  att_typed a ∧ att_vote a = clock KAttestation now.
Proof using Hd Hspe.
  intros [-> Hr]%slot_at_correct. set (e := _ / SlotsPerEpoch b).
  assert (0 ≤ e ≤ max_i64) as He.
  { unfold e. split; [apply Z.div_pos; lia|]. apply Z.div_le_upper_bound; [lia|]. nia. }
  unfold computeMinimalAttestationSP, clock, att_vote. cbn -[Z.max]. fold e.
  rewrite Z.add_0_r, (u64_small e) by (unfold is_u64, max_u64, max_i64 in *; lia).
  assert ((if 0 <? e then u64 (e - 1) else 0) = Z.max 0 (e - 1)) as ->.
  { destruct (Z.ltb_spec 0 e); [|lia]. rewrite u64_small; unfold is_u64, max_u64, max_i64 in *; lia. }
  split; [|done]. unfold att_typed, checkpoint_typed, is_root, is_u64, max_u64, max_i64 in *. cbn.
  repeat split; try done; lia.
Qed.

Lemma bump_att d now slot pk (db db' : DB) r :
  EstimatedSlotAtTime b now = Ok slot → updateHighestAttestation networkName b pk slot db = (db', r) →
  touches (clock KAttestation now, d) KAttestation pk db db'.
Proof using Type*.
  intros Hslot. destruct (minimal_att _ _ Hslot) as [Ht Hv].
  unfold updateHighestAttestation. unfold mbind, st_bind, st_wrap, st_gets, st_lift.
  destruct (RetrieveHighestAttestationTxn networkName pk db) as [o|e|] eqn:Hr; cbn [wrap];
    [|intros [= <- _]; apply touches_refl..].
  rewrite EstimatedEpochAtSlot_eq by done. cbn zeta. set (a := computeMinimalAttestationSP _) in *.
  apply retrieve_att in Hr. destruct o as [high|]; cbn [fmap option_fmap option_map] in Hr.
  - destruct (_ || _) eqn:Hc; [intros [= <- _]; apply touches_refl|].
    destruct (SaveHighestAttestationTxn _ _ _ _) as [db1 r1] eqn:Hs. intros [= <- _].
    eapply save_att; [done|exact Hs|]. rewrite Hr. apply orb_false_iff in Hc as [?%Z.leb_gt ?%Z.leb_gt].
    unfold vote_le, att_vote. cbn [fst snd]. lia.
  - destruct (SaveHighestAttestationTxn _ _ _ _) as [db1 r1] eqn:Hs. intros [= <- _].
    eapply save_att; [done|exact Hs|]. rewrite Hr, Hv. by unfold vote_le.
Qed.

Lemma bump_prop d now slot pk (db db' : DB) r :
  EstimatedSlotAtTime b now = Ok slot → updateHighestProposal networkName pk slot db = (db', r) →
  touches (clock KProposal now, d) KProposal pk db db'.
Proof using Type*.
  intros [Hslot Hrange]%slot_at_correct.
  assert (is_u64 slot) as Hu by (unfold is_u64, max_u64, max_i64 in *; lia).
  unfold updateHighestProposal, computeMinimalProposerSP, mbind, st_bind, st_wrap, st_gets.
  rewrite Z.add_0_r, (u64_small slot Hu).
  destruct (RetrieveHighestProposalTxn networkName pk db) as [o|e|] eqn:Hr; cbn [wrap];
    [|intros [= <- _]; apply touches_refl..].
  cbn zeta. apply retrieve_prop in Hr. destruct o as [high|]; cbn [fmap option_fmap option_map] in Hr.
  - destruct (_ && _) eqn:Hc; [intros [= <- _]; apply touches_refl|].
    destruct (SaveHighestProposalTxn _ _ _ _) as [db1 r1] eqn:Hs. intros [= <- _].
    eapply save_prop; [done|exact Hs|]. rewrite Hr. unfold vote_le, slot_vote. cbn [fst snd].
    destruct (Z.eqb_spec high 0), (Z.leb_spec slot high); cbn in Hc; try done; lia.
  - destruct (SaveHighestProposalTxn _ _ _ _) as [db1 r1] eqn:Hs. intros [= <- _].
    eapply save_prop; [done|exact Hs|]. rewrite Hr, Hslot. by unfold vote_le.
Qed.

(** ** Whole operations on the database *)
Definition allowed (drops : bytes → bool) (now : Time) (db db' : DB) : Prop :=
  ∀ k pk votes, protect (clock k now, drops pk) (record k db pk, votes) (record k db' pk, votes).

Lemma allowed_refl drops now (db : DB) : allowed drops now db db.
Proof using. intros k pk votes. constructor. Qed.
Lemma touches_allowed drops now k pk (db db' : DB) :
  touches (clock k now, drops pk) k pk db db' → allowed drops now db db'.
Proof using.
  intros Ht k' pk' votes. destruct (decide ((k', pk') = (k, pk))) as [[= -> ->]|Hne]; [apply Ht|].
  by eapply touches_other.
Qed.
(** Two operations on different records are one step on each. *)
Lemma touches_twice drops now k k' pk pk' (db db1 db' : DB) :
  touches (clock k now, drops pk) k pk db db1 → touches (clock k' now, drops pk') k' pk' db1 db' → k ≠ k' →
  allowed drops now db db'.
Proof using.
  intros Ht Ht' Hk q pq votes. destruct (decide (q = k')) as [->|Hq].
  - destruct Ht as [Ho _]. rewrite <-(others_record _ _ k' pq _ _ Ho) by congruence.
    by apply (touches_allowed drops now k' pk').
  - destruct Ht' as [Ho _]. rewrite (others_record _ _ q pq _ _ Ho) by congruence.
    by apply (touches_allowed drops now k pk).
Qed.

Lemma bump_allowed drops now pk (db db' : DB) r :
  BumpSlashingProtectionTxn networkName b now pk db = (db', r) → allowed drops now db db'.
Proof using Type*.
  unfold BumpSlashingProtectionTxn, mbind, st_bind, st_lift.
  destruct (EstimatedSlotAtTime b now) as [slot|e|] eqn:Hslot; [|intros [= <- _]; apply allowed_refl..].
  destruct (updateHighestAttestation _ _ _ _ _) as [db1 [u|e|]] eqn:Ha;
    apply (bump_att (drops pk) _ _ _ _ _ _ Hslot) in Ha.
  - intros Hp%(bump_prop (drops pk) _ _ _ _ _ _ Hslot). by eapply touches_twice.
  - intros [= <- _]. by eapply touches_allowed.
  - intros [= <- _]. by eapply touches_allowed.
Qed.
End records.
