(* ===== verification/SlashingSafety.v ===== *)
(** * Runs of the key manager

    Requests to sign, shares added and removed, and bumps in any order at times that do
    not decrease, errors and panics included: each refines a step of the abstract machine
    of SlashingProps.v, so that what is sent to the signer for a key is never slashable. *)

From stdpp Require Import base list gmap numbers strings sorting.
From Stdlib Require Import Strings.Byte.
From S2P Require Import Prelude Sha256 SpecTypes Network ShareEncoding Slashing KeyManager SlashingProps.
Open Scope Z_scope.

(** ** Votes among the requests *)
Definition body_vote (k : vote_kind) (body : RequestBody) : option vote :=
  match k, body with
  | KAttestation, TypeAttestation a => Some (att_vote a)
  | KProposal, TypeBlockV2 _ header => Some (slot_vote (bh_Slot header))
  | _, _ => None
  end.
Definition votes_of (k : vote_kind) (pk : bytes) (sent : list (bytes * SignRequest)) : list vote :=
  omap (λ '(key, req), if decide (key = pk) then body_vote k (req_Body req) else None) sent.
Definition object_typed (obj : SignedObject) : Prop :=
  match obj with
  | ObjAttestationData a => att_typed a
  | ObjBlock blk => is_u64 (blk_Slot blk)
  | _ => True
  end.
Definition object_vote (k : vote_kind) (obj : SignedObject) : option vote :=
  match k, obj with
  | KAttestation, ObjAttestationData a => Some (att_vote a)
  | KProposal, ObjBlock blk => Some (slot_vote (blk_Slot blk))
  | _, _ => None
  end.

Inductive km_event :=
| EvAddShare (answer : result goerr (list KeyStatus)) (pk : bytes)
| EvRemoveShare (answer : result goerr (list KeyStatus)) (pk : bytes)
| EvBump (pk : bytes)
| EvSign (answer : SignRequest → result goerr bytes) (obj : SignedObject) (domain pk : bytes)
    (slot : Slot) (signatureDomain : SignatureDomain).

Section runs.
Context {DB : Type} `{Hsdb : SignerDatabase DB} {Hview : SignerDatabaseLaws DB} `{Hssz : AttestationSSZ}
  `{Hfast : FastSSZ} `{Hnp : NormalProtection DB} `{Henv : SigningEnv}.
Context (networkName : bytes) (b : Beacon).

Definition km_step (now : Time) (ev : km_event) (km : KeyManager DB) : KeyManager DB :=
  match ev with
  | EvAddShare answer pk => (AddShare networkName b now answer pk km).1
  | EvRemoveShare answer pk => (RemoveShare networkName answer pk km).1
  | EvBump pk => (BumpSlashingProtection networkName b now pk km).1
  | EvSign answer obj domain pk slot sd => (SignBeaconObject b now answer obj domain pk slot sd km).1
  end.
Definition km_run (events : list (Time * km_event)) (km : KeyManager DB) : KeyManager DB :=
  foldl (λ km '(now, ev), km_step now ev km) km events.

Definition abs (k : vote_kind) (pk : bytes) (km : KeyManager DB) : option vote * list vote :=
  (record networkName k (km_db km) pk, votes_of k pk (km_sent km)).

Context {HviewL : AttestationSSZLaws} {HfastL : FastSSZLaws} {HnpL : NormalProtectionLaws DB networkName}.
Context (Hd : 0 < SlotDuration b) (Hspe : 0 < SlotsPerEpoch b).

(** ** Shares *)
Lemma remove_step now answer pk km : 
  let km' := (RemoveShare networkName answer pk km).1 in
  allowed networkName b (λ q, bool_decide (q = pk)) now (km_db km) (km_db km') ∧ km_sent km' = km_sent km.
Proof using.
  unfold RemoveShare, removeHighestAttestation, removeHighestProposal, RemoveHighestAttestationTxn,
    RemoveHighestProposalTxn, on_db, mbind, st_bind, st_lift, st_wrap.
  destruct (wrap _ answer) as [statuses|e|]; [|split; [apply allowed_refl|done]..].
  destruct (check_statuses _ statuses) as [u|e|]; [|split; [apply allowed_refl|done]..].
  destruct (sdb_Delete (objPrefix networkName highestAttPrefix) pk (km_db km)) as [db1 [u1|e1|]] eqn:Ha;
    apply (delete_touches networkName (clock b KAttestation now, bool_decide (pk = pk)) KAttestation) in Ha;
    try (by apply bool_decide_eq_true); cbn [wrap fst].
  2,3: split; [by eapply (touches_allowed _ _ (λ q, bool_decide (q = pk)))|done].
  destruct (sdb_Delete _ pk _) as [db2 r2] eqn:Hp; cbn [km_db km_sent] in *.
  apply (delete_touches networkName (clock b KProposal now, bool_decide (pk = pk)) KProposal) in Hp;
    [|by apply bool_decide_eq_true]. split; [|done].
  by eapply (touches_twice _ _ (λ q, bool_decide (q = pk))).
Qed.

Lemma bump_step now pk km :
  let km' := (BumpSlashingProtection networkName b now pk km).1 in
  allowed networkName b (λ _, false) now (km_db km) (km_db km') ∧ km_sent km' = km_sent km.
Proof using HviewL HfastL Hd Hspe.
  unfold BumpSlashingProtection, on_db.
  destruct (BumpSlashingProtectionTxn _ _ _ _ _) as [db' r] eqn:Hb. cbn. split; [|done].
  by eapply bump_allowed.
Qed.

Lemma add_step now answer pk km :
  let km' := (AddShare networkName b now answer pk km).1 in
  allowed networkName b (λ _, false) now (km_db km) (km_db km') ∧ km_sent km' = km_sent km.
Proof using HviewL HfastL Hd Hspe.
  unfold AddShare, mbind, st_bind, st_lift, st_wrap.
  destruct (wrap _ answer) as [statuses|e|]; [|split; [apply allowed_refl|done]..].
  destruct (check_statuses _ statuses) as [u|e|]; [|split; [apply allowed_refl|done]..].
  pose proof (bump_step now pk km) as Hb.
  by destruct (BumpSlashingProtection _ _ _ _ _) as [km' r].
Qed.

(** ** Signing *)
Definition passed (k : vote_kind) (pk : bytes) (v : vote) (db db' : DB) : Prop :=
  ∃ h h', record networkName k db pk = Some h ∧ record networkName k db' pk = Some h' ∧
    vote_lt h v ∧ vote_le h h' ∧ vote_le v h'.

Lemma view_record k pk (db db' : DB) :
  sdb_view db' = sdb_view db → record networkName k db' pk = record networkName k db pk.
Proof using. intros Hv. apply record_frame. by rewrite Hv. Qed.

(** A check that passes and the update that follows. *)
Lemma update_touches clk k pk v h (db db1 db' : DB) (r : result goerr unit) :
  sdb_view db1 = sdb_view db → record networkName k db pk = Some h → vote_lt h v →
  others_kept (record_key networkName k pk) db1 db' →
  (∃ h', record networkName k db' pk = Some h' ∧ vote_le h h' ∧ (r = Ok tt → vote_le v h')) →
  touches networkName clk k pk db db' ∧ (r = Ok tt → passed k pk v db db').
Proof using.
  intros Hv Hr Hlt Ho (h' & Hr' & Hle & Hok). split.
  - split; [intros key Hne; rewrite <-Hv; by apply Ho|].
    intros votes. rewrite Hr, Hr'. by constructor.
  - intros Hrok. exists h, h'. split_and!; auto.
Qed.

Lemma attester_step clk now obj pk km km' r :
  object_typed obj → handleDomainAttester now obj pk km = (km', r) →
  km_sent km' = km_sent km ∧ touches networkName clk KAttestation pk (km_db km) (km_db km') ∧
  ∀ a, r = Ok a → obj = ObjAttestationData a ∧ passed KAttestation pk (att_vote a) (km_db km) (km_db km').
Proof using HnpL.
  intros Ht. unfold handleDomainAttester.
  destruct obj as [a| | | | | | | | | | |]; try (intros [= <- <-]; split_and!; [done|apply touches_refl|done]).
  unfold IsAttestationSlashable, UpdateHighestAttestation, on_db, mbind, st_bind, st_lift, st_err, mret, st_ret.
  do 2 (destruct (fail_if _ _) as [u|e|]; [|intros [= <- <-]; split_and!; [done|apply touches_refl|done]..];
        clear u).
  destruct (np_IsSlashableAttestation pk a (km_db km)) as [db1 r1] eqn:Hc.
  apply np_check_att in Hc as [Hv Hpass].
  destruct r1 as [[status|]|e|]; try (intros [= <- <-]; split_and!; [done|by apply same_view_touches|done]).
  destruct (Hpass eq_refl) as (h & Hh & Hlt). cbn [km_db km_sent].
  destruct (np_UpdateHighestAttestation pk a db1) as [db2 r2] eqn:Hu.
  pose proof (eq_trans (view_record KAttestation pk _ _ Hv) Hh) as Hh1.
  destruct (np_update_att _ _ _ _ _ _ Ht Hh1 Hu) as [Ho Hrec].
  destruct (update_touches clk KAttestation pk (att_vote a) h (km_db km) db1 db2 r2 Hv Hh Hlt Ho Hrec)
    as [Htouch Hok].
  destruct r2 as [[]|e|]; intros [= <- <-]; split_and!; try done.
  intros ? [= <-]. auto.
Qed.

Lemma proposer_step clk now obj slot pk km km' r :
  object_typed obj → handleDomainProposer b now obj slot pk km = (km', r) →
  km_sent km' = km_sent km ∧ touches networkName clk KProposal pk (km_db km) (km_db km') ∧
  ∀ blk, r = Ok blk → object_vote KProposal obj = Some (slot_vote (bh_Slot blk.2)) ∧
    passed KProposal pk (slot_vote (bh_Slot blk.2)) (km_db km) (km_db km').
Proof using HnpL.
  intros Ht. unfold handleDomainProposer.
  unfold IsBeaconBlockSlashable, UpdateHighestProposal, on_db, mbind, st_bind, st_lift, st_err, mret,
    st_ret.
  destruct (EstimatedEpochAtSlot b slot) as [epoch|e|];
    [|intros [= <- <-]; split_and!; [done|apply touches_refl|done]..].
  destruct (ForkAtEpoch b epoch) as [[version fork]|e|];
    [|intros [= <- <-]; split_and!; [done|apply touches_refl|done]..].
  destruct (ConvertBlockToBeaconBlockData obj version) as [ret|e|] eqn:Hconv;
    [|intros [= <- <-]; split_and!; [done|apply touches_refl|done]..].
  assert (object_vote KProposal obj = Some (slot_vote (bh_Slot ret.2)) ∧ is_u64 (bh_Slot ret.2)) as [Hvote Hslot].
  { destruct obj; cbn in Hconv; try done. by destruct (wrap _ _); try done; injection Hconv as <-. }
  cbn zeta. set (s := bh_Slot ret.2) in *.
  destruct (fail_if _ _) as [u|e|]; [|intros [= <- <-]; split_and!; [done|apply touches_refl|done]..].
  destruct (np_IsSlashableProposal pk s (km_db km)) as [db1 r1] eqn:Hc.
  apply np_check_prop in Hc as [Hv Hpass].
  destruct r1 as [[|status]|e|]; try (intros [= <- <-]; split_and!; [done|by apply same_view_touches|done]).
  destruct (Hpass eq_refl) as (h & Hh & Hlt). cbn [km_db km_sent].
  destruct (np_UpdateHighestProposal pk s db1) as [db2 r2] eqn:Hu.
  pose proof (eq_trans (view_record KProposal pk _ _ Hv) Hh) as Hh1.
  destruct (np_update_prop _ _ _ _ _ _ Hslot Hh1 Hu) as [Ho Hrec].
  destruct (update_touches clk KProposal pk (slot_vote s) h (km_db km) db1 db2 r2 Hv Hh Hlt Ho Hrec)
    as [Htouch Hok].
  destruct r2 as [[]|e|]; intros [= <- <-]; split_and!; try done.
  intros ? [= <-]. auto.
Qed.

(** A request about a vote was checked; the others leave the database alone. *)
Lemma request_body_step now obj pk slot sd km km' r :
  object_typed obj → request_body b now obj pk slot sd km = (km', r) →
  km_sent km' = km_sent km ∧ allowed networkName b (λ _, false) now (km_db km) (km_db km') ∧
  ∀ body, r = Ok body → ∀ k v, body_vote k body.1 = Some v →
    object_vote k obj = Some v ∧ passed k pk v (km_db km) (km_db km').
Proof using HnpL.
  intros Ht.
  assert (∀ (r' : result goerr (RequestBody * option (Fork * bytes))),
    (∀ body k, r' = Ok body → body_vote k body.1 = None) → (km, r') = (km', r) →
    km_sent km' = km_sent km ∧ allowed networkName b (λ _, false) now (km_db km) (km_db km') ∧
    ∀ body, r = Ok body → ∀ k v, body_vote k body.1 = Some v →
      object_vote k obj = Some v ∧ passed k pk v (km_db km) (km_db km')) as Hother.
  { intros r' Hno [= <- <-]. split_and!; [done|apply allowed_refl|].
    intros body Hbody k v Hv. by rewrite (Hno body k Hbody) in Hv. }
  destruct sd; cbn [request_body]; unfold mbind, st_bind, st_lift, st_err, mret, st_ret.
  1: { destruct (handleDomainAttester now obj pk km) as [km1 r1] eqn:Ha.
    apply (attester_step (clock b KAttestation now, false)) in Ha as (Hs & Htouch & Hok); [|done].
    apply (touches_allowed _ _ (λ _, false)) in Htouch.
    destruct r1 as [a|e|]; intros [= <- <-]; split_and!; try done.
    intros ? [= <-] [] v; cbn [fst body_vote]; [|done]. intros [= <-].
    destruct (Hok a eq_refl) as [-> Hpass]. done. }
  1: { destruct (handleDomainProposer b now obj slot pk km) as [km1 r1] eqn:Ha.
    apply (proposer_step (clock b KProposal now, false)) in Ha as (Hs & Htouch & Hok); [|done].
    apply (touches_allowed _ _ (λ _, false)) in Htouch.
    destruct r1 as [blk|e|]; intros [= <- <-]; split_and!; try done.
    intros ? [= <-] [] v; cbn [fst body_vote]; [done|]. intros [= <-].
    destruct (Hok blk eq_refl) as [Hvote Hpass]. done. }
  all: destruct obj; try (apply Hother; by intros ? [] [= <-]).
  - destruct voluntaryExitForkInfo; apply Hother; by intros ? [] [= <-].
  - destruct (_ <? _)%nat; apply Hother; by intros ? [] [= <-].
  - destruct validatorRegistrationForkInfo; apply Hother; by intros ? [] [= <-].
Qed.

Lemma prepare_step now obj domain pk slot sd km km' r :
  object_typed obj → prepareSignRequest b now obj domain pk slot sd km = (km', r) →
  km_sent km' = km_sent km ∧ allowed networkName b (λ _, false) now (km_db km) (km_db km') ∧
  ∀ req root, r = Ok (req, root) → ∀ k v, body_vote k (req_Body req) = Some v →
    object_vote k obj = Some v ∧ passed k pk v (km_db km) (km_db km').
Proof using HnpL.
  intros Ht. unfold prepareSignRequest, mbind, st_bind, st_lift, mret, st_ret.
  destruct (EstimatedEpochAtSlot b slot) as [epoch|e|];
    [|intros [= <- <-]; split_and!; [done|apply allowed_refl|done]..].
  destruct (GetForkInfo b epoch) as [fork|e|];
    [|intros [= <- <-]; split_and!; [done|apply allowed_refl|done]..].
  destruct (request_body b now obj pk slot sd km) as [km1 r1] eqn:Hb.
  apply request_body_step in Hb as (Hs & Ha & Hok); [|done].
  destruct r1 as [[body pin]|e|]; [|intros [= <- <-]; split_and!; done..].
  destruct (wrap _ _) as [root|e|]; intros [= <- <-]; split_and!; try done.
  intros req root' [= <- <-]. apply (Hok (body, pin) eq_refl).
Qed.

Definition kept_or_sent (obj : SignedObject) (pk : bytes) (km km' : KeyManager DB) : Prop :=
  ∀ k pk', votes_of k pk' (km_sent km') = votes_of k pk' (km_sent km) ∨
    pk' = pk ∧ ∃ v, object_vote k obj = Some v ∧
      votes_of k pk' (km_sent km') = votes_of k pk' (km_sent km) ++ [v].

Lemma votes_of_snoc k pk pk' req sent :
  votes_of k pk' (sent ++ [(pk, req)]) = votes_of k pk' sent ++
    (if decide (pk = pk') then match body_vote k (req_Body req) with Some v => [v] | None => [] end else []).
Proof using.
  unfold votes_of. rewrite omap_app. f_equal. cbn. by destruct (decide (pk = pk')), (body_vote k (req_Body req)).
Qed.

Lemma sent_step now obj pk req (km : KeyManager DB) db' :
  allowed networkName b (λ _, false) now (km_db km) db' →
  (∀ k v, body_vote k (req_Body req) = Some v → object_vote k obj = Some v ∧ passed k pk v (km_db km) db') →
  let km' := mkKeyManager db' (km_sent km ++ [(pk, req)]) in
  (∀ k pk', protect (clock b k now, false) (abs k pk' km) (abs k pk' km')) ∧ kept_or_sent obj pk km km'.
Proof using.
  intros Ha Hok km'. split; intros k pk'; [unfold abs|]; unfold km'; cbn [km_db km_sent];
    rewrite votes_of_snoc; (destruct (decide (pk = pk')) as [<-|]; [|rewrite app_nil_r; auto]);
    (destruct (body_vote k (req_Body req)) as [v|] eqn:Hv; [|rewrite app_nil_r; auto]);
    destruct (Hok k v Hv) as [Hobj (h & h' & Hr & Hr' & Hlt & Hle & Hv')].
  - rewrite Hr, Hr'. by constructor.
  - right. eauto.
Qed.

Lemma sign_step now answer obj domain pk slot sd km :
  object_typed obj →
  let km' := (SignBeaconObject b now answer obj domain pk slot sd km).1 in
  (∀ k pk', protect (clock b k now, false) (abs k pk' km) (abs k pk' km')) ∧ kept_or_sent obj pk km km'.
Proof using HnpL.
  intros Ht. unfold SignBeaconObject, mbind, st_bind, st_lift, st_modify, mret, st_ret.
  destruct (prepareSignRequest b now obj domain pk slot sd km) as [km1 r1] eqn:Hp.
  apply prepare_step in Hp as (Hs & Ha & Hok); [|done].
  destruct r1 as [[req root]|e|]; cbn [fst].
  2,3: unfold abs, kept_or_sent; rewrite Hs; split; [intros; apply Ha|by left].
  pose proof (sent_step now obj pk req km (km_db km1) Ha (Hok req root eq_refl)) as Hsent.
  rewrite <-Hs in Hsent. by destruct (wrap _ (answer req)).
Qed.

(** ** Refinement: every event is a step of the abstract machine *)
Definition event_typed (ev : km_event) : Prop :=
  match ev with EvSign _ obj _ _ _ _ => object_typed obj | _ => True end.

(** Whether the event may remove the records of a key. *)
Definition removes (ev : km_event) (pk : bytes) : bool :=
  match ev with EvRemoveShare _ pk' => bool_decide (pk = pk') | _ => false end.

Lemma event_refines now ev km k pk :
  event_typed ev → protect (clock b k now, removes ev pk) (abs k pk km) (abs k pk (km_step now ev km)).
Proof using HviewL HfastL HnpL Hd Hspe.
  intros Ht. destruct ev as [answer pk0|answer pk0|pk0|answer obj domain pk0 slot sd]; cbn [km_step].
  - destruct (add_step now answer pk0 km) as [Ha Hs]. unfold abs. rewrite Hs. apply Ha.
  - destruct (remove_step now answer pk0 km) as [Ha Hs]. unfold abs. rewrite Hs. apply Ha.
  - destruct (bump_step now pk0 km) as [Ha Hs]. unfold abs. rewrite Hs. apply Ha.
  - by apply sign_step.
Qed.

(** ** Runs *)
(** A vote that is not ahead of the clock, with its source before its target. *)
Definition object_timely (now : Time) (obj : SignedObject) : Prop :=
  ∃ slot epoch, EstimatedSlotAtTime b now = Ok slot ∧ EstimatedEpochAtSlot b slot = Ok epoch ∧
  match obj with
  | ObjAttestationData a => cp_Epoch (ad_Source a) < cp_Epoch (ad_Target a) ≤ epoch
  | ObjBlock blk => blk_Slot blk ≤ slot
  | _ => True
  end.
Definition event_timely (now : Time) (ev : km_event) : Prop :=
  match ev with EvSign _ obj _ _ _ _ => object_timely now obj | _ => True end.

Lemma timely_clock now obj k v :
  object_timely now obj → object_vote k obj = Some v → vote_le v (clock b k now).
Proof using Hd Hspe.
  intros (slot & epoch & [-> _]%slot_at_correct & He & Ht) Hv; [|done].
  rewrite EstimatedEpochAtSlot_eq in He by done. injection He as He.
  destruct k, obj; try done; cbn in Hv, Ht; injection Hv as <-;
    unfold vote_le, clock, att_vote, slot_vote; cbn [fst snd]; rewrite ?He; lia.
Qed.

Lemma event_votes now ev km k pk :
  event_typed ev → event_timely now ev →
  Forall (λ v, vote_le v (clock b k now)) (abs k pk km).2 →
  Forall (λ v, vote_le v (clock b k now)) (abs k pk (km_step now ev km)).2.
Proof using HviewL HfastL HnpL Hd Hspe.
  intros Ht Htime Hall. unfold abs in *. cbn [snd] in *.
  destruct ev as [answer pk0|answer pk0|pk0|answer obj domain pk0 slot sd]; cbn [km_step].
  - by destruct (add_step now answer pk0 km) as [_ ->].
  - by destruct (remove_step now answer pk0 km) as [_ ->].
  - by destruct (bump_step now pk0 km) as [_ ->].
  - destruct (sign_step now answer obj domain pk0 slot sd km Ht) as [_ Hk].
    destruct (Hk k pk) as [->|(-> & v & Hv & ->)]; [done|].
    apply Forall_app. split; [done|]. constructor; [|done]. by eapply timely_clock.
Qed.

Lemma run_timely events : ∀ km t pk,
  StronglySorted Z.le (t :: events.*1) → Forall (event_typed ∘ snd) events →
  Forall (λ '(now, ev), event_timely now ev) events →
  (∀ k, bounded (abs k pk km) ∧ Forall (λ v, vote_le v (clock b k t)) (abs k pk km).2) →
  ∀ k, bounded (abs k pk (km_run events km)).
Proof using HviewL HfastL HnpL Hd Hspe.
  induction events as [|[now ev] events IH]; intros km t pk Hs Hty Hti Hinv k; [apply Hinv|].
  cbn [fmap list_fmap fst] in Hs. apply StronglySorted_inv in Hs as [Hs Hle].
  apply Forall_cons in Hle as [Hle _]. apply Forall_cons in Hty as [Hty Htys]. apply Forall_cons in Hti as [Hti Htis].
  apply (IH (km_step now ev km) now pk Hs Htys Htis). clear k. intros k. destruct (Hinv k) as [Hb Hall].
  assert (Forall (λ v, vote_le v (clock b k now)) (abs k pk km).2) as Hnow.
  { apply (Forall_impl _ _ _ Hall). intros v Hv. eapply vote_le_trans; [exact Hv|]. by apply clock_mono. }
  split; [|by apply event_votes].
  eapply protect_bounded; [exact Hb|by apply event_refines|done].
Qed.

Lemma run_unremoved events : ∀ km pk,
  Forall (event_typed ∘ snd) events → Forall (λ '(_, ev), removes ev pk = false) events →
  (∀ k, bounded (abs k pk km) ∧ ((abs k pk km).1 = None → (abs k pk km).2 = [])) →
  ∀ k, bounded (abs k pk (km_run events km)).
Proof using HviewL HfastL HnpL Hd Hspe.
  induction events as [|[now ev] events IH]; intros km pk Hty Hrm Hinv k; [apply Hinv|].
  apply Forall_cons in Hty as [Hty Htys]. apply Forall_cons in Hrm as [Hrm Hrms].
  apply (IH (km_step now ev km) pk Htys Hrms). clear k. intros k. destruct (Hinv k) as [Hb Hnone].
  pose proof (event_refines now ev km k pk Hty) as Hp. rewrite Hrm in Hp. split.
  - eapply protect_bounded; [exact Hb|exact Hp|]. intros Hn. rewrite (Hnone Hn). constructor.
  - revert Hnone. by destruct Hp.
Qed.
End runs.

(** ** What the signer is asked to sign *)
Definition sent_attestations (pk : bytes) (sent : list (bytes * SignRequest)) : list AttestationData :=
  omap (λ '(key, req), if decide (key = pk) then
          match req_Body req with TypeAttestation a => Some a | _ => None end else None) sent.
Definition sent_blocks (pk : bytes) (sent : list (bytes * SignRequest)) : list BeaconBlockHeader :=
  omap (λ '(key, req), if decide (key = pk) then
          match req_Body req with TypeBlockV2 _ header => Some header | _ => None end else None) sent.
(** The consensus specification's double and surround votes. *)
Definition slashable_attestations (a c : AttestationData) : Prop :=
  (a ≠ c ∧ cp_Epoch (ad_Target a) = cp_Epoch (ad_Target c)) ∨
  (cp_Epoch (ad_Source a) < cp_Epoch (ad_Source c) ∧ cp_Epoch (ad_Target c) < cp_Epoch (ad_Target a)).
Definition slashable_blocks (x y : BeaconBlockHeader) : Prop := x ≠ y ∧ bh_Slot x = bh_Slot y.

Lemma sent_attestations_votes pk sent : att_vote <$> sent_attestations pk sent = votes_of KAttestation pk sent.
Proof.
  unfold sent_attestations, votes_of. induction sent as [|[key req] sent IH]; [done|]. cbn.
  destruct (decide (key = pk)); [|done]. destruct (req_Body req); cbn; by rewrite ?IH.
Qed.
Lemma sent_blocks_votes pk sent : (slot_vote ∘ bh_Slot) <$> sent_blocks pk sent = votes_of KProposal pk sent.
Proof.
  unfold sent_blocks, votes_of. induction sent as [|[key req] sent IH]; [done|]. cbn.
  destruct (decide (key = pk)); [|done]. destruct (req_Body req); cbn; by rewrite ?IH.
Qed.

Lemma sorted_pairs {A} (f : A → vote) l x y :
  StronglySorted vote_lt (f <$> l) → x ∈ l → y ∈ l → x = y ∨ vote_lt (f x) (f y) ∨ vote_lt (f y) (f x).
Proof.
  induction l as [|z l IH]; cbn [fmap list_fmap]; intros Hs Hx Hy; [by apply elem_of_nil in Hx|].
  apply StronglySorted_inv in Hs as [Hs Hz]. rewrite Forall_fmap, Forall_forall in Hz.
  apply elem_of_cons in Hx as [->|Hx]; apply elem_of_cons in Hy as [->|Hy];
    [by left|right; left; by apply Hz|right; right; by apply Hz|by apply IH].
Qed.

Lemma slots_sorted (l : list BeaconBlockHeader) :
  StronglySorted vote_lt ((slot_vote ∘ bh_Slot) <$> l) → StronglySorted Z.lt (bh_Slot <$> l).
Proof.
  induction l as [|x l IH]; intros Hl; [constructor|].
  apply StronglySorted_inv in Hl as [Hl Hx]. constructor; [by apply IH|].
  apply Forall_fmap, Forall_forall. intros y Hy.
  pose proof (proj1 (Forall_forall _ _) Hx _ (list_elem_of_fmap_2 _ _ _ Hy)) as [_ Hlt]. exact Hlt.
Qed.

Section safety.
Context {DB : Type} `{Hsdb : SignerDatabase DB} {Hview : SignerDatabaseLaws DB} `{Hssz : AttestationSSZ}
  `{Hfast : FastSSZ} `{Hnp : NormalProtection DB} `{Henv : SigningEnv} (networkName : bytes) (b : Beacon)
  {HsszL : AttestationSSZLaws} {HfastL : FastSSZLaws} {HnpL : NormalProtectionLaws DB networkName}.

Lemma run_bounded (db : DB) events pk :
  0 < SlotDuration b → 0 < SlotsPerEpoch b →
  StronglySorted Z.le events.*1 → Forall (event_typed ∘ snd) events →
  Forall (λ '(now, ev), event_timely b now ev) events ∨ Forall (λ '(_, ev), removes ev pk = false) events →
  ∀ k, bounded (abs networkName k pk (km_run networkName b events (mkKeyManager db []))).
Proof using HsszL HfastL HnpL.
  intros Hd Hspe Hs Hty Hor k.
  assert (∀ k, bounded (abs networkName k pk (mkKeyManager db []))) as Hinit.
  { intros k'. split; [constructor|]. intros h _. constructor. }
  destruct Hor as [Hti|Hrm].
  - destruct events as [|[now ev] events]; [apply Hinit|].
    apply (run_timely networkName b Hd Hspe _ _ now); [|done|done|].
    + cbn [fmap list_fmap fst] in *. constructor; [done|]. apply StronglySorted_inv in Hs as [_ Hs].
      by constructor.
    + intros k'. split; [apply Hinit|constructor].
  - by apply (run_unremoved networkName b Hd Hspe).
Qed.

(** C6. Whatever is asked of the key manager, and whatever its database and the remote
    signer answer, the attestations that it sends to the signer for one key are pairwise
    neither double nor surround votes, and no two blocks have the same slot: targets and
    slots rise strictly.  Keys that are removed and added again need that votes are not
    ahead of the clock and attestations have their source before their target. *)
Theorem no_slashable_signature (db : DB) events pk :
  0 < SlotDuration b → 0 < SlotsPerEpoch b →
  StronglySorted Z.le events.*1 → Forall (event_typed ∘ snd) events →
  Forall (λ '(now, ev), event_timely b now ev) events ∨ Forall (λ '(_, ev), removes ev pk = false) events →
  let sent := km_sent (km_run networkName b events (mkKeyManager db [])) in
  StronglySorted vote_lt (att_vote <$> sent_attestations pk sent) ∧
  StronglySorted Z.lt (bh_Slot <$> sent_blocks pk sent) ∧
  (∀ a c, a ∈ sent_attestations pk sent → c ∈ sent_attestations pk sent → ¬ slashable_attestations a c) ∧
  (∀ x y, x ∈ sent_blocks pk sent → y ∈ sent_blocks pk sent → ¬ slashable_blocks x y).
Proof using HsszL HfastL HnpL.
  intros Hd Hspe Hs Hty Hor sent. pose proof (run_bounded db events pk Hd Hspe Hs Hty Hor) as Hb.
  destruct (Hb KAttestation) as [Hatt _], (Hb KProposal) as [Hblk _]. unfold abs in Hatt, Hblk.
  cbn [snd] in Hatt, Hblk. fold sent in Hatt, Hblk.
  rewrite <-sent_attestations_votes in Hatt. rewrite <-sent_blocks_votes in Hblk. split_and!; [done| | |].
  - by apply slots_sorted.
  - intros a c Ha Hc Hsl. destruct (sorted_pairs _ _ a c Hatt Ha Hc) as [->|[[]|[]]];
      unfold att_vote in *; cbn [fst snd] in *; destruct Hsl as [[]|[]]; (done || lia).
  - intros x y Hx Hy [Hne Heq]. destruct (sorted_pairs _ _ x y Hblk Hx Hy) as [->|[[]|[]]]; [done|..];
      unfold slot_vote in *; cbn in *; lia.
Qed.
End safety.
