(* ===== verification/SlashingWitness.v ===== *)
(** * A run of the key manager

    Executable instances of the interfaces of Slashing.v and KeyManager.v that satisfy the
    laws: a database in memory, the SSZ form of attestations, eth2-key-manager's protection
    over the storage; and a run in which votes are signed and refused, and a share is
    removed and added again. *)

From stdpp Require Import base list gmap numbers strings sorting.
From Stdlib Require Import Strings.Byte.
From S2P Require Import Prelude Sha256 SpecTypes Network ShareEncoding Slashing KeyManager.
From S2P Require Import Subnets SlashingProps SlashingSafety.
Open Scope string_scope.
Open Scope list_scope.
Open Scope Z_scope.

(** ** The database *)
Abbreviation SignerMem := (gmap (bytes * bytes) bytes).
#[global] Instance mem_signer_db : SignerDatabase SignerMem := {|
  sdb_Get p k db := Ok (db !! (p, k));
  sdb_Set p k v db := (<[(p, k) := v]> db, Ok tt);
  sdb_Delete p k db := (delete (p, k) db, Ok tt);
|}.
#[global] Instance mem_signer_laws : SignerDatabaseLaws SignerMem.
Proof.
  refine {| sdb_view := λ db : SignerMem, db |}.
  - intros p k db o [= <-]. done.
  - intros p k v db db' r [= <- <-]. by left.
  - intros p k db db' r [= <- <-]. by left.
Defined.

(** ** SSZ: an attestation is 128 bytes *)
Definition ref_marshal (a : AttestationData) : bytes :=
  mjoin [le_bytes 8 (ad_Slot a); le_bytes 8 (ad_Index a); ad_BeaconBlockRoot a;
         le_bytes 8 (cp_Epoch (ad_Source a)); cp_Root (ad_Source a);
         le_bytes 8 (cp_Epoch (ad_Target a)); cp_Root (ad_Target a)].
Definition ref_unmarshal (buf : bytes) : result goerr AttestationData :=
  fail_if (negb (len buf =? 128)) (ENew "incorrect size") ;;
  Ok (mkAttestationData (le_value (slice 0 8 buf)) (le_value (slice 8 16 buf)) (slice 16 48 buf)
        (mkCheckpoint (le_value (slice 48 56 buf)) (slice 56 88 buf))
        (mkCheckpoint (le_value (slice 88 96 buf)) (slice 96 128 buf))).
#[global] Instance ref_att_ssz : AttestationSSZ := {|
  att_MarshalSSZ a := Ok (ref_marshal a);
  att_UnmarshalSSZ := ref_unmarshal;
|}.

#[local] Opaque le_bytes.
#[global] Instance ref_att_laws : AttestationSSZLaws.
Proof.
  constructor. intros [slot index root [se sr] [te tr]] v Ht [= <-].
  unfold att_typed, checkpoint_typed, is_root, is_u64, max_u64 in Ht. cbn [ad_Slot ad_Index ad_BeaconBlockRoot
    ad_Source ad_Target cp_Epoch cp_Root] in Ht. destruct Ht as (Hs & Hi & Hr & [Hse Hsr] & [Hte Htr]).
  assert (len (ref_marshal (mkAttestationData slot index root (mkCheckpoint se sr) (mkCheckpoint te tr))) = 128)
    as Hlen.
  { unfold ref_marshal. rewrite !len_join_cons, len_join_nil. cbn. rewrite !len_le. unfold len. lia. }
  split; [by intros Hnil; rewrite Hnil in Hlen|]. cbn [att_UnmarshalSSZ ref_att_ssz]. unfold ref_unmarshal.
  rewrite Hlen. cbn [Z.eqb Pos.eqb negb fail_if mbind result_bind]. unfold ref_marshal. clear Hlen.
  cbn [ad_Slot ad_Index ad_BeaconBlockRoot ad_Source ad_Target cp_Epoch cp_Root].
  assert (len root = 32 ∧ len sr = 32 ∧ len tr = 32) as (Hr' & Hsr' & Htr') by (unfold len; lia).
  read_chunk 0%nat (le_bytes 8 slot) 0 8. read_chunk 1%nat (le_bytes 8 index) 8 16.
  read_chunk 2%nat root 16 48. read_chunk 3%nat (le_bytes 8 se) 48 56. read_chunk 4%nat sr 56 88.
  read_chunk 5%nat (le_bytes 8 te) 88 96. read_chunk 6%nat tr 96 128.
  rewrite !le_value_le_bytes by lia. done.
Qed.

Lemma le_value_range b : 0 ≤ le_value b < 256 ^ len b.
Proof.
  rewrite le_value_foldr. unfold len. induction b as [|x b IH]; [done|].
  cbn [foldr length]. rewrite Nat2Z.inj_succ, Z.pow_succ_r by lia.
  assert (0 ≤ byte_to_Z x < 256) by (unfold byte_to_Z; pose proof (Byte.to_N_bounded x); lia). lia.
Qed.
Lemma len_slice i j (b : bytes) : 0 ≤ i ≤ j → j ≤ len b → len (slice i j b) = j - i.
Proof. unfold len, slice. rewrite length_take, length_drop. lia. Qed.
Lemma ref_unmarshal_typed v a : ref_unmarshal v = Ok a → att_typed a.
Proof.
  unfold ref_unmarshal. intros (u & Hl%fail_if_ok & Ha)%bind_ok. injection Ha as <-.
  apply negb_false_iff, Z.eqb_eq in Hl.
  assert (∀ i, 0 ≤ i → i + 8 ≤ 128 → is_u64 (le_value (slice i (i + 8) v))) as Hw.
  { intros i Hi Hi'. pose proof (le_value_range (slice i (i + 8) v)) as Hr.
    rewrite len_slice in Hr by lia. unfold is_u64, max_u64. replace (i + 8 - i) with 8 in Hr by lia. lia. }
  assert (∀ i, 0 ≤ i → i + 32 ≤ 128 → is_root (slice i (i + 32) v)) as Hroot.
  { intros i Hi Hi'. pose proof (len_slice i (i + 32) v) as Hr. unfold is_root, len in *. lia. }
  repeat split; (apply (Hw 0) || apply (Hw 8) || apply (Hw 48) || apply (Hw 88) || apply (Hroot 16)
    || apply (Hroot 56) || apply (Hroot 96)); lia.
Qed.

(** ** The protection: without a record nothing is judged safe *)
Definition sample_network : bytes := String.list_byte_of_string "sample".
Abbreviation MM := (ST SignerMem goerr).

Definition ref_check_att (pk : bytes) (a : AttestationData) : MM (option string) :=
  high ← st_gets (RetrieveHighestAttestationTxn sample_network pk);
  match high with
  | None => st_err (ENew "highest attestation data is not found, can't determine if attestation is slashable")
  | Some h =>
      mret (if (cp_Epoch (ad_Source a) <? cp_Epoch (ad_Source h)) || (cp_Epoch (ad_Target a) <=? cp_Epoch (ad_Target h))
            then Some "HighestAttestationVote" else None)
  end.
Definition ref_check_prop (pk : bytes) (slot : Slot) : MM ProposalStatus :=
  high ← st_gets (RetrieveHighestProposalTxn sample_network pk);
  match high with
  | None => st_err (ENew "highest proposal data is not found, can't determine if proposal is slashable")
  | Some h => mret (if slot <=? h then SlashableProposal "HighestProposalVote" else ValidProposal)
  end.
Definition raise_checkpoint (old new : Checkpoint) : Checkpoint :=
  if cp_Epoch old <? cp_Epoch new then new else old.
Definition ref_update_att (pk : bytes) (a : AttestationData) : MM unit :=
  high ← st_gets (RetrieveHighestAttestationTxn sample_network pk);
  SaveHighestAttestationTxn sample_network pk (Some
    match high with
    | None => a
    | Some h => mkAttestationData (ad_Slot h) (ad_Index h) (ad_BeaconBlockRoot h)
                  (raise_checkpoint (ad_Source h) (ad_Source a)) (raise_checkpoint (ad_Target h) (ad_Target a))
    end).
Definition ref_update_prop (pk : bytes) (slot : Slot) : MM unit :=
  high ← st_gets (RetrieveHighestProposalTxn sample_network pk);
  if match high with Some h => h <? slot | None => true end then SaveHighestProposalTxn sample_network pk slot
  else mret tt.
#[global] Instance ref_protection : NormalProtection SignerMem := {|
  np_IsSlashableAttestation := ref_check_att;
  np_IsSlashableProposal := ref_check_prop;
  np_UpdateHighestAttestation := ref_update_att;
  np_UpdateHighestProposal := ref_update_prop;
|}.

Lemma get_att (pk : bytes) (db : SignerMem) (h : vote) :
  stored_att sample_network db pk = Some h →
  ∃ a, RetrieveHighestAttestationTxn sample_network pk db = Ok (Some a) ∧ att_vote a = h ∧ att_typed a.
Proof.
  unfold stored_att, att_key, RetrieveHighestAttestationTxn. cbn [sdb_Get mem_signer_db wrap].
  change (sdb_view db) with db.
  destruct (db !! _) as [v|] eqn:Hv; [|done]. cbn [mbind option_bind result_bind].
  destruct (length v =? 0)%nat; [done|]. cbn [fail_if mbind result_bind].
  destruct (att_UnmarshalSSZ v) as [a|e|] eqn:Ha; [|done..]. intros [= <-].
  exists a. cbn [wrap mbind result_bind]. by apply ref_unmarshal_typed in Ha.
Qed.
Lemma get_prop (pk : bytes) (db : SignerMem) (h : vote) :
  stored_prop sample_network db pk = Some h →
  ∃ s, RetrieveHighestProposalTxn sample_network pk db = Ok (Some s) ∧ slot_vote s = h.
Proof.
  unfold stored_prop, prop_key, RetrieveHighestProposalTxn. cbn [sdb_Get mem_signer_db wrap].
  change (sdb_view db) with db.
  destruct (db !! _) as [v|] eqn:Hv; [|done]. cbn [mbind option_bind result_bind].
  destruct (Nat.ltb_spec (length v) 8); [done|]. intros [= <-]. eexists. split; [|done].
  destruct (Nat.eqb_spec (length v) 0); [lia|done].
Qed.

Lemma ref_update_att_raises (pk : bytes) (a : AttestationData) (h : vote) (db db' : SignerMem) (r : result goerr unit) :
  att_typed a → stored_att sample_network db pk = Some h → np_UpdateHighestAttestation pk a db = (db', r) →
  others_kept (att_key sample_network pk) db db' ∧
  ∃ h', stored_att sample_network db' pk = Some h' ∧ vote_le h h' ∧ (r = Ok tt → vote_le (att_vote a) h').
Proof.
  intros Ha Hh. destruct (get_att _ _ _ Hh) as (old & Hr & <- & Hold).
  cbn [np_UpdateHighestAttestation ref_protection]. unfold ref_update_att, mbind, st_bind, st_gets. rewrite Hr.
  set (new := mkAttestationData _ _ _ _ _).
  assert (att_typed new ∧ vote_le (att_vote old) (att_vote new) ∧ vote_le (att_vote a) (att_vote new))
    as (Hnew & Hle & Hle').
  { unfold att_typed, vote_le, att_vote, new, raise_checkpoint in *. cbn.
    destruct (Z.ltb_spec (cp_Epoch (ad_Source old)) (cp_Epoch (ad_Source a))),
      (Z.ltb_spec (cp_Epoch (ad_Target old)) (cp_Epoch (ad_Target a))); intuition lia. }
  intros Hs. assert (db' = <[att_key sample_network pk := ref_marshal new]> db) as -> by (by injection Hs as <- _).
  split; [intros k Hk; by apply lookup_insert_ne|]. exists (att_vote new). split_and!; [|done..].
  assert (ref_marshal new ≠ [] ∧ att_UnmarshalSSZ (ref_marshal new) = Ok new) as [Hne Hu].
  { by apply att_ssz_round_trip. }
  unfold stored_att. change (sdb_view ?d) with d. rewrite lookup_insert_eq. cbn [mbind option_bind].
  rewrite Hu. by destruct (ref_marshal new).
Qed.
Lemma ref_update_prop_raises (pk : bytes) (slot : Slot) (h : vote) (db db' : SignerMem) (r : result goerr unit) :
  is_u64 slot → stored_prop sample_network db pk = Some h → np_UpdateHighestProposal pk slot db = (db', r) →
  others_kept (prop_key sample_network pk) db db' ∧
  ∃ h', stored_prop sample_network db' pk = Some h' ∧ vote_le h h' ∧ (r = Ok tt → vote_le (slot_vote slot) h').
Proof.
  intros Hslot Hh. destruct (get_prop _ _ _ Hh) as (old & Hr & <-).
  cbn [np_UpdateHighestProposal ref_protection]. unfold ref_update_prop, mbind, st_bind, st_gets. rewrite Hr.
  destruct (Z.ltb_spec old slot).
  2: { intros [= <- <-]. split; [done|]. exists (slot_vote old). split_and!; [done|unfold vote_le; lia|].
       intros _. unfold vote_le, slot_vote. cbn. lia. }
  unfold SaveHighestProposalTxn. destruct (slot =? 0).
  { intros [= <- <-]. split; [done|]. exists (slot_vote old). split_and!; [done|unfold vote_le; lia|done]. }
  intros Hs.
  assert (db' = <[prop_key sample_network pk := le_bytes 8 slot]> db) as -> by (by injection Hs as <- _).
  split; [intros k Hk; by apply lookup_insert_ne|]. exists (slot_vote slot).
  split_and!; [|unfold vote_le, slot_vote; cbn; lia|done].
  unfold stored_prop. change (sdb_view ?d) with d. rewrite lookup_insert_eq. cbn [mbind option_bind].
  rewrite le_bytes_length. cbn [Nat.ltb Nat.leb]. rewrite take_ge by (by rewrite le_bytes_length).
  cbn [UnmarshallUint64 ref_ssz]. rewrite le_value_le_bytes; [done|]. unfold is_u64, max_u64 in Hslot. lia.
Qed.

#[global] Instance ref_protection_laws : NormalProtectionLaws SignerMem sample_network.
Proof.
  constructor.
  - intros pk a db db' r. cbn [np_IsSlashableAttestation ref_protection].
    unfold ref_check_att, mbind, st_bind, st_gets.
    destruct (RetrieveHighestAttestationTxn sample_network pk db) as [[h|]|e|] eqn:Hr; intros [= <- <-];
      (split; [done|]); try done.
    apply (retrieve_att sample_network) in Hr. cbn in Hr. destruct (_ || _) eqn:Hc; [done|]. intros _.
    exists (att_vote h). split; [exact Hr|]. apply orb_false_iff in Hc as [?%Z.ltb_ge ?%Z.leb_gt].
    unfold vote_lt, att_vote. cbn [fst snd]. lia.
  - intros pk slot db db' r. cbn [np_IsSlashableProposal ref_protection].
    unfold ref_check_prop, mbind, st_bind, st_gets.
    destruct (RetrieveHighestProposalTxn sample_network pk db) as [[h|]|e|] eqn:Hr; intros [= <- <-];
      (split; [done|]); try done.
    apply (retrieve_prop sample_network) in Hr. cbn in Hr. destruct (Z.leb_spec slot h); [done|]. intros _.
    exists (slot_vote h). split; [exact Hr|]. unfold vote_lt, slot_vote. cbn [fst snd]. lia.
  - intros. by eapply ref_update_att_raises.
  - intros. by eapply ref_update_prop_raises.
Qed.

(** ** A run *)
#[global] Instance sample_signing : SigningEnv := {|
  IsValidFarFutureEpoch now epoch := epoch * 384 <=? now + 1200;
  IsValidFarFutureSlot now slot := slot * 12 <=? now + 1200;
  ComputeETHSigningRoot _ domain := Ok domain;
|}.
Definition signer_beacon : Beacon :=
  mkBeacon "sample" 12 32 256 512 4 16 16 [] 0 [] {[DataVersionPhase0 := mkFork [] [] 0]}.
Definition share_key : bytes := replicate 48 x07.
Definition sample_att (source target root : Z) : AttestationData :=
  mkAttestationData (target * 32) 0 (replicate 32 (byte_of_Z root)) (mkCheckpoint source zeroRoot)
    (mkCheckpoint target zeroRoot).
Definition sample_block (slot root : Z) : Block := mkBlock false slot 5 zeroRoot zeroRoot (Ok [byte_of_Z root]).

Definition sign_att (now source target root : Z) : Time * km_event :=
  (now, EvSign (λ _, Ok []) (ObjAttestationData (sample_att source target root)) [] share_key (target * 32) DomainAttester).
Definition sign_block (now slot root : Z) : Time * km_event :=
  (now, EvSign (λ _, Err (ENew "timeout")) (ObjBlock (sample_block slot root)) [] share_key slot DomainProposer).

(** Votes before the share is known, a double vote, two blocks of one slot, a vote without
    a share, and a surround vote are refused; the share is removed and added in between. *)
Definition sample_events : list (Time * km_event) :=
  [ sign_att 1000 1 2 1; (1000, EvAddShare (Ok [StatusImported]) share_key);
    sign_att 1200 2 3 1; sign_att 1200 2 3 2; sign_block 1200 100 1; sign_block 1201 100 2;
    (1210, EvRemoveShare (Ok [StatusDeleted]) share_key); sign_att 1212 2 3 3;
    (1220, EvAddShare (Ok [StatusDuplicated]) share_key); sign_att 1600 1 4 1; sign_att 1600 3 4 1;
    sign_block 1600 133 1 ].
Definition sample_sent : list (bytes * SignRequest) :=
  km_sent (km_run sample_network signer_beacon sample_events (mkKeyManager (∅ : SignerMem) [])).

Lemma sample_sorted : StronglySorted Z.le sample_events.*1.
Proof. cbn. repeat constructor; discriminate. Qed.
Lemma sample_typed : Forall (event_typed ∘ snd) sample_events.
Proof. repeat constructor; unfold is_root; cbn; try reflexivity; discriminate. Qed.
Lemma sample_timely : Forall (λ '(now, ev), event_timely signer_beacon now ev) sample_events.
Proof.
  unfold sample_events. repeat (apply Forall_cons_2); try apply Forall_nil_2; try exact I;
    [exists 83, 2|exists 100, 3|exists 100, 3|exists 100, 3|exists 100, 3|exists 101, 3|exists 133, 4..];
    (split; [reflexivity|split; [reflexivity|cbn; lia]]).
Qed.

Lemma no_slashable_signature_witness :
  sent_attestations share_key sample_sent = [sample_att 2 3 1; sample_att 3 4 1] ∧
  bh_Slot <$> sent_blocks share_key sample_sent = [100; 133] ∧
  ¬ slashable_attestations (sample_att 2 3 1) (sample_att 3 4 1).
Proof.
  assert (sent_attestations share_key sample_sent = [sample_att 2 3 1; sample_att 3 4 1]) as Hsent
    by (vm_compute; reflexivity).
  split_and!; [exact Hsent|vm_compute; reflexivity|].
  apply (no_slashable_signature sample_network signer_beacon ∅ sample_events share_key); fold sample_sent;
    [reflexivity|reflexivity|exact sample_sorted|exact sample_typed|left; exact sample_timely|..]; rewrite Hsent.
  - apply list_elem_of_here.
  - apply list_elem_of_further, list_elem_of_here.
Defined.
