(* ===== verification/ValueCheck.v ===== *)
(** * Checks of proposed values (protocol/v2/ssv/value_check.go,
      protocol/v2/types/consensus_data.go, protocol/v2/types/gloas/proposal_data.go)

    Before an operator prepares a proposed value it decodes it, compares it with its duty
    and asks slashing protection about it.  The decoders of ssv-spec and go-eth2-client are
    a class. *)

From stdpp Require Import base list gmap numbers strings.
From Stdlib Require Import Strings.Byte.
From S2P Require Import Prelude Sha256 SpecTypes Network ShareEncoding Slashing.
Open Scope string_scope.
Open Scope list_scope.
Open Scope Z_scope.

(** ** Values *)
Record BeaconVote := mkBeaconVote { bv_BlockRoot : bytes; bv_Source : Checkpoint; bv_Target : Checkpoint }.
Record GloasBeaconVote := mkGloasBeaconVote { gv_Vote : BeaconVote; gv_AttestationDataIndex : Z }.

Inductive BeaconRole :=
| BNRoleProposer | BNRoleAggregator | BNRoleSyncCommitteeContribution
| BNRoleValidatorRegistration | BNRoleVoluntaryExit | BNRoleOther (n : Z).
#[global] Instance BeaconRole_eq_dec : EqDecision BeaconRole.
Proof. solve_decision. Defined.

(** The fields of the duty that are read. *)
Record ConsensusDuty := mkConsensusDuty {
  cdt_Type : BeaconRole;
  cdt_PubKey : bytes;
  cdt_Slot : Slot;
  cdt_ValidatorIndex : ValidatorIndex;
}.
Record ProposerConsensusData := mkConsensusData {
  cd_Duty : ConsensusDuty;
  cd_Version : DataVersion;
  cd_DataSSZ : bytes;
}.
Record GloasBlock := mkGloasBlock { gb_Slot : Slot; gb_ProposerIndex : ValidatorIndex; gb_BuilderIndex : Z }.
Record GloasProposalData := mkGloasProposalData { gp_Block : GloasBlock; gp_PayloadRoot : bytes }.

Record AssignedAggregator := mkAssigned { as_ValidatorIndex : ValidatorIndex; as_CommitteeIndex : Z }.
Record AggregatorCommitteeConsensusData := mkAggregatorData {
  ac_Aggregators : list AssignedAggregator;
  ac_Contributors : list AssignedAggregator;
}.

(** The container that an aggregate of a version is decoded into. *)
Inductive AggregateContainer := Phase0Aggregate | ElectraAggregate | GloasAggregate.

Class ValueLib := {
  bv_Decode : bytes → result goerr BeaconVote;
  bv_Validate : BeaconVote → result goerr unit;
  gv_Decode : bytes → result goerr GloasBeaconVote;
  gv_Validate : GloasBeaconVote → result goerr unit;
  ac_Decode : bytes → result goerr AggregatorCommitteeConsensusData;
  ac_Validate : AggregatorCommitteeConsensusData → result goerr unit;
  cd_Decode : bytes → result goerr ProposerConsensusData;
  cd_Validate : ProposerConsensusData → result goerr unit;
  (** [GetBlockData], with what [Slot] then returns. *)
  cd_GetBlockData : ProposerConsensusData → result goerr (result goerr Slot);
  aggregate_UnmarshalSSZ : AggregateContainer → bytes → result goerr bytes;
  contributions_UnmarshalSSZ : bytes → result goerr (list bytes);
  block_UnmarshalSSZ : bytes → result goerr GloasBlock;
}.

Section decoding.
Context `{ValueLib}.

(** ** gloas/gloasproposaldata_ssz.go, proposal_data.go *)
Definition GloasProposalData_UnmarshalSSZ (buf : bytes) : result goerr GloasProposalData :=
  fail_if (len buf <? 36) (ENew "not enough bytes for the fixed fields") ;;
  let offset0 := le_value (slice 0 4 buf) in
  fail_if (negb (offset0 =? 36)) (ENew "first offset mismatch") ;;
  block ← block_UnmarshalSSZ (slice offset0 (len buf) buf);
  Ok (mkGloasProposalData block (slice 4 36 buf)).
Definition DecodeGloasProposalData (dataSSZ : bytes) : result goerr GloasProposalData :=
  GloasProposalData_UnmarshalSSZ dataSSZ.

Abbreviation BuilderIndexSelfBuild := (max_u64).
Definition SelfBuild (d : GloasProposalData) : bool := gb_BuilderIndex (gp_Block d) =? BuilderIndexSelfBuild.

(** ** consensus_data.go *)
Definition with_code {A} (code : ErrorCode) (text : string) (r : result goerr A) : result goerr A :=
  match r with Err e => Err (ECode code (EWrap text e)) | r => r end.
Definition new_error {A} (code : ErrorCode) (text : string) : result goerr A := Err (ECode code (ENew text)).

Definition GetAggregateAndProof (cd : ProposerConsensusData) : result goerr (DataVersion * bytes) :=
  container ← match cd_Version cd with
    | DataVersionPhase0 | DataVersionAltair | DataVersionBellatrix | DataVersionCapella | DataVersionDeneb =>
        Ok Phase0Aggregate
    | DataVersionElectra | DataVersionFulu => Ok ElectraAggregate
    | DataVersionGloas => Ok GloasAggregate
    | DataVersionOther _ => Err (ENew "unknown aggregate and proof version")
    end;
  ret ← with_code UnmarshalSSZErrorCode "could not unmarshal ssz" (aggregate_UnmarshalSSZ container (cd_DataSSZ cd));
  Ok (cd_Version cd, ret).

Definition GetSyncCommitteeContributions (cd : ProposerConsensusData) : result goerr (list bytes) :=
  with_code UnmarshalSSZErrorCode "could not unmarshal ssz" (contributions_UnmarshalSSZ (cd_DataSSZ cd)).

(** An error of the decoders is replaced. *)
Definition or_invalid {A} (r : result goerr A) : result goerr unit :=
  match r with
  | Ok _ => Ok tt
  | Err _ => new_error QBFTValueInvalidErrorCode "invalid value"
  | Panic => Panic
  end.
Definition ValidateConsensusData (cd : ProposerConsensusData) : result goerr unit :=
  match cdt_Type (cd_Duty cd) with
  | BNRoleProposer => or_invalid (cd_Validate cd)
  | BNRoleAggregator => or_invalid (GetAggregateAndProof cd)
  | BNRoleSyncCommitteeContribution => or_invalid (GetSyncCommitteeContributions cd)
  | BNRoleValidatorRegistration =>
      new_error ValidatorRegistrationNoConsensusPhaseErrorCode "validator registration has no consensus data"
  | BNRoleVoluntaryExit => new_error ValidatorExitNoConsensusPhaseErrorCode "voluntary exit has no consensus data"
  | BNRoleOther _ => new_error UnknownDutyRoleDataErrorCode "unknown duty role"
  end.
End decoding.

Section checks.
Context {DB : Type} `{NormalProtection DB} `{ValueLib}.
Abbreviation DBM := (ST DB goerr).

(** ** Committee votes *)
Record voteChecker := mkVoteChecker {
  vc_slot : Slot;
  vc_sharePublicKeys : list bytes;
  vc_expectedVote : BeaconVote;
}.

Fixpoint check_slashable (attestationData : AttestationData) (sharePublicKeys : list bytes) : DBM unit :=
  match sharePublicKeys with
  | [] => mret tt
  | sharePublicKey :: rest =>
      IsAttestationSlashable sharePublicKey attestationData ;; check_slashable attestationData rest
  end.
(** The majority fork protection: only epochs are compared. *)
Definition check_epochs (bv expected : BeaconVote) : result goerr unit :=
  fail_if (negb (cp_Epoch (bv_Source bv) =? cp_Epoch (bv_Source expected))) (ENew "unexpected source epoch") ;;
  fail_if (negb (cp_Epoch (bv_Target bv) =? cp_Epoch (bv_Target expected))) (ENew "unexpected target epoch").

Definition voteChecker_CheckValue (v : voteChecker) (value : bytes) : DBM unit :=
  bv ← st_lift (with_code DecodeBeaconVoteErrorCode "failed decoding beacon vote" (bv_Decode value));
  st_lift (bv_Validate bv) ;;
  check_slashable (mkAttestationData (vc_slot v) max_u64 (bv_BlockRoot bv) (bv_Source bv) (bv_Target bv))
    (vc_sharePublicKeys v) ;;
  st_lift (check_epochs bv (vc_expectedVote v)).

Record gloasVoteChecker := mkGloasVoteChecker {
  gc_slot : Slot;
  gc_sharePublicKeys : list bytes;
  gc_expectedVote : GloasBeaconVote;
  gc_sameSlotBlockRoot : option bytes;
}.

Definition gloasVoteChecker_CheckValue (v : gloasVoteChecker) (value : bytes) : DBM unit :=
  gv ← st_lift (with_code DecodeGloasBeaconVoteErrorCode "failed decoding gloas beacon vote" (gv_Decode value));
  st_lift (gv_Validate gv) ;;
  let bv := gv_Vote gv in
  st_lift (fail_if ((gv_AttestationDataIndex gv =? 1) && bool_decide (gc_sameSlotBlockRoot v = Some (bv_BlockRoot bv)))
    (ECode GloasBeaconVoteInvalidIndexErrorCode (ENew "gloas attestation data index 1 for a same-slot block"))) ;;
  check_slashable
    (mkAttestationData (gc_slot v) (gv_AttestationDataIndex gv) (bv_BlockRoot bv) (bv_Source bv) (bv_Target bv))
    (gc_sharePublicKeys v) ;;
  st_lift (check_epochs bv (gv_Vote (gc_expectedVote v))).

(** ** Aggregator committees *)
Fixpoint dedup (kind : string) (seen : gset (ValidatorIndex * Z)) (l : list AssignedAggregator) : result goerr unit :=
  match l with
  | [] => Ok tt
  | a :: rest =>
      let key := (as_ValidatorIndex a, as_CommitteeIndex a) in
      fail_if (bool_decide (key ∈ seen)) (EWrap "duplicate" (ENew kind)) ;; dedup kind ({[key]} ∪ seen) rest
  end.
Definition validateNoDuplicateAggregatorCommittee (cd : AggregatorCommitteeConsensusData) : result goerr unit :=
  dedup "aggregator" ∅ (ac_Aggregators cd) ;; dedup "contributor" ∅ (ac_Contributors cd).

Definition aggregatorCommitteeChecker_CheckValue (value : bytes) : result goerr unit :=
  cd ← with_code AggCommConsensusDataDecodeErrorCode "failed decoding aggregator committee consensus data"
         (ac_Decode value);
  wrap "invalid value" (ac_Validate cd) ;;
  validateNoDuplicateAggregatorCommittee cd.

(** ** Duties of one validator *)
Definition EstimatedCurrentEpoch (b : Beacon) (now : Time) : result goerr Epoch :=
  slot ← EstimatedSlotAtTime b now; EstimatedEpochAtSlot b slot.

(** The Gloas branch. *)
Definition check_gloas_proposal (cd : ProposerConsensusData) : result goerr GloasProposalData :=
  fail_if (negb (bool_decide (cd_Version cd = DataVersionGloas)))
    (ECode QBFTValueInvalidErrorCode (ENew "value version does not match slot fork")) ;;
  proposal ← with_code UnmarshalSSZErrorCode "failed decoding gloas proposal data"
               (DecodeGloasProposalData (cd_DataSSZ cd));
  fail_if (negb (gb_Slot (gp_Block proposal) =? cdt_Slot (cd_Duty cd)))
    (ECode ProposerBlockSlotMismatchErrorCode (ENew "gloas block slot does not match duty slot")) ;;
  fail_if (negb (gb_ProposerIndex (gp_Block proposal) =? cdt_ValidatorIndex (cd_Duty cd)))
    (ECode ProposerBlockProposerIndexMismatchErrorCode
       (ENew "gloas block proposer index does not match duty validator index")) ;;
  fail_if (Bool.eqb (SelfBuild proposal) (bool_decide (gp_PayloadRoot proposal = zeroRoot)))
    (ECode QBFTValueInvalidErrorCode (ENew "gloas payload_root presence does not match self-build bid")) ;;
  Ok proposal.

(** [runningDutySlot]: the slot the function reports, [None] for a nil function. *)
Definition checkValidatorConsensusData (now : Time) (value : bytes) (beaconConfig : Beacon)
    (expectedType : BeaconRole) (validatorPK : bytes) (validatorIndex : ValidatorIndex)
    (runningDutySlot : option Slot) : result goerr (ProposerConsensusData * option GloasProposalData) :=
  cd ← wrap "failed decoding consensus data" (cd_Decode value);
  fail_if (match runningDutySlot with
           | Some want => negb (want =? 0) && negb (cdt_Slot (cd_Duty cd) =? want)
           | None => false
           end)
    (ECode ProposerDutySlotMismatchErrorCode (ENew "consensus data duty slot does not match running duty slot")) ;;
  gloas ← (if bool_decide (cdt_Type (cd_Duty cd) = BNRoleProposer)
           then IsGloasAtSlot beaconConfig (cdt_Slot (cd_Duty cd)) else Ok false);
  gloasProposal ← (if gloas : bool then proposal ← check_gloas_proposal cd; Ok (Some proposal)
                   else or_invalid (ValidateConsensusData cd) ;; Ok None);
  fail_if (negb (bool_decide (expectedType = cdt_Type (cd_Duty cd))))
    (ECode WrongBeaconRoleTypeErrorCode (ENew "wrong beacon role type")) ;;
  epoch ← EstimatedEpochAtSlot beaconConfig (cdt_Slot (cd_Duty cd));
  currentEpoch ← EstimatedCurrentEpoch beaconConfig now;
  fail_if (currentEpoch +u 1 <? epoch) (ECode DutyEpochTooFarFutureErrorCode (ENew "duty epoch is into far future")) ;;
  fail_if (negb (bool_decide (validatorPK = cdt_PubKey (cd_Duty cd))))
    (ECode WrongValidatorPubkeyErrorCode (ENew "wrong validator pk")) ;;
  fail_if (negb (validatorIndex =? cdt_ValidatorIndex (cd_Duty cd)))
    (ECode WrongValidatorIndexErrorCode (ENew "wrong validator index")) ;;
  Ok (cd, gloasProposal).

Record proposerChecker := mkProposerChecker {
  pc_beaconConfig : Beacon;
  pc_validatorPK : bytes;
  pc_validatorIndex : ValidatorIndex;
  pc_sharePublicKey : bytes;
  pc_runningDutySlot : option Slot;
}.
Definition proposerChecker_CheckValue (now : Time) (v : proposerChecker) (value : bytes) : DBM unit :=
  '(cd, gloasProposal) ← st_lift (checkValidatorConsensusData now value (pc_beaconConfig v) BNRoleProposer
                                    (pc_validatorPK v) (pc_validatorIndex v) (pc_runningDutySlot v));
  slot ← match gloasProposal with
         | Some proposal => mret (gb_Slot (gp_Block proposal))
         | None =>
             blockData ← st_lift (wrap "could not get block data" (cd_GetBlockData cd));
             st_lift (wrap "failed to get slot from block data" blockData)
         end;
  IsBeaconBlockSlashable (pc_sharePublicKey v) slot.

Record dutyChecker := mkDutyChecker {
  dc_beaconConfig : Beacon;
  dc_validatorPK : bytes;
  dc_validatorIndex : ValidatorIndex;
}.
Definition aggregatorChecker_CheckValue (now : Time) (v : dutyChecker) (value : bytes) : result goerr unit :=
  checkValidatorConsensusData now value (dc_beaconConfig v) BNRoleAggregator (dc_validatorPK v)
    (dc_validatorIndex v) None ;; Ok tt.
Definition syncCommitteeContributionChecker_CheckValue (now : Time) (v : dutyChecker) (value : bytes)
    : result goerr unit :=
  checkValidatorConsensusData now value (dc_beaconConfig v) BNRoleSyncCommitteeContribution (dc_validatorPK v)
    (dc_validatorIndex v) None ;; Ok tt.
End checks.
