(* ===== verification/ValueProps.v ===== *)
(** * Correctness of the value checks

    A value that an operator's checks accept fits its duty and conflicts with nothing that
    its key manager ever sent to the signer. *)

From stdpp Require Import base list gmap numbers strings sorting.
From Stdlib Require Import Strings.Byte.
From S2P Require Import Prelude Sha256 SpecTypes Network ShareEncoding Slashing KeyManager.
From S2P Require Import SlashingProps SlashingSafety ValueCheck.
Open Scope Z_scope.

Lemma with_code_ok {A} code text (r : result goerr A) a : with_code code text r = Ok a → r = Ok a.
Proof. by destruct r. Qed.
Lemma st_lift_ok {S E A} (r : result E A) (s s' : S) a : st_lift r s = (s', Ok a) → s' = s ∧ r = Ok a.
Proof. by intros [= <- <-]. Qed.

(** ** No duplicates *)
Definition assignment (a : AssignedAggregator) : ValidatorIndex * Z := (as_ValidatorIndex a, as_CommitteeIndex a).

Lemma dedup_spec kind seen l :
  dedup kind seen l = Ok tt ↔ NoDup (assignment <$> l) ∧ ∀ a, a ∈ l → assignment a ∉ seen.
Proof.
  revert seen. induction l as [|a l IH]; intros seen; cbn [dedup].
  { split; [|done]. intros _. split; [constructor|]. by intros a Ha%elem_of_nil. }
  fold (assignment a). destruct (decide (assignment a ∈ seen)) as [Hin|Hin].
  - rewrite bool_decide_eq_true_2 by done. split; [done|]. intros [_ Hn]. by destruct (Hn a (list_elem_of_here _ _)).
  - rewrite bool_decide_eq_false_2 by done. cbn [fail_if mbind result_bind]. rewrite IH.
    rewrite fmap_cons, NoDup_cons. split.
    + intros [Hnd Hn]. split_and!; [|done|].
      * intros (c & Heq & Hc)%list_elem_of_fmap_1. apply (Hn c Hc). rewrite <-Heq. set_solver.
      * intros c [->|Hc]%elem_of_cons; [done|]. specialize (Hn c Hc). set_solver.
    + intros ([Hna Hnd] & Hn). split; [done|]. intros c Hc.
      apply not_elem_of_union. split; [|apply Hn; by apply list_elem_of_further].
      intros Heq%elem_of_singleton. apply Hna. rewrite <-Heq. by apply list_elem_of_fmap_2.
Qed.

(** The aggregator committee's check accepts exactly the values that decode, that
    ssv-spec validates, and in which no validator has the same committee twice among the
    aggregators, nor the same subnet twice among the contributors. *)
Theorem aggregator_value_exact `{ValueLib} value :
  aggregatorCommitteeChecker_CheckValue value = Ok tt ↔
  ∃ cd, ac_Decode value = Ok cd ∧ ac_Validate cd = Ok tt ∧
    NoDup (assignment <$> ac_Aggregators cd) ∧ NoDup (assignment <$> ac_Contributors cd).
Proof.
  unfold aggregatorCommitteeChecker_CheckValue, validateNoDuplicateAggregatorCommittee. split.
  - intros (cd & Hd%with_code_ok & Hr)%bind_ok. apply bind_ok in Hr as ([] & Hv & Hr).
    apply bind_ok in Hr as ([] & [Ha _]%dedup_spec & [Hc _]%dedup_spec).
    exists cd. split_and!; [done| |done..]. by destruct (ac_Validate cd).
  - intros (cd & -> & Hv & Ha & Hc). cbn [with_code mbind result_bind]. rewrite Hv.
    cbn [wrap mbind result_bind].
    rewrite (proj2 (dedup_spec "aggregator" ∅ _)) by (split; [done|]; intros; apply not_elem_of_empty).
    cbn [mbind result_bind]. apply dedup_spec. split; [done|]. intros; apply not_elem_of_empty.
Qed.

Section accepted.
Context {DB : Type} `{Hsdb : SignerDatabase DB} {Hview : SignerDatabaseLaws DB} `{Hssz : AttestationSSZ}
  `{Hfast : FastSSZ} `{Hnp : NormalProtection DB} `{Henv : SigningEnv} `{Hlib : ValueLib}
  (networkName : bytes) (b : Beacon)
  {HsszL : AttestationSSZLaws} {HfastL : FastSSZLaws} {HnpL : NormalProtectionLaws DB networkName}.

Lemma check_slashable_ok a keys : ∀ (db db' : DB),
  check_slashable a keys db = (db', Ok tt) →
  ∀ pk, pk ∈ keys → ∃ h, stored_att networkName db pk = Some h ∧ vote_lt h (att_vote a).
Proof using HnpL.
  induction keys as [|k keys IH]; intros db db' Hc pk Hpk; [by apply elem_of_nil in Hpk|].
  cbn [check_slashable] in Hc. apply st_bind_ok in Hc as (db1 & u & Hk & Hc).
  unfold IsAttestationSlashable in Hk. apply st_bind_ok in Hk as (db2 & o & Hk & Ho).
  destruct o as [status|]; [done|]. injection Ho as ->.
  apply np_check_att in Hk as [Hv Hok]. apply elem_of_cons in Hpk as [->|Hpk]; [by apply Hok|].
  destruct (IH _ _ Hc pk Hpk) as (h & Hh & Hlt). exists h. split; [|done].
  rewrite <-Hh. symmetry. apply (view_record networkName KAttestation pk _ _ Hv).
Qed.

Lemma check_epochs_ok bv expected :
  check_epochs bv expected = Ok tt →
  cp_Epoch (bv_Source bv) = cp_Epoch (bv_Source expected) ∧ cp_Epoch (bv_Target bv) = cp_Epoch (bv_Target expected).
Proof using.
  unfold check_epochs. intros (u & Hs%fail_if_ok & Ht%fail_if_ok)%bind_ok.
  apply negb_false_iff, Z.eqb_eq in Hs, Ht. done.
Qed.

(** The duty and the votes before it are compatible with an accepted vote. *)
Definition fits (keys : list bytes) (sent : list (bytes * SignRequest)) (bv expected : BeaconVote) : Prop :=
  cp_Epoch (bv_Source bv) = cp_Epoch (bv_Source expected) ∧
  cp_Epoch (bv_Target bv) = cp_Epoch (bv_Target expected) ∧
  ∀ pk a x, pk ∈ keys → a ∈ sent_attestations pk sent → ad_Source x = bv_Source bv → ad_Target x = bv_Target bv →
    ¬ slashable_attestations a x ∧ ¬ slashable_attestations x a.

Lemma above_record_fits (km : KeyManager DB) keys bv expected x :
  (∀ pk, pk ∈ keys → bounded (abs networkName KAttestation pk km)) →
  ad_Source x = bv_Source bv → ad_Target x = bv_Target bv →
  (∀ pk, pk ∈ keys → ∃ h, stored_att networkName (km_db km) pk = Some h ∧ vote_lt h (att_vote x)) →
  check_epochs bv expected = Ok tt → fits keys (km_sent km) bv expected.
Proof using.
  intros Hb Hxs Hxt Hc [Hs Ht]%check_epochs_ok. split_and!; [done..|].
  intros pk a y Hpk Ha Hys Hyt. destruct (Hc pk Hpk) as (h & Hh & [Hlt1 Hlt2]), (Hb pk Hpk) as [_ Hall].
  specialize (Hall h Hh). cbn [abs snd] in Hall. rewrite <-sent_attestations_votes in Hall.
  pose proof (proj1 (Forall_forall _ _) Hall _ (list_elem_of_fmap_2 _ _ _ Ha)) as [Hle1 Hle2].
  unfold att_vote in *. cbn [fst snd] in *. rewrite Hxs in Hlt1. rewrite Hxt in Hlt2.
  unfold slashable_attestations. rewrite Hys, Hyt. split; intros [[]|[]]; lia.
Qed.

(** C7. A vote that the committee's check accepts, before or since the Gloas fork, has the
    epochs the operator expects, and no attestation with its source and target conflicts
    with one that the key manager sent for any of the operator's shares, in any order of
    requests before; for Gloas, index 1 is not accepted for the block of the slot.  Either no
    earlier request to sign was ahead of the clock, with the source of an attestation before
    its target, or none of the shares was ever removed. *)
Theorem accepted_vote_not_slashable (db : DB) events keys :
  0 < SlotDuration b → 0 < SlotsPerEpoch b →
  StronglySorted Z.le events.*1 → Forall (event_typed ∘ snd) events →
  Forall (λ '(now, ev), event_timely b now ev) events ∨
    (∀ pk, pk ∈ keys → Forall (λ '(_, ev), removes ev pk = false) events) →
  let km := km_run networkName b events (mkKeyManager db []) in
  (∀ v value db', vc_sharePublicKeys v = keys → voteChecker_CheckValue v value (km_db km) = (db', Ok tt) →
     ∃ bv, bv_Decode value = Ok bv ∧ fits keys (km_sent km) bv (vc_expectedVote v)) ∧
  (∀ v value db', gc_sharePublicKeys v = keys → gloasVoteChecker_CheckValue v value (km_db km) = (db', Ok tt) →
     ∃ gv, gv_Decode value = Ok gv ∧ fits keys (km_sent km) (gv_Vote gv) (gv_Vote (gc_expectedVote v)) ∧
       (gc_sameSlotBlockRoot v = Some (bv_BlockRoot (gv_Vote gv)) → gv_AttestationDataIndex gv ≠ 1)).
Proof using HsszL HfastL HnpL.
  intros Hd Hspe Hs Hty Hor km.
  assert (∀ pk, pk ∈ keys → bounded (abs networkName KAttestation pk km)) as Hb.
  { intros pk Hpk. apply run_bounded; try done. destruct Hor as [?|Hrm]; [by left|right; by apply Hrm]. }
  split; intros v value db' Hkeys Hc.
  - unfold voteChecker_CheckValue in Hc.
    apply st_bind_ok in Hc as (? & bv & [-> Hdec%with_code_ok]%st_lift_ok & Hc).
    apply st_bind_ok in Hc as (? & [] & [-> _]%st_lift_ok & Hc).
    apply st_bind_ok in Hc as (db1 & [] & Hsl & [_ Hep]%st_lift_ok). rewrite Hkeys in Hsl.
    pose proof (check_slashable_ok _ _ _ _ Hsl) as Habove.
    exists bv. split; [done|]. by refine (above_record_fits km keys _ _ _ Hb _ _ Habove Hep).
  - unfold gloasVoteChecker_CheckValue in Hc.
    apply st_bind_ok in Hc as (? & gv & [-> Hdec%with_code_ok]%st_lift_ok & Hc).
    apply st_bind_ok in Hc as (? & [] & [-> _]%st_lift_ok & Hc).
    apply st_bind_ok in Hc as (? & [] & [-> Hi%fail_if_ok]%st_lift_ok & Hc).
    apply st_bind_ok in Hc as (db1 & [] & Hsl & [_ Hep]%st_lift_ok). rewrite Hkeys in Hsl.
    pose proof (check_slashable_ok _ _ _ _ Hsl) as Habove.
    exists gv. split_and!; [done|by refine (above_record_fits km keys _ _ _ Hb _ _ Habove Hep)|].
    intros Hroot Hone. rewrite Hone, bool_decide_eq_true_2 in Hi by done. done.
Qed.

(** ** Proposals *)
Lemma check_gloas_proposal_ok cd proposal :
  check_gloas_proposal cd = Ok proposal →
  cd_Version cd = DataVersionGloas ∧ DecodeGloasProposalData (cd_DataSSZ cd) = Ok proposal ∧
  gb_Slot (gp_Block proposal) = cdt_Slot (cd_Duty cd) ∧
  gb_ProposerIndex (gp_Block proposal) = cdt_ValidatorIndex (cd_Duty cd) ∧
  (SelfBuild proposal = true ↔ gp_PayloadRoot proposal ≠ zeroRoot).
Proof using.
  unfold check_gloas_proposal. intros (u & Hv & Hr)%bind_ok. apply bind_ok in Hr as (p & Hp%with_code_ok & Hr).
  inv_ok. split_and!; try done.
  destruct (SelfBuild proposal), (decide (gp_PayloadRoot proposal = zeroRoot)) as [Hz|Hz];
    [rewrite bool_decide_eq_true_2 in * by done|rewrite bool_decide_eq_false_2 in * by done|
     rewrite bool_decide_eq_true_2 in * by done|rewrite bool_decide_eq_false_2 in * by done]; done.
Qed.

(** The duty of an accepted value. *)
Definition duty_matches (now : Time) (cfg : Beacon) (role : BeaconRole) (validatorPK : bytes)
    (validatorIndex : ValidatorIndex) (running : option Slot) (cd : ProposerConsensusData) : Prop :=
  cdt_Type (cd_Duty cd) = role ∧ cdt_PubKey (cd_Duty cd) = validatorPK ∧
  cdt_ValidatorIndex (cd_Duty cd) = validatorIndex ∧
  (∀ want, running = Some want → want ≠ 0 → cdt_Slot (cd_Duty cd) = want) ∧
  ∃ epoch current, EstimatedEpochAtSlot cfg (cdt_Slot (cd_Duty cd)) = Ok epoch ∧
    EstimatedCurrentEpoch cfg now = Ok current ∧ epoch ≤ current +u 1.

Lemma consensus_data_ok now value cfg role validatorPK validatorIndex running cd proposal :
  checkValidatorConsensusData now value cfg role validatorPK validatorIndex running = Ok (cd, proposal) →
  cd_Decode value = Ok cd ∧ duty_matches now cfg role validatorPK validatorIndex running cd ∧
  match proposal with
  | Some p => IsGloasAtSlot cfg (cdt_Slot (cd_Duty cd)) = Ok true ∧ check_gloas_proposal cd = Ok p
  | None => ValidateConsensusData cd = Ok tt ∧ (role = BNRoleProposer → IsGloasAtSlot cfg (cdt_Slot (cd_Duty cd)) = Ok false)
  end.
Proof using.
  unfold checkValidatorConsensusData. intros (cd' & Hd%unwrap_ok & Hr)%bind_ok.
  apply bind_ok in Hr as (u & Hrun%fail_if_ok & Hr). apply bind_ok in Hr as (gloas & Hg & Hr).
  apply bind_ok in Hr as (p & Hp & Hr). apply bind_ok in Hr as (u1 & Hrole & Hr).
  apply bind_ok in Hr as (epoch & He & Hr). apply bind_ok in Hr as (current & Hc & Hr).
  apply bind_ok in Hr as (u2 & Hfar & Hr). apply bind_ok in Hr as (u3 & Hpk & Hr).
  apply bind_ok in Hr as (u4 & Hix & [= -> ->]). inv_ok. split_and!; [done| |].
  - unfold duty_matches. split_and!; try done; [|by exists epoch, current].
    intros want -> Hw. destruct (Z.eqb_spec want 0); [done|]. cbn in Hrun. by inv_ok.
  - destruct (decide (cdt_Type (cd_Duty cd) = BNRoleProposer)) as [Hty|Hty].
    + rewrite bool_decide_eq_true_2 in Hg by done. destruct gloas.
      * apply bind_ok in Hp as (q & Hq & [= <-]). done.
      * apply bind_ok in Hp as (q & Hq & [= <-]). split; [|done]. by destruct (ValidateConsensusData cd) as [[]|e|].
    + rewrite bool_decide_eq_false_2 in Hg by done. injection Hg as <-.
      apply bind_ok in Hp as (q & Hq & [= <-]). split; [by destruct (ValidateConsensusData cd) as [[]|e|]|].
      intros ?. congruence.
Qed.

(** C13. A proposal that the check accepts is for the validator, for the slot of the running
    duty and at most one epoch ahead; its block is for a later slot than every block that the
    key manager sent for the share.  Since Gloas the block is for the duty's slot and
    validator, and has a payload root exactly if it is self-built.  Either no earlier request
    to sign was ahead of the clock, or the share was never removed. *)
Theorem accepted_proposal_not_slashable (db : DB) events now v value db' :
  0 < SlotDuration b → 0 < SlotsPerEpoch b →
  StronglySorted Z.le events.*1 → Forall (event_typed ∘ snd) events →
  Forall (λ '(now, ev), event_timely b now ev) events ∨
    Forall (λ '(_, ev), removes ev (pc_sharePublicKey v) = false) events →
  let km := km_run networkName b events (mkKeyManager db []) in
  proposerChecker_CheckValue now v value (km_db km) = (db', Ok tt) →
  ∃ cd slot, cd_Decode value = Ok cd ∧
    duty_matches now (pc_beaconConfig v) BNRoleProposer (pc_validatorPK v) (pc_validatorIndex v)
      (pc_runningDutySlot v) cd ∧
    (∀ x, x ∈ sent_blocks (pc_sharePublicKey v) (km_sent km) → bh_Slot x < slot) ∧
    (IsGloasAtSlot (pc_beaconConfig v) (cdt_Slot (cd_Duty cd)) = Ok true →
       slot = cdt_Slot (cd_Duty cd) ∧ ∃ p, DecodeGloasProposalData (cd_DataSSZ cd) = Ok p ∧
         gb_Slot (gp_Block p) = slot ∧ gb_ProposerIndex (gp_Block p) = pc_validatorIndex v ∧
         (SelfBuild p = true ↔ gp_PayloadRoot p ≠ zeroRoot)) ∧
    (IsGloasAtSlot (pc_beaconConfig v) (cdt_Slot (cd_Duty cd)) = Ok false →
       cd_Validate cd = Ok tt ∧ cd_GetBlockData cd = Ok (Ok slot)).
Proof using HsszL HfastL HnpL.
  intros Hd Hspe Hs Hty Hor km Hc. unfold proposerChecker_CheckValue in Hc.
  apply st_bind_ok in Hc as (? & [cd proposal] & [-> Hcd]%st_lift_ok & Hc).
  apply consensus_data_ok in Hcd as (Hdec & Hduty & Hprop).
  apply st_bind_ok in Hc as (db1 & slot & Hslot & Hc).
  assert (db1 = km_db km) as ->.
  { destruct proposal; [by injection Hslot as <- _|].
    by apply st_bind_ok in Hslot as (? & r & [-> _]%st_lift_ok & [-> _]%st_lift_ok). }
  exists cd, slot. split_and!; [done..| | |].
  - unfold IsBeaconBlockSlashable in Hc. apply st_bind_ok in Hc as (db2 & status & Hchk & Hst).
    destruct status; [|done]. apply np_check_prop in Hchk as [_ Hok].
    destruct (Hok eq_refl) as (h & Hh & [_ Hlt]).
    destruct (run_bounded networkName b db events _ Hd Hspe Hs Hty Hor KProposal) as [_ Hall].
    specialize (Hall h Hh). cbn [abs snd] in Hall. rewrite <-sent_blocks_votes in Hall. intros x Hx.
    pose proof (proj1 (Forall_forall _ _) Hall _ (list_elem_of_fmap_2 _ _ _ Hx)) as [_ Hle].
    unfold slot_vote in *. cbn [fst snd compose] in *. lia.
  - intros Hg. destruct proposal as [p|]; [|by destruct Hprop as [_ Hno]; rewrite Hno in Hg].
    destruct Hprop as [_ (Hver & Hpd & Hps & Hpi & Hself)%check_gloas_proposal_ok].
    injection Hslot as <-. split; [done|]. exists p. split_and!; try done. rewrite Hpi. apply Hduty.
  - intros Hg. destruct proposal as [p|]; [by destruct Hprop as [Hno _]; rewrite Hno in Hg|].
    destruct Hprop as [Hval _]. destruct Hduty as [Hty' _]. unfold ValidateConsensusData in Hval. rewrite Hty' in Hval.
    apply st_bind_ok in Hslot as (? & r & [_ Hr%unwrap_ok]%st_lift_ok & [_ Hr'%unwrap_ok]%st_lift_ok).
    split; [by destruct (cd_Validate cd) as [[]|e|]|]. by rewrite Hr, Hr'.
Qed.
End accepted.
