(* ===== verification/ValueWitness.v ===== *)
(** * Value checks after a run

    Toy decoders, and values checked in the state that the run of SlashingWitness.v ends
    in. *)

From stdpp Require Import base list gmap numbers strings sorting.
From Stdlib Require Import Strings.Byte.
From S2P Require Import Prelude Sha256 SpecTypes Network ShareEncoding Slashing KeyManager.
From S2P Require Import SlashingProps SlashingSafety SlashingWitness ValueCheck ValueProps.
Open Scope string_scope.
Open Scope list_scope.
Open Scope Z_scope.

Definition toy_checkpoint (b : byte) : Checkpoint := mkCheckpoint (byte_to_Z b) zeroRoot.
#[global] Instance toy_values : ValueLib := {|
  bv_Decode v := match v with
                 | [s; t] => Ok (mkBeaconVote zeroRoot (toy_checkpoint s) (toy_checkpoint t))
                 | _ => Err (ENew "size")
                 end;
  bv_Validate _ := Ok tt;
  gv_Decode v := match v with
                 | [i; s; t] =>
                     Ok (mkGloasBeaconVote (mkBeaconVote zeroRoot (toy_checkpoint s) (toy_checkpoint t)) (byte_to_Z i))
                 | _ => Err (ENew "size")
                 end;
  gv_Validate _ := Ok tt;
  ac_Decode _ := Ok (mkAggregatorData [] []);
  ac_Validate _ := Ok tt;
  cd_Decode v := match v with
                 | slot :: data =>
                     Ok (mkConsensusData (mkConsensusDuty BNRoleProposer [x09] (byte_to_Z slot) 5) DataVersionGloas data)
                 | [] => Err (ENew "size")
                 end;
  cd_Validate _ := Ok tt;
  cd_GetBlockData _ := Err (ENew "unknown block version");
  aggregate_UnmarshalSSZ _ data := Ok data;
  contributions_UnmarshalSSZ _ := Ok [];
  block_UnmarshalSSZ v := match v with
                          | [slot; proposer] => Ok (mkGloasBlock (byte_to_Z slot) (byte_to_Z proposer) max_u64)
                          | _ => Err (ENew "size")
                          end;
|}.

Definition sample_km : KeyManager (gmap (bytes * bytes) bytes) :=
  km_run sample_network signer_beacon sample_events (mkKeyManager ∅ []).
Definition sample_vote (source target : byte) : BeaconVote :=
  mkBeaconVote zeroRoot (toy_checkpoint source) (toy_checkpoint target).

Lemma returns {S A} (p : S * result goerr A) a : p.2 = Ok a → p = (p.1, Ok a).
Proof. destruct p. by intros [= ->]. Qed.

Lemma accepted_vote_not_slashable_witness :
  (voteChecker_CheckValue (mkVoteChecker 160 [share_key] (sample_vote x03 x04)) [x03; x04] (km_db sample_km)).2 ≠ Ok tt ∧
  fits [share_key] (km_sent sample_km) (sample_vote x03 x05) (sample_vote x03 x05).
Proof.
  split; [vm_compute; discriminate|].
  assert ((voteChecker_CheckValue (mkVoteChecker 160 [share_key] (sample_vote x03 x05)) [x03; x05]
    (km_db sample_km)).2 = Ok tt) as Hc by (vm_compute; reflexivity).
  apply returns in Hc. unfold sample_km in *.
  destruct (proj1 (accepted_vote_not_slashable sample_network signer_beacon ∅ sample_events [share_key]
      eq_refl eq_refl sample_sorted sample_typed (or_introl sample_timely))
      (mkVoteChecker 160 [share_key] (sample_vote x03 x05)) [x03; x05] _ eq_refl Hc) as (bv & Hdec & Hfits).
  injection Hdec as <-. exact Hfits.
Defined.

(** A Gloas configuration, and a self-built block for slot 200 of validator 5. *)
Definition gloas_beacon : Beacon :=
  mkBeacon "sample" 12 32 256 512 4 16 16 [] 0 [] {[DataVersionGloas := mkFork [] [] 0]}.
Definition sample_proposal : bytes :=
  [xc8] ++ [x24; x00; x00; x00] ++ replicate 32 x01 ++ [xc8; x05].
Definition sample_checker : proposerChecker := mkProposerChecker gloas_beacon [x09] 5 share_key (Some 200).

Lemma accepted_proposal_not_slashable_witness :
  ∃ cd slot, cd_Decode sample_proposal = Ok cd ∧ slot = cdt_Slot (cd_Duty cd) ∧
    ∀ x, x ∈ sent_blocks share_key (km_sent sample_km) → bh_Slot x < slot.
Proof.
  assert ((proposerChecker_CheckValue 2400 sample_checker sample_proposal (km_db sample_km)).2 = Ok tt) as Hc
    by (vm_compute; reflexivity).
  apply returns in Hc. unfold sample_km in *.
  destruct (accepted_proposal_not_slashable sample_network signer_beacon ∅ sample_events 2400 sample_checker
      sample_proposal _ eq_refl eq_refl sample_sorted sample_typed (or_introl sample_timely) Hc) as (cd & slot & Hdec & _ & Hlt & Hg & _).
  exists cd, slot. split; [exact Hdec|]. split; [|exact Hlt].
  injection Hdec as <-. apply Hg. reflexivity.
Defined.
