(* ===== verification/RegistryStorage.v ===== *)
(** * Operators, fee recipients and the last block of the registry
      (registry/storage/operators.go and recipients.go, operator/storage/storage.go)

    The handlers of contract events work in one transaction: [ns_txn] is the database as
    the transaction sees it, [ns_db] the committed one, which reads without a transaction
    get.  Two maps are kept in memory beside it: the operators by public key and the fee
    recipients.  The database and the JSON forms are classes; public keys are byte
    strings. *)

From stdpp Require Import base list gmap numbers strings.
From Stdlib Require Import Strings.Byte.
From S2P Require Import Prelude Sha256 SpecTypes Network Subnets Slashing.
Open Scope string_scope.
Open Scope list_scope.
Open Scope Z_scope.

Abbreviation Address := bytes (only parsing).
Abbreviation Nonce := Z (only parsing).
Definition u16 (z : Z) : Z := z mod 2 ^ 16.

Record OperatorData := mkOperatorData {
  od_ID : OperatorID;
  od_PublicKey : bytes;
  od_OwnerAddress : Address;
}.
Record RecipientData := mkRecipientData {
  rd_Owner : Address;
  rd_FeeRecipient : Address;
  rd_Nonce : option Nonce;
}.

(** [rdb_GetMany]: the values of the keys that are there, in their order.  [rdb_Get] gives an
    error, nothing, or a value: the databases of the node (storage/badger, storage/pebble)
    return an error together with [found], so that [GetLastProcessedBlock], which looks at
    [found] first, returns it too. *)
Class RegistryDB (DB : Type) := {
  rdb_Get : bytes → bytes → DB → result goerr (option bytes);
  rdb_GetMany : bytes → list bytes → DB → result goerr (list bytes);
  rdb_GetAll : bytes → DB → result goerr (list (bytes * bytes));
  rdb_Set : bytes → bytes → bytes → ST DB goerr unit;
  rdb_Delete : bytes → bytes → ST DB goerr unit;
}.
Class RegistryJSON := {
  od_Marshal : OperatorData → result goerr bytes;
  od_Unmarshal : bytes → result goerr OperatorData;
  rd_Marshal : RecipientData → result goerr bytes;
  rd_Unmarshal : bytes → result goerr RecipientData;
}.

Record NodeStorage (DB : Type) := mkNodeStorage {
  ns_txn : DB;
  ns_db : DB;
  ns_pubkeyIdx : gmap bytes OperatorID;
  ns_feeRecipients : gmap Address Address;
}.
Arguments mkNodeStorage {DB}.
Arguments ns_txn {DB}.
Arguments ns_db {DB}.
Arguments ns_pubkeyIdx {DB}.
Arguments ns_feeRecipients {DB}.

Abbreviation OperatorStoragePrefix := (String.list_byte_of_string "operator/").
Abbreviation operatorsPrefix := (String.list_byte_of_string "operators").
Abbreviation recipientsPrefix := (String.list_byte_of_string "recipients").
Abbreviation lastProcessedBlockKey := (String.list_byte_of_string "syncOffset").

Definition buildOperatorKey (id : OperatorID) : bytes :=
  operatorsPrefix ++ String.list_byte_of_string "/" ++ String.list_byte_of_string (Sprint_d id).
Definition buildRecipientKey (owner : Address) : bytes :=
  recipientsPrefix ++ String.list_byte_of_string "/" ++ owner.

(** [big.Int]'s [Bytes] of a 64-bit number. *)
Fixpoint strip_zeros (b : bytes) : bytes :=
  match b with x00 :: b => strip_zeros b | b => b end.
Definition big_Bytes (n : Z) : bytes := strip_zeros (be_bytes 8 n).

Section storages.
Context {DB : Type} `{RegistryDB DB} `{RegistryJSON}.
Abbreviation StorageM := (ST (NodeStorage DB) goerr).

Definition in_txn {A} (m : ST DB goerr A) : StorageM A := λ s,
  let '(txn, r) := m (ns_txn s) in (mkNodeStorage txn (ns_db s) (ns_pubkeyIdx s) (ns_feeRecipients s), r).

(** ** Operators *)
Definition getOperatorData (r : DB) (id : OperatorID) : result goerr (option OperatorData) :=
  obj ← rdb_Get OperatorStoragePrefix (buildOperatorKey id) r;
  match obj with
  | None => Ok None
  | Some value => od ← od_Unmarshal value; Ok (Some od)
  end.

Definition getOperatorDataByPubKey (operatorPubKey : bytes) (s : NodeStorage DB)
    : result goerr (option OperatorData) :=
  match ns_pubkeyIdx s !! operatorPubKey with
  | None => Ok None
  | Some id =>
      op ← getOperatorData (ns_txn s) id;
      match op with
      | Some op => Ok (if bool_decide (od_PublicKey op = operatorPubKey) then Some op else None)
      | None => Ok None
      end
  end.

Definition operatorsExist (ids : list OperatorID) (s : NodeStorage DB) : result goerr bool :=
  seen ← rdb_GetMany OperatorStoragePrefix (buildOperatorKey <$> ids) (ns_txn s);
  Ok (length seen =? length ids)%nat.

(** The existing data is read without the transaction. *)
Definition SaveOperatorData (operatorData : OperatorData) : StorageM bool :=
  s ← st_get;
  found ← st_lift (wrap "get operator data" (getOperatorData (ns_db s) (od_ID operatorData)));
  match found with
  | Some _ => mret true
  | None =>
      raw ← st_lift (wrap "marshal operator data" (od_Marshal operatorData));
      st_wrap "set operator data"
        (in_txn (rdb_Set OperatorStoragePrefix (buildOperatorKey (od_ID operatorData)) raw)) ;;
      st_modify (λ s, mkNodeStorage (ns_txn s) (ns_db s)
                        (<[od_PublicKey operatorData := od_ID operatorData]> (ns_pubkeyIdx s)) (ns_feeRecipients s)) ;;
      mret false
  end.

Definition DeleteOperatorData (id : OperatorID) : StorageM unit :=
  in_txn (rdb_Delete OperatorStoragePrefix (buildOperatorKey id)).

(** ** Recipients *)
Definition getRecipientData (r : DB) (owner : Address) : result goerr (option RecipientData) :=
  obj ← rdb_Get OperatorStoragePrefix (buildRecipientKey owner) r;
  match obj with
  | None => Ok None
  | Some value => rd ← rd_Unmarshal value; Ok (Some rd)
  end.

Definition GetNextNonce (owner : Address) (s : NodeStorage DB) : result goerr Nonce :=
  data ← wrap "could not get recipient data" (getRecipientData (ns_txn s) owner);
  match data with
  | None => Ok 0
  | Some data => match rd_Nonce data with None => Ok 0 | Some nonce => Ok (u16 (nonce + 1)) end
  end.

Definition set_recipient (owner feeRecipient : Address) (s : NodeStorage DB) : NodeStorage DB :=
  mkNodeStorage (ns_txn s) (ns_db s) (ns_pubkeyIdx s) (<[owner := feeRecipient]> (ns_feeRecipients s)).

Definition BumpNonce (owner : Address) : StorageM unit :=
  s ← st_get;
  found ← st_lift (wrap "could not get recipient data" (getRecipientData (ns_txn s) owner));
  let rData :=
    match found with
    | None => mkRecipientData owner owner (Some 0)
    | Some r => mkRecipientData (rd_Owner r) (rd_FeeRecipient r)
                  (match rd_Nonce r with None => Some 0 | Some nonce => Some (u16 (nonce + 1)) end)
    end in
  raw ← st_lift (wrap "could not marshal recipient data" (rd_Marshal rData));
  st_wrap "could not set recipient data"
    (in_txn (rdb_Set OperatorStoragePrefix (buildRecipientKey (rd_Owner rData)) raw)) ;;
  match found with
  | None => st_modify (set_recipient owner (rd_FeeRecipient rData))
  | Some _ => mret tt
  end.

(** Whether the recipient changed. *)
Definition SaveRecipientData (owner feeRecipient : Address) : StorageM bool :=
  s ← st_get;
  existingData ← st_lift (wrap "could not get recipient data" (getRecipientData (ns_txn s) owner));
  if match existingData with Some r => bool_decide (rd_FeeRecipient r = feeRecipient) | None => false end
  then mret false
  else
    let recipientData :=
      match existingData with
      | Some r => mkRecipientData (rd_Owner r) feeRecipient (rd_Nonce r)
      | None => mkRecipientData owner feeRecipient None
      end in
    raw ← st_lift (wrap "could not marshal recipient data" (rd_Marshal recipientData));
    st_wrap "could not set recipient data"
      (in_txn (rdb_Set OperatorStoragePrefix (buildRecipientKey owner) raw)) ;;
    st_modify (set_recipient owner feeRecipient) ;;
    mret true.

Definition GetFeeRecipient (owner : Address) (s : NodeStorage DB) : result goerr Address :=
  match ns_feeRecipients s !! owner with
  | None => Err (ENew "fee recipient not found for owner")
  | Some recipient => Ok recipient
  end.

Definition DeleteRecipientData (owner : Address) : StorageM unit :=
  st_wrap "could not delete recipient data"
    (in_txn (rdb_Delete OperatorStoragePrefix (buildRecipientKey owner))) ;;
  st_modify (λ s, mkNodeStorage (ns_txn s) (ns_db s) (ns_pubkeyIdx s) (delete owner (ns_feeRecipients s))).

(** ** The last processed block *)
Definition SaveLastProcessedBlock (offset : Z) : StorageM unit :=
  in_txn (rdb_Set OperatorStoragePrefix lastProcessedBlockKey (big_Bytes offset)).
Definition GetLastProcessedBlock (s : NodeStorage DB) : result goerr (option Z) :=
  obj ← rdb_Get OperatorStoragePrefix lastProcessedBlockKey (ns_txn s);
  match obj with None => Ok None | Some value => Ok (Some (be_word value)) end.
End storages.
