(* ===== verification/EventHandler.v ===== *)
(** * Events of the registry contract (eth/eventhandler; ValidateSharePublicKeys of
      protocol/v2/types/crypto.go)

    The events of a block are handled in one transaction that also records the block.  A
    malformed event is skipped; any other failure discards the transaction.  What is kept
    in memory is not rolled back.  The storage of shares is the class [SharesStore], the
    key manager the remote one; BLS keys, Keccak and the form of addresses are classes.  A
    log is given by what the parser makes of it.  Of the errors the text is kept where they
    arise; what callers put before it is left out in places, their kind never. *)

From stdpp Require Import base list gmap numbers strings.
From Stdlib Require Import Strings.Byte.
From S2P Require Import Prelude Sha256 SpecTypes Network Quorum Subnets Share ShareEncoding Doppelganger.
From S2P Require Import PartialSig Slashing KeyManager ValueCheck RegistryStorage.
Open Scope string_scope.
Open Scope list_scope.
Open Scope Z_scope.

(** ** Events (eth/contract) *)
Record OperatorAdded := mkOperatorAdded { oa_OperatorId : OperatorID; oa_Owner : Address; oa_PublicKey : bytes }.
Record ValidatorAdded := mkValidatorAdded {
  va_Owner : Address;
  va_OperatorIds : list OperatorID;
  va_PublicKey : bytes;
  va_Shares : bytes;
}.
(** ValidatorRemoved and ValidatorExited. *)
Record ValidatorEvent := mkValidatorEvent { ve_Owner : Address; ve_PublicKey : bytes }.
(** ClusterLiquidated and ClusterReactivated. *)
Record ClusterEvent := mkClusterEvent { ce_Owner : Address; ce_OperatorIds : list OperatorID }.

Inductive ContractEvent :=
| EOperatorAdded (e : OperatorAdded)
| EOperatorRemoved (id : OperatorID)
| EValidatorAdded (e : ValidatorAdded)
| EValidatorRemoved (e : ValidatorEvent)
| EClusterLiquidated (e : ClusterEvent)
| EClusterReactivated (e : ClusterEvent)
| EFeeRecipientAddressUpdated (owner recipient : Address)
| EValidatorExited (e : ValidatorEvent).

(** [LogSkipped]: no event has the topic, it has no handler, or it cannot be parsed. *)
Inductive Log := LogSkipped | LogEvent (e : ContractEvent).
Record BlockLogs := mkBlockLogs { bl_BlockNumber : Z; bl_Logs : list Log }.

Inductive Task :=
| StopValidatorTask (pubKey : bytes)
| LiquidateClusterTask (owner : Address) (operatorIDs : list OperatorID) (toLiquidate : list SSVShare)
| ReactivateClusterTask (owner : Address) (operatorIDs : list OperatorID) (toReactivate : list SSVShare)
| UpdateFeeRecipientTask (owner recipient : Address) (blockNumber : Z)
| ExitValidatorTask (pubKey : bytes) (blockNumber : Z) (index : ValidatorIndex) (own : bool).

Inductive herror := MalformedEventError (e : goerr) | HandlingError (e : goerr).
Abbreviation hres := (result herror).

(** ** What the handler calls *)
Class SharesStore (S : Type) := {
  shares_Get : bytes → S → option SSVShare;
  shares_List : (SSVShare → bool) → S → list SSVShare;
  shares_Save : list SSVShare → ST S goerr unit;
  shares_Delete : bytes → ST S goerr unit;
  (** What is left of a state when the transaction begun in another one is discarded. *)
  shares_Discard : S → S → S;
}.
Class BLSKeys `{BLS} := {
  pk_Serialize : PublicKey → bytes;
  pk_IsEqual : PublicKey → PublicKey → bool;
  pk_Recover : list PublicKey → list ID → option PublicKey;
}.
Class EventEnv := {
  Keccak256 : bytes → bytes;
  Address_String : Address → bytes;
  is_ShareDecryptionError : goerr → bool;
}.
(** The clock while a block is handled, what the remote signer answers to an added and a
    removed share, and how the commit ends. *)
Record BlockIO := mkBlockIO {
  io_now : Time;
  io_add : bytes → bytes → result goerr (list KeyStatus);
  io_remove : bytes → result goerr (list KeyStatus);
  io_commit : result goerr unit;
}.

(** The writes to a share's minimal participation epoch after it was saved are kept
    aside: they go through a pointer that the storage shares. *)
Record EventHandler (DB S KDB : Type) := mkEventHandler {
  eh_storage : NodeStorage DB;
  eh_shares : S;
  eh_operatorData : option OperatorData;
  eh_keyManager : KeyManager KDB;
  eh_doppelganger : gmap ValidatorIndex doppelgangerState;
  eh_minEpochs : gmap bytes Epoch;
}.
Arguments mkEventHandler {DB S KDB}.
Arguments eh_storage {DB S KDB}.
Arguments eh_shares {DB S KDB}.
Arguments eh_operatorData {DB S KDB}.
Arguments eh_keyManager {DB S KDB}.
Arguments eh_doppelganger {DB S KDB}.
Arguments eh_minEpochs {DB S KDB}.

(** ** Keys and signatures *)
Definition or_error {A} (text : string) (o : option A) : result goerr A :=
  match o with None => Err (ENew text) | Some a => Ok a end.

Section keys.
Context `{BLSKeys}.

Fixpoint parse_keys (operatorIDs : list OperatorID) (sharePubKeys : list bytes)
    : result goerr (list (ID * PublicKey)) :=
  match operatorIDs, sharePubKeys with
  | id :: ids, key :: keys =>
      blsID ← or_error "failed to set id for operator" (SetDecString (Sprint_d id));
      pk ← or_error "failed to deserialize share public key of operator" (pk_Deserialize key);
      rest ← parse_keys ids keys;
      Ok ((blsID, pk) :: rest)
  | _, _ => Ok []
  end.

(** The loop over the shares after the base. *)
Fixpoint check_remaining (expected : PublicKey) (base rest : list (ID * PublicKey)) : result goerr unit :=
  match rest with
  | [] => Ok tt
  | e :: rest =>
      recovered ← or_error "failed to recover public key" (pk_Recover (base.*2 ++ [e.2]) (base.*1 ++ [e.1]));
      fail_if (negb (pk_IsEqual recovered expected)) (ENew "validator public key not reconstructed") ;;
      check_remaining expected base rest
  end.

Definition validateSharePublicKeys (validatorPubKey : bytes) (operatorIDs : list OperatorID)
    (sharePubKeys : list bytes) : result goerr unit :=
  fail_if (negb (length operatorIDs =? length sharePubKeys)%nat)
    (ENew "operator count does not match share public key count") ;;
  fail_if (negb (ValidCommitteeSize (Z.of_nat (length operatorIDs)))) (ENew "invalid committee size") ;;
  expected ← or_error "failed to deserialize validator public key" (pk_Deserialize validatorPubKey);
  keys ← parse_keys operatorIDs sharePubKeys;
  let quorum := (ComputeQuorumAndPartialQuorum (Z.of_nat (length operatorIDs))).1 in
  let baseSize := Z.to_nat (quorum -u 1) in
  let base := take baseSize keys in
  baseRecovered ← or_error "failed to recover public key" (pk_Recover base.*2 base.*1);
  fail_if (pk_IsEqual baseRecovered expected) (ENew "polynomial degree below the quorum") ;;
  check_remaining expected base (drop baseSize keys).
Definition ValidateSharePublicKeys (validatorPubKey : bytes) (operatorIDs : list OperatorID)
    (sharePubKeys : list bytes) : result goerr unit :=
  wrap "invalid share public keys" (validateSharePublicKeys validatorPubKey operatorIDs sharePubKeys).

Context `{EventEnv}.
Definition verifySignature (sig : bytes) (owner : Address) (pubKey : bytes) (nonce : Nonce) : result goerr unit :=
  let data := Address_String owner ++ String.list_byte_of_string ":" ++ String.list_byte_of_string (Sprint_d nonce) in
  let hash := Keccak256 data in
  sign ← or_error "failed to deserialize signature" (sig_Deserialize sig);
  pk ← or_error "failed to deserialize public key" (pk_Deserialize pubKey);
  fail_if (negb (VerifyByte sign pk hash)) (ENew "failed to verify signature").
End keys.

(** [buf] in chunks of [lim] bytes; the fuel is the length of [buf], [lim] being positive. *)
Fixpoint split_loop (fuel : nat) (buf : bytes) (lim : nat) : list bytes :=
  match fuel with
  | O => []
  | S fuel =>
      if (lim <=? length buf)%nat then take lim buf :: split_loop fuel (drop lim buf) lim
      else if (0 <? length buf)%nat then [buf] else []
  end.
Definition splitBytes (buf : bytes) (lim : nat) : list bytes := split_loop (length buf) buf lim.

(** ** Handlers (handlers.go, validation.go) *)
Section handlers.
Context {DB S KDB : Type} `{RegistryDB DB} `{RegistryJSON} `{SharesStore S} `{SignerDatabase KDB}
  `{AttestationSSZ} `{FastSSZ} `{BLSKeys} `{EventEnv}.
Context (networkConfig : NetCfg) (io : BlockIO).
Abbreviation Handler := (EventHandler DB S KDB).
Abbreviation HM := (ST Handler herror).
Abbreviation beacon := (n_Beacon networkConfig).

Definition hfail {A} (r : result goerr A) : hres A :=
  match r with Ok a => Ok a | Err e => Err (HandlingError e) | Panic => Panic end.
Definition malformed {A} (r : result goerr A) : hres A :=
  match r with Ok a => Ok a | Err e => Err (MalformedEventError e) | Panic => Panic end.
Definition read_storage {A} (text : string) (f : NodeStorage DB → result goerr A) : HM A := λ eh,
  (eh, hfail (wrap text (f (eh_storage eh)))).
Definition on_storage {A} (m : ST (NodeStorage DB) goerr A) : HM A := λ eh,
  let '(s, r) := m (eh_storage eh) in
  (mkEventHandler s (eh_shares eh) (eh_operatorData eh) (eh_keyManager eh) (eh_doppelganger eh) (eh_minEpochs eh),
   hfail r).
Definition on_shares {A} (m : ST S goerr A) : HM A := λ eh,
  let '(s, r) := m (eh_shares eh) in
  (mkEventHandler (eh_storage eh) s (eh_operatorData eh) (eh_keyManager eh) (eh_doppelganger eh) (eh_minEpochs eh),
   hfail r).
(** [to]: how an error of the key manager is returned. *)
Definition on_keys {A} (to : goerr → herror) (m : ST (KeyManager KDB) goerr A) : HM A := λ eh,
  let '(km, r) := m (eh_keyManager eh) in
  (mkEventHandler (eh_storage eh) (eh_shares eh) (eh_operatorData eh) km (eh_doppelganger eh) (eh_minEpochs eh),
   match r with Ok a => Ok a | Err e => Err (to e) | Panic => Panic end).
Definition set_operator (od : OperatorData) (eh : Handler) : Handler :=
  mkEventHandler (eh_storage eh) (eh_shares eh) (Some od) (eh_keyManager eh) (eh_doppelganger eh) (eh_minEpochs eh).
Definition remove_doppelganger (index : ValidatorIndex) (eh : Handler) : Handler :=
  mkEventHandler (eh_storage eh) (eh_shares eh) (eh_operatorData eh) (eh_keyManager eh)
    (RemoveValidatorState index (eh_doppelganger eh)) (eh_minEpochs eh).
Definition set_min_epoch (pk : bytes) (epoch : Epoch) (eh : Handler) : Handler :=
  mkEventHandler (eh_storage eh) (eh_shares eh) (eh_operatorData eh) (eh_keyManager eh) (eh_doppelganger eh)
    (<[pk := epoch]> (eh_minEpochs eh)).

Definition GetOperatorID (eh : Handler) : OperatorID :=
  match eh_operatorData eh with None => 0 | Some od => od_ID od end.
(** Conversion of a slice to a public key. *)
Definition bls_key (b : bytes) : hres bytes := if (length b <? 48)%nat then Panic else Ok (take 48 b).

(** *** Operators *)
Definition handleOperatorAdded (event : OperatorAdded) : HM unit :=
  let od := mkOperatorData (oa_OperatorId event) (oa_PublicKey event) (oa_Owner event) in
  existsById ← read_storage "could not check if operator exists" (operatorsExist [oa_OperatorId event]);
  if existsById : bool then st_err (MalformedEventError (ENew "operator ID already exists")) else
  byKey ← read_storage "could not get operator data by public key" (getOperatorDataByPubKey (oa_PublicKey event));
  match byKey with
  | Some _ => st_err (MalformedEventError (ENew "operator public key already exists"))
  | None =>
      exists_ ← on_storage (st_wrap "save operator data" (SaveOperatorData od));
      if exists_ : bool then mret tt else
      eh ← st_get;
      match eh_operatorData eh with
      | None => st_lift Panic
      | Some self =>
          if bool_decide (oa_PublicKey event = od_PublicKey self) then st_modify (set_operator od) else mret tt
      end
  end.

Definition handleOperatorRemoved (id : OperatorID) : HM unit :=
  od ← read_storage "could not get operator data" (λ s, getOperatorData (ns_txn s) id);
  match od with
  | None => st_err (MalformedEventError (ENew "operator data not found"))
  | Some _ => on_storage (st_wrap "could not delete operator data" (DeleteOperatorData id))
  end.

(** *** Validators *)
Abbreviation maxOperators := 13 (only parsing).
Abbreviation encryptedKeyLength := 256%nat (only parsing).
Abbreviation contractParticipationDelay := 1 (only parsing).

Fixpoint no_duplicates (seen : gset OperatorID) (operators : list OperatorID) : result goerr unit :=
  match operators with
  | [] => Ok tt
  | id :: operators =>
      fail_if (bool_decide (id ∈ seen)) (ENew "duplicated operator ID") ;; no_duplicates ({[id]} ∪ seen) operators
  end.
Definition validateOperators (operators : list OperatorID) (s : NodeStorage DB) : result goerr unit :=
  let operatorCount := Z.of_nat (length operators) in
  fail_if (maxOperators <? operatorCount) (ENew "too many operators") ;;
  fail_if (operatorCount =? 0) (ENew "no operators") ;;
  fail_if (negb (ValidCommitteeSize operatorCount)) (ENew "given operator count cannot build a 3f+1 quorum") ;;
  no_duplicates ∅ operators ;;
  exist ← wrap "storage" (operatorsExist operators s);
  fail_if (negb exist) (ENew "not all operators exist").

(** The loop over the operators: the members and the own keys found so far. *)
Fixpoint share_members (self : OperatorID) (operators : list (OperatorID * (bytes * bytes)))
    (own : option (bytes * bytes)) (s : NodeStorage DB) : hres (list ShareMember * option (bytes * bytes)) :=
  match operators with
  | [] => Ok ([], own)
  | (operatorID, (sharePublicKey, encryptedKey)) :: operators =>
      od ← hfail (wrap "could not get operator data" (getOperatorData (ns_txn s) operatorID));
      match od with
      | None => Err (MalformedEventError (ENew "operator data not found"))
      | Some _ =>
          let own := if operatorID =? self then Some (sharePublicKey, encryptedKey) else own in
          rest ← share_members self operators own s;
          Ok (mkShareMember sharePublicKey operatorID :: rest.1, rest.2)
      end
  end.
Definition validatorAddedEventToShare (event : ValidatorAdded) (sharePublicKeys encryptedKeys : list bytes)
    : HM (SSVShare * bytes) :=
  publicKey ← st_lift (malformed (or_error "failed to deserialize validator public key"
                                    (pk_Deserialize (va_PublicKey event))));
  eh ← st_get;
  '(members, own) ← st_lift (share_members (GetOperatorID eh)
      (zip (va_OperatorIds event) (zip sharePublicKeys encryptedKeys)) None (eh_storage eh));
  let '(sharePubKey, encryptedKey) := default ([], []) own in
  mret (mkSSVShare 0 (take 48 (pk_Serialize publicKey ++ replicate 48 x00)) sharePubKey members
          (DomainType networkConfig) [] ValidatorStateUnknown 0 0 (va_Owner event) false None None None 0,
        encryptedKey).

Definition with_min_epoch (epoch : Epoch) (s : SSVShare) : SSVShare :=
  mkSSVShare (sh_ValidatorIndex s) (sh_ValidatorPubKey s) (sh_SharePubKey s) (sh_Committee s) (sh_DomainType s)
    (sh_Graffiti s) (sh_Status s) (sh_ActivationEpoch s) (sh_ExitEpoch s) (sh_OwnerAddress s) (sh_Liquidated s)
    (sh_committeeID s) (sh_booleCommitteeSubnet s) (sh_alanCommitteeSubnet s) epoch.
Definition participation_epoch : hres Epoch :=
  epoch ← hfail (EstimatedCurrentEpoch beacon (io_now io)); Ok (epoch +u contractParticipationDelay).

Definition handleShareCreation (event : ValidatorAdded) (sharePublicKeys encryptedKeys : list bytes) : HM SSVShare :=
  '(share, encryptedKey) ← validatorAddedEventToShare event sharePublicKeys encryptedKeys;
  eh ← st_get;
  share ← (if BelongsToOperator (GetOperatorID eh) share then
             key ← st_lift (bls_key (sh_SharePubKey share));
             on_keys (λ e, if is_ShareDecryptionError e then MalformedEventError e
                           else HandlingError (EWrap "could not add share encrypted key" e))
               (AddShare (String.list_byte_of_string (b_Name beacon)) beacon (io_now io) (io_add io encryptedKey key) key) ;;
             epoch ← st_lift participation_epoch;
             mret (with_min_epoch epoch share)
           else mret share);
  on_shares (st_wrap "could not save validator share" (shares_Save [share])) ;;
  mret share.

(** The own share, if it is one. *)
Definition handleValidatorAdded (event : ValidatorAdded) : HM (option SSVShare) :=
  nonce ← read_storage "failed to get next nonce" (GetNextNonce (va_Owner event));
  on_storage (BumpNonce (va_Owner event)) ;;
  eh ← st_get;
  st_lift (malformed (validateOperators (va_OperatorIds event) (eh_storage eh))) ;;
  let operatorCount := length (va_OperatorIds event) in
  let signatureOffset := 96%nat in
  let pubKeysOffset := (48 * operatorCount + signatureOffset)%nat in
  let sharesExpectedLength := (encryptedKeyLength * operatorCount + pubKeysOffset)%nat in
  st_lift (malformed (fail_if (negb (sharesExpectedLength =? length (va_Shares event))%nat)
                        (ENew "shares length is not correct"))) ;;
  let signature := take signatureOffset (va_Shares event) in
  let sharePublicKeys := splitBytes (take (48 * operatorCount) (drop signatureOffset (va_Shares event))) 48 in
  let encryptedShares := drop pubKeysOffset (va_Shares event) in
  let encryptedKeys := splitBytes encryptedShares (length encryptedShares / operatorCount) in
  st_lift (match verifySignature signature (va_Owner event) (va_PublicKey event) nonce with
           | Err _ => Err (MalformedEventError (ENew "signature verification failed")) | Ok u => Ok u | Panic => Panic
           end) ;;
  st_lift (malformed (ValidateSharePublicKeys (va_PublicKey event) (va_OperatorIds event) sharePublicKeys)) ;;
  eh ← st_get;
  validatorShare ← match shares_Get (va_PublicKey event) (eh_shares eh) with
    | None => handleShareCreation event sharePublicKeys encryptedKeys
    | Some share =>
        if bool_decide (va_Owner event = sh_OwnerAddress share) then mret share
        else st_err (MalformedEventError (ENew "share already exists and belongs to different owner"))
    end;
  eh ← st_get;
  mret (if BelongsToOperator (GetOperatorID eh) validatorShare then Some validatorShare else None).

(** The share of an event's key, which must belong to the event's owner. *)
Definition owned_share (event : ValidatorEvent) : HM SSVShare :=
  eh ← st_get;
  match shares_Get (ve_PublicKey event) (eh_shares eh) with
  | None => st_err (MalformedEventError (ENew "validator share not found"))
  | Some share =>
      if bool_decide (ve_Owner event = sh_OwnerAddress share) then mret share
      else st_err (MalformedEventError (ENew "share already exists and belongs to different owner"))
  end.

Definition emptyPK : bytes := replicate 48 x00.
(** The public key of the validator, if the share is the operator's. *)
Definition handleValidatorRemoved (event : ValidatorEvent) : HM bytes :=
  share ← owned_share event;
  on_shares (st_wrap "could not remove validator share" (shares_Delete (sh_ValidatorPubKey share))) ;;
  eh ← st_get;
  if BelongsToOperator (GetOperatorID eh) share then
    key ← st_lift (bls_key (sh_SharePubKey share));
    on_keys (λ e, HandlingError (EWrap "could not remove share from ekm storage" e))
      (RemoveShare (String.list_byte_of_string (b_Name beacon)) (io_remove io key) key) ;;
    st_modify (remove_doppelganger (sh_ValidatorIndex share)) ;;
    mret (sh_ValidatorPubKey share)
  else mret emptyPK.

(** *** Clusters *)
(** The operators of an event are sorted in place. *)
Definition ComputeClusterIDHash (address : Address) (operatorIds : list OperatorID) : bytes :=
  Keccak256 (address ++ mjoin ((λ id, replicate 24 x00 ++ be_bytes 8 id) <$> sort_ids operatorIds)).
Definition ByClusterIDHash (clusterID : bytes) (share : SSVShare) : bool :=
  bool_decide (ComputeClusterIDHash (sh_OwnerAddress share) (sm_Signer <$> sh_Committee share) = clusterID).
Definition with_liquidated (liquidated : bool) (s : SSVShare) : SSVShare :=
  mkSSVShare (sh_ValidatorIndex s) (sh_ValidatorPubKey s) (sh_SharePubKey s) (sh_Committee s) (sh_DomainType s)
    (sh_Graffiti s) (sh_Status s) (sh_ActivationEpoch s) (sh_ExitEpoch s) (sh_OwnerAddress s) liquidated
    (sh_committeeID s) (sh_booleCommitteeSubnet s) (sh_alanCommitteeSubnet s) (sh_minParticipationEpoch s).

(** The shares of the operator. *)
Definition processClusterEvent (event : ClusterEvent) (toLiquidate : bool) : HM (list SSVShare) :=
  eh ← st_get;
  let clusterID := ComputeClusterIDHash (ce_Owner event) (ce_OperatorIds event) in
  let toUpdate := with_liquidated toLiquidate <$> shares_List (ByClusterIDHash clusterID) (eh_shares eh) in
  (if (0 <? length toUpdate)%nat then
     on_shares (st_wrap "could not save validator shares" (shares_Save toUpdate))
   else mret tt) ;;
  mret (List.filter (BelongsToOperator (GetOperatorID eh)) toUpdate).

Definition wrap_failed (text : string) {A} (m : HM A) : HM A := λ eh,
  let '(eh, r) := m eh in
  (eh, match r with Err (HandlingError e) => Err (HandlingError (EWrap text e)) | r => r end).

Definition handleClusterLiquidated (event : ClusterEvent) : HM (list SSVShare) :=
  toLiquidate ← wrap_failed "could not process cluster event" (processClusterEvent event true);
  st_modify (λ eh, foldl (λ eh share, remove_doppelganger (sh_ValidatorIndex share) eh) eh toLiquidate) ;;
  mret toLiquidate.

Fixpoint bump_shares (shares : list SSVShare) : HM unit :=
  match shares with
  | [] => mret tt
  | share :: shares =>
      key ← st_lift (bls_key (sh_SharePubKey share));
      on_keys (λ e, HandlingError (EWrap "could not bump slashing protection" e))
        (BumpSlashingProtection (String.list_byte_of_string (b_Name beacon)) beacon (io_now io) key) ;;
      epoch ← st_lift participation_epoch;
      st_modify (set_min_epoch (sh_ValidatorPubKey share) epoch) ;;
      bump_shares shares
  end.
Definition handleClusterReactivated (event : ClusterEvent) : HM (list SSVShare) :=
  toReactivate ← wrap_failed "could not process cluster event" (processClusterEvent event false);
  bump_shares toReactivate ;;
  mret toReactivate.

(** *** Fee recipients and exits *)
Definition handleFeeRecipientAddressUpdated (owner recipient : Address) : HM bool :=
  on_storage (st_wrap "could not save recipient data" (SaveRecipientData owner recipient)).

(** The share whose exit is to be scheduled, and whether it is the operator's. *)
Definition handleValidatorExited (event : ValidatorEvent) : HM (option (SSVShare * bool)) :=
  share ← owned_share event;
  if negb (HasBeaconMetadata (Some share)) then mret None
  else eh ← st_get; mret (Some (share, BelongsToOperator (GetOperatorID eh) share)).

(** ** Events and blocks (event_handler.go) *)
Definition handle_event (blockNumber : Z) (event : ContractEvent) : HM (option Task) :=
  match event with
  | EOperatorAdded e => handleOperatorAdded e ;; mret None
  | EOperatorRemoved id => handleOperatorRemoved id ;; mret None
  | EValidatorAdded e => handleValidatorAdded e ;; mret None
  | EValidatorRemoved e =>
      validatorPubKey ← handleValidatorRemoved e;
      mret (if bool_decide (validatorPubKey = emptyPK) then None else Some (StopValidatorTask validatorPubKey))
  | EClusterLiquidated e =>
      shares ← handleClusterLiquidated e;
      mret (if (length shares =? 0)%nat then None
            else Some (LiquidateClusterTask (ce_Owner e) (sort_ids (ce_OperatorIds e)) shares))
  | EClusterReactivated e =>
      shares ← handleClusterReactivated e;
      mret (if (length shares =? 0)%nat then None
            else Some (ReactivateClusterTask (ce_Owner e) (sort_ids (ce_OperatorIds e)) shares))
  | EFeeRecipientAddressUpdated owner recipient =>
      updated ← handleFeeRecipientAddressUpdated owner recipient;
      mret (if updated : bool then Some (UpdateFeeRecipientTask owner recipient blockNumber) else None)
  | EValidatorExited e =>
      descriptor ← handleValidatorExited e;
      mret (match descriptor with
            | None => None
            | Some (share, own) =>
                Some (ExitValidatorTask (sh_ValidatorPubKey share) blockNumber (sh_ValidatorIndex share) own)
            end)
  end.

(** A malformed event is skipped, with what it has changed. *)
Definition processEvent (blockNumber : Z) (log : Log) : HM (option Task) := λ eh,
  match log with
  | LogSkipped => (eh, Ok None)
  | LogEvent event =>
      match handle_event blockNumber event eh with
      | (eh, Err (MalformedEventError _)) => (eh, Ok None)
      | r => r
      end
  end.

Fixpoint process_logs (blockNumber : Z) (logs : list Log) : HM (list Task) :=
  match logs with
  | [] => mret []
  | log :: logs =>
      task ← processEvent blockNumber log;
      tasks ← process_logs blockNumber logs;
      mret (match task with Some t => t :: tasks | None => tasks end)
  end.

Definition set_storage (s : NodeStorage DB) (eh : Handler) : Handler :=
  mkEventHandler s (eh_shares eh) (eh_operatorData eh) (eh_keyManager eh) (eh_doppelganger eh) (eh_minEpochs eh).
Definition Begin (eh : Handler) : Handler :=
  let s := eh_storage eh in
  set_storage (mkNodeStorage (ns_db s) (ns_db s) (ns_pubkeyIdx s) (ns_feeRecipients s)) eh.
Definition Commit : HM unit := λ eh,
  let s := eh_storage eh in
  match io_commit io with
  | Ok _ => (set_storage (mkNodeStorage (ns_txn s) (ns_txn s) (ns_pubkeyIdx s) (ns_feeRecipients s)) eh, Ok tt)
  | r => (eh, hfail (wrap "commit transaction" r))
  end.
(** The databases are as they were in [eh0]; what is in memory stays. *)
Definition Discard (eh0 eh : Handler) : Handler :=
  let s := eh_storage eh in
  mkEventHandler (mkNodeStorage (ns_db s) (ns_db s) (ns_pubkeyIdx s) (ns_feeRecipients s))
    (shares_Discard (eh_shares eh0) (eh_shares eh)) (eh_operatorData eh)
    (mkKeyManager (km_db (eh_keyManager eh0)) (km_sent (eh_keyManager eh))) (eh_doppelganger eh) (eh_minEpochs eh).

Definition block_events (block : BlockLogs) : HM (list Task) :=
  lastProcessedBlock ← read_storage "get last processed block" GetLastProcessedBlock;
  st_lift (fail_if (bl_BlockNumber block <=? u64 (default 0 lastProcessedBlock))
             (HandlingError (ENew "block is not higher than the last processed block"))) ;;
  tasks ← process_logs (bl_BlockNumber block) (bl_Logs block);
  on_storage (st_wrap "set last processed block" (SaveLastProcessedBlock (bl_BlockNumber block))) ;;
  Commit ;;
  mret tasks.
Definition processBlockEvents (block : BlockLogs) : HM (list Task) := λ eh,
  match block_events block (Begin eh) with
  | (eh', Ok tasks) => (eh', Ok tasks)
  | (eh', r) => (Discard eh eh', r)
  end.

(** Events from a file: here a malformed one is an error. *)
Definition processLocalEvent (log : Log) : HM unit :=
  match log with LogSkipped => mret tt | LogEvent event => handle_event 0 event ;; mret tt end.
Fixpoint process_local_events (logs : list Log) : HM unit :=
  match logs with [] => mret tt | log :: logs => processLocalEvent log ;; process_local_events logs end.
Definition HandleLocalEvents (logs : list Log) : HM unit := λ eh,
  match (process_local_events logs ;; Commit) (Begin eh) with
  | (eh', Ok _) => (eh', Ok tt)
  | (eh', r) => (Discard eh eh', r)
  end.
End handlers.

(** The stream of blocks with what happens around each: it stops at the first error.  The
    result has the last processed block, the tasks executed in order, whose errors are
    only logged, and the error. *)
Section stream.
Context {DB S KDB : Type} `{RegistryDB DB} `{RegistryJSON} `{SharesStore S} `{SignerDatabase KDB}
  `{AttestationSSZ} `{FastSSZ} `{BLSKeys} `{EventEnv} (networkConfig : NetCfg).

Fixpoint HandleBlockEventsStream (executeTasks : bool) (blocks : list (BlockIO * BlockLogs))
    (lastProcessedBlock : option Z) (executed : list Task) (eh : EventHandler DB S KDB)
    : EventHandler DB S KDB * (option Z * list Task * hres unit) :=
  match blocks with
  | [] => (eh, (lastProcessedBlock, executed, Ok tt))
  | (io, block) :: blocks =>
      match processBlockEvents networkConfig io block eh with
      | (eh, Ok tasks) =>
          HandleBlockEventsStream executeTasks blocks (Some (bl_BlockNumber block))
            (executed ++ (if executeTasks then tasks else [])) eh
      | (eh, Err e) => (eh, (lastProcessedBlock, executed, Err e))
      | (eh, Panic) => (eh, (lastProcessedBlock, executed, Panic))
      end
  end.
End stream.
