(* ===== verification/EventProps.v ===== *)
(** * Correctness of the event handler

    What each event may do to the registry of shares and to the nonces of owners, and
    that a block is handled once and completely. *)

From stdpp Require Import base list gmap numbers strings.
From Stdlib Require Import Strings.Byte.
From S2P Require Import Prelude Sha256 SpecTypes Network Quorum Subnets Share ShareEncoding Doppelganger.
From S2P Require Import PartialSig Slashing KeyManager ValueCheck RegistryStorage EventHandler SharesProps.
Open Scope string_scope.
Open Scope list_scope.
Open Scope Z_scope.

(** ** Programs that respect a relation between the states before and after *)
Section keeps.
Context {T E : Type} (R : T → T → Prop) `{!Reflexive R} `{!Transitive R}.
Definition keeps {A} (m : ST T E A) : Prop := ∀ s s' r, m s = (s', r) → R s s'.

Lemma keeps_ret {A} (a : A) : keeps (mret a).
Proof using Type*. by intros s s' r [= <- _]. Qed.
Lemma keeps_lift {A} (r : result E A) : keeps (st_lift r).
Proof using Type*. by intros s s' ? [= <- _]. Qed.
Lemma keeps_err {A} e : keeps (A := A) (st_err e).
Proof using Type*. by intros s s' r [= <- _]. Qed.
Lemma keeps_get : keeps st_get.
Proof using Type*. by intros s s' r [= <- _]. Qed.
Lemma keeps_modify f : (∀ s, R s (f s)) → keeps (st_modify f).
Proof using Type*. intros Hf s s' r [= <- _]. apply Hf. Qed.
Lemma keeps_bind {A B} (m : ST T E A) (f : A → ST T E B) : keeps m → (∀ a, keeps (f a)) → keeps (m ≫= f).
Proof using Type*.
  intros Hm Hf s s' r. unfold mbind, st_bind. destruct (m s) as [s1 [a|e|]] eqn:Hms; apply Hm in Hms;
    [|by intros [= <- _]..]. intros Hfs. etrans; [exact Hms|]. by eapply Hf.
Qed.
End keeps.
(** The database has the operations on parts of the state. *)
Create HintDb keeps.
Ltac keep_in R :=
  repeat (first [ apply (keeps_bind R); [|intros] | apply (keeps_ret R) | apply (keeps_lift R)
                | apply (keeps_err R) | apply (keeps_get R) | by auto with keeps
                | case_match | by apply (keeps_modify R); intros ]).

(** ** Laws *)
Class RegistryDBLaws (DB : Type) `{RegistryDB DB} := {
  rdb_view : DB → gmap bytes bytes;
  rdb_get_view p k db o : rdb_Get p k db = Ok o → o = rdb_view db !! (p ++ k);
  rdb_set_view p k v db db' : rdb_Set p k v db = (db', Ok tt) → rdb_view db' = <[p ++ k := v]> (rdb_view db);
  rdb_delete_view p k db db' : rdb_Delete p k db = (db', Ok tt) → rdb_view db' = delete (p ++ k) (rdb_view db);
}.
Definition recipient_typed (r : RecipientData) : Prop :=
  length (rd_Owner r) = 20%nat ∧ length (rd_FeeRecipient r) = 20%nat ∧
  ∀ n, rd_Nonce r = Some n → 0 ≤ n < 2 ^ 16.
Class RegistryJSONLaws `{RegistryJSON} : Prop := {
  rd_unmarshal_typed v r : rd_Unmarshal v = Ok r → recipient_typed r;
  rd_round_trip r v : recipient_typed r → rd_Marshal r = Ok v → rd_Unmarshal v = Ok r;
}.
(** The storage of shares as a map; what is in memory changes before anything can fail. *)
Class SharesStoreLaws (S : Type) `{SharesStore S} := {
  shares_view : S → gmap bytes SSVShare;
  shares_get_view pk st : shares_Get pk st = shares_view st !! pk;
  shares_list_view f st s : s ∈ shares_List f st ↔ f s = true ∧ ∃ k, shares_view st !! k = Some s;
  shares_save_view l st st' r : shares_Save l st = (st', r) → shares_view st' = puts l (shares_view st);
  shares_delete_view pk st st' r : shares_Delete pk st = (st', r) → shares_view st' = delete pk (shares_view st);
  shares_discard_view st0 st : shares_view (shares_Discard st0 st) = shares_view st;
}.
(** A public key of 48 bytes has one encoding. *)
Class BLSKeysLaws `{BLSKeys} : Prop := {
  pk_canonical b pk : length b = 48%nat → pk_Deserialize b = Some pk → pk_Serialize pk = b;
}.


(** ** Shares and events *)
Section ownership.
Context {DB S KDB : Type} `{Hrdb : RegistryDB DB} `{Hjson : RegistryJSON} `{Hss : SharesStore S}
  {Hview : SharesStoreLaws S} `{Hsdb : SignerDatabase KDB} `{Hssz : AttestationSSZ} `{Hfast : FastSSZ}
  `{Hbls : BLS} {Hkeys : BLSKeys} {HkeysL : BLSKeysLaws} `{Henv : EventEnv} (networkConfig : NetCfg) (io : BlockIO).
Abbreviation Handler := (EventHandler DB S KDB).

Definition held_shares (eh : Handler) : gmap bytes SSVShare := shares_view (eh_shares eh).
Definition same_shares (eh eh' : Handler) : Prop := held_shares eh' = held_shares eh.
#[local] Instance same_shares_refl : Reflexive same_shares.
Proof using. by intros eh. Qed.
#[local] Instance same_shares_trans : Transitive same_shares.
Proof using. unfold same_shares. by intros ??? -> ->. Qed.

Lemma same_read {A} text (f : NodeStorage DB → result goerr A) : keeps same_shares (read_storage text f).
Proof using. by intros eh eh' r [= <- _]. Qed.
Lemma same_storage {A} (m : ST (NodeStorage DB) goerr A) : keeps same_shares (on_storage m).
Proof using. intros eh eh' r. unfold on_storage. destruct (m _). by intros [= <- _]. Qed.
Lemma same_keys {A} to (m : ST (KeyManager KDB) goerr A) : keeps same_shares (on_keys to m).
Proof using. intros eh eh' r. unfold on_keys. destruct (m _). by intros [= <- _]. Qed.
#[local] Hint Resolve same_read same_storage same_keys : keeps.
Ltac keep := keep_in same_shares.

Lemma operator_added_same event : keeps same_shares (handleOperatorAdded event).
Proof using. unfold handleOperatorAdded. keep. Qed.
Lemma operator_removed_same id : keeps same_shares (handleOperatorRemoved id).
Proof using. unfold handleOperatorRemoved. keep. Qed.
Lemma fee_recipient_same owner recipient : keeps same_shares (handleFeeRecipientAddressUpdated owner recipient).
Proof using. unfold handleFeeRecipientAddressUpdated. keep. Qed.
Lemma owned_share_same event : keeps same_shares (owned_share event).
Proof using. unfold owned_share. keep. Qed.
Lemma exited_same event : keeps same_shares (handleValidatorExited event).
Proof using. unfold handleValidatorExited, owned_share. keep. Qed.
Lemma bump_shares_same l : keeps same_shares (bump_shares networkConfig io l).
Proof using. induction l; cbn [bump_shares]; keep. Qed.

(** *** New shares *)
Definition keyed (V : gmap bytes SSVShare) : Prop := ∀ k s, V !! k = Some s → sh_ValidatorPubKey s = k.
Definition new_share (event : ValidatorAdded) (sharePublicKeys : list bytes) (s : SSVShare) : Prop :=
  sh_ValidatorPubKey s = va_PublicKey event ∧ sh_OwnerAddress s = va_Owner event ∧
  sm_Signer <$> sh_Committee s = va_OperatorIds event ∧ sm_SharePubKey <$> sh_Committee s = sharePublicKeys ∧
  sh_Liquidated s = false.

Lemma split_loop_length n : ∀ fuel buf lim,
  (0 < lim)%nat → length buf = (n * lim)%nat → (n <= fuel)%nat → length (split_loop fuel buf lim) = n.
Proof using.
  induction n as [|n IH]; intros fuel buf lim Hlim Hlen Hfuel.
  - destruct fuel; [done|]. cbn [split_loop]. rewrite Hlen. by destruct lim; [lia|].
  - destruct fuel as [|fuel]; [lia|]. cbn [split_loop].
    rewrite (proj2 (Nat.leb_le _ _)) by (rewrite Hlen; lia). cbn [length]. f_equal.
    apply IH; [done| |lia]. rewrite length_drop, Hlen. lia.
Qed.
Lemma splitBytes_length n buf lim :
  (0 < lim)%nat → length buf = (n * lim)%nat → length (splitBytes buf lim) = n.
Proof using. intros Hlim Hlen. apply split_loop_length; [done|done|]. rewrite Hlen. nia. Qed.

Lemma share_members_spec self ops : ∀ own (s : NodeStorage DB) members own',
  share_members self ops own s = Ok (members, own') →
  sm_Signer <$> members = ops.*1 ∧ sm_SharePubKey <$> members = ops.*2.*1.
Proof using.
  induction ops as [|[id [k ek]] ops IH]; intros own s members own'; cbn [share_members].
  - by intros [= <- _].
  - intros (od & _ & Hr)%bind_ok. destruct od as [od|]; [|done].
    apply bind_ok in Hr as ([ms o] & Hr & [= <- _]). apply IH in Hr as [Hs Hk].
    cbn [fst]. rewrite !fmap_cons. by rewrite Hs, Hk.
Qed.

Lemma event_to_share_ok event spk ek (eh eh' : Handler) share key :
  length (va_PublicKey event) = 48%nat → length spk = length (va_OperatorIds event) →
  length ek = length (va_OperatorIds event) →
  validatorAddedEventToShare networkConfig event spk ek eh = (eh', Ok (share, key)) → eh' = eh ∧ new_share event spk share.
Proof using HkeysL.
  intros Hlen Hspk Hek Hr. unfold validatorAddedEventToShare in Hr.
  apply bind_cases in Hr as (eh1 & r1 & Hpk & Hr). injection Hpk as <- <-.
  destruct (pk_Deserialize (va_PublicKey event)) as [pk|] eqn:Hpk; cbn in Hr; [|by destruct Hr].
  apply bind_cases in Hr as (eh1 & r1 & Hg & Hr). injection Hg as <- <-.
  apply bind_cases in Hr as (eh1 & r1 & Hm & Hr). injection Hm as <- <-.
  destruct (share_members _ _ _ _) as [[members own]|e|] eqn:Hm; [|by destruct Hr..].
  destruct (default ([], []) own) as [sk ekey]. injection Hr as <- <- _. split; [done|].
  apply share_members_spec in Hm as [Hs Hk]. unfold new_share. cbn.
  assert (length (zip spk ek) = length (va_OperatorIds event)) as Hzip by (rewrite length_zip; lia).
  split_and!; [|done| | |done].
  - rewrite (pk_canonical _ _ Hlen Hpk), take_app_le by lia. apply take_ge. lia.
  - rewrite Hs. apply fst_zip. lia.
  - rewrite Hk, snd_zip by lia. apply fst_zip. lia.
Qed.

Lemma on_shares_view {A} (m : ST S goerr A) (eh eh' : Handler) r :
  on_shares m eh = (eh', r) → ∃ st' r', m (eh_shares eh) = (st', r') ∧ eh_shares eh' = st'.
Proof using.
  unfold on_shares. destruct (m (eh_shares eh)) as [st' r'] eqn:Hm. intros [= <- _]. by exists st', r'.
Qed.
Lemma save_view text l (eh eh' : Handler) r :
  on_shares (st_wrap text (shares_Save l)) eh = (eh', r) → held_shares eh' = puts l (held_shares eh).
Proof using.
  intros (st' & r' & Hm & Heq)%on_shares_view. unfold st_wrap in Hm.
  destruct (shares_Save l (eh_shares eh)) as [st1 r1] eqn:Hs. injection Hm as -> _.
  unfold held_shares. rewrite Heq. by eapply shares_save_view.
Qed.

Lemma share_creation event spk ek (eh eh' : Handler) r :
  length (va_PublicKey event) = 48%nat → length spk = length (va_OperatorIds event) →
  length ek = length (va_OperatorIds event) →
  handleShareCreation networkConfig io event spk ek eh = (eh', r) →
  (same_shares eh eh' ∧ ∀ s, r ≠ Ok s) ∨
  ∃ s, new_share event spk s ∧ held_shares eh' = <[va_PublicKey event := s]> (held_shares eh).
Proof using HkeysL.
  intros Hlen Hspk Hek Hr. unfold handleShareCreation in Hr.
  apply bind_cases in Hr as (eh1 & r1 & Hshare & Hr).
  assert (keeps same_shares (validatorAddedEventToShare networkConfig event spk ek)) as Hk.
  { unfold validatorAddedEventToShare. keep. }
  pose proof (Hk _ _ _ Hshare) as Hsame.
  destruct r1 as [[share key]|e|]; [|by destruct Hr as [-> ->]; left..].
  apply event_to_share_ok in Hshare as [-> Hnew]; [|done..]. clear Hk Hsame.
  apply bind_cases in Hr as (eh1 & r1 & Hg & Hr). injection Hg as <- <-.
  apply bind_cases in Hr as (eh1 & r1 & Hadd & Hr).
  assert (same_shares eh eh1 ∧ ∀ s, r1 = Ok s → new_share event spk s) as [Hsame Hs].
  { destruct (BelongsToOperator _ share); [|injection Hadd as <- <-; split; [done|]; by intros s [= <-]].
    split.
    - revert Hadd. apply (keeps_bind same_shares); [keep|]. intros k. keep.
    - intros s ->. apply bind_cases in Hadd as (e1 & q1 & _ & Hadd). destruct q1; [|by destruct Hadd..].
      apply bind_cases in Hadd as (e2 & q2 & _ & Hadd). destruct q2; [|by destruct Hadd..].
      apply bind_cases in Hadd as (e3 & q3 & _ & Hadd). destruct q3; [|by destruct Hadd..].
      by injection Hadd as _ <-. }
  destruct r1 as [s|e|]; [|by destruct Hr as [-> ->]; left..]. specialize (Hs s eq_refl).
  apply bind_cases in Hr as (eh2 & r2 & Hsave & Hr). apply save_view in Hsave.
  right. exists s. split; [done|].
  assert (eh' = eh2) as -> by (destruct r2; [by injection Hr as <- _|by destruct Hr..]).
  rewrite Hsave, Hsame. unfold puts. cbn [foldl]. by destruct Hs as [-> _].
Qed.

(** *** What an event may do to the share of a key *)
Definition registered (eh : Handler) (event : ValidatorAdded) (s : SSVShare) : Prop :=
  ∃ sharePublicKeys nonce,
    new_share event sharePublicKeys s ∧
    GetNextNonce (va_Owner event) (eh_storage eh) = Ok nonce ∧
    verifySignature (take 96 (va_Shares event)) (va_Owner event) (va_PublicKey event) nonce = Ok tt ∧
    ValidateSharePublicKeys (va_PublicKey event) (va_OperatorIds event) sharePublicKeys = Ok tt.
Definition in_cluster (event : ClusterEvent) (s : SSVShare) : bool :=
  ByClusterIDHash (ComputeClusterIDHash (ce_Owner event) (ce_OperatorIds event)) s.

Inductive share_step (eh : Handler) (k : bytes) : ContractEvent → option SSVShare → option SSVShare → Prop :=
| share_unchanged event o : share_step eh k event o o
| share_added event s : k = va_PublicKey event → registered eh event s →
    share_step eh k (EValidatorAdded event) None (Some s)
| share_removed event s : k = ve_PublicKey event → sh_OwnerAddress s = ve_Owner event →
    share_step eh k (EValidatorRemoved event) (Some s) None
| share_liquidated event s : in_cluster event s = true →
    share_step eh k (EClusterLiquidated event) (Some s) (Some (with_liquidated true s))
| share_reactivated event s : in_cluster event s = true →
    share_step eh k (EClusterReactivated event) (Some s) (Some (with_liquidated false s)).
Definition shares_step (eh : Handler) (event : ContractEvent) (eh' : Handler) : Prop :=
  ∀ k, share_step eh k event (held_shares eh !! k) (held_shares eh' !! k).

Lemma same_step eh event eh' : same_shares eh eh' → shares_step eh event eh'.
Proof using. intros Hs k. rewrite Hs. constructor. Qed.

(** A step that only computes: it goes on, or ends with the shares as they are. *)
Lemma lift_same {A B} (q : hres A) (f : A → ST Handler herror B) (eh eh1 eh' : Handler) r :
  same_shares eh eh1 → (st_lift q ≫= f) eh1 = (eh', r) →
  same_shares eh eh' ∨ ∃ a, q = Ok a ∧ f a eh1 = (eh', r).
Proof using.
  intros Hs Hr. apply bind_cases in Hr as (eh2 & r1 & Hg & Hr). injection Hg as <- <-.
  destruct q as [a|e|]; [by right; exists a|by destruct Hr as [-> _]; left..].
Qed.
Lemma malformed_ok {A} (q : result goerr A) a : malformed q = Ok a → q = Ok a.
Proof using. by destruct q as [x|e|]; intros [= ->]. Qed.

Lemma share_lengths n shares :
  ValidCommitteeSize (Z.of_nat n) = true → (256 * n + (48 * n + 96))%nat = length shares →
  length (splitBytes (take (48 * n) (drop 96 shares)) 48) = n ∧
  length (splitBytes (drop (48 * n + 96) shares) (length (drop (48 * n + 96) shares) / n)) = n.
Proof using.
  intros Hn Hlen. assert (n ≠ 0%nat) as Hnz by (by intros ->).
  assert (length (drop (48 * n + 96) shares) = (256 * n)%nat) as Hd by (rewrite length_drop; lia).
  split; apply splitBytes_length; [lia| | |].
  - rewrite length_take, length_drop. lia.
  - rewrite Hd, Nat.div_mul by done. lia.
  - rewrite Hd, Nat.div_mul by done. lia.
Qed.
Lemma operators_valid ids (s : NodeStorage DB) :
  validateOperators ids s = Ok tt → ValidCommitteeSize (Z.of_nat (length ids)) = true.
Proof using.
  unfold validateOperators. intros (? & _ & (? & _ & ([] & Hv & _)%bind_ok)%bind_ok)%bind_ok.
  unfold fail_if in Hv. by destruct (ValidCommitteeSize _).
Qed.

Lemma validator_added_cases event (eh eh' : Handler) r :
  handleValidatorAdded networkConfig io event eh = (eh', r) →
  same_shares eh eh' ∨
  ∃ nonce spk ek eh1 r',
    same_shares eh eh1 ∧ GetNextNonce (va_Owner event) (eh_storage eh) = Ok nonce ∧
    length spk = length (va_OperatorIds event) ∧ length ek = length (va_OperatorIds event) ∧
    verifySignature (take 96 (va_Shares event)) (va_Owner event) (va_PublicKey event) nonce = Ok tt ∧
    ValidateSharePublicKeys (va_PublicKey event) (va_OperatorIds event) spk = Ok tt ∧
    held_shares eh !! va_PublicKey event = None ∧
    handleShareCreation networkConfig io event spk ek eh1 = (eh', r').
Proof using.
  intros Hr. unfold handleValidatorAdded in Hr.
  apply (lift_same _ _ eh eh) in Hr as [Hs|(nonce & Hn & Hr)]; [by left| |done].
  apply bind_cases in Hr as (eh1 & r1 & Hb & Hr). apply same_storage in Hb.
  destruct r1 as [[]|e|]; [|by destruct Hr as [-> _]; left..].
  apply (lift_same (Ok eh1) _ eh eh1) in Hr as [Hs|(eh2 & [= <-] & Hr)]; [by left| |done].
  apply (lift_same _ _ eh eh1) in Hr as [Hs|([] & Hv%malformed_ok & Hr)]; [by left| |done].
  apply (lift_same _ _ eh eh1) in Hr as [Hs|([] & Hl%malformed_ok & Hr)]; [by left| |done].
  apply (lift_same _ _ eh eh1) in Hr as [Hs|([] & Hsig & Hr)]; [by left| |done].
  apply (lift_same _ _ eh eh1) in Hr as [Hs|([] & Hpk%malformed_ok & Hr)]; [by left| |done].
  apply (lift_same (Ok eh1) _ eh eh1) in Hr as [Hs|(eh2 & [= <-] & Hr)]; [by left| |done].
  apply bind_cases in Hr as (eh2 & r2 & Hc & Hr).
  assert (eh' = eh2) as ->.
  { destruct r2 as [a|e|]; [|by destruct Hr..]. apply bind_cases in Hr as (e3 & r3 & Hg & Hr).
    injection Hg as <- <-. by injection Hr as <- _. }
  rewrite shares_get_view in Hc. fold (held_shares eh1) in Hc. rewrite Hb in Hc.
  destruct (held_shares eh !! va_PublicKey event) as [share|] eqn:Hget.
  { left. destruct (bool_decide _); by injection Hc as <- _. }
  unfold fail_if in Hl. destruct (_ =? length (va_Shares event))%nat eqn:Heq; [|done]. apply Nat.eqb_eq in Heq.
  destruct (share_lengths (length (va_OperatorIds event)) (va_Shares event)) as [Hspk Hek];
    [by eapply operators_valid|done|].
  right. eexists nonce, _, _, eh1, r2. split_and!; [done| |exact Hspk|exact Hek| |exact Hpk|done|exact Hc].
  - destruct (GetNextNonce _ _); [by injection Hn as ->|done..].
  - by destruct (verifySignature _ _ _ _) as [[]|e|].
Qed.

Lemma validator_added_step event (eh eh' : Handler) r :
  length (va_PublicKey event) = 48%nat →
  handleValidatorAdded networkConfig io event eh = (eh', r) → shares_step eh (EValidatorAdded event) eh'.
Proof using HkeysL.
  intros Hlen [Hs|(nonce & spk & ek & eh1 & r' & Hs & Hn & Hspk & Hek & Hsig & Hpk & Hnone & Hc)]%validator_added_cases;
    [by apply same_step|].
  apply share_creation in Hc as [[Hs' _]|(s & Hnew & Hput)]; [..|done|done|done].
  { apply same_step. exact (transitivity Hs Hs'). }
  intros k. rewrite Hput, Hs. destruct (decide (k = va_PublicKey event)) as [->|Hk].
  - rewrite lookup_insert_eq, Hnone. apply share_added; [done|]. by exists spk, nonce.
  - rewrite lookup_insert_ne by done. constructor.
Qed.

Lemma validator_removed_step event (eh eh' : Handler) r :
  keyed (held_shares eh) → handleValidatorRemoved networkConfig io event eh = (eh', r) →
  shares_step eh (EValidatorRemoved event) eh'.
Proof using.
  intros Hkeyed Hr. unfold handleValidatorRemoved in Hr.
  apply bind_cases in Hr as (eh1 & r1 & Hown & Hr). pose proof (owned_share_same _ _ _ _ Hown) as Hs.
  destruct r1 as [share|e|]; [|by destruct Hr as [-> _]; apply same_step..].
  unfold owned_share in Hown. apply bind_cases in Hown as (eh2 & r2 & Hg & Hown). injection Hg as <- <-.
  rewrite shares_get_view in Hown. fold (held_shares eh) in Hown.
  destruct (held_shares eh !! ve_PublicKey event) as [s|] eqn:Hget; [|done].
  case_bool_decide as Howner; [|done]. injection Hown as <- <-. rewrite (Hkeyed _ _ Hget) in Hr.
  apply bind_cases in Hr as (eh1 & r1 & Hdel & Hr).
  assert (held_shares eh1 = delete (ve_PublicKey event) (held_shares eh)) as Hd.
  { apply on_shares_view in Hdel as (st & r' & Hdel & Heq). unfold st_wrap in Hdel.
    destruct (shares_Delete _ _) as [st1 r2] eqn:Hd. injection Hdel as -> _.
    unfold held_shares. rewrite Heq. by eapply shares_delete_view. }
  assert (same_shares eh1 eh') as Hs1.
  { destruct r1 as [[]|e|]; [|by destruct Hr as [-> _]..]. revert Hr.
    apply (keeps_bind same_shares); [keep|intros eh2; keep]. }
  intros k. rewrite Hs1, Hd. destruct (decide (k = ve_PublicKey event)) as [->|Hk].
  - rewrite lookup_delete_eq, Hget. by apply share_removed.
  - rewrite lookup_delete_ne by done. constructor.
Qed.

(** *** Clusters *)
Lemma puts_cases l : ∀ V k,
  (k ∉ sh_ValidatorPubKey <$> l → puts l V !! k = V !! k) ∧
  (k ∈ sh_ValidatorPubKey <$> l → ∃ s, s ∈ l ∧ sh_ValidatorPubKey s = k ∧ puts l V !! k = Some s).
Proof using.
  induction l as [|x l IH]; intros V k; cbn [puts foldl fmap list_fmap].
  - split; [done|]. intros Hk. by apply not_elem_of_nil in Hk.
  - destruct (IH (<[sh_ValidatorPubKey x := x]> V) k) as [Hout Hin]. fold (puts l (<[sh_ValidatorPubKey x := x]> V)).
    split.
    + intros [Hne Hk]%not_elem_of_cons. rewrite Hout by done. by apply lookup_insert_ne.
    + intros Hk. destruct (decide (k ∈ sh_ValidatorPubKey <$> l)) as [Hl|Hl].
      * destruct (Hin Hl) as (s & Hs & Hks & Hp). exists s. by split; [apply list_elem_of_further|].
      * apply elem_of_cons in Hk as [->|Hk]; [|done]. exists x. split; [apply list_elem_of_here|].
        split; [done|]. rewrite Hout by done. apply lookup_insert_eq.
Qed.
Lemma puts_updates (f : SSVShare → SSVShare) p l V k :
  keyed V → (∀ s, sh_ValidatorPubKey (f s) = sh_ValidatorPubKey s) →
  (∀ s, s ∈ l ↔ p s = true ∧ ∃ k, V !! k = Some s) →
  puts (f <$> l) V !! k = (λ s, if p s : bool then f s else s) <$> V !! k.
Proof using.
  intros HV Hf Hl. destruct (puts_cases (f <$> l) V k) as [Hout Hin].
  rewrite <-list_fmap_compose in Hout, Hin. destruct (decide (k ∈ (sh_ValidatorPubKey ∘ f) <$> l)) as [Hk|Hk].
  - destruct (Hin Hk) as (s' & (s & -> & [Hp [k' Hs]]%Hl)%list_elem_of_fmap_1 & Hks & ->).
    rewrite Hf, (HV _ _ Hs) in Hks. subst k'. rewrite Hs. cbn. by rewrite Hp.
  - rewrite (Hout Hk). destruct (V !! k) as [s|] eqn:Hs; [|done]. cbn. destruct (p s) eqn:Hp; [|done].
    destruct Hk. rewrite <-(HV _ _ Hs), <-Hf. apply (list_elem_of_fmap_2 (sh_ValidatorPubKey ∘ f)). apply Hl. eauto.
Qed.

Lemma cluster_event_view event b (eh eh' : Handler) r k :
  keyed (held_shares eh) → processClusterEvent event b eh = (eh', r) →
  held_shares eh' !! k = (λ s, if in_cluster event s then with_liquidated b s else s) <$> held_shares eh !! k.
Proof using.
  intros Hkeyed Hr. unfold processClusterEvent in Hr.
  apply bind_cases in Hr as (eh1 & r1 & Hg & Hr). injection Hg as <- <-.
  apply bind_cases in Hr as (eh1 & r1 & Hsave & Hr).
  assert (eh' = eh1) as -> by (destruct r1; [by injection Hr as <- _|by destruct Hr..]).
  assert (∀ l, l = shares_List (in_cluster event) (eh_shares eh) →
    held_shares eh1 = puts (with_liquidated b <$> l) (held_shares eh)) as Hp.
  { intros l ->. destruct (0 <? _)%nat eqn:Hn; [by eapply save_view|].
    injection Hsave as <- _. apply Nat.ltb_ge in Hn. unfold in_cluster.
    destruct (shares_List _ _); [done|cbn in Hn; lia]. }
  rewrite (Hp _ eq_refl). apply puts_updates; [done|done|]. intros s. apply shares_list_view.
Qed.

Lemma wrap_failed_same {A} text (m : ST Handler herror A) eh eh' r :
  wrap_failed text m eh = (eh', r) → ∃ r', m eh = (eh', r').
Proof using. unfold wrap_failed. destruct (m eh) as [eh1 r1]. intros [= <- _]. by exists r1. Qed.
Lemma cluster_handler_view {A} event b text (f : list SSVShare → ST Handler herror A) (eh eh' : Handler) r k :
  (∀ l, keeps same_shares (f l)) → keyed (held_shares eh) →
  (wrap_failed text (processClusterEvent event b) ≫= f) eh = (eh', r) →
  held_shares eh' !! k = (λ s, if in_cluster event s then with_liquidated b s else s) <$> held_shares eh !! k.
Proof using.
  intros Hf Hkeyed Hr. apply bind_cases in Hr as (eh1 & r1 & Hc & Hr).
  apply wrap_failed_same in Hc as (r' & Hc). apply (cluster_event_view _ _ _ _ _ k) in Hc; [|done]. rewrite <-Hc.
  enough (same_shares eh1 eh') as -> by done.
  destruct r1 as [l|e|]; [|by destruct Hr as [-> _]..]. by eapply Hf.
Qed.
Lemma remove_states_same l : keeps same_shares
  (st_modify (E := herror) (λ eh, foldl (λ eh share, remove_doppelganger (sh_ValidatorIndex share) eh) eh l)).
Proof using.
  apply (keeps_modify same_shares). intros eh. revert eh.
  induction l as [|s l IH]; intros eh; cbn [foldl]; [done|]. exact (IH (remove_doppelganger (sh_ValidatorIndex s) eh)).
Qed.
#[local] Hint Resolve operator_added_same operator_removed_same fee_recipient_same exited_same
  bump_shares_same remove_states_same : keeps.

Lemma cluster_liquidated_view event (eh eh' : Handler) r k :
  keyed (held_shares eh) → handleClusterLiquidated event eh = (eh', r) →
  held_shares eh' !! k = (λ s, if in_cluster event s then with_liquidated true s else s) <$> held_shares eh !! k.
Proof using. apply cluster_handler_view. intros l. keep. Qed.
Lemma cluster_reactivated_view event (eh eh' : Handler) r k :
  keyed (held_shares eh) → handleClusterReactivated networkConfig io event eh = (eh', r) →
  held_shares eh' !! k = (λ s, if in_cluster event s then with_liquidated false s else s) <$> held_shares eh !! k.
Proof using. apply cluster_handler_view. intros l. keep. Qed.

Lemma bind_ret_state {A B} (m : ST Handler herror A) (g : A → B) eh eh' r :
  (m ≫= λ a, mret (g a)) eh = (eh', r) → ∃ r', m eh = (eh', r').
Proof using.
  intros (eh1 & r1 & Hm & Hr)%bind_cases. exists r1. rewrite Hm. f_equal.
  destruct r1; [by injection Hr|by destruct Hr..].
Qed.

(** The public key of an event that adds a validator has 48 bytes, as the contract checks. *)
Definition added_key_ok (event : ContractEvent) : Prop :=
  match event with EValidatorAdded e => length (va_PublicKey e) = 48%nat | _ => True end.
Definition log_key_ok (log : Log) : Prop := match log with LogSkipped => True | LogEvent event => added_key_ok event end.

Lemma handle_event_step n event (eh eh' : Handler) r :
  added_key_ok event → keyed (held_shares eh) → handle_event networkConfig io n event eh = (eh', r) →
  shares_step eh event eh'.
Proof using HkeysL.
  intros Hok Hkeyed. destruct event as [e|id|e|e|e|e|owner recipient|e]; cbn [handle_event];
    intros [r' Hr]%bind_ret_state.
  - apply same_step. by eapply operator_added_same.
  - apply same_step. by eapply operator_removed_same.
  - by eapply validator_added_step.
  - by eapply validator_removed_step.
  - intros k. rewrite (cluster_liquidated_view _ _ _ _ k Hkeyed Hr).
    destruct (held_shares eh !! k) as [s|]; cbn; [destruct (in_cluster e s) eqn:Hc|]; by constructor.
  - intros k. rewrite (cluster_reactivated_view _ _ _ _ k Hkeyed Hr).
    destruct (held_shares eh !! k) as [s|]; cbn; [destruct (in_cluster e s) eqn:Hc|]; by constructor.
  - apply same_step. by eapply fee_recipient_same.
  - apply same_step. by eapply exited_same.
Qed.

Lemma shares_step_keyed eh event eh' :
  keyed (held_shares eh) → shares_step eh event eh' → keyed (held_shares eh').
Proof using.
  intros Hkeyed Hs k s Hk. specialize (Hs k). rewrite Hk in Hs.
  inversion Hs as [? o Ho|? s1 Hk1 Hreg Ho|?? Hk1|? s1 Hc Ho|? s1 Hc Ho]; subst.
  - by apply Hkeyed.
  - by destruct Hreg as (? & ? & [-> _] & _).
  - by apply (Hkeyed k s1).
  - by apply (Hkeyed k s1).
Qed.
Lemma process_event_state n event (eh eh' : Handler) r :
  processEvent networkConfig io n (LogEvent event) eh = (eh', r) →
  ∃ r', handle_event networkConfig io n event eh = (eh', r').
Proof using.
  cbn [processEvent]. destruct (handle_event _ _ _ _ _) as [eh1 r1]. intros Hr. exists r1.
  destruct r1 as [?|[]|]; by injection Hr as <- _.
Qed.

(** C28. Whatever an event ends with, it changes the share of a key in one of four ways: an
    absent share is added by an event for that key, signed by the key over the owner and
    the owner's next nonce, with that owner and those operators, whose share keys
    reconstruct the key; a present one is removed by an event of its owner; or its
    liquidated flag is set or cleared by an event of its cluster.  The shares stay under
    their own keys. *)
Theorem event_share_step n event (eh eh' : Handler) r :
  added_key_ok event → keyed (held_shares eh) → processEvent networkConfig io n (LogEvent event) eh = (eh', r) →
  shares_step eh event eh' ∧ keyed (held_shares eh').
Proof using HkeysL.
  intros Hok Hkeyed [r' Hr]%process_event_state. pose proof (handle_event_step _ _ _ _ _ Hok Hkeyed Hr) as Hs.
  split; [done|]. by eapply shares_step_keyed.
Qed.

(** *** Shares over blocks *)
(** The share of a key is the given one, up to the liquidated flag. *)
Definition has_share (k : bytes) (s : SSVShare) (eh : Handler) : Prop :=
  ∃ b, held_shares eh !! k = Some (with_liquidated b s).
Definition removal (k : bytes) (s : SSVShare) : Log :=
  LogEvent (EValidatorRemoved (mkValidatorEvent (sh_OwnerAddress s) k)).
(** Both at once, as a relation on states. *)
Definition share_safe (k : bytes) (s : SSVShare) (eh eh' : Handler) : Prop :=
  keyed (held_shares eh) → has_share k s eh → keyed (held_shares eh') ∧ has_share k s eh'.
#[local] Instance share_safe_refl k s : Reflexive (share_safe k s).
Proof using. by intros eh Hk Hs. Qed.
#[local] Instance share_safe_trans k s : Transitive (share_safe k s).
Proof using. intros e1 e2 e3 H1 H2 Hk Hs. destruct (H1 Hk Hs). by apply H2. Qed.
Lemma same_share_safe k s eh eh' : same_shares eh eh' → share_safe k s eh eh'.
Proof using. intros Hs Hk Hh. unfold has_share. by rewrite Hs. Qed.

Lemma process_event_safe n log k s :
  log_key_ok log → log ≠ removal k s → keeps (share_safe k s) (processEvent networkConfig io n log).
Proof using HkeysL.
  intros Hok Hne eh eh' r Hr Hkeyed [b Hh]. destruct log as [|event]; [injection Hr as <- _; by split; [|exists b]|].
  apply process_event_state in Hr as [r' Hr]. pose proof (handle_event_step _ _ _ _ _ Hok Hkeyed Hr) as Hs.
  split; [by eapply shares_step_keyed|]. specialize (Hs k). rewrite Hh in Hs. unfold has_share.
  inversion Hs as [? o Ho|?? Hk1 Hreg Ho|e1 s1 Hk1 Ho|e1 s1 Hc Ho|e1 s1 Hc Ho]; subst; [by exists b| | |].
  - destruct e1 as [owner k]. cbn in *. by subst.
  - by exists true.
  - by exists false.
Qed.
Lemma process_logs_safe n logs k s :
  Forall log_key_ok logs → removal k s ∉ logs → keeps (share_safe k s) (process_logs networkConfig io n logs).
Proof using HkeysL.
  induction logs as [|log logs IH]; cbn [process_logs]; intros Hok Hno.
  - apply (keeps_ret (share_safe k s)).
  - apply Forall_cons in Hok as [Hlog Hok]. apply not_elem_of_cons in Hno as [Hne Hno].
    apply (keeps_bind (share_safe k s)); [apply process_event_safe; [done|congruence]|]. intros t.
    apply (keeps_bind (share_safe k s)); [by apply IH|]. intros ts. apply (keeps_ret (share_safe k s)).
Qed.
Lemma keeps_same_safe {A} k s (m : ST Handler herror A) : keeps same_shares m → keeps (share_safe k s) m.
Proof using. intros Hm eh eh' r Hr. apply same_share_safe. by eapply Hm. Qed.
Lemma commit_same : keeps same_shares (Commit (KDB := KDB) io).
Proof using. intros eh eh' r. unfold Commit. destruct (io_commit io); by intros [= <- _]. Qed.
#[local] Hint Resolve commit_same : keeps.

Lemma local_events_safe logs k s :
  Forall log_key_ok logs → removal k s ∉ logs → keeps (share_safe k s) (HandleLocalEvents networkConfig io logs).
Proof using HkeysL.
  intros Hok Hno eh eh' r Hr. unfold HandleLocalEvents in Hr.
  assert (keeps (share_safe k s) (process_local_events networkConfig io logs)) as Hl.
  { clear Hr. induction logs as [|log logs IH]; cbn [process_local_events]; [apply (keeps_ret (share_safe k s))|].
    apply Forall_cons in Hok as [Hlog Hok]. apply not_elem_of_cons in Hno as [Hne Hno].
    apply (keeps_bind (share_safe k s)); [|intros _; by apply IH]. destruct log as [|event]; cbn [processLocalEvent].
    - apply (keeps_ret (share_safe k s)).
    - intros e1 e2 q [q' Hq]%bind_ret_state.
      apply (process_event_safe 0 (LogEvent event) k s Hlog ltac:(congruence) e1 e2
        (processEvent networkConfig io 0 (LogEvent event) e1).2).
      cbn [processEvent]. rewrite Hq. by destruct q' as [?|[]|]. }
  destruct ((process_local_events networkConfig io logs ;; Commit io) (Begin eh)) as [eh1 r1] eqn:H1.
  apply (keeps_bind (share_safe k s) _ _ Hl) in H1; [|intros _; apply keeps_same_safe; keep].
  assert (share_safe k s eh1 (Discard eh eh1)) as Hd by (apply same_share_safe, shares_discard_view).
  destruct r1 as [a|e|]; injection Hr as <- _; [exact H1|exact (transitivity H1 Hd)..].
Qed.

Lemma block_safe block k s :
  Forall log_key_ok (bl_Logs block) → removal k s ∉ bl_Logs block →
  keeps (share_safe k s) (processBlockEvents networkConfig io block).
Proof using HkeysL.
  intros Hok Hno eh eh' r Hr. unfold processBlockEvents in Hr.
  assert (keeps (share_safe k s) (block_events networkConfig io block)) as Hb.
  { unfold block_events. apply (keeps_bind (share_safe k s)); [apply keeps_same_safe; keep|intros last].
    apply (keeps_bind (share_safe k s)); [apply keeps_same_safe; keep|intros _].
    apply (keeps_bind (share_safe k s)); [by apply process_logs_safe|intros tasks].
    apply keeps_same_safe. keep. }
  destruct (block_events networkConfig io block (Begin eh)) as [eh1 r1] eqn:H1. apply Hb in H1.
  assert (same_shares eh1 (Discard eh eh1)) as Hd.
  { unfold same_shares, held_shares, Discard. cbn [eh_shares]. apply shares_discard_view. }
  apply (same_share_safe k s) in Hd.
  destruct r1 as [a|e|]; injection Hr as <- _; [exact H1|exact (transitivity H1 Hd)..].
Qed.
End ownership.

(** C29. Only its owner takes a share out of the registry: over any stream of blocks without
    an event that removes the validator in the name of the share's owner, and however the
    handling of the stream ends, the share stays what it is up to its liquidated flag. *)
Theorem share_kept {DB S KDB : Type} `{RegistryDB DB} `{RegistryJSON} `{SharesStore S} {Hview : SharesStoreLaws S}
    `{SignerDatabase KDB} `{AttestationSSZ} `{FastSSZ} `{BLS} {Hkeys : BLSKeys} {HkeysL : BLSKeysLaws} `{EventEnv}
    (networkConfig : NetCfg) executeTasks (blocks : list (BlockIO * BlockLogs)) k (s : SSVShare) :
  ∀ last executed (eh eh' : EventHandler DB S KDB) out,
  Forall (λ b, Forall log_key_ok (bl_Logs b.2) ∧ removal k s ∉ bl_Logs b.2) blocks →
  keyed (held_shares eh) → has_share k s eh →
  HandleBlockEventsStream networkConfig executeTasks blocks last executed eh = (eh', out) →
  has_share k s eh'.
Proof using.
  induction blocks as [|[io block] blocks IH]; intros last executed eh eh' out Hb Hkeyed Hs;
    cbn [HandleBlockEventsStream]; [by intros [= <- _]|].
  apply Forall_cons in Hb as [[Hok Hno] Hb].
  destruct (processBlockEvents networkConfig io block eh) as [eh1 r1] eqn:Hblock.
  destruct (block_safe networkConfig io block k s Hok Hno _ _ _ Hblock Hkeyed Hs) as [Hkeyed1 Hs1].
  destruct r1 as [tasks|e|]; [by apply IH|by intros [= <- _]..].
Qed.
