(* ===== verification/EventBlocks.v ===== *)
(** * Blocks of events are handled once and completely

    What a block leaves in the committed database: everything it did together with its
    number, or nothing.  The numbers of the handled blocks increase, and the nonce of an
    owner counts the events by which the owner added validators. *)

From stdpp Require Import base list gmap numbers strings sorting.
From Stdlib Require Import Strings.Byte.
From S2P Require Import Prelude Sha256 SpecTypes Network Subnets Share ShareEncoding PartialSig.
From S2P Require Import Slashing KeyManager ValueCheck RegistryStorage EventHandler EventProps.
Open Scope string_scope.
Open Scope list_scope.
Open Scope Z_scope.

(** ** Numbers and keys *)
Lemma strip_zeros_word b : be_word (strip_zeros b) = be_word b.
Proof. induction b as [|x b IH]; [done|]. by destruct x. Qed.
Lemma big_Bytes_word n : 0 ≤ n < 2 ^ 64 → be_word (big_Bytes n) = n.
Proof.
  intros Hn. unfold big_Bytes. rewrite strip_zeros_word. pose proof (le_value_le_bytes 8 n) as Hle.
  unfold le_value, le_bytes in Hle. rewrite rev_involutive in Hle. apply Hle. lia.
Qed.

Abbreviation recipient_key owner := (OperatorStoragePrefix ++ buildRecipientKey owner).
Lemma recipient_key_inj o o' : recipient_key o = recipient_key o' → o = o'.
Proof. by intros ?%app_inv_head%app_inv_head%app_inv_head. Qed.
Lemma recipient_not_operator o id : OperatorStoragePrefix ++ buildOperatorKey id ≠ recipient_key o.
Proof. by intros [=]%app_inv_head. Qed.
Lemma recipient_not_block o : OperatorStoragePrefix ++ lastProcessedBlockKey ≠ recipient_key o.
Proof. by intros [=]%app_inv_head. Qed.

Lemma u16_add a b : u16 (u16 a + b) = u16 (a + b).
Proof. unfold u16. apply Zplus_mod_idemp_l. Qed.

Section blocks.
Context {DB S KDB : Type} `{Hrdb : RegistryDB DB} {HrdbL : RegistryDBLaws DB} `{Hjson : RegistryJSON}
  {HjsonL : RegistryJSONLaws} `{Hss : SharesStore S} `{Hsdb : SignerDatabase KDB} `{Hssz : AttestationSSZ}
  `{Hfast : FastSSZ} `{Hbls : BLS} {Hkeys : BLSKeys} `{Henv : EventEnv} (networkConfig : NetCfg).
Abbreviation Handler := (EventHandler DB S KDB).
Abbreviation HM := (ST Handler herror).

(** ** The committed database *)
Definition same_db (eh eh' : Handler) : Prop := ns_db (eh_storage eh') = ns_db (eh_storage eh).
Definition same_store_db (s s' : NodeStorage DB) : Prop := ns_db s' = ns_db s.
#[local] Instance same_db_refl : Reflexive same_db.
Proof using. by intros eh. Qed.
#[local] Instance same_db_trans : Transitive same_db.
Proof using. unfold same_db. by intros ??? -> ->. Qed.
#[local] Instance same_store_db_refl : Reflexive same_store_db.
Proof using. by intros s. Qed.
#[local] Instance same_store_db_trans : Transitive same_store_db.
Proof using. unfold same_store_db. by intros ??? -> ->. Qed.

Lemma in_txn_db {A} (m : ST DB goerr A) : keeps same_store_db (in_txn m).
Proof using. intros s s' r. unfold in_txn. destruct (m _). by intros [= <- _]. Qed.
Lemma wrap_db {A} text (m : ST (NodeStorage DB) goerr A) :
  keeps same_store_db m → keeps same_store_db (st_wrap text m).
Proof using.
  intros Hm s s' r. unfold st_wrap. destruct (m s) as [s1 r1] eqn:Hr. intros [= <- _]. by eapply Hm.
Qed.
Lemma on_storage_db {A} (m : ST (NodeStorage DB) goerr A) : keeps same_store_db m → keeps same_db (on_storage m).
Proof using.
  intros Hm eh eh' r. unfold on_storage. destruct (m _) as [s1 r1] eqn:Hr. intros [= <- _]. by eapply Hm.
Qed.
Lemma read_db {A} text (f : NodeStorage DB → result goerr A) : keeps same_db (read_storage text f).
Proof using. by intros eh eh' r [= <- _]. Qed.
#[local] Hint Resolve in_txn_db wrap_db on_storage_db read_db : keeps.

Lemma SaveOperatorData_db od : keeps same_store_db (SaveOperatorData od).
Proof using. unfold SaveOperatorData. keep_in same_store_db. Qed.
Lemma DeleteOperatorData_db id : keeps same_store_db (DeleteOperatorData id).
Proof using. apply in_txn_db. Qed.
Lemma BumpNonce_db owner : keeps same_store_db (BumpNonce owner).
Proof using. unfold BumpNonce. keep_in same_store_db. Qed.
Lemma SaveRecipientData_db owner recipient : keeps same_store_db (SaveRecipientData owner recipient).
Proof using. unfold SaveRecipientData. keep_in same_store_db. Qed.
Lemma SaveLastProcessedBlock_db n : keeps same_store_db (SaveLastProcessedBlock n).
Proof using. apply in_txn_db. Qed.
#[local] Hint Resolve SaveOperatorData_db DeleteOperatorData_db BumpNonce_db SaveRecipientData_db
  SaveLastProcessedBlock_db : keeps.

(** *** What does not touch the storages of the node *)
Definition same_stored (eh eh' : Handler) : Prop := eh_storage eh' = eh_storage eh.
#[local] Instance same_stored_refl : Reflexive same_stored.
Proof using. by intros eh. Qed.
#[local] Instance same_stored_trans : Transitive same_stored.
Proof using. unfold same_stored. by intros ??? -> ->. Qed.
Lemma stored_db {A} (m : HM A) : keeps same_stored m → keeps same_db m.
Proof using. intros Hm eh eh' r Hr. unfold same_db. by rewrite (Hm _ _ _ Hr). Qed.
Lemma read_stored {A} text (f : NodeStorage DB → result goerr A) : keeps same_stored (read_storage text f).
Proof using. by intros eh eh' r [= <- _]. Qed.
Lemma shares_stored {A} (m : ST S goerr A) : keeps same_stored (on_shares m).
Proof using. intros eh eh' r. unfold on_shares. destruct (m _). by intros [= <- _]. Qed.
Lemma keys_stored {A} to (m : ST (KeyManager KDB) goerr A) : keeps same_stored (on_keys to m).
Proof using. intros eh eh' r. unfold on_keys. destruct (m _). by intros [= <- _]. Qed.
Lemma wrap_failed_stored {A} text (m : HM A) : keeps same_stored m → keeps same_stored (wrap_failed text m).
Proof using. intros Hm eh eh' r [r' Hr]%wrap_failed_same. by eapply Hm. Qed.
#[local] Hint Resolve read_stored shares_stored keys_stored wrap_failed_stored : keeps.

Section one_block.
Context (io : BlockIO).
Lemma share_creation_stored event spk ek : keeps same_stored (handleShareCreation networkConfig io event spk ek).
Proof using. unfold handleShareCreation, validatorAddedEventToShare. keep_in same_stored. Qed.
Lemma removed_stored event : keeps same_stored (handleValidatorRemoved networkConfig io event).
Proof using. unfold handleValidatorRemoved, owned_share. keep_in same_stored. Qed.
Lemma exited_stored event : keeps same_stored (handleValidatorExited event).
Proof using. unfold handleValidatorExited, owned_share. keep_in same_stored. Qed.
Lemma bump_shares_stored l : keeps same_stored (bump_shares networkConfig io l).
Proof using. induction l; cbn [bump_shares]; keep_in same_stored. Qed.
Lemma remove_states_stored l : keeps same_stored
  (st_modify (E := herror) (λ eh, foldl (λ eh share, remove_doppelganger (sh_ValidatorIndex share) eh) eh l)).
Proof using.
  apply (keeps_modify same_stored). intros eh. revert eh.
  induction l as [|s l IH]; intros eh; cbn [foldl]; [done|]. exact (IH (remove_doppelganger (sh_ValidatorIndex s) eh)).
Qed.
Lemma cluster_stored event b : keeps same_stored (processClusterEvent event b).
Proof using. unfold processClusterEvent. keep_in same_stored. Qed.
#[local] Hint Resolve share_creation_stored bump_shares_stored remove_states_stored cluster_stored : keeps.
Lemma liquidated_stored event : keeps same_stored (handleClusterLiquidated event).
Proof using. unfold handleClusterLiquidated. keep_in same_stored. Qed.
Lemma reactivated_stored event : keeps same_stored (handleClusterReactivated networkConfig io event).
Proof using. unfold handleClusterReactivated. keep_in same_stored. Qed.

#[local] Hint Resolve stored_db removed_stored exited_stored liquidated_stored reactivated_stored : keeps.

Lemma handle_event_db n event : keeps same_db (handle_event networkConfig io n event).
Proof using.
  destruct event; cbn [handle_event];
    unfold handleOperatorAdded, handleOperatorRemoved, handleValidatorAdded, handleFeeRecipientAddressUpdated;
    keep_in same_db.
Qed.
Lemma process_logs_db n logs : keeps same_db (process_logs networkConfig io n logs).
Proof using.
  induction logs as [|log logs IH]; cbn [process_logs]; [apply (keeps_ret same_db)|].
  apply (keeps_bind same_db); [|intros t; keep_in same_db].
  intros eh eh' r Hr. destruct log as [|event]; [by injection Hr as <- _|].
  apply process_event_state in Hr as [r' Hr]. by eapply handle_event_db.
Qed.
End one_block.

(** ** Nonces *)
Definition next_of (r : RecipientData) : Nonce := match rd_Nonce r with None => 0 | Some n => u16 (n + 1) end.
Definition nonce_of (V : gmap bytes bytes) (owner : Address) : Nonce :=
  match V !! recipient_key owner with
  | None => 0
  | Some v => match rd_Unmarshal v with Ok r => next_of r | _ => 0 end
  end.
(** The data of an owner is stored under the owner. *)
Definition recipients_ok (V : gmap bytes bytes) : Prop :=
  ∀ owner v r, V !! recipient_key owner = Some v → rd_Unmarshal v = Ok r → rd_Owner r = owner.
(** From one content to another, the nonces rise by [d]. *)
Definition nonces_rise (d : Address → Z) (V V' : gmap bytes bytes) : Prop :=
  recipients_ok V → recipients_ok V' ∧ ∀ owner, nonce_of V' owner = u16 (nonce_of V owner + d owner).

Lemma next_range r : u16 (next_of r) = next_of r.
Proof using. unfold next_of, u16. destruct (rd_Nonce r); [apply Z.mod_mod; lia|done]. Qed.
Lemma nonce_range V owner : u16 (nonce_of V owner) = nonce_of V owner.
Proof using. unfold nonce_of. destruct (V !! _) as [v|]; [|done]. destruct (rd_Unmarshal v); [apply next_range|done..]. Qed.
Lemma rise_frame V V' :
  (∀ owner, V' !! recipient_key owner = V !! recipient_key owner) → nonces_rise (λ _, 0) V V'.
Proof using.
  intros Hf Hok. split; [intros owner v r; rewrite Hf; apply Hok|].
  intros owner. rewrite Z.add_0_r, nonce_range. unfold nonce_of. by rewrite Hf.
Qed.
Lemma rise_refl V : nonces_rise (λ _, 0) V V.
Proof using. by apply rise_frame. Qed.
Lemma rise_trans d1 d2 V V1 V2 :
  nonces_rise d1 V V1 → nonces_rise d2 V1 V2 → nonces_rise (λ o, d1 o + d2 o) V V2.
Proof using.
  intros H1 H2 Hok. destruct (H1 Hok) as [Hok1 Hn1]. destruct (H2 Hok1) as [Hok2 Hn2].
  split; [done|]. intros o. rewrite Hn2, Hn1, u16_add. f_equal. lia.
Qed.
Lemma rise_ext d d' V V' : (∀ o, d o = d' o) → nonces_rise d V V' → nonces_rise d' V V'.
Proof using. intros He Hr Hok. destruct (Hr Hok) as [H1 H2]. split; [done|]. intros o. by rewrite <-He. Qed.
Lemma rise_put V owner raw r d :
  rd_Unmarshal raw = Ok r → rd_Owner r = owner → next_of r = u16 (nonce_of V owner + d) →
  nonces_rise (λ o, if bool_decide (o = owner) then d else 0) V (<[recipient_key owner := raw]> V).
Proof using.
  intros Hraw Hown Hnext Hok. split.
  - intros o v r'. destruct (decide (o = owner)) as [->|Ho].
    + rewrite lookup_insert_eq. intros [= <-]. rewrite Hraw. by intros [= <-].
    + rewrite lookup_insert_ne; [by apply Hok|]. intros He%recipient_key_inj. congruence.
  - intros o. unfold nonce_of at 1. case_bool_decide as Ho; [subst o; by rewrite lookup_insert_eq, Hraw|].
    rewrite lookup_insert_ne by (intros He%recipient_key_inj; congruence).
    rewrite Z.add_0_r, nonce_range. done.
Qed.

(** *** Storage operations that succeed *)
Definition txn_view (s : NodeStorage DB) : gmap bytes bytes := rdb_view (ns_txn s).
Lemma st_wrap_ok {T A} text (m : ST T goerr A) s s' a : st_wrap text m s = (s', Ok a) → m s = (s', Ok a).
Proof using. unfold st_wrap. destruct (m s) as [s1 [x|e|]]; by intros [= <- <-]. Qed.
Lemma in_txn_set p k v (s s' : NodeStorage DB) u :
  in_txn (rdb_Set p k v) s = (s', Ok u) → txn_view s' = <[p ++ k := v]> (txn_view s).
Proof using.
  unfold in_txn. destruct (rdb_Set p k v (ns_txn s)) as [db [[]|e|]] eqn:Hs; [|done..].
  intros [= <- _]. by apply rdb_set_view.
Qed.
Lemma in_txn_delete p k (s s' : NodeStorage DB) u :
  in_txn (rdb_Delete p k) s = (s', Ok u) → txn_view s' = delete (p ++ k) (txn_view s).
Proof using.
  unfold in_txn. destruct (rdb_Delete p k (ns_txn s)) as [db [[]|e|]] eqn:Hs; [|done..].
  intros [= <- _]. by apply rdb_delete_view.
Qed.
Lemma getRecipientData_view (s : NodeStorage DB) owner o :
  getRecipientData (ns_txn s) owner = Ok o →
  match o with
  | None => txn_view s !! recipient_key owner = None
  | Some r => ∃ v, txn_view s !! recipient_key owner = Some v ∧ rd_Unmarshal v = Ok r ∧ recipient_typed r
  end.
Proof using HjsonL.
  unfold getRecipientData. intros (v & Hv & Hr)%bind_ok. apply rdb_get_view in Hv. fold (txn_view s) in Hv.
  destruct v as [v|]; [|injection Hr as <-; done]. apply bind_ok in Hr as (r & Hu & [= <-]).
  exists v. split_and!; [done..|]. by eapply rd_unmarshal_typed.
Qed.

Lemma wrap_ok_inv {A} text (q : result goerr A) a : wrap text q = Ok a → q = Ok a.
Proof using. by destruct q; intros [= ->]. Qed.
Lemma lift_wrap_ok {T A} text (q : result goerr A) (s s' : T) a :
  st_lift (wrap text q) s = (s', Ok a) → s' = s ∧ q = Ok a.
Proof using. unfold st_lift. destruct q; by intros [= <- <-]. Qed.

Lemma SaveOperatorData_rise od (s s' : NodeStorage DB) b :
  SaveOperatorData od s = (s', Ok b) → nonces_rise (λ _, 0) (txn_view s) (txn_view s').
Proof using.
  unfold SaveOperatorData. intros (s0 & s1 & [= <- <-] & Hr)%st_bind_ok.
  apply st_bind_ok in Hr as (s1 & found & [-> _]%lift_wrap_ok & Hr).
  destruct found as [od'|]; [injection Hr as <- _; apply rise_refl|].
  apply st_bind_ok in Hr as (s1 & raw & [-> _]%lift_wrap_ok & Hr).
  apply st_bind_ok in Hr as (s2 & [] & Hset%st_wrap_ok%in_txn_set & Hr). injection Hr as <- _.
  apply (rise_frame _ (txn_view s2)). intros owner. rewrite Hset.
  apply lookup_insert_ne, recipient_not_operator.
Qed.
Lemma DeleteOperatorData_rise id (s s' : NodeStorage DB) u :
  DeleteOperatorData id s = (s', Ok u) → nonces_rise (λ _, 0) (txn_view s) (txn_view s').
Proof using.
  intros Hd%in_txn_delete. apply rise_frame. intros owner. rewrite Hd.
  apply lookup_delete_ne, recipient_not_operator.
Qed.
Lemma SaveLastProcessedBlock_rise n (s s' : NodeStorage DB) u :
  SaveLastProcessedBlock n s = (s', Ok u) → nonces_rise (λ _, 0) (txn_view s) (txn_view s').
Proof using.
  intros Hd%in_txn_set. apply rise_frame. intros owner. rewrite Hd.
  apply lookup_insert_ne, recipient_not_block.
Qed.

Definition one_for (owner : Address) : Address → Z := λ o, if bool_decide (o = owner) then 1 else 0.
Lemma BumpNonce_rise owner (s s' : NodeStorage DB) u :
  length owner = 20%nat → BumpNonce owner s = (s', Ok u) → nonces_rise (one_for owner) (txn_view s) (txn_view s').
Proof using HjsonL.
  intros Hlen Hr. unfold BumpNonce in Hr. apply st_bind_ok in Hr as (s0 & s1 & [= <- <-] & Hr).
  apply st_bind_ok in Hr as (s1 & found & [-> Hf%getRecipientData_view]%lift_wrap_ok & Hr).
  apply st_bind_ok in Hr as (s1 & raw & [-> Hraw]%lift_wrap_ok & Hr).
  apply st_bind_ok in Hr as (s2 & [] & Hset%st_wrap_ok%in_txn_set & Hr).
  assert (txn_view s' = txn_view s2) as -> by (by destruct found; injection Hr as <- _).
  rewrite Hset. destruct found as [r|].
  - destruct Hf as (v & Hv & Hu & Hty). intros Hok. pose proof (Hok _ _ _ Hv Hu) as Hown. cbn [rd_Owner]. rewrite Hown.
    revert Hok. eapply rise_put; [eapply rd_round_trip; [|exact Hraw]|done|].
    + destruct Hty as (? & ? & Hn). split_and!; [done..|]. cbn [rd_Nonce]. intros n.
      destruct (rd_Nonce r); intros [= <-]; unfold u16; [apply Z.mod_pos_bound|]; lia.
    + unfold nonce_of. rewrite Hv, Hu. unfold next_of. cbn [rd_Nonce]. by destruct (rd_Nonce r).
  - cbn [rd_Owner]. eapply rise_put; [eapply rd_round_trip; [|exact Hraw]|done|].
    + split_and!; [done..|]. by intros n [= <-].
    + unfold nonce_of. by rewrite Hf.
Qed.
Lemma SaveRecipientData_rise owner recipient (s s' : NodeStorage DB) b :
  length owner = 20%nat → length recipient = 20%nat →
  SaveRecipientData owner recipient s = (s', Ok b) → nonces_rise (λ _, 0) (txn_view s) (txn_view s').
Proof using HjsonL.
  intros Hlen Hlen' Hr Hok. unfold SaveRecipientData in Hr. apply st_bind_ok in Hr as (s0 & s1 & [= <- <-] & Hr).
  apply st_bind_ok in Hr as (s1 & found & [-> Hf%getRecipientData_view]%lift_wrap_ok & Hr).
  destruct (match found with Some _ => _ | None => _ end); [injection Hr as <- _; by apply rise_refl|].
  apply st_bind_ok in Hr as (s1 & raw & [-> Hraw]%lift_wrap_ok & Hr).
  apply st_bind_ok in Hr as (s2 & [] & Hset%st_wrap_ok%in_txn_set & Hr). injection Hr as <- _.
  revert Hok. change (nonces_rise (λ _, 0) (txn_view s) (txn_view s2)). rewrite Hset.
  apply (rise_ext (λ o, if bool_decide (o = owner) then 0 else 0)); [intros o; by case_bool_decide|].
  intros Hok. destruct found as [r|].
  - destruct Hf as (v & Hv & Hu & Hty). pose proof (Hok _ _ _ Hv Hu) as Hown. revert Hok.
    eapply rise_put; [eapply rd_round_trip; [|exact Hraw]|done|].
    + by destruct Hty as (? & ? & Hn).
    + rewrite Z.add_0_r, nonce_range. unfold nonce_of. by rewrite Hv, Hu.
  - revert Hok. eapply rise_put; [eapply rd_round_trip; [|exact Hraw]|done|].
    + by split_and!.
    + unfold nonce_of. by rewrite Hf.
Qed.

(** *** Events *)
(** A result with which the block goes on. *)
Definition goes_on {A} (r : hres A) : Prop :=
  match r with Ok _ | Err (MalformedEventError _) => True | _ => False end.
Definition added_by (event : ContractEvent) : Address → Z :=
  match event with EValidatorAdded e => one_for (va_Owner e) | _ => λ _, 0 end.
Definition addresses_ok (event : ContractEvent) : Prop :=
  match event with
  | EValidatorAdded e => length (va_Owner e) = 20%nat
  | EFeeRecipientAddressUpdated owner recipient => length owner = 20%nat ∧ length recipient = 20%nat
  | _ => True
  end.
Abbreviation stored eh := (txn_view (eh_storage eh)).

Lemma stored_rise eh eh' : same_stored eh eh' → nonces_rise (λ _, 0) (stored eh) (stored eh').
Proof using. intros ->. apply rise_refl. Qed.
Lemma on_storage_ok {A} (m : ST (NodeStorage DB) goerr A) (eh eh' : Handler) r :
  on_storage m eh = (eh', r) → goes_on r → ∃ a, r = Ok a ∧ m (eh_storage eh) = (eh_storage eh', Ok a).
Proof using.
  unfold on_storage. destruct (m (eh_storage eh)) as [s [a|e|]]; intros [= <- <-]; [|done..]. by exists a.
Qed.
Lemma bind_goes_on {A B} (m : HM A) (f : A → HM B) eh eh' r :
  (m ≫= f) eh = (eh', r) → goes_on r →
  ∃ eh1 r1, m eh = (eh1, r1) ∧ goes_on r1 ∧
    ((∃ a, r1 = Ok a ∧ f a eh1 = (eh', r)) ∨ (eh' = eh1 ∧ ∀ a, r1 ≠ Ok a)).
Proof using.
  intros (eh1 & r1 & Hm & Hr)%bind_cases Hgo. exists eh1, r1. split; [done|].
  destruct r1 as [a|e|]; [by split; [|left; exists a]|destruct Hr as [-> ->]; by split; [|right]..].
Qed.
Lemma rise_bind {A B} d (m : HM A) (f : A → HM B) (eh eh' : Handler) r :
  (m ≫= f) eh = (eh', r) → goes_on r →
  (∀ eh1 r1, m eh = (eh1, r1) → goes_on r1 → nonces_rise d (stored eh) (stored eh1)) →
  (∀ a, keeps same_stored (f a)) → nonces_rise d (stored eh) (stored eh').
Proof using.
  intros Hr Hgo Hm Hf. apply bind_goes_on in Hr as (eh1 & r1 & Hr & Hgo1 & Hc); [|done].
  specialize (Hm _ _ Hr Hgo1). destruct Hc as [(a & -> & Hr')|[-> _]]; [|done].
  apply Hf in Hr'. by rewrite Hr'.
Qed.

Lemma operator_added_rise event (eh eh' : Handler) r :
  handleOperatorAdded event eh = (eh', r) → goes_on r → nonces_rise (λ _, 0) (stored eh) (stored eh').
Proof using.
  intros Hr Hgo. unfold handleOperatorAdded in Hr.
  apply bind_goes_on in Hr as (eh1 & r1 & H1%read_stored & _ & [(ex & -> & Hr)|[-> _]]); [|by apply stored_rise|done].
  destruct ex; [injection Hr as <- _; by apply stored_rise|].
  apply bind_goes_on in Hr as (eh2 & r2 & H2%read_stored & _ & [(by_key & -> & Hr)|[-> _]]);
    [|apply stored_rise; exact (transitivity H1 H2)|done].
  rewrite <-H1, <-H2. destruct by_key; [injection Hr as <- _; by apply stored_rise|].
  eapply rise_bind; [exact Hr|done| |].
  - intros eh3 r3 H3 Hgo3. apply on_storage_ok in H3 as (a & -> & H3%st_wrap_ok); [|done].
    by eapply SaveOperatorData_rise.
  - intros a. cbv beta. keep_in same_stored.
Qed.
Lemma operator_removed_rise id (eh eh' : Handler) r :
  handleOperatorRemoved id eh = (eh', r) → goes_on r → nonces_rise (λ _, 0) (stored eh) (stored eh').
Proof using.
  intros Hr Hgo. unfold handleOperatorRemoved in Hr.
  apply bind_goes_on in Hr as (eh1 & r1 & H1%read_stored & _ & [(od & -> & Hr)|[-> _]]); [|by apply stored_rise|done].
  rewrite <-H1. destruct od; [|injection Hr as <- _; by apply stored_rise].
  apply on_storage_ok in Hr as (a & -> & Hr%st_wrap_ok); [|done]. by eapply DeleteOperatorData_rise.
Qed.
Lemma validator_added_rise io event (eh eh' : Handler) r :
  length (va_Owner event) = 20%nat → handleValidatorAdded networkConfig io event eh = (eh', r) → goes_on r →
  nonces_rise (one_for (va_Owner event)) (stored eh) (stored eh').
Proof using HjsonL.
  intros Hlen Hr Hgo. unfold handleValidatorAdded in Hr.
  apply bind_goes_on in Hr as (eh1 & r1 & Hread & Hgo1 & Hc); [|done]. injection Hread as <- Hn.
  destruct Hc as [(nonce & -> & Hr)|[-> Hno]].
  - eapply rise_bind; [exact Hr|done| |].
    + intros eh2 r2 H2 Hgo2. apply on_storage_ok in H2 as (a & -> & H2); [|done]. by eapply BumpNonce_rise.
    + intros a. cbv beta. pose proof (share_creation_stored io). keep_in same_stored.
  - destruct (GetNextNonce _ _); subst r1; [|done..]. by destruct (Hno a).
Qed.

Lemma handle_event_rise io n event (eh eh' : Handler) r :
  addresses_ok event → handle_event networkConfig io n event eh = (eh', r) → goes_on r →
  nonces_rise (added_by event) (stored eh) (stored eh').
Proof using HjsonL.
  intros Hok. destruct event as [e|id|e|e|e|e|owner recipient|e]; cbn [handle_event added_by]; intros Hr Hgo;
    (eapply rise_bind; [exact Hr|exact Hgo| |intros; apply (keeps_ret same_stored)]); intros eh1 r1 H1 Hgo1.
  - by eapply operator_added_rise.
  - by eapply operator_removed_rise.
  - by eapply validator_added_rise.
  - apply stored_rise. by eapply removed_stored.
  - apply stored_rise. by eapply liquidated_stored.
  - apply stored_rise. by eapply reactivated_stored.
  - apply on_storage_ok in H1 as (a & -> & H1%st_wrap_ok); [|done]. destruct Hok.
    by apply (SaveRecipientData_rise owner recipient _ _ a).
  - apply stored_rise. by eapply exited_stored.
Qed.

(** *** Blocks *)
Lemma local_events_failed io logs (eh eh' : Handler) r :
  HandleLocalEvents networkConfig io logs eh = (eh', r) → (∀ u, r ≠ Ok u) → same_db eh eh'.
Proof using.
  intros Hr Hno. unfold HandleLocalEvents in Hr.
  destruct ((process_local_events networkConfig io logs ;; Commit io) (Begin eh)) as [eh1 r1] eqn:H1.
  assert (∀ l, keeps same_db (process_local_events networkConfig io l)) as Hl.
  { induction l as [|log l IH]; cbn [process_local_events]; [apply (keeps_ret same_db)|].
    apply (keeps_bind same_db); [|by intros _]. destruct log as [|event]; [apply (keeps_ret same_db)|].
    intros e1 e2 q [q' Hq]%bind_ret_state. by eapply handle_event_db. }
  apply bind_cases in H1 as (eh2 & r2 & H2%Hl & H1). unfold same_db in H2. cbn in H2.
  assert (r1 = Ok tt ∨ same_db eh2 eh1) as [->|Hs].
  { destruct r2 as [[]|e|]; [|by destruct H1 as [-> _]; right..]. unfold Commit in H1.
    destruct (io_commit io) as [[]|e|]; injection H1 as <- <-; [by left|by right..]. }
  - injection Hr as _ <-. by destruct (Hno tt).
  - destruct r1 as [u|e|]; injection Hr as <- <-; [by destruct (Hno tt)|..]; unfold same_db; cbn;
      by rewrite Hs, H2.
Qed.

Definition added_in_log (log : Log) : Address → Z :=
  match log with LogSkipped => λ _, 0 | LogEvent event => added_by event end.
(** The number of events of the owner that add a validator. *)
Definition added_in (logs : list Log) (owner : Address) : Z := foldr (λ log n, added_in_log log owner + n) 0 logs.
Definition log_addresses_ok (log : Log) : Prop :=
  match log with LogSkipped => True | LogEvent event => addresses_ok event end.

Lemma process_logs_rise io n logs : ∀ (eh eh' : Handler) tasks,
  Forall log_addresses_ok logs → process_logs networkConfig io n logs eh = (eh', Ok tasks) →
  nonces_rise (added_in logs) (stored eh) (stored eh').
Proof using HjsonL.
  induction logs as [|log logs IH]; intros eh eh' tasks Hok Hr; cbn [process_logs] in Hr.
  { injection Hr as <- _. apply rise_refl. }
  apply Forall_cons in Hok as [Hlog Hok]. apply bind_cases in Hr as (eh1 & r1 & H1 & Hr).
  destruct r1 as [t|e|]; [|by destruct Hr..]. apply bind_cases in Hr as (eh2 & r2 & H2 & Hr).
  destruct r2 as [ts|e|]; [|by destruct Hr..]. injection Hr as <- _.
  eapply rise_trans; [|by eapply IH]. destruct log as [|event]; [injection H1 as <- _; apply rise_refl|].
  cbn [processEvent] in H1. destruct (handle_event _ _ _ _ _) as [eh3 r3] eqn:H3.
  assert (goes_on r3 ∧ eh1 = eh3) as [Hgo ->] by (by destruct r3 as [?|[]|]; simplify_eq).
  by eapply handle_event_rise.
Qed.

Definition committed (eh : Handler) : gmap bytes bytes := rdb_view (ns_db (eh_storage eh)).
(** The number of the last block in the committed database. *)
Definition recorded (eh : Handler) : option Z :=
  be_word <$> committed eh !! (OperatorStoragePrefix ++ lastProcessedBlockKey).

Lemma block_events_ok io block (eh eh' : Handler) tasks :
  0 ≤ bl_BlockNumber block < 2 ^ 64 → block_events networkConfig io block (Begin eh) = (eh', Ok tasks) →
  u64 (default 0 (recorded eh)) < bl_BlockNumber block ∧ recorded eh' = Some (bl_BlockNumber block) ∧
  (Forall log_addresses_ok (bl_Logs block) → nonces_rise (added_in (bl_Logs block)) (committed eh) (committed eh')).
Proof using HjsonL.
  intros Hn Hr. unfold block_events in Hr. apply bind_cases in Hr as (eh1 & r1 & Hlast & Hr). injection Hlast as <- Hlast.
  destruct r1 as [last|e|]; [|by destruct Hr..].
  destruct (GetLastProcessedBlock _) as [o|e|] eqn:Hget; [|done..]. injection Hlast as ->.
  assert (last = recorded eh) as ->.
  { apply bind_ok in Hget as (v & Hv%rdb_get_view & Hget). unfold recorded, committed.
    change (ns_txn _) with (ns_db (eh_storage eh)) in Hv. rewrite <-Hv.
    by destruct v; injection Hget as <-. }
  apply bind_cases in Hr as (eh1 & r1 & Hf & Hr). injection Hf as <- <-. unfold fail_if in Hr.
  destruct (Z.leb_spec (bl_BlockNumber block) (u64 (default 0 (recorded eh)))) as [Hle|Hlt]; [by destruct Hr|].
  split; [done|]. apply bind_cases in Hr as (eh1 & r1 & Hlogs & Hr). destruct r1 as [ts|e|]; [|by destruct Hr..].
  apply bind_cases in Hr as (eh2 & r2 & Hsave & Hr). destruct r2 as [[]|e|]; [|by destruct Hr..].
  apply on_storage_ok in Hsave as (u & _ & Hsave%st_wrap_ok); [|done].
  apply bind_cases in Hr as (eh3 & r3 & Hc & Hr). destruct r3 as [[]|e|]; [|by destruct Hr..]. injection Hr as <- _.
  unfold Commit in Hc. destruct (io_commit io) as [[]|e|]; [|done..]. injection Hc as <-. split.
  - apply in_txn_set in Hsave. unfold recorded, committed. cbn [eh_storage set_storage ns_db].
    fold (txn_view (eh_storage eh2)). rewrite Hsave, lookup_insert_eq. cbn [fmap option_fmap option_map].
    by rewrite big_Bytes_word.
  - intros Hok. pose proof (process_logs_rise _ _ _ _ _ _ Hok Hlogs) as H1.
    apply SaveLastProcessedBlock_rise in Hsave. apply (rise_ext (λ o, added_in (bl_Logs block) o + 0));
      [intros o; lia|]. eapply rise_trans; [exact H1|exact Hsave].
Qed.

Lemma block_events_failed io block (eh eh' : Handler) r :
  block_events networkConfig io block eh = (eh', r) → (∀ tasks, r ≠ Ok tasks) → same_db eh eh'.
Proof using.
  intros Hr Hno. unfold block_events in Hr.
  apply bind_cases in Hr as (eh1 & r1 & H1%read_db & Hr). destruct r1 as [last|e|]; [|by destruct Hr as [-> _]..].
  apply bind_cases in Hr as (eh2 & r2 & H2 & Hr). injection H2 as <- <-.
  destruct (fail_if _ _); [|by destruct Hr as [-> _]..].
  apply bind_cases in Hr as (eh2 & r2 & H2%process_logs_db & Hr). pose proof (transitivity H1 H2) as H12.
  destruct r2 as [ts|e|]; [|by destruct Hr as [-> _]..].
  apply bind_cases in Hr as (eh3 & r3 & H3 & Hr).
  apply (on_storage_db _ (wrap_db _ _ (SaveLastProcessedBlock_db _))) in H3. pose proof (transitivity H12 H3) as H13.
  destruct r3 as [[]|e|]; [|by destruct Hr as [-> _]..].
  apply bind_cases in Hr as (eh4 & r4 & H4 & Hr). unfold Commit in H4.
  destruct (io_commit io) as [[]|e|]; injection H4 as <- <-; [|by destruct Hr as [-> _]..].
  injection Hr as _ <-. by destruct (Hno ts).
Qed.

(** C31. A block is all or nothing in the database: when it is handled, its number is above
    the one recorded before and is recorded; otherwise the committed database and the
    database of the key manager are what they were. *)
Theorem block_atomic io block (eh eh' : Handler) r :
  0 ≤ bl_BlockNumber block < 2 ^ 64 → processBlockEvents networkConfig io block eh = (eh', r) →
  match r with
  | Ok _ => u64 (default 0 (recorded eh)) < bl_BlockNumber block ∧ recorded eh' = Some (bl_BlockNumber block)
  | _ => ns_db (eh_storage eh') = ns_db (eh_storage eh) ∧ km_db (eh_keyManager eh') = km_db (eh_keyManager eh)
  end.
Proof using HjsonL.
  intros Hn Hr. unfold processBlockEvents in Hr.
  destruct (block_events networkConfig io block (Begin eh)) as [eh1 [ts|e|]] eqn:H1; injection Hr as <- <-.
  - by destruct (block_events_ok _ _ _ _ _ Hn H1) as (? & ? & _).
  - apply block_events_failed in H1; [|done]. by split.
  - apply block_events_failed in H1; [|done]. by split.
Qed.

Lemma processed_block io block (eh eh' : Handler) r :
  processBlockEvents networkConfig io block eh = (eh', r) →
  0 ≤ bl_BlockNumber block < 2 ^ 64 → Forall log_addresses_ok (bl_Logs block) →
  match r with
  | Ok _ => u64 (default 0 (recorded eh)) < bl_BlockNumber block ∧ recorded eh' = Some (bl_BlockNumber block) ∧
            nonces_rise (added_in (bl_Logs block)) (committed eh) (committed eh')
  | _ => committed eh' = committed eh
  end.
Proof using HjsonL.
  intros Hr Hn Hok. unfold processBlockEvents in Hr.
  destruct (block_events networkConfig io block (Begin eh)) as [eh1 [ts|e|]] eqn:H1; injection Hr as <- <-.
  - destruct (block_events_ok _ _ _ _ _ Hn H1) as (? & ? & Hrise). auto.
  - apply block_events_failed in H1; [|done]. exact (f_equal rdb_view H1).
  - apply block_events_failed in H1; [|done]. exact (f_equal rdb_view H1).
Qed.

Definition number (b : BlockIO * BlockLogs) : Z := bl_BlockNumber b.2.
Definition logs_of (blocks : list (BlockIO * BlockLogs)) : list Log := mjoin ((λ b, bl_Logs b.2) <$> blocks).
Definition last_or (o : option Z) (l : list Z) : option Z := match last l with Some n => Some n | None => o end.
Lemma last_or_cons o n l : last_or o (n :: l) = last_or (Some n) l.
Proof using. unfold last_or. rewrite last_cons. by destruct (last l). Qed.
Lemma added_in_app l l' owner : added_in (l ++ l') owner = added_in l owner + added_in l' owner.
Proof using. induction l as [|x l IH]; cbn [added_in foldr app]; [done|]. unfold added_in in *. rewrite IH. lia. Qed.
Lemma sorted_below x n l :
  x < n → 0 ≤ n < 2 ^ 64 → StronglySorted Z.lt (u64 n :: l) → StronglySorted Z.lt (x :: n :: l).
Proof using.
  intros Hlt Hn. unfold u64. rewrite Z.mod_small by done. intros Hs. constructor; [done|].
  inversion Hs as [|?? _ Hall]. constructor; [done|]. eapply Forall_impl; [exact Hall|]. cbn. lia.
Qed.

(** The given blocks were handled between two states, the first and the last block
    reported before and after. *)
Definition handled_between (eh eh' : Handler) (last last' : option Z) (handled : list (BlockIO * BlockLogs)) : Prop :=
  StronglySorted Z.lt (u64 (default 0 (recorded eh)) :: (number <$> handled)) ∧
  recorded eh' = last_or (recorded eh) (number <$> handled) ∧
  last' = last_or last (number <$> handled) ∧
  ∀ owner, nonce_of (committed eh') owner = u16 (nonce_of (committed eh) owner + added_in (logs_of handled) owner).
Lemma handled_none eh eh' last : committed eh' = committed eh → handled_between eh eh' last last [].
Proof using.
  intros Hc. unfold handled_between, recorded. rewrite Hc. split_and!; [by repeat constructor|done|done|].
  intros owner. cbn. by rewrite Z.add_0_r, nonce_range.
Qed.

Lemma stream_handled executeTasks (blocks : list (BlockIO * BlockLogs)) :
  ∀ last executed (eh eh' : Handler) last' executed' r,
  Forall (λ b, 0 ≤ number b < 2 ^ 64 ∧ Forall log_addresses_ok (bl_Logs b.2)) blocks →
  recipients_ok (committed eh) →
  HandleBlockEventsStream networkConfig executeTasks blocks last executed eh = (eh', (last', executed', r)) →
  ∃ handled rest, blocks = handled ++ rest ∧ (r = Ok tt ↔ rest = []) ∧ handled_between eh eh' last last' handled ∧
    recipients_ok (committed eh').
Proof using HjsonL.
  induction blocks as [|[io block] blocks IH]; intros last executed eh eh' last' executed' r Hb Hrec;
    cbn [HandleBlockEventsStream].
  { intros [= <- <- _ <-]. exists [], []. by split_and!; [| |apply handled_none|]. }
  apply Forall_cons in Hb as [[Hn Hok] Hb]. unfold number in Hn. cbn [snd] in Hn, Hok.
  destruct (processBlockEvents networkConfig io block eh) as [eh1 r1] eqn:H1.
  pose proof (processed_block _ _ _ _ _ H1 Hn Hok) as Hp. destruct r1 as [tasks|e|].
  - destruct Hp as (Hlt & Hr1 & Hrise). destruct (Hrise Hrec) as [Hrec1 Hnonce]. intros Hs.
    destruct (IH _ _ _ _ _ _ _ Hb Hrec1 Hs) as (handled & rest & -> & Hr & (Hsort & Hlast & Hlast' & Hadd) & Hrec').
    exists ((io, block) :: handled), rest. split_and!; [done|done| |done]. unfold handled_between.
    rewrite Hr1 in Hsort, Hlast. rewrite !fmap_cons, !last_or_cons.
    split_and!; [by apply sorted_below|done|done|]. intros owner. rewrite Hadd, Hnonce, u16_add.
    cbn [logs_of mjoin list_join fmap list_fmap snd]. by rewrite added_in_app, Z.add_assoc.
  - intros [= <- <- _ <-]. exists [], ((io, block) :: blocks). split_and!; [done|done|by apply handled_none|by rewrite Hp].
  - intros [= <- <- _ <-]. exists [], ((io, block) :: blocks). split_and!; [done|done|by apply handled_none|by rewrite Hp].
Qed.

(** C30. A stream of blocks is handled up to the first that fails, each block of that part
    once: their numbers increase from the recorded one on, the last of them is recorded and
    returned, and the next nonce of every owner has gone up by the number of the owner's
    registration events in them, malformed ones included. *)
Theorem stream_once executeTasks (blocks : list (BlockIO * BlockLogs)) :
  ∀ last executed (eh eh' : Handler) last' executed' r,
  Forall (λ b, 0 ≤ number b < 2 ^ 64 ∧ Forall log_addresses_ok (bl_Logs b.2)) blocks →
  recipients_ok (committed eh) →
  HandleBlockEventsStream networkConfig executeTasks blocks last executed eh = (eh', (last', executed', r)) →
  ∃ handled rest, blocks = handled ++ rest ∧ (r = Ok tt ↔ rest = []) ∧ handled_between eh eh' last last' handled.
Proof using HjsonL.
  intros last executed eh eh' last' executed' r Hb Hrec Hr.
  destruct (stream_handled _ _ _ _ _ _ _ _ _ Hb Hrec Hr) as (handled & rest & H1 & H2 & H3 & _).
  by exists handled, rest.
Qed.

(** ** Errors that are taken for malformed events *)
Lemma fail_if_error {B} b t (m : result goerr B) : (∃ e, m = Err e) → ∃ e, (fail_if b t ;; m) = Err e.
Proof using. intros [e ->]. destruct b; cbn; eauto. Qed.
Lemma no_duplicates_error {B} ids (m : result goerr B) : (∃ e, m = Err e) →
  ∀ seen, ∃ e, (no_duplicates seen ids ;; m) = Err e.
Proof using.
  intros Hm. induction ids as [|id ids IH]; intros seen; cbn [no_duplicates]; [exact Hm|].
  destruct (bool_decide (id ∈ seen)); cbn; [eauto|apply IH].
Qed.
Lemma validateOperators_error ids (s : NodeStorage DB) e :
  operatorsExist ids s = Err e → ∃ e', validateOperators ids s = Err e'.
Proof using.
  intros He. unfold validateOperators. rewrite He.
  do 3 apply fail_if_error. apply no_duplicates_error. cbn. eauto.
Qed.

(** C38. When the database fails to tell whether the operators of a new validator exist, the
    event is skipped as if it were malformed: no error is returned, the owner's nonce is
    taken and nothing else is done, so that the block can be committed without the
    validator. *)
Theorem storage_error_skips_validator io n event (eh : Handler) nonce s e :
  GetNextNonce (va_Owner event) (eh_storage eh) = Ok nonce →
  BumpNonce (va_Owner event) (eh_storage eh) = (s, Ok tt) →
  operatorsExist (va_OperatorIds event) s = Err e →
  processEvent networkConfig io n (LogEvent (EValidatorAdded event)) eh = (set_storage s eh, Ok None).
Proof using.
  intros Hn Hb He. apply validateOperators_error in He as [e' He].
  cbn [processEvent handle_event]. unfold handleValidatorAdded, read_storage, on_storage, mbind, st_bind.
  rewrite Hn, Hb. cbn. by rewrite He.
Qed.
End blocks.
