(* ===== verification/EventShares.v ===== *)
(** * The shares storage behind the event handler

    SharesStorage.v discharges the interface that the event handler has of the storage of
    shares. *)

From stdpp Require Import base list gmap numbers strings.
From Stdlib Require Import Strings.Byte.
From S2P Require Import Prelude Sha256 SpecTypes Network Subnets Share ValidatorStore ShareEncoding.
From S2P Require Import SharesStorage SharesProps PartialSig Slashing KeyManager ValueCheck.
From S2P Require Import RegistryStorage EventHandler EventProps.
Open Scope string_scope.
Open Scope list_scope.
Open Scope Z_scope.

(** ** The shares storage as the handler sees it *)
Section shares.
Context {DB : Type} `{Database DB} `{FastSSZ} `{StatusCodes} (storagePrefix : bytes).
Abbreviation SM := (ST (sharesStorage DB) goerr).

Definition storage_shares : SharesStore (sharesStorage DB) := {|
  shares_Get := storage_Get;
  shares_List f := storage_List [f];
  shares_Save l := Save storagePrefix (Some <$> l);
  shares_Delete := Delete storagePrefix;
  shares_Discard st0 st := mkSharesStorage (ss_db st0) (ss_shares st) (ss_validatorStore st);
|}.
#[local] Existing Instance storage_shares.

Definition same_memory (st st' : sharesStorage DB) : Prop := ss_shares st' = ss_shares st.
#[local] Instance same_memory_refl : Reflexive same_memory.
Proof using. by intros st. Qed.
#[local] Instance same_memory_trans : Transitive same_memory.
Proof using. unfold same_memory. by intros ??? -> ->. Qed.
Lemma with_db_memory {A} (m : ST DB goerr A) : keeps same_memory (with_db m).
Proof using. intros st st' r. unfold with_db. destruct (m _). by intros [= <- _]. Qed.
Lemma with_store_memory {A} (m : ST validatorStore goerr A) : keeps same_memory (with_store (DB := DB) m).
Proof using. intros st st' r. unfold with_store. destruct (m _). by intros [= <- _]. Qed.
Lemma wrap_memory {A} text (m : SM A) : keeps same_memory m → keeps same_memory (SharesStorage.st_wrap text m).
Proof using.
  intros Hm st st' r. unfold SharesStorage.st_wrap. destruct (m st) as [s1 [a|e|]] eqn:Hr; intros [= <- _]; by eapply Hm.
Qed.
#[local] Hint Resolve with_db_memory with_store_memory wrap_memory : keeps.
Lemma saveToDB_memory l : keeps same_memory (saveToDB storagePrefix l).
Proof using. unfold saveToDB. keep_in same_memory. Qed.
#[local] Hint Resolve saveToDB_memory : keeps.

Lemma Save_memory l (st st' : sharesStorage DB) r :
  Save storagePrefix (Some <$> l) st = (st', r) → ss_shares st' = puts l (ss_shares st).
Proof using.
  unfold Save. destruct l as [|x l]; [by intros [= <- _]|]. rewrite mapM_Some_id.
  intros (s1 & r1 & Hg & Hr)%bind_cases. injection Hg as <- <-.
  destruct (split_spec (x :: l) (ss_shares st)) as (u & a & Hsplit & _). rewrite Hsplit in Hr.
  apply bind_cases in Hr as (s2 & r2 & Hm & Hr). injection Hm as <- <-.
  match type of Hr with ?m _ = _ => assert (keeps same_memory m) as Hk by keep_in same_memory end.
  by apply Hk in Hr.
Qed.
Lemma Delete_memory pk (st st' : sharesStorage DB) r :
  Delete storagePrefix pk st = (st', r) → ss_shares st' = delete pk (ss_shares st).
Proof using.
  unfold Delete. intros (s1 & r1 & Hg & Hr)%bind_cases. injection Hg as <- <-.
  destruct (ss_shares st !! pk) as [s|] eqn:Hpk; [|injection Hr as <- _; by rewrite delete_id].
  apply bind_cases in Hr as (s2 & r2 & Hm & Hr). injection Hm as <- <-.
  match type of Hr with ?m _ = _ => assert (keeps same_memory m) as Hk by keep_in same_memory end.
  by apply Hk in Hr.
Qed.

Definition storage_shares_laws : SharesStoreLaws (sharesStorage DB).
Proof using.
  refine {| shares_view := ss_shares |}.
  - done.
  - intros f st s. cbn. unfold storage_List. rewrite list_elem_of_In, filter_In, <-list_elem_of_In. cbn.
    rewrite andb_true_r, list_elem_of_fmap. split.
    + intros [([k x] & -> & Hk%elem_of_map_to_list) Hf]. split; [done|]. by exists k.
    + intros [Hf [k Hk]]. split; [|done]. exists (k, s). by rewrite elem_of_map_to_list.
  - intros l st st' r. apply Save_memory.
  - intros pk st st' r. apply Delete_memory.
  - done.
Defined.
End shares.
