(* ===== verification/EventWitness.v ===== *)
(** * The registry over blocks of events

    A database in memory and a small key scheme let a stream run that registers four
    operators and a validator. *)

From stdpp Require Import base list gmap numbers strings sorting.
From Stdlib Require Import Strings.Byte.
From S2P Require Import Prelude Sha256 SpecTypes Network Subnets Share ValidatorStore ShareEncoding.
From S2P Require Import SharesStorage SharesProps SharesWitness PartialSig Slashing KeyManager ValueCheck.
From S2P Require Import SlashingWitness RegistryStorage EventHandler EventProps EventBlocks EventShares.
Open Scope string_scope.
Open Scope list_scope.
Open Scope Z_scope.

(** ** Instances to compute with *)
#[local] Instance mem_registry : RegistryDB MemDB := {|
  rdb_Get p k db := Ok (db !! (p ++ k));
  rdb_GetMany p ks db := Ok (omap (λ k, db !! (p ++ k)) ks);
  rdb_GetAll p db := Ok (omap (strip p) (map_to_list db));
  rdb_Set p k v db := (<[p ++ k := v]> db, Ok tt);
  rdb_Delete p k db := (delete (p ++ k) db, Ok tt);
|}.
#[local] Instance mem_registry_laws : RegistryDBLaws MemDB.
Proof.
  refine {| rdb_view := λ db : MemDB, db |}.
  - by intros p k db o [= <-].
  - by intros p k v db db' [= <-].
  - by intros p k db db' [= <-].
Defined.

(** Operators and recipients in a binary form. *)
Definition pack_recipient (r : RecipientData) : bytes :=
  rd_Owner r ++ rd_FeeRecipient r ++ match rd_Nonce r with None => [] | Some n => be_bytes 2 n end.
Definition unpack_recipient (v : bytes) : result goerr RecipientData :=
  let nonce := drop 40 v in
  if (length v =? 40)%nat then Ok (mkRecipientData (take 20 v) (take 20 (drop 20 v)) None)
  else if (length v =? 42)%nat then Ok (mkRecipientData (take 20 v) (take 20 (drop 20 v)) (Some (u16 (be_word nonce))))
  else Err (ENew "size").
#[local] Instance toy_json : RegistryJSON := {|
  od_Marshal od := Ok (be_bytes 8 (od_ID od) ++ od_OwnerAddress od ++ od_PublicKey od);
  od_Unmarshal v := Ok (mkOperatorData (be_word (take 8 v)) (drop 28 v) (take 20 (drop 8 v)));
  rd_Marshal r := Ok (pack_recipient r);
  rd_Unmarshal := unpack_recipient;
|}.
#[local] Instance toy_json_laws : RegistryJSONLaws.
Proof.
  split.
  - intros v r. cbn. unfold unpack_recipient.
    destruct (Nat.eqb_spec (length v) 40) as [Hl|_]; [|destruct (Nat.eqb_spec (length v) 42) as [Hl|_]; [|done]];
      intros [= <-]; split_and!; cbn; rewrite ?length_take, ?length_drop; try lia; [done|].
    intros n [= <-]. apply Z.mod_pos_bound. lia.
  - intros [o f n] v (Ho & Hf & Hn) [= <-]. cbn [rd_Owner rd_FeeRecipient rd_Nonce] in Ho, Hf, Hn.
    cbn [rd_Unmarshal toy_json]. unfold unpack_recipient, pack_recipient. cbn [rd_Owner rd_FeeRecipient rd_Nonce].
    rewrite !length_app, Ho, Hf, (take_app_length' o), (drop_app_length' o), (take_app_length' f) by done.
    destruct n as [n|]; [|done]. change (length (be_bytes 2 n)) with 2%nat. cbn [Nat.add Nat.eqb].
    rewrite app_assoc, drop_app_length' by (rewrite length_app; lia). do 3 f_equal.
    specialize (Hn n eq_refl). pose proof (le_value_le_bytes 2 n) as Hle. unfold le_value, le_bytes in Hle.
    rewrite rev_involutive in Hle. rewrite Hle by (cbn; lia). unfold u16. rewrite Z.mod_small by lia. done.
Qed.

(** Keys are byte strings; the share keys of four operators give the key of the validator
    when three of them are combined. *)
Definition validator_key : bytes := replicate 48 x0a.
#[local] Instance toy_bls : BLS := {|
  PublicKey := bytes;
  Sign := bytes;
  ID := Z;
  pk_Deserialize b := if (length b =? 48)%nat then Some b else None;
  sig_Deserialize b := if (length b =? 96)%nat then Some b else None;
  sig_Serialize s := s;
  VerifyByte s pk hash := bool_decide (take 96 (hash ++ replicate 96 x00) = s);
  SetDecString s := match ParseUint s with Ok n => Some n | _ => None end;
  Recover _ _ := None;
|}.
#[local] Instance toy_bls_keys : BLSKeys := {|
  pk_Serialize pk := pk;
  pk_IsEqual pk pk' := bool_decide (pk = pk');
  pk_Recover keys _ := Some (if (length keys =? 3)%nat then validator_key else []);
|}.
#[local] Instance toy_bls_keys_laws : BLSKeysLaws.
Proof. split. intros b pk Hb. cbn. rewrite Hb. by intros [= <-]. Qed.
#[local] Instance toy_env : EventEnv := {|
  Keccak256 b := b;
  Address_String a := a;
  is_ShareDecryptionError _ := false;
|}.
#[local] Instance toy_shares : SharesStore (sharesStorage MemDB) := storage_shares [].
#[local] Instance toy_shares_laws : SharesStoreLaws (sharesStorage MemDB) := storage_shares_laws [].

(** ** A stream of blocks *)
Abbreviation WitnessHandler := (EventHandler MemDB (sharesStorage MemDB) SignerMem).
Definition an_owner : Address := replicate 20 x01.
Definition another_owner : Address := replicate 20 x02.
Definition some_io : BlockIO := mkBlockIO 0 (λ _ _, Ok []) (λ _, Ok []) (Ok tt).
Definition empty_handler : WitnessHandler :=
  mkEventHandler (mkNodeStorage ∅ ∅ ∅ ∅) (mkSharesStorage ∅ ∅ (newValidatorStore ∅))
    (Some (mkOperatorData 9 [] [])) (mkKeyManager ∅ []) ∅ ∅.
Definition some_net : NetCfg :=
  mkNetCfg (mkBeacon "sample" 12 32 256 512 4 16 16 [] 0 [] ∅) (replicate 4 x00) (replicate 4 x01) max_u64.

Definition an_operator (id : Z) (b : byte) : Log := LogEvent (EOperatorAdded (mkOperatorAdded id an_owner [b])).
Definition registration (owner : Address) (nonce : string) : ValidatorAdded :=
  let data := owner ++ String.list_byte_of_string ":" ++ String.list_byte_of_string nonce in
  mkValidatorAdded owner [1; 2; 3; 4] validator_key
    (take 96 (data ++ replicate 96 x00) ++ mjoin (replicate 48 <$> [x01; x02; x03; x04]) ++ replicate 1024 xee).
Definition some_blocks : list (BlockIO * BlockLogs) :=
  [(some_io, mkBlockLogs 10 [an_operator 1 x01; an_operator 2 x02; an_operator 3 x03; an_operator 4 x04]);
   (some_io, mkBlockLogs 11 [LogEvent (EValidatorAdded (registration an_owner "0"))])].
Definition run_blocks (blocks : list (BlockIO * BlockLogs)) (eh : WitnessHandler)
    : WitnessHandler * (option Z * list Task * hres unit) :=
  HandleBlockEventsStream some_net true blocks None [] eh.
(** The operators are there; the validator is, too. *)
Definition with_operators : WitnessHandler := (run_blocks (take 1 some_blocks) empty_handler).1.
Definition with_validator : WitnessHandler := (run_blocks some_blocks empty_handler).1.

Lemma some_run : (run_blocks some_blocks empty_handler).2 = (Some 11, [], Ok tt).
Proof. vm_compute. reflexivity. Qed.
Lemma validator_held : sm_Signer <$> default [] (sh_Committee <$> held_shares with_validator !! validator_key) = [1; 2; 3; 4].
Proof. vm_compute. reflexivity. Qed.

Lemma held_operators : held_shares with_operators = ∅.
Proof. vm_compute. reflexivity. Qed.
Lemma event_share_step_witness :
  let event := EValidatorAdded (registration an_owner "0") in
  let eh' := (processEvent some_net some_io 11 (LogEvent event) with_operators).1 in
  is_Some (held_shares eh' !! validator_key) ∧ shares_step with_operators event eh' ∧ keyed (held_shares eh').
Proof.
  cbv zeta. split; [vm_compute; by eexists|].
  eapply (event_share_step some_net some_io 11 (EValidatorAdded (registration an_owner "0"))).
  - reflexivity.
  - rewrite held_operators. intros k s Hs. by rewrite lookup_empty in Hs.
  - apply surjective_pairing.
Defined.

(** The cluster is liquidated, and a stranger asks to remove the validator. *)
Definition hostile_blocks : list (BlockIO * BlockLogs) :=
  [(some_io, mkBlockLogs 12 [LogEvent (EClusterLiquidated (mkClusterEvent an_owner [4; 3; 2; 1]))]);
   (some_io, mkBlockLogs 13 [LogEvent (EValidatorRemoved (mkValidatorEvent another_owner validator_key))])].
Definition the_share : SSVShare := default kept_share (held_shares with_validator !! validator_key).
Lemma held_validator k s :
  held_shares with_validator !! k = Some s → k = validator_key ∧ sh_ValidatorPubKey s = validator_key.
Proof.
  assert (Forall (λ e, e.1 = validator_key ∧ sh_ValidatorPubKey e.2 = validator_key)
    (map_to_list (held_shares with_validator))) as Hall by (vm_compute; by repeat constructor).
  intros Hs%elem_of_map_to_list. rewrite Forall_forall in Hall. exact (Hall _ Hs).
Qed.
Lemma the_share_held : held_shares with_validator !! validator_key = Some (with_liquidated false the_share).
Proof.
  assert (sh_Liquidated <$> held_shares with_validator !! validator_key = Some false) as Hl
    by (vm_compute; reflexivity).
  unfold the_share. destruct (held_shares with_validator !! validator_key) as [[]|]; [|done].
  cbn in Hl. by injection Hl as ->.
Qed.
Lemma share_kept_witness :
  let eh' := (run_blocks hostile_blocks with_validator).1 in
  has_share validator_key the_share eh' ∧ (sh_Liquidated <$> held_shares eh' !! validator_key) = Some true.
Proof.
  cbv zeta. split; [|vm_compute; reflexivity].
  eapply (share_kept some_net true hostile_blocks validator_key the_share None [] with_validator).
  - repeat (apply Forall_cons; split; [split; [by repeat constructor|]|]); [| |done];
      apply not_elem_of_cons; (split; [by vm_compute|apply not_elem_of_nil]).
  - by intros k s [-> ->]%held_validator.
  - exists false. exact the_share_held.
  - apply surjective_pairing.
Defined.

(** The block is committed, or it is not. *)
Definition failing_io : BlockIO := mkBlockIO 0 (λ _ _, Ok []) (λ _, Ok []) (Err (ENew "disk")).
Definition a_block : BlockLogs := mkBlockLogs 11 [LogEvent (EValidatorAdded (registration an_owner "0"))].
Lemma block_atomic_witness :
  recorded (processBlockEvents some_net some_io a_block with_operators).1 = Some 11 ∧
  ns_db (eh_storage (processBlockEvents some_net failing_io a_block with_operators).1) =
    ns_db (eh_storage with_operators).
Proof.
  assert (0 ≤ bl_BlockNumber a_block < 2 ^ 64) as Hn by (cbn; lia). split.
  - assert (∃ tasks, (processBlockEvents some_net some_io a_block with_operators).2 = Ok tasks)
      as [tasks Hr] by (vm_compute; by eexists).
    pose proof (block_atomic some_net some_io a_block with_operators _ _ Hn (surjective_pairing _)) as Hb.
    rewrite Hr in Hb. exact (proj2 Hb).
  - assert (∃ e, (processBlockEvents some_net failing_io a_block with_operators).2 = Err e)
      as [e Hr] by (vm_compute; by eexists).
    pose proof (block_atomic some_net failing_io a_block with_operators _ _ Hn (surjective_pairing _)) as Hb.
    rewrite Hr in Hb. exact (proj1 Hb).
Defined.

(** The second block comes twice. *)
Definition repeated_blocks : list (BlockIO * BlockLogs) := some_blocks ++ drop 1 some_blocks.
Lemma pair_of {A B} (p : A * B) b : p.2 = b → p = (p.1, b).
Proof. destruct p. by intros [= ->]. Qed.
Lemma repeated_run : ∃ executed r, (run_blocks repeated_blocks empty_handler).2 = (Some 11, executed, r) ∧ r ≠ Ok tt.
Proof. eexists _, _. split; [vm_compute; reflexivity|done]. Qed.
Lemma repeated_ok : Forall (λ b, 0 ≤ number b < 2 ^ 64 ∧ Forall log_addresses_ok (bl_Logs b.2)) repeated_blocks.
Proof. repeat (apply Forall_cons; split; [split; [cbn; lia|by repeat constructor]|]). done. Qed.
Lemma nothing_stored : recipients_ok (committed empty_handler).
Proof. intros owner v r Hv. change (committed empty_handler) with (∅ : MemDB) in Hv. by rewrite lookup_empty in Hv. Qed.
Lemma stream_once_witness :
  nonce_of (committed (run_blocks repeated_blocks empty_handler).1) an_owner = 1 ∧
  ∃ handled rest, repeated_blocks = handled ++ rest ∧ rest ≠ [] ∧
    handled_between empty_handler (run_blocks repeated_blocks empty_handler).1 None (Some 11) handled.
Proof.
  split; [vm_compute; reflexivity|]. destruct repeated_run as (executed & r & Hr & Hno). apply pair_of in Hr.
  destruct (stream_once some_net true repeated_blocks None [] empty_handler _ _ _ _ repeated_ok nothing_stored Hr)
    as (handled & rest & Hb & Hend & Hh).
  exists handled, rest. split; [exact Hb|]. split; [|exact Hh]. intros He. apply Hno, Hend, He.
Defined.

(** A database that cannot read several keys at once. *)
Definition broken_registry : RegistryDB MemDB := {|
  rdb_Get p k db := Ok (db !! (p ++ k));
  rdb_GetMany _ _ _ := Err (ENew "disk");
  rdb_GetAll _ _ := Err (ENew "disk");
  rdb_Set p k v db := (<[p ++ k := v]> db, Ok tt);
  rdb_Delete p k db := (delete (p ++ k) db, Ok tt);
|}.
Lemma storage_error_skips_validator_witness :
  let event := registration an_owner "0" in
  ∃ s, BumpNonce (H := broken_registry) an_owner (eh_storage with_operators) = (s, Ok tt) ∧
    processEvent (H := broken_registry) some_net some_io 11 (LogEvent (EValidatorAdded event)) with_operators =
      (set_storage s with_operators, Ok None).
Proof.
  cbv zeta. exists (BumpNonce (H := broken_registry) an_owner (eh_storage with_operators)).1.
  assert ((BumpNonce (H := broken_registry) an_owner (eh_storage with_operators)).2 = Ok tt) as Hb
    by (vm_compute; reflexivity).
  assert (BumpNonce (H := broken_registry) an_owner (eh_storage with_operators) =
    ((BumpNonce (H := broken_registry) an_owner (eh_storage with_operators)).1, Ok tt)) as Hb'
    by (rewrite <-Hb; apply surjective_pairing).
  split; [exact Hb'|].
  apply (storage_error_skips_validator (Hrdb := broken_registry) some_net some_io 11 (registration an_owner "0")
    with_operators 0 _ (ENew "disk")); [vm_compute; reflexivity|exact Hb'|reflexivity].
Defined.
