(* ===== verification/ExecutionClient.v ===== *)
(** * Reading the contract's logs from execution clients
      (eth/executionclient: logs.go, bloom.go, execution_client.go, multi_client.go, errors.go)

    Logs are fetched in batches of blocks, packed by block and sent on a channel, in
    history and then behind the head of the chain.  The nodes, the clock and the
    cancellation of the context are the class [ExecutionLayer] over a type of worlds: what
    a call answers may depend on everything that happened before.  A channel is the list of
    what was sent.  The number of turns of a loop that waits for ever is an argument, so
    that a result describes the run so far. *)

From stdpp Require Import base list gmap numbers strings sorting.
From S2P Require Import Prelude Sha256 SpecTypes Network EventHandler.
Open Scope string_scope.
Open Scope list_scope.
Open Scope Z_scope.

(** ** Logs (logs.go) *)
(** [lg_Event] is what the parser makes of the topics and the data. *)
Record EthLog := mkEthLog {
  lg_BlockNumber : Z;
  lg_TxIndex : Z;
  lg_Index : Z;
  lg_Removed : bool;
  lg_Event : Log;
}.
Record RawBlockLogs := mkRawBlockLogs { rb_BlockNumber : Z; rb_Logs : list EthLog }.
Definition parsed (b : RawBlockLogs) : BlockLogs := mkBlockLogs (rb_BlockNumber b) (lg_Event <$> rb_Logs b).

(** The comparison handed to [sort.Slice]. *)
Definition log_less (a b : EthLog) : bool :=
  if negb (lg_BlockNumber a =? lg_BlockNumber b) then lg_BlockNumber a <? lg_BlockNumber b
  else if negb (lg_TxIndex a =? lg_TxIndex b) then lg_TxIndex a <? lg_TxIndex b
  else lg_Index a <? lg_Index b.
Definition log_le (a b : EthLog) : Prop := log_less b a = false.
#[global] Instance log_le_dec : RelDecision log_le.
Proof. intros a b. unfold log_le. apply _. Defined.
Definition sortLogsCanonical (logs : list EthLog) : list EthLog := merge_sort log_le logs.

(** The loop over the sorted logs. *)
Fixpoint pack_loop (logs : list EthLog) (all : list RawBlockLogs) : list RawBlockLogs :=
  match logs with
  | [] => all
  | log :: logs =>
      let all :=
        match last all with
        | Some b => if negb (rb_BlockNumber b =? lg_BlockNumber log)
                    then all ++ [mkRawBlockLogs (lg_BlockNumber log) []] else all
        | None => all ++ [mkRawBlockLogs (lg_BlockNumber log) []]
        end in
      pack_loop logs (alter (λ b, mkRawBlockLogs (rb_BlockNumber b) (rb_Logs b ++ [log])) (pred (length all)) all)
  end.
Definition PackLogs (logs : list EthLog) : list RawBlockLogs := pack_loop (sortLogsCanonical logs) [].

(** ** Errors (errors.go) *)
Inductive elerror :=
| ErrClosed
| ErrBadInput
| ErrNothingToSync
| ErrSyncing
| ErrCanceled             (* context.Canceled *)
| ErrDeadlineExceeded     (* context.DeadlineExceeded *)
| ErrClientQuit           (* rpc.ErrClientQuit *)
| ErrRPC (code : Z)       (* an rpc.Error with its code *)
| ErrText (text : string)
| ErrWrap (text : string) (e : elerror)
| ErrJoin (e1 e2 : elerror).

(** [errors.Is] for a target that [p] recognises. *)
Fixpoint err_is (p : elerror → bool) (e : elerror) : bool :=
  p e || match e with ErrWrap _ e => err_is p e | ErrJoin e1 e2 => err_is p e1 || err_is p e2 | _ => false end.
(** [errors.As] for an [rpc.Error]: the code of the first one. *)
Fixpoint as_rpc (e : elerror) : option Z :=
  match e with
  | ErrRPC code => Some code
  | ErrWrap _ e => as_rpc e
  | ErrJoin e1 e2 => match as_rpc e1 with Some code => Some code | None => as_rpc e2 end
  | _ => None
  end.
Abbreviation errCodeQueryLimit := (-32005) (only parsing).
Definition isRPCQueryLimitError (e : elerror) : bool :=
  match as_rpc e with Some code => code =? errCodeQueryLimit | None => false end.
Definition isCanceled (e : elerror) : bool := err_is (λ e, match e with ErrCanceled => true | _ => false end) e.
Definition isSingleClientInterruptedError (e : elerror) : bool :=
  err_is (λ e, match e with ErrClosed | ErrClientQuit | ErrCanceled => true | _ => false end) e.
Definition isMultiClientInterruptedError (e : elerror) : bool :=
  err_is (λ e, match e with ErrClosed | ErrCanceled => true | _ => false end) e.
Definition join_errors (all : option elerror) (e : elerror) : elerror :=
  match all with None => e | Some all => ErrJoin all e end.

(** ** Computations over a world *)
Definition EC (W A : Type) : Type := W → W * (elerror + A).
#[global] Instance ec_ret {W} : MRet (EC W) := λ A a w, (w, inr a).
#[global] Instance ec_bind {W} : MBind (EC W) := λ A B f m w,
  match m w with (w, inl e) => (w, inl e) | (w, inr a) => f a w end.
Definition ec_err {W A} (e : elerror) : EC W A := λ w, (w, inl e).
Definition ec_wrap {W A} (text : string) (m : EC W A) : EC W A := λ w,
  match m w with (w, inl e) => (w, inl (ErrWrap text e)) | r => r end.
(** The result with its error as a value. *)
Definition ec_try {W A} (m : EC W A) : EC W (elerror + A) := λ w, let '(w, r) := m w in (w, inr r).

(** ** The world *)
(** What a [select] over the context, the closing of a client and a default finds. *)
Inductive Signal := Going | ContextDone (e : elerror) | ClientClosed.
(** What the [select] of a subscription finds. *)
Inductive StreamEvent :=
| StreamContextDone (e : elerror)
| StreamClosed
| StreamError (e : option elerror)
| StreamHead (number : Z)
| StreamTimeout.

(** Calls to the client with a number; [el_Stop] is the [select] before an attempt to
    stream, true when it ends the loop; [el_Bloom] the header's bloom filter tested for the
    contract; [el_SyncProgress] the highest and the current block. *)
Class ExecutionLayer (W : Type) := {
  el_Select : nat → W → W * Signal;
  el_isClosed : nat → W → W * bool;
  el_Stop : W → W * bool;
  el_Now : W → W * Time;
  el_FilterLogs : nat → Z → Z → EC W (list EthLog);
  el_Bloom : nat → Z → EC W bool;
  el_HeaderTime : nat → Z → EC W Z;
  el_BlockNumber : nat → EC W Z;
  el_SyncProgress : nat → EC W (option (Z * Z));
  el_Subscribe : nat → EC W unit;
  el_Next : nat → W → W * StreamEvent;
  el_Dial : nat → EC W unit;
  el_ChainID : nat → EC W Z;
}.

Abbreviation FollowDistance := 8 (only parsing).
Abbreviation logBatchSize := 200 (only parsing).
Abbreviation DefaultBloomRetryAttempts := 3 (only parsing).

Section client.
Context {W : Type} `{ExecutionLayer W}.

(** ** One client (execution_client.go, bloom.go) *)
Definition FilterLogs (c : nat) (fromBlock toBlock : Z) : EC W (list EthLog) :=
  ec_wrap "get filtered logs" (el_FilterLogs c fromBlock toBlock).
Definition check_going (c : nat) : EC W unit := λ w,
  match el_Select c w with
  | (w, Going) => (w, inr tt)
  | (w, ContextDone e) => (w, inl e)
  | (w, ClientClosed) => (w, inl ErrClosed)
  end.

(** The fuel is at least the distance of the two blocks, which each call at least halves. *)
Fixpoint subdivideLogFetch (fuel : nat) (c : nat) (fromBlock toBlock : Z) : EC W (list EthLog) :=
  check_going c ;;
  r ← ec_try (FilterLogs c fromBlock toBlock);
  match r with
  | inr logs => mret logs
  | inl err =>
      let err := ErrWrap "get filtered logs" err in
      if isRPCQueryLimitError err then
        let insufficient := ErrWrap "insufficient blocks to subdivide" err in
        if toBlock <=? fromBlock then ec_err insufficient else
        match fuel with
        | O => ec_err insufficient
        | S fuel =>
            let midBlock := fromBlock +u (toBlock -u fromBlock) `div` 2 in
            leftLogs ← subdivideLogFetch fuel c fromBlock midBlock;
            rightLogs ← subdivideLogFetch fuel c (midBlock +u 1) toBlock;
            mret (leftLogs ++ rightLogs)
        end
      else ec_err err
  end.

(** [attempts] are left, the next one is number [attempt]. *)
Fixpoint retry_loop (c : nat) (blockNumber : Z) (attempts : nat) (attempt : Z) : EC W (list EthLog) :=
  match attempts with
  | O => mret []
  | S attempts =>
      (if 1 <? attempt then check_going c else mret tt) ;;
      r ← ec_try (FilterLogs c blockNumber blockNumber);
      match r with
      | inl err => if attempt =? DefaultBloomRetryAttempts then ec_err (ErrWrap "bloom retry: filter logs" err)
                   else retry_loop c blockNumber attempts (attempt + 1)
      | inr logs => if (0 <? length logs)%nat then mret logs
                    else retry_loop c blockNumber attempts (attempt + 1)
      end
  end.
Definition retryBlockLogs (c : nat) (blockNumber : Z) : EC W (list EthLog) :=
  retry_loop c blockNumber (Z.to_nat DefaultBloomRetryAttempts) 1.

Fixpoint bloom_loop (c : nat) (blocks : list Z) (blocksWithLogs : gset Z) (logs : list EthLog) (recovered : bool)
    : EC W (list EthLog * bool) :=
  match blocks with
  | [] => mret (logs, recovered)
  | blockNum :: blocks =>
      if bool_decide (blockNum ∈ blocksWithLogs) then bloom_loop c blocks blocksWithLogs logs recovered else
      matched ← ec_wrap "bloom check: fetch header" (ec_wrap "get header by block number" (el_Bloom c blockNum));
      if negb matched then bloom_loop c blocks blocksWithLogs logs recovered else
      blockLogs ← ec_wrap "bloom check: retry block logs" (retryBlockLogs c blockNum);
      if (0 <? length blockLogs)%nat then bloom_loop c blocks blocksWithLogs (logs ++ blockLogs) true
      else bloom_loop c blocks blocksWithLogs logs recovered
  end.
Definition verifyLogsWithBloom (c : nat) (logs : list EthLog) (fromBlock toBlock : Z) : EC W (list EthLog) :=
  '(logs, recovered) ← bloom_loop c (seqZ fromBlock (toBlock - fromBlock + 1))
                         (list_to_set (lg_BlockNumber <$> logs)) logs false;
  mret (if recovered : bool then sortLogsCanonical logs else logs).

(** What a batch sends; [None]: the context was cancelled, which ends the fetching without
    an error. *)
Definition batch_blocks (results : list EthLog) (toBlock : Z) : list RawBlockLogs :=
  let validLogs := List.filter (λ log, negb (lg_Removed log)) results in
  let blocks := PackLogs validLogs in
  let highestBlock := foldl (λ h b, if h <? rb_BlockNumber b then rb_BlockNumber b else h) 0 blocks in
  blocks ++ (if highestBlock <? toBlock then [mkRawBlockLogs toBlock []] else []).
Definition send_batch (c : nat) (results : list EthLog) (toBlock : Z) : EC W (option (list RawBlockLogs)) := λ w,
  match el_Select c w with
  | (w, ContextDone _) => (w, inr None)
  | (w, ClientClosed) => (w, inl ErrClosed)
  | (w, Going) => (w, inr (Some (batch_blocks results toBlock)))
  end.
Definition fetch_batch (c : nat) (fromBlock toBlock : Z) (verifyBloom : bool) : EC W (option (list RawBlockLogs)) :=
  r ← ec_try (subdivideLogFetch (Z.to_nat (toBlock - fromBlock)) c fromBlock toBlock);
  match r with
  | inl err => if isCanceled err then mret None else ec_err err
  | inr results =>
      results ← (if verifyBloom then verifyLogsWithBloom c results fromBlock toBlock else mret results);
      send_batch c results toBlock
  end.

(** What is sent on the channel, and the error, if any. *)
Fixpoint batches_loop (fuel : nat) (c : nat) (fromBlock endBlock : Z) (verifyBloom : bool) (w : W)
    : W * (list RawBlockLogs * option elerror) :=
  match fuel with
  | O => (w, ([], None))
  | S fuel =>
      if endBlock <? fromBlock then (w, ([], None)) else
      let toBlock := Z.min (fromBlock +u logBatchSize -u 1) endBlock in
      match fetch_batch c fromBlock toBlock verifyBloom w with
      | (w, inl e) => (w, ([], Some e))
      | (w, inr None) => (w, ([], None))
      | (w, inr (Some blocks)) =>
          let '(w, (rest, e)) := batches_loop fuel c (fromBlock +u logBatchSize) endBlock verifyBloom w in
          (w, (blocks ++ rest, e))
      end
  end.
Definition fetchLogsInBatches (c : nat) (startBlock endBlock : Z) (verifyBloom : bool) (w : W)
    : W * (list RawBlockLogs * option elerror) :=
  if endBlock <? startBlock then (w, ([], Some ErrBadInput))
  else batches_loop (Z.to_nat ((endBlock - startBlock) / logBatchSize + 1)) c startBlock endBlock verifyBloom w.

Definition FetchHistoricalLogs (c : nat) (fromBlock : Z) : EC W (list RawBlockLogs * option elerror) :=
  currentBlock ← ec_wrap "get current block" (el_BlockNumber c);
  if currentBlock <? FollowDistance then ec_err ErrNothingToSync else
  let toBlock := currentBlock -u FollowDistance in
  if toBlock <? fromBlock then ec_err ErrNothingToSync else
  λ w, let '(w, out) := fetchLogsInBatches c fromBlock toBlock false w in (w, inr out).

(** What was sent, the last block and whether there is one, and the error; none when the
    loop is still running. *)
Fixpoint stream_loop (turns : nat) (c : nat) (fromBlock lastBlock : Z) (progressed : bool) (w : W)
    : W * (list RawBlockLogs * (Z * bool) * option elerror) :=
  match turns with
  | O => (w, ([], (lastBlock, progressed), None))
  | S turns =>
      let stop w e := (w, ([], (lastBlock, progressed), Some e)) in
      match el_Next c w with
      | (w, StreamContextDone e) => stop w e
      | (w, StreamClosed) => stop w ErrClosed
      | (w, StreamError None) => stop w (ErrText "subscription error: nil error")
      | (w, StreamError (Some e)) => stop w (ErrWrap "subscription error" e)
      | (w, StreamTimeout) => stop w (ErrText "subscription timed out: no block header received in 2m")
      | (w, StreamHead number) =>
          if number <? FollowDistance then stream_loop turns c fromBlock lastBlock progressed w else
          let toBlock := number -u FollowDistance in
          if toBlock <? fromBlock then stream_loop turns c fromBlock lastBlock progressed w else
          let '(w, (blocks, err)) := fetchLogsInBatches c fromBlock toBlock true w in
          let progressed := progressed || (0 <? length blocks)%nat in
          let lastBlock := match last blocks with Some b => rb_BlockNumber b | None => lastBlock end in
          match err with
          | Some e => (w, (blocks, (lastBlock, progressed), Some (ErrWrap "fetch logs" e)))
          | None =>
              let '(w, (rest, status, e)) := stream_loop turns c (toBlock +u 1) lastBlock progressed w in
              (w, (blocks ++ rest, status, e))
          end
      end
  end.
Definition streamLogsToChan (turns : nat) (c : nat) (fromBlock : Z) (w : W)
    : W * (list RawBlockLogs * (Z * bool) * option elerror) :=
  match ec_wrap "subscribe new head" (el_Subscribe c) w with
  | (w, inl e) => (w, ([], (0, false), Some e))
  | (w, inr _) => stream_loop turns c fromBlock 0 false w
  end.

(** What was sent so far. *)
Fixpoint StreamLogs (attempts turns : nat) (c : nat) (fromBlock : Z) (w : W) : W * list RawBlockLogs :=
  match attempts with
  | O => (w, [])
  | S attempts =>
      match el_Stop w with
      | (w, true) => (w, [])
      | (w, false) =>
          match streamLogsToChan turns c fromBlock w with
          | (w, (blocks, (lastBlock, progressed), err)) =>
              let fromBlock := if progressed : bool then lastBlock +u 1 else fromBlock in
              match err with
              | None => (w, blocks)
              | Some e =>
                  if isSingleClientInterruptedError e then (w, blocks) else
                  let '(w, rest) := StreamLogs attempts turns c fromBlock w in (w, blocks ++ rest)
              end
          end
      end
  end.
End client.
