(* ===== verification/MultiClient.v ===== *)
(** * Several execution clients (eth/executionclient/multi_client.go, Healthy of
      execution_client.go)

    A call goes to the clients in turn, from the one that served the last call on, until one
    serves it.  A client that is not connected is connected on the way.  [Session] has the
    state of the multi client, the world, and the variables of [StreamLogs] that its calls
    share. *)

From stdpp Require Import base list gmap numbers strings.
From S2P Require Import Prelude SpecTypes Network RoundTimer EventHandler ExecutionClient.
Open Scope string_scope.
Open Scope list_scope.
Open Scope Z_scope.

(** [se_clients] has the last healthy time, in seconds, of the clients that are connected. *)
Record Session (W : Type) := mkSession {
  se_world : W;
  se_chainID : option Z;
  se_clients : list (option Z);
  se_currentClientIndex : nat;
  se_fromBlock : Z;
  se_sent : list RawBlockLogs;
}.
Arguments mkSession {W}.
Arguments se_world {W}.
Arguments se_chainID {W}.
Arguments se_clients {W}.
Arguments se_currentClientIndex {W}.
Arguments se_fromBlock {W}.
Arguments se_sent {W}.

Section multi.
Context {W : Type} `{ExecutionLayer W} (healthInvalidationInterval : Duration) (syncDistanceTolerance : Z).
Abbreviation SM := (EC (Session W)).

Definition on_world {A} (m : EC W A) : SM A := λ s,
  let '(w, r) := m (se_world s) in
  (mkSession w (se_chainID s) (se_clients s) (se_currentClientIndex s) (se_fromBlock s) (se_sent s), r).
Definition se_get : SM (Session W) := λ s, (s, inr s).
Definition set_client (c : nat) (lastHealthyTime : Z) : SM unit := λ s,
  (mkSession (se_world s) (se_chainID s) (<[c := Some lastHealthyTime]> (se_clients s)) (se_currentClientIndex s)
     (se_fromBlock s) (se_sent s), inr tt).
Definition set_current (c : nat) : SM unit := λ s,
  (mkSession (se_world s) (se_chainID s) (se_clients s) c (se_fromBlock s) (se_sent s), inr tt).
Definition now : SM Time := on_world (λ w, let '(w, t) := el_Now w in (w, inr t)).

(** ** Connecting *)
Definition assertSameChainID (chainID : Z) : SM bool := λ s,
  match se_chainID s with
  | None => (mkSession (se_world s) (Some chainID) (se_clients s) (se_currentClientIndex s) (se_fromBlock s)
               (se_sent s), inr true)
  | Some expected => (s, inr (expected =? chainID))
  end.
Definition connect (c : nat) : SM unit :=
  on_world (ec_wrap "create single client" (el_Dial c)) ;;
  chainID ← on_world (ec_wrap "get chain ID" (el_ChainID c));
  same ← assertSameChainID chainID;
  if negb same then ec_err (ErrText "client responded with unexpected chain ID") else mret tt.
Definition getClient (c : nat) : SM unit :=
  s ← se_get;
  match se_clients s !! c with
  | Some None => ec_wrap "connect EL client" (connect c) ;; set_client c 0
  | _ => mret tt
  end.

(** The loop of [NewMulti] over the nodes, and whether one is connected. *)
Fixpoint connect_all (nodes : list nat) (connected : bool) (errs : option elerror) : SM (bool * option elerror) :=
  match nodes with
  | [] => mret (connected, errs)
  | c :: nodes =>
      r ← ec_try (connect c);
      match r with
      | inl e => connect_all nodes connected (Some (join_errors errs (ErrWrap "connect EL client error" e)))
      | inr _ => set_client c 0 ;; connect_all nodes true errs
      end
  end.
Definition NewMulti (nodes : nat) (w : W) : Session W * (elerror + unit) :=
  let s := mkSession w None (replicate nodes None) 0 0 [] in
  if (nodes =? 0)%nat then (s, inl (ErrText "no node address provided")) else
  ('(connected, errs) ← connect_all (seq 0 nodes) false None;
   if connected : bool then mret tt
   else ec_err (ErrWrap "couldn't connect even one of EL clients" (default (ErrText "nil") errs))) s.

(** ** Health of one client *)
Definition Healthy (c : nat) : SM unit :=
  closed ← on_world (λ w, let '(w, b) := el_isClosed c w in (w, inr b));
  if closed : bool then ec_err ErrClosed else
  s ← se_get;
  let lastHealthyTime := match se_clients s !! c with Some (Some t) => t | _ => 0 end in
  t ← now;
  if negb (healthInvalidationInterval =? 0)
     && (time_Sub t (lastHealthyTime * Second) <=? healthInvalidationInterval) then mret tt else
  sp ← on_world (ec_wrap "get sync progress" (ec_wrap "fetch sync progress" (el_SyncProgress c)));
  let syncDistance := match sp with Some (highest, current) => Z.max highest current -u current | None => 0 end in
  if bool_decide (is_Some sp) && (syncDistanceTolerance <? syncDistance)
  then ec_err (ErrWrap "sync distance exceeds tolerance" ErrSyncing) else
  t ← now;
  set_client c (t `div` Second).

(** ** Calls *)
Fixpoint call_loop {A} (f : nat → SM A) (startingIndex i tries : nat) (allErrs : option elerror) : SM A :=
  match tries with
  | O => ec_err (ErrWrap "all clients failed" (default (ErrText "nil") allErrs))
  | S tries =>
      s ← se_get;
      let clientsTotal := length (se_clients s) in
      let clientIndex := ((startingIndex + i) `mod` clientsTotal)%nat in
      let nextClientIndex := ((clientIndex + 1) `mod` clientsTotal)%nat in
      let next e := set_current nextClientIndex ;;
                    call_loop f startingIndex (i + 1) tries (Some (join_errors allErrs e)) in
      r ← ec_try (getClient clientIndex);
      match r with
      | inl e => next e
      | inr _ =>
          r ← ec_try (Healthy clientIndex);
          match r with
          | inl e => next e
          | inr _ =>
              r ← ec_try (f clientIndex);
              match r with
              | inl e => if isMultiClientInterruptedError e then ec_err e else next e
              | inr v => set_current clientIndex ;; mret v
              end
          end
      end
  end.
Definition call {A} (f : nat → SM A) : SM A :=
  s ← se_get;
  if (length (se_clients s) =? 0)%nat then ec_err (ErrText "no clients configured")
  else call_loop f (se_currentClientIndex s) 0 (length (se_clients s)) None.

Definition multi_FetchHistoricalLogs (fromBlock : Z) : SM (list RawBlockLogs * option elerror) :=
  call (λ c, on_world (FetchHistoricalLogs c fromBlock)).
Definition multi_HeaderTime (blockNumber : Z) : SM Z :=
  call (λ c, on_world (ec_wrap "get header by block number" (el_HeaderTime c blockNumber))).

(** ** Health of all *)
(** The clients are probed at once; [order] is the one in which the probes take effect. *)
Fixpoint probe_all (order : list nat) (healthy : bool) (errs : option elerror) : SM (bool * option elerror) :=
  match order with
  | [] => mret (healthy, errs)
  | c :: order =>
      r ← ec_try (getClient c ;; Healthy c);
      match r with
      | inl e => probe_all order healthy (Some (join_errors errs e))
      | inr _ => probe_all order true errs
      end
  end.
(** The new value of [lastHealthy]. *)
Definition multi_Healthy (order : list nat) (lastHealthy : Z) : SM Z :=
  t ← now;
  if time_Sub t (lastHealthy * Second) <? healthInvalidationInterval then mret lastHealthy else
  s ← se_get;
  if (length (se_clients s) =? 0)%nat then ec_err (ErrText "no clients configured") else
  '(healthy, errs) ← probe_all order false None;
  if healthy : bool then (t ← now; mret (t `div` Second))
  else ec_err (ErrWrap "no healthy clients" (default (ErrText "nil") errs)).

(** The function that [StreamLogs] calls; a value means that the client still streams. *)
Definition stream_from (turns : nat) (c : nat) : SM unit := λ s,
  match streamLogsToChan turns c (se_fromBlock s) (se_world s) with
  | (w, (blocks, (lastBlock, progressed), err)) =>
      (mkSession w (se_chainID s) (se_clients s) (se_currentClientIndex s)
         (if progressed then lastBlock +u 1 else se_fromBlock s) (se_sent s ++ blocks),
       match err with Some e => inl e | None => inr tt end)
  end.
Fixpoint multi_StreamLogs (attempts turns : nat) (s : Session W) : Session W :=
  match attempts with
  | O => s
  | S attempts =>
      match on_world (λ w, let '(w, b) := el_Stop w in (w, inr b)) s with
      | (s, inr false) =>
          match call (stream_from turns) s with
          | (s, inl e) => if isMultiClientInterruptedError e then s else multi_StreamLogs attempts turns s
          | (s, inr _) => s
          end
      | (s, _) => s
      end
  end.
End multi.
