(* ===== verification/EventSyncer.v ===== *)
(** * Syncing the events of the contract (eth/eventsyncer; syncContractEvents of
      cli/operator/eventsync.go)

    The logs that an execution client sends are passed to the event handler: first the
    history, in up to three tries, then the blocks as they come.  The syncer's client is the
    class [SyncClient], of which one client and several are instances. *)

From stdpp Require Import base list gmap numbers strings.
From S2P Require Import Prelude Sha256 SpecTypes Network RoundTimer Share ShareEncoding PartialSig Slashing.
From S2P Require Import KeyManager ValueCheck RegistryStorage EventHandler ExecutionClient MultiClient.
Open Scope string_scope.
Open Scope list_scope.
Open Scope Z_scope.

(** ** The client *)
(** [sc_StreamLogs] gives what was sent so far, [sc_HeaderTime] the time of a header. *)
Class SyncClient (X : Type) := {
  sc_FetchHistoricalLogs : Z → EC X (list RawBlockLogs * option elerror);
  sc_StreamLogs : Z → X → X * list RawBlockLogs;
  sc_HeaderTime : Z → EC X Z;
  sc_Now : X → X * Time;
}.

Section clients.
Context {W : Type} `{ExecutionLayer W}.
Definition single_client (c attempts turns : nat) : SyncClient W := {|
  sc_FetchHistoricalLogs := FetchHistoricalLogs c;
  sc_StreamLogs := StreamLogs attempts turns c;
  sc_HeaderTime n := ec_wrap "get header by block number" (el_HeaderTime c n);
  sc_Now := el_Now;
|}.
Definition multi_client (interval : Duration) (tolerance : Z) (attempts turns : nat) : SyncClient (Session W) := {|
  sc_FetchHistoricalLogs := multi_FetchHistoricalLogs interval tolerance;
  sc_StreamLogs fromBlock s :=
    let s := multi_StreamLogs interval tolerance attempts turns
               (mkSession (se_world s) (se_chainID s) (se_clients s) (se_currentClientIndex s) fromBlock []) in
    (s, se_sent s);
  sc_HeaderTime := multi_HeaderTime interval tolerance;
  sc_Now s :=
    let '(w, t) := el_Now (se_world s) in
    (mkSession w (se_chainID s) (se_clients s) (se_currentClientIndex s) (se_fromBlock s) (se_sent s), t);
|}.
End clients.

(** ** Errors *)
Inductive serror :=
| SyncText (text : string)
| SyncClientError (e : elerror)
| SyncHandlerError (e : herror)
| SyncStorageError (e : goerr)
| SyncWrap (text : string) (e : serror)
| SyncJoin (e1 e2 : serror).
(** [errors.Is] for [ErrNothingToSync]. *)
Definition client_nothing (e : elerror) : bool := err_is (λ e, match e with ErrNothingToSync => true | _ => false end) e.
Fixpoint nothing_to_sync (e : serror) : bool :=
  match e with
  | SyncClientError e => client_nothing e
  | SyncWrap _ e => nothing_to_sync e
  | SyncJoin e1 e2 => nothing_to_sync e1 || nothing_to_sync e2
  | _ => false
  end.
Definition sync_join (errs : option serror) (e : serror) : serror :=
  match errs with None => e | Some errs => SyncJoin errs e end.

(** ** The syncer *)
Record EventSyncer (X H : Type) := mkEventSyncer {
  es_executionClient : X;
  es_eventHandler : H;
  es_lastProcessedBlock : Z;
  es_lastProcessedBlockChange : Time;
}.
Arguments mkEventSyncer {X H}.
Arguments es_executionClient {X H}.
Arguments es_eventHandler {X H}.
Arguments es_lastProcessedBlock {X H}.
Arguments es_lastProcessedBlockChange {X H}.

(** What [syncHistory] returns. *)
Record SyncTry := mkSyncTry {
  tr_lastProcessedBlock : Z;
  tr_progressed : bool;
  tr_err : option serror;
  tr_retryable : bool;
}.

(** [io] is what happens around the blocks, by their number. *)
Definition with_io (io : Z → BlockIO) (blocks : list RawBlockLogs) : list (BlockIO * BlockLogs) :=
  (λ b, (io (rb_BlockNumber b), parsed b)) <$> blocks.

Section syncer.
Context {X DB S KDB : Type} `{SyncClient X} `{RegistryDB DB} `{RegistryJSON} `{SharesStore S} `{SignerDatabase KDB}
  `{AttestationSSZ} `{FastSSZ} `{BLSKeys} `{EventEnv} (networkConfig : NetCfg) (stalenessThreshold : Duration).
Abbreviation Syncer := (EventSyncer X (EventHandler DB S KDB)).
Abbreviation SY := (ST Syncer serror).

Definition on_client {A} (m : EC X A) : SY (elerror + A) := λ es,
  let '(x, r) := m (es_executionClient es) in
  (mkEventSyncer x (es_eventHandler es) (es_lastProcessedBlock es) (es_lastProcessedBlockChange es), Ok r).
Definition client_now : SY Time := λ es,
  let '(x, t) := sc_Now (es_executionClient es) in
  (mkEventSyncer x (es_eventHandler es) (es_lastProcessedBlock es) (es_lastProcessedBlockChange es), Ok t).

(** [nodeStorage.GetLastProcessedBlock(nil)]. *)
Definition last_processed (es : Syncer) : result goerr (option Z) :=
  GetLastProcessedBlock (eh_storage (Begin (es_eventHandler es))).

Definition ensureBlockAboveThreshold (block : Z) : SY (option serror) :=
  header ← on_client (sc_HeaderTime block);
  match header with
  | inl e => mret (Some (SyncWrap "failed to get header for block" (SyncClientError e)))
  | inr time =>
      t ← client_now;
      mret (if time <? u64 ((t - stalenessThreshold) `div` Second) then Some (SyncText "block is too old") else None)
  end.

(** The error, if the syncer is not healthy. *)
Definition es_Healthy : SY (option serror) :=
  es ← st_get;
  match last_processed es with
  | Panic => st_lift Panic
  | Err e => mret (Some (SyncWrap "failed to read last processed block" (SyncStorageError e)))
  | Ok None => mret (Some (SyncText "last processed block is not set"))
  | Ok (Some lastProcessedBlock) =>
      if u64 lastProcessedBlock =? 0 then mret (Some (SyncText "last processed block is not set"))
      else if negb (es_lastProcessedBlock es =? u64 lastProcessedBlock) then
        t ← client_now;
        st_modify (λ es, mkEventSyncer (es_executionClient es) (es_eventHandler es) (u64 lastProcessedBlock) t) ;;
        mret None
      else
        t ← client_now;
        if stalenessThreshold <? time_Sub t (es_lastProcessedBlockChange es)
        then mret (Some (SyncText "syncing is stuck"))
        else ensureBlockAboveThreshold lastProcessedBlock
  end.

Definition handle_stream (io : Z → BlockIO) (executeTasks : bool) (blocks : list RawBlockLogs)
    : SY (option Z * hres unit) := λ es,
  match HandleBlockEventsStream networkConfig executeTasks (with_io io blocks) None [] (es_eventHandler es) with
  | (eh, (last, _, r)) =>
      (mkEventSyncer (es_executionClient es) eh (es_lastProcessedBlock es) (es_lastProcessedBlockChange es), Ok (last, r))
  end.

Definition syncHistory (io : Z → BlockIO) (fromBlock : Z) : SY SyncTry :=
  fetched ← on_client (sc_FetchHistoricalLogs fromBlock);
  match fetched with
  | inl e =>
      if client_nothing e then mret (mkSyncTry 0 false (Some (SyncClientError ErrNothingToSync)) false)
      else mret (mkSyncTry 0 false (Some (SyncWrap "failed to fetch historical events" (SyncClientError e))) true)
  | inr (blocks, fetchErr) =>
      '(last, r) ← handle_stream io false blocks;
      let lastProcessedBlock := default 0 last in
      let progressed := bool_decide (is_Some last) in
      match r with
      | Panic => st_lift Panic
      | Err e => mret (mkSyncTry lastProcessedBlock progressed
                         (Some (SyncWrap "handle block events stream" (SyncHandlerError e))) true)
      | Ok _ =>
          match fetchErr with
          | Some e => mret (mkSyncTry lastProcessedBlock progressed
                              (Some (SyncWrap "handle block events stream" (SyncClientError e))) true)
          | None =>
              if lastProcessedBlock <? fromBlock
              then mret (mkSyncTry lastProcessedBlock progressed (Some (SyncText "event replay")) false) else
              err ← ensureBlockAboveThreshold lastProcessedBlock;
              mret (mkSyncTry lastProcessedBlock progressed err (bool_decide (is_Some err)))
          end
      end
  end.

(** The tries that are left, with what happens around the blocks of each. *)
Fixpoint sync_tries (ios : list (Z → BlockIO)) (fromBlock : Z) (errs : option serror) : SY Z :=
  match ios with
  | [] => st_err (SyncWrap "event syncer: couldn't sync history events" (default (SyncText "nil") errs))
  | io :: ios =>
      t ← syncHistory io fromBlock;
      match tr_err t with
      | None => mret (tr_lastProcessedBlock t)
      | Some err =>
          let errs := sync_join errs (SyncWrap "sync history" err) in
          if negb (tr_retryable t) then st_err (SyncWrap "event syncer: couldn't sync history events" errs)
          else sync_tries ios (if tr_progressed t then tr_lastProcessedBlock t +u 1 else fromBlock) (Some errs)
      end
  end.
Abbreviation maxTries := 3%nat (only parsing).
Definition SyncHistory (ios : nat → Z → BlockIO) (fromBlock : Z) : SY Z := sync_tries (ios <$> seq 0 maxTries) fromBlock None.

Definition SyncOngoing (io : Z → BlockIO) (fromBlock : Z) : SY unit := λ es,
  let '(x, blocks) := sc_StreamLogs fromBlock (es_executionClient es) in
  ('(last, r) ← handle_stream io true blocks;
   match r with
   | Panic => st_lift Panic
   | Err e => st_err (SyncWrap (if bool_decide (is_Some last) then "handle block events stream"
                                else "handle block events stream, couldn't progress at all") (SyncHandlerError e))
   | Ok _ => mret tt
   end) (mkEventSyncer x (es_eventHandler es) (es_lastProcessedBlock es) (es_lastProcessedBlockChange es)).

(** ** At the start of the node *)
(** The block from which ongoing events are synced. *)
Definition syncContractEvents (registrySyncOffset : Z) (ios : nat → Z → BlockIO) : SY Z := λ es,
  match last_processed es with
  | Panic => (es, Panic)
  | Err e => (es, Err (SyncWrap "syncing registry contract events failed" (SyncStorageError e)))
  | Ok last =>
      let fromBlock := match last with None => registrySyncOffset | Some n => u64 n +u 1 end in
      match SyncHistory ios (u64 fromBlock) es with
      | (es, Ok lastProcessedBlock) => (es, Ok (lastProcessedBlock +u 1))
      | (es, Err e) => if nothing_to_sync e then (es, Ok (u64 fromBlock))
                       else (es, Err (SyncWrap "failed to sync historical registry events" e))
      | (es, Panic) => (es, Panic)
      end
  end.
End syncer.
