(* ===== verification/ExecutionProps.v ===== *)
(** * The logs that are handed over are the logs of the chain

    For nodes that answer a query with the logs of the chain in its range, what the clients
    send, over any interruptions, retries and changes of the client, is a [feed]: blocks of
    increasing numbers that hold every log of the chain from the first block on, once and
    in order. *)

From stdpp Require Import base list gmap numbers strings sorting.
From S2P Require Import Prelude SpecTypes Network EventHandler ExecutionClient MultiClient.
Open Scope string_scope.
Open Scope list_scope.
Open Scope Z_scope.

(** ** Logs of a chain *)
Definition log_before (a b : EthLog) : Prop := log_less a b = true.
Record chain_ok (chain : list EthLog) : Prop := mkChainOk {
  chain_sorted : StronglySorted log_before chain;
  chain_logs : Forall (λ l, lg_Removed l = false) chain;
}.
Definition between (chain : list EthLog) (a b : Z) : list EthLog :=
  filter (λ l, a ≤ lg_BlockNumber l ≤ b) chain.

Lemma log_before_number a b : log_before a b → lg_BlockNumber a ≤ lg_BlockNumber b.
Proof. unfold log_before, log_less. destruct (Z.eqb_spec (lg_BlockNumber a) (lg_BlockNumber b)); cbn; lia. Qed.
Lemma log_before_le a b : log_before a b → log_le a b.
Proof.
  unfold log_before, log_le, log_less.
  repeat match goal with |- context [negb (?x =? ?y)] => destruct (Z.eqb_spec x y) end; cbn; lia.
Qed.
Lemma log_before_not_le a b : log_before a b → ¬ log_le b a.
Proof. unfold log_before, log_le. congruence. Qed.
#[global] Instance log_le_trans : Transitive log_le.
Proof.
  intros a b c. unfold log_le, log_less.
  repeat match goal with |- context [negb (?x =? ?y)] => destruct (Z.eqb_spec x y) end; cbn; lia.
Qed.
#[global] Instance log_le_total : Total log_le.
Proof.
  intros a b. unfold log_le, log_less.
  repeat match goal with |- context [negb (?x =? ?y)] => destruct (Z.eqb_spec x y) end; cbn; lia.
Qed.

Lemma elem_of_between chain a b l : l ∈ between chain a b ↔ l ∈ chain ∧ a ≤ lg_BlockNumber l ≤ b.
Proof. unfold between. rewrite list_elem_of_filter. tauto. Qed.
Lemma between_bounds chain a b : Forall (λ l, a ≤ lg_BlockNumber l ≤ b) (between chain a b).
Proof. apply Forall_forall. intros l [_ Hl]%elem_of_between. exact Hl. Qed.
Lemma between_empty chain a b : b < a → between chain a b = [].
Proof.
  intros Hab. destruct (between chain a b) as [|l rest] eqn:He; [done|].
  assert (l ∈ between chain a b) as [_ Hl]%elem_of_between by (rewrite He; apply list_elem_of_here). lia.
Qed.
(** A part of a range is what a filter leaves of it. *)
Lemma between_below chain a b n :
  n ≤ b → filter (λ l, lg_BlockNumber l ≤ n) (between chain a b) = between chain a n.
Proof. intros Hn. unfold between. rewrite list_filter_filter. apply list_filter_iff. intros l. lia. Qed.
Lemma between_above chain a b n :
  a ≤ n → filter (λ l, n ≤ lg_BlockNumber l) (between chain a b) = between chain n b.
Proof. intros Hn. unfold between. rewrite list_filter_filter. apply list_filter_iff. intros l. lia. Qed.

Lemma chain_numbers chain : chain_ok chain → StronglySorted (λ a b, lg_BlockNumber a ≤ lg_BlockNumber b) chain.
Proof.
  intros [Hs _]. induction Hs as [|x l Hs IH Hall]; constructor; [done|].
  eapply Forall_impl; [exact Hall|]. intros y. apply log_before_number.
Qed.
Lemma between_split chain a m b :
  chain_ok chain → a ≤ m + 1 → m ≤ b → between chain a b = between chain a m ++ between chain (m + 1) b.
Proof.
  intros Hs%chain_numbers Ha Hb. unfold between. induction Hs as [|x l Hs IH Hall]; [done|].
  rewrite !filter_cons. destruct (decide (m + 1 ≤ lg_BlockNumber x)) as [Hx|Hx].
  - rewrite (decide_False (P := a ≤ lg_BlockNumber x ≤ m)) by lia.
    rewrite (filter_none (λ l, a ≤ lg_BlockNumber l ≤ m)) in IH |- *; try (eapply Forall_impl; [exact Hall|]; cbn; lia).
    cbn [app] in *. rewrite IH. destruct (decide (a ≤ lg_BlockNumber x ≤ b)), (decide (m + 1 ≤ lg_BlockNumber x ≤ b)); (done || lia).
  - rewrite (decide_False (P := m + 1 ≤ lg_BlockNumber x ≤ b)) by lia. rewrite IH.
    destruct (decide (a ≤ lg_BlockNumber x ≤ b)), (decide (a ≤ lg_BlockNumber x ≤ m)); (done || lia).
Qed.

(** ** Sorting *)
Lemma chain_unique chain x y : StronglySorted log_before chain → x ∈ chain → y ∈ chain → log_le x y → log_le y x → x = y.
Proof.
  induction 1 as [|z l Hs IH Hall]; [by intros ?%not_elem_of_nil|]. rewrite Forall_forall in Hall.
  intros [->|Hx]%elem_of_cons [->|Hy]%elem_of_cons Hxy Hyx; [done| | |by apply IH].
  - by destruct (log_before_not_le z y (Hall _ Hy)).
  - by destruct (log_before_not_le z x (Hall _ Hx)).
Qed.
Lemma between_sorted chain a b : chain_ok chain → StronglySorted log_le (between chain a b).
Proof.
  intros [Hs _]. unfold between. induction Hs as [|x l Hs IH Hall]; [constructor|].
  rewrite filter_cons. case_decide; [|done]. constructor; [done|]. apply Forall_forall.
  intros y [_ Hy]%list_elem_of_filter. rewrite Forall_forall in Hall. by apply log_before_le, Hall.
Qed.
Lemma sort_between chain a b logs :
  chain_ok chain → logs ≡ₚ between chain a b → sortLogsCanonical logs = between chain a b.
Proof.
  intros Hc Hp. unfold sortLogsCanonical.
  assert (merge_sort log_le logs ≡ₚ between chain a b) as Hm by (by rewrite merge_sort_Permutation).
  apply (StronglySorted_unique_strong log_le); [|apply StronglySorted_merge_sort; apply _|by apply between_sorted|done].
  intros x y Hx Hy. rewrite Hm in Hx. apply elem_of_between in Hx as [Hx _], Hy as [Hy _].
  eapply chain_unique; [apply Hc|done|done].
Qed.

(** ** Feeds *)
Section feed.
Context (chain : list EthLog).
(** [feed a blocks b]: the blocks hold the logs of the chain from block [a] on and before
    block [b], each in the block of its number. *)
Inductive feed : Z → list RawBlockLogs → Z → Prop :=
| feed_nil a : feed a [] a
| feed_cons a n rest b :
    a ≤ n → Forall (λ l, lg_BlockNumber l = n) (between chain a n) → feed (n + 1) rest b →
    feed a (mkRawBlockLogs n (between chain a n) :: rest) b.

Lemma feed_le a l b : feed a l b → a ≤ b.
Proof using. induction 1; lia. Qed.
Lemma feed_app a l m l' b : feed a l m → feed m l' b → feed a (l ++ l') b.
Proof using. induction 1; [done|]. intros Hf. constructor; auto. Qed.
Lemma feed_app_inv a l l' b : feed a (l ++ l') b → ∃ m, feed a l m ∧ feed m l' b.
Proof using.
  revert a. induction l as [|x l IH]; intros a Hf; [exists a; split; [constructor|done]|].
  inversion Hf as [|? n rest ? Ha Hn Hrest]; subst. destruct (IH _ Hrest) as (m & Hm1 & Hm2).
  exists m. split; [by constructor|done].
Qed.
Lemma feed_last a l b x : feed a l b → last l = Some x → b = rb_BlockNumber x + 1.
Proof using.
  induction 1 as [|a n rest b Ha Hn Hf IH]; [done|]. rewrite last_cons.
  destruct (last rest) as [y|] eqn:Hl; [intros [= ->]; auto|]. intros [= <-].
  apply last_None in Hl. subst. by inversion Hf.
Qed.
Lemma feed_sorted a l b : feed a l b → StronglySorted Z.lt ((a - 1) :: (rb_BlockNumber <$> l)) ∧
  Forall (λ x, rb_BlockNumber x < b) l.
Proof using.
  induction 1 as [|a n rest b Ha Hn Hf [IH Hb]]; [by repeat constructor|]. cbn [fmap list_fmap rb_BlockNumber].
  apply StronglySorted_cons in IH as [IH1 IH2]. pose proof (feed_le _ _ _ Hf). split.
  - constructor; [constructor; [done|eapply Forall_impl; [exact IH1|cbn; lia]]|].
    constructor; [lia|]. eapply Forall_impl; [exact IH1|cbn; lia].
  - constructor; [cbn; lia|done].
Qed.
Lemma feed_logs a l b : chain_ok chain → feed a l b → mjoin (rb_Logs <$> l) = between chain a (b - 1).
Proof using.
  intros Hc. induction 1 as [a|a n rest b Ha Hn Hf IH]; [cbn; by rewrite between_empty by lia|].
  pose proof (feed_le _ _ _ Hf). rewrite fmap_cons. change (between chain a n ++ mjoin (rb_Logs <$> rest) = between chain a (b - 1)).
  rewrite IH. by rewrite (between_split chain a n (b - 1)) by (done || lia).
Qed.

(** *** Packing *)
Fixpoint groups (n : Z) (ls logs : list EthLog) : list RawBlockLogs :=
  match logs with
  | [] => [mkRawBlockLogs n ls]
  | l :: logs => if n =? lg_BlockNumber l then groups n (ls ++ [l]) logs
                 else mkRawBlockLogs n ls :: groups (lg_BlockNumber l) [l] logs
  end.
Lemma alter_last {A} (f : A → A) pre x : alter f (pred (length (pre ++ [x]))) (pre ++ [x]) = pre ++ [f x].
Proof using. rewrite length_app, Nat.add_1_r. cbn [pred length]. induction pre; cbn; [done|by f_equal]. Qed.
Lemma pack_loop_groups logs : ∀ pre n ls,
  pack_loop logs (pre ++ [mkRawBlockLogs n ls]) = pre ++ groups n ls logs.
Proof using.
  induction logs as [|l logs IH]; intros pre n ls; cbn [pack_loop groups]; [done|].
  rewrite last_snoc. cbn [rb_BlockNumber]. destruct (Z.eqb_spec n (lg_BlockNumber l)) as [->|Hn]; cbn [negb].
  - rewrite alter_last. cbn [rb_BlockNumber rb_Logs]. apply IH.
  - rewrite alter_last, IH. cbn [rb_BlockNumber rb_Logs app]. by rewrite <-app_assoc.
Qed.
Lemma PackLogs_groups l logs :
  sortLogsCanonical (l :: logs) = l :: logs → PackLogs (l :: logs) = groups (lg_BlockNumber l) [l] logs.
Proof using. intros Hs. unfold PackLogs. rewrite Hs. cbn [pack_loop last app length pred]. exact (pack_loop_groups logs [] _ _). Qed.

Lemma groups_feed b logs : ∀ a n ls,
  between chain a b = ls ++ logs → ls ≠ [] → Forall (λ l, lg_BlockNumber l = n) ls →
  StronglySorted (λ x y, lg_BlockNumber x ≤ lg_BlockNumber y) (ls ++ logs) → a ≤ n ≤ b →
  ∃ m, feed a (groups n ls logs) m ∧ m ≤ b + 1 ∧ between chain m b = [].
Proof using.
  induction logs as [|l logs IH]; intros a n ls Hbt Hne Hls Hs Hn; cbn [groups].
  - rewrite app_nil_r in Hbt.
    assert (between chain a n = ls) as Hb1.
    { rewrite <-(between_below chain a b n) by lia. rewrite Hbt. apply filter_all.
      eapply Forall_impl; [exact Hls|cbn; lia]. }
    exists (n + 1). split; [|split; [lia|]].
    + rewrite <-Hb1 in Hls |- *. constructor; [lia|done|constructor].
    + rewrite <-(between_above chain a b (n + 1)) by lia. rewrite Hbt. apply filter_none.
      eapply Forall_impl; [exact Hls|cbn; lia].
  - destruct (Z.eqb_spec n (lg_BlockNumber l)) as [Heq|Hneq].
    + apply IH; [by rewrite <-app_assoc|by destruct ls| |by rewrite <-app_assoc|done].
      apply Forall_app. split; [done|]. by repeat constructor.
    + apply StronglySorted_app in Hs as (Hlt & _ & Hs). apply StronglySorted_cons in Hs as [Hl Hs].
      destruct ls as [|x ls]; [done|]. pose proof (Forall_inv Hls) as Hx. cbn in Hx.
      assert (lg_BlockNumber x ≤ lg_BlockNumber l) as Hxl by (apply Hlt; apply list_elem_of_here).
      assert (Forall (λ y, n < lg_BlockNumber y) (l :: logs)) as Habove.
      { constructor; [lia|]. eapply Forall_impl; [exact Hl|cbn; lia]. }
      assert (between chain a n = x :: ls) as Hb1.
      { rewrite <-(between_below chain a b n) by lia. rewrite Hbt, filter_app, filter_all, filter_none, app_nil_r; [done| |].
        - eapply Forall_impl; [exact Habove|cbn; lia].
        - eapply Forall_impl; [exact Hls|cbn; lia]. }
      assert (between chain (n + 1) b = [l] ++ logs) as Hb2.
      { rewrite <-(between_above chain a b (n + 1)) by lia. rewrite Hbt, filter_app, filter_none, filter_all; [done| |].
        - eapply Forall_impl; [exact Habove|cbn; lia].
        - eapply Forall_impl; [exact Hls|cbn; lia]. }
      assert (lg_BlockNumber l ≤ b) as Hlb.
      { pose proof (between_bounds chain a b) as Hbb. rewrite Hbt in Hbb. apply Forall_app in Hbb as [_ Hbb].
        apply Forall_inv in Hbb. cbn in Hbb. lia. }
      destruct (IH (n + 1) (lg_BlockNumber l) [l] Hb2) as (m & Hm & Hle & He);
        [done|by repeat constructor|by constructor|lia|].
      exists m. split; [|done]. rewrite <-Hb1 in Hls |- *. by constructor; [lia| |].
Qed.

Lemma pack_feed a b :
  chain_ok chain → a ≤ b → ∃ m, feed a (PackLogs (between chain a b)) m ∧ m ≤ b + 1 ∧ between chain m b = [].
Proof using.
  intros Hc Hab. pose proof (sort_between chain a b _ Hc (Permutation_refl _)) as Hsort.
  destruct (between chain a b) as [|l logs] eqn:Hb.
  - exists a. split_and!; [constructor|lia|done].
  - rewrite PackLogs_groups by done.
    assert (lg_BlockNumber l ≤ b ∧ a ≤ lg_BlockNumber l) as [H1 H2].
    { pose proof (between_bounds chain a b) as Hbb. rewrite Hb in Hbb. apply Forall_inv in Hbb. cbn in Hbb. lia. }
    apply groups_feed; [done|done|by repeat constructor| |lia]. change ([l] ++ logs) with (l :: logs). rewrite <-Hb.
    pose proof (chain_numbers chain Hc) as Hs. unfold between. clear -Hs.
    induction Hs as [|x l' Hs IH Hall]; [constructor|]. rewrite filter_cons. case_decide; [|done].
    constructor; [done|]. apply Forall_forall. intros y [_ Hy]%list_elem_of_filter. rewrite Forall_forall in Hall. auto.
Qed.
End feed.

(** ** The nodes *)
(** A query is answered with the logs of the chain in its range; a call fails as cancelled
    only when the context is, and it stays so. *)
Class ExecutionLayerLaws {W : Type} `{ExecutionLayer W} (chain : list EthLog) (canceled : W → Prop) : Prop := {
  filter_exact c a b w w' logs : el_FilterLogs c a b w = (w', inr logs) → logs ≡ₚ between chain a b;
  filter_canceled c a b w w' e : el_FilterLogs c a b w = (w', inl e) → isCanceled e = true → canceled w';
  filter_stays c a b w : canceled w → canceled (el_FilterLogs c a b w).1;
  select_done c w w' e : el_Select c w = (w', ContextDone e) → canceled w';
  select_canceled c w : canceled w → (el_Select c w).2 ≠ Going ∧ canceled (el_Select c w).1;
  bloom_stays c n w : canceled w → canceled (el_Bloom c n w).1;
  next_stays c w : canceled w → canceled (el_Next c w).1;
  subscribe_stays c w : canceled w → canceled (el_Subscribe c w).1;
  next_range c w w' n : el_Next c w = (w', StreamHead n) → 0 ≤ n < 2 ^ 63;
  number_range c w w' n : el_BlockNumber c w = (w', inr n) → 0 ≤ n < 2 ^ 63;
}.

Lemma ec_bind_cases {W A B} (m : EC W A) (f : A → EC W B) w w' r :
  (m ≫= f) w = (w', r) →
  ∃ w1 r1, m w = (w1, r1) ∧ match r1 with inl e => w' = w1 ∧ r = inl e | inr a => f a w1 = (w', r) end.
Proof.
  unfold mbind, ec_bind. destruct (m w) as [w1 [e|a]]; intros Hm.
  - injection Hm as <- <-. by exists w1, (inl e).
  - by exists w1, (inr a).
Qed.
Lemma ec_try_cases {W A} (m : EC W A) w w' r : ec_try m w = (w', r) → ∃ q, m w = (w', q) ∧ r = inr q.
Proof. unfold ec_try. destruct (m w) as [w1 q]. intros [= <- <-]. by exists q. Qed.
Lemma ec_wrap_cases {W A} text (m : EC W A) w w' r :
  ec_wrap text m w = (w', r) →
  ∃ q, m w = (w', q) ∧ r = match q with inl e => inl (ErrWrap text e) | inr a => inr a end.
Proof. unfold ec_wrap. destruct (m w) as [w1 [e|a]]; intros [= <- <-]; eexists; by split. Qed.

(** Computations that respect a relation between the states before and after. *)
Section ec_keeps.
Context {W : Type} (R : W → W → Prop) `{!Reflexive R} `{!Transitive R}.
Definition ec_keeps {A} (m : EC W A) : Prop := ∀ w w' r, m w = (w', r) → R w w'.
Lemma ec_keeps_bind {A B} (m : EC W A) (f : A → EC W B) : ec_keeps m → (∀ a, ec_keeps (f a)) → ec_keeps (m ≫= f).
Proof using Type*.
  intros Hm Hf w w' r (w1 & r1 & Hm1 & Hr)%ec_bind_cases. pose proof (Hm _ _ _ Hm1) as H1.
  destruct r1 as [e|a]; [by destruct Hr as [-> _]|]. exact (transitivity H1 (Hf _ _ _ _ Hr)).
Qed.
Lemma ec_keeps_ret {A} (a : A) : ec_keeps (mret a).
Proof using Type*. by intros w w' r [= <- _]. Qed.
Lemma ec_keeps_err {A} e : ec_keeps (A := A) (ec_err e).
Proof using Type*. by intros w w' r [= <- _]. Qed.
Lemma ec_keeps_try {A} (m : EC W A) : ec_keeps m → ec_keeps (ec_try m).
Proof using Type*. intros Hm w w' r (q & Hq & _)%ec_try_cases. by eapply Hm. Qed.
Lemma ec_keeps_wrap {A} text (m : EC W A) : ec_keeps m → ec_keeps (ec_wrap text m).
Proof using Type*. intros Hm w w' r (q & Hq & _)%ec_wrap_cases. by eapply Hm. Qed.
End ec_keeps.
Create HintDb ec_keeps.
Ltac ec_keep_in R :=
  repeat (first [ by auto with ec_keeps | apply (ec_keeps_bind R); [|intros] | apply (ec_keeps_ret R)
                | apply (ec_keeps_err R) | apply (ec_keeps_try R) | apply (ec_keeps_wrap R) | progress cbv beta zeta
                | case_match ]).

Section fetching.
Context {W : Type} `{ExecutionLayer W} (chain : list EthLog) (canceled : W → Prop).
Context {Hlaws : ExecutionLayerLaws chain canceled} (Hchain : chain_ok chain).

(** A cancelled context stays cancelled. *)
Definition still_canceled (w w' : W) : Prop := canceled w → canceled w'.
#[local] Instance still_canceled_refl : Reflexive still_canceled.
Proof using. by intros w Hw. Qed.
#[local] Instance still_canceled_trans : Transitive still_canceled.
Proof using. unfold still_canceled. intros w1 w2 w3. tauto. Qed.
Abbreviation stays := (ec_keeps still_canceled).
Ltac stay := ec_keep_in still_canceled.
Lemma FilterLogs_stays c a b : stays (FilterLogs c a b).
Proof using Hlaws.
  apply (ec_keeps_wrap still_canceled). intros w w' r Hr Hw. pose proof (filter_stays c a b w Hw) as Hs. by rewrite Hr in Hs.
Qed.
Lemma check_going_stays c : stays (check_going c).
Proof using Hlaws.
  intros w w' r Hr Hw. destruct (select_canceled c w Hw) as [_ Hs]. unfold check_going in Hr.
  destruct (el_Select c w) as [w1 []]; by injection Hr as <- _.
Qed.
Lemma el_Bloom_stays c n : stays (el_Bloom c n).
Proof using Hlaws. intros w w' r Hr Hw. pose proof (bloom_stays c n w Hw) as Hs. by rewrite Hr in Hs. Qed.
Lemma send_batch_stays c logs n : stays (send_batch c logs n).
Proof using Hlaws.
  intros w w' r Hr Hw. destruct (select_canceled c w Hw) as [_ Hs]. unfold send_batch in Hr.
  destruct (el_Select c w) as [w1 []]; by injection Hr as <- _.
Qed.
#[local] Hint Resolve FilterLogs_stays check_going_stays el_Bloom_stays send_batch_stays : ec_keeps.

Lemma check_going_cases c w w' r :
  check_going c w = (w', r) → (r = inr tt ∧ ¬ canceled w) ∨ ∃ e, r = inl e ∧ (isCanceled e = true → canceled w').
Proof using Hlaws.
  unfold check_going. destruct (el_Select c w) as [w1 [|e|]] eqn:Hs; intros [= <- <-].
  - left. split; [done|]. intros Hw. destruct (select_canceled c w Hw) as [Hg _]. by rewrite Hs in Hg.
  - right. exists e. split; [done|]. intros _. by eapply select_done.
  - right. by exists ErrClosed.
Qed.

(** *** Dividing a query *)
Lemma subdivide_cases fuel : ∀ c a b w w' r,
  0 ≤ a ≤ b → b < 2 ^ 64 → subdivideLogFetch fuel c a b w = (w', r) →
  match r with inr logs => logs ≡ₚ between chain a b ∧ ¬ canceled w | inl e => isCanceled e = true → canceled w' end.
Proof using Hlaws Hchain.
  induction fuel as [|fuel IH]; intros c a b w w' r Hab Hb Hr; cbn [subdivideLogFetch] in Hr;
    apply ec_bind_cases in Hr as (w1 & r1 & [[-> Hgo]|(e & -> & He)]%check_going_cases & Hr);
    try (destruct Hr as [-> ->]; exact He);
    apply ec_bind_cases in Hr as (w2 & r2 & Hq & Hr); apply ec_try_cases in Hq as (q & Hq & ->);
    apply ec_wrap_cases in Hq as (q' & Hq & ->);
    (destruct q' as [e|logs]; [|injection Hr as <- <-; split; [by eapply filter_exact|done]]);
    pose proof (filter_canceled _ _ _ _ _ _ Hq) as He;
    (destruct (isRPCQueryLimitError _); [|by injection Hr as <- <-]);
    (destruct (Z.leb_spec b a); [by injection Hr as <- <-|]).
  { by injection Hr as <- <-. }
  assert (a +u (b -u a) `div` 2 = a + (b - a) `div` 2) as Hmid.
  { unfold u64. rewrite (Z.mod_small (b - a)) by lia. apply Z.mod_small.
    pose proof (Z.div_le_upper_bound (b - a) 2 (b - a)). pose proof (Z.div_pos (b - a) 2). lia. }
  rewrite Hmid in Hr. set (m := a + (b - a) `div` 2) in *.
  assert (a ≤ m < b) as Hm.
  { subst m. pose proof (Z.div_lt (b - a) 2). pose proof (Z.div_pos (b - a) 2). lia. }
  assert (m +u 1 = m + 1) as Hm1 by (apply Z.mod_small; lia). rewrite Hm1 in Hr.
  apply ec_bind_cases in Hr as (w3 & r3 & Hl & Hr).
  pose proof (IH c a m _ _ _ ltac:(lia) ltac:(lia) Hl) as Hleft.
  destruct r3 as [e3|ls]; [by destruct Hr as [-> ->]|].
  apply ec_bind_cases in Hr as (w4 & r4 & Hrt & Hr).
  pose proof (IH c (m + 1) b _ _ _ ltac:(lia) ltac:(lia) Hrt) as Hright.
  destruct r4 as [e4|rs]; [by destruct Hr as [-> ->]|]. injection Hr as <- <-.
  split; [|done]. rewrite (between_split chain a m b) by (done || lia). destruct Hleft as [-> _], Hright as [-> _]. done.
Qed.
Lemma subdivide_stays fuel : ∀ c a b, stays (subdivideLogFetch fuel c a b).
Proof using Hlaws. induction fuel as [|fuel IH]; intros c a b; cbn [subdivideLogFetch]; stay. Qed.
(** The fuel of [fetch_batch] is enough: with more of it nothing changes. *)
Lemma ec_bind_ext {A B} (m : EC W A) (f g : A → EC W B) w : (∀ a w, f a w = g a w) → (m ≫= f) w = (m ≫= g) w.
Proof using. intros Hfg. unfold mbind, ec_bind. destruct (m w) as [w1 [e|a]]; [done|apply Hfg]. Qed.
Lemma subdivide_fuel fuel : ∀ more c a b w,
  0 ≤ a ≤ b → b < 2 ^ 64 → (Z.to_nat (b - a) <= fuel)%nat →
  subdivideLogFetch (fuel + more) c a b w = subdivideLogFetch fuel c a b w.
Proof using.
  induction fuel as [|fuel IH]; intros more c a b w Hab Hb Hf.
  - assert (b <=? a = true) as Hle by lia. destruct more as [|more]; [done|].
    cbn [Nat.add subdivideLogFetch]. rewrite Hle. done.
  - cbn [Nat.add subdivideLogFetch]. apply ec_bind_ext. intros _ w1. apply ec_bind_ext. intros [e|logs] w2; [|done].
    destruct (isRPCQueryLimitError _); [|done]. destruct (Z.leb_spec b a); [done|].
    assert (a +u (b -u a) `div` 2 = a + (b - a) `div` 2) as ->.
    { unfold u64. rewrite (Z.mod_small (b - a)) by lia. apply Z.mod_small.
      pose proof (Z.div_le_upper_bound (b - a) 2 (b - a)). pose proof (Z.div_pos (b - a) 2). lia. }
    pose proof (Z.div_lt (b - a) 2). pose proof (Z.div_pos (b - a) 2). set (m := a + (b - a) `div` 2) in *.
    assert (m +u 1 = m + 1) as -> by (apply Z.mod_small; lia).
    transitivity ((subdivideLogFetch fuel c a m ≫= λ ls, subdivideLogFetch (fuel + more) c (m + 1) b ≫=
      λ rs, mret (ls ++ rs)) w2).
    { unfold mbind, ec_bind. by rewrite IH by lia. }
    apply ec_bind_ext. intros ls w3. unfold mbind, ec_bind. by rewrite IH by lia.
Qed.

(** *** Bloom filters: a node that answers exactly has nothing to recover *)
Lemma retry_cases c n attempts : ∀ k w w' logs,
  retry_loop c n attempts k w = (w', inr logs) → logs = [] ∨ logs ≡ₚ between chain n n.
Proof using Hlaws.
  induction attempts as [|attempts IH]; intros k w w' logs Hr; cbn [retry_loop] in Hr.
  { injection Hr as _ <-. by left. }
  apply ec_bind_cases in Hr as (w1 & r1 & _ & Hr). destruct r1; [by destruct Hr|].
  apply ec_bind_cases in Hr as (w2 & r2 & (q & Hq & ->)%ec_try_cases & Hr).
  apply ec_wrap_cases in Hq as (q' & Hq & ->). destruct q' as [e|ls].
  - destruct (k =? _); [done|]. by eapply IH.
  - destruct (0 <? length ls)%nat; [|by eapply IH]. injection Hr as _ <-. right. by eapply filter_exact.
Qed.
Lemma retry_stays c n attempts : ∀ k, stays (retry_loop c n attempts k).
Proof using Hlaws. induction attempts as [|attempts IH]; intros k; cbn [retry_loop]; stay. Qed.
Lemma bloom_cases c blocks : ∀ logs a b w w' out,
  logs ≡ₚ between chain a b → Forall (λ n, a ≤ n ≤ b) blocks →
  bloom_loop c blocks (list_to_set (lg_BlockNumber <$> logs)) logs false w = (w', inr out) → out = (logs, false).
Proof using Hlaws.
  induction blocks as [|n blocks IH]; intros logs a b w w' out Hlogs Hb Hr; cbn [bloom_loop] in Hr.
  { by injection Hr as _ <-. }
  apply Forall_cons in Hb as [Hn Hb]. case_bool_decide as Hin; [by eapply IH|].
  apply ec_bind_cases in Hr as (w1 & r1 & _ & Hr). destruct r1 as [e|matched]; [by destruct Hr|].
  destruct (negb matched); [by eapply IH|].
  apply ec_bind_cases in Hr as (w2 & r2 & (q & Hq & ->)%ec_wrap_cases & Hr). destruct q as [e|ls]; [by destruct Hr|].
  enough (ls = []) as -> by (by eapply IH).
  apply retry_cases in Hq as [->|Hp]; [done|]. destruct ls as [|x ls]; [done|]. destruct Hin.
  assert (x ∈ between chain n n) as [Hx Hxn]%elem_of_between by (rewrite <-Hp; apply list_elem_of_here).
  apply elem_of_list_to_set. replace n with (lg_BlockNumber x) by lia. apply list_elem_of_fmap_2.
  rewrite Hlogs. apply elem_of_between. split; [done|lia].
Qed.
Lemma bloom_stays_loop c blocks : ∀ have logs recovered, stays (bloom_loop c blocks have logs recovered).
Proof using Hlaws. pose proof retry_stays. induction blocks as [|n blocks IH]; intros have logs recovered; cbn [bloom_loop]; unfold retryBlockLogs; stay. Qed.
Lemma verify_cases c logs a b w w' out :
  logs ≡ₚ between chain a b → verifyLogsWithBloom c logs a b w = (w', inr out) → out = logs.
Proof using Hlaws.
  intros Hlogs Hr. unfold verifyLogsWithBloom in Hr. apply ec_bind_cases in Hr as (w1 & r1 & Hb & Hr).
  destruct r1 as [e|[ls recovered]]; [by destruct Hr|].
  apply (bloom_cases _ _ _ a b) in Hb; [|done|].
  - injection Hb as -> ->. by injection Hr as _ <-.
  - apply Forall_forall. intros n Hn%elem_of_seqZ. lia.
Qed.

(** *** Batches *)
Lemma highest_feed a l m : feed chain a l m → ∀ h, h < a →
  foldl (λ h b, if h <? rb_BlockNumber b then rb_BlockNumber b else h) h l = (if decide (l = []) then h else m - 1).
Proof using.
  induction 1 as [|a n rest m Ha Hn Hf IH]; intros h Hh; [done|].
  cbn [foldl rb_BlockNumber]. rewrite (proj2 (Z.ltb_lt h n)) by lia. rewrite IH by lia.
  destruct (decide (rest = [])) as [->|]; [|done]. inversion Hf. destruct (decide _); [done|lia].
Qed.
Lemma batch_feed a b logs :
  0 < a ≤ b → logs ≡ₚ between chain a b → feed chain a (batch_blocks logs b) (b + 1).
Proof using Hchain.
  intros Hab Hp. unfold batch_blocks.
  assert (List.filter (λ log, negb (lg_Removed log)) logs = logs) as ->.
  { assert (Forall (λ l, lg_Removed l = false) logs) as Hv.
    { apply Forall_forall. intros l Hl. rewrite Hp in Hl. apply elem_of_between in Hl as [Hl _].
      pose proof (chain_logs _ Hchain) as Hc. rewrite Forall_forall in Hc. auto. }
    clear Hp. induction Hv as [|l ls Hl _ IH]; [done|]. cbn. by rewrite Hl, IH. }
  assert (PackLogs logs = PackLogs (between chain a b)) as ->.
  { unfold PackLogs. by rewrite (sort_between chain a b logs), (sort_between chain a b _ Hchain (Permutation_refl _)). }
  destruct (pack_feed chain a b Hchain) as (m & Hf & Hm & He); [lia|].
  rewrite (highest_feed _ _ _ Hf 0) by lia. eapply feed_app; [exact Hf|].
  assert (feed chain m [mkRawBlockLogs b []] (b + 1) ∨ m = b + 1) as Hend.
  { destruct (decide (m = b + 1)) as [->|Hne]; [by right|left]. rewrite <-He at 1. constructor; [lia| |constructor].
    by rewrite He. }
  destruct (decide (_ = [])) as [Hnil|Hnil].
  - rewrite Hnil in Hf. inversion Hf; subst. rewrite (proj2 (Z.ltb_lt 0 b)) by lia. destruct Hend; [done|lia].
  - destruct (Z.ltb_spec (m - 1) b) as [Hlt|Hge].
    + destruct Hend; [done|lia].
    + replace m with (b + 1) by lia. constructor.
Qed.

Lemma fetch_batch_cases c a b verify w w' r :
  0 < a ≤ b → b < 2 ^ 64 → fetch_batch c a b verify w = (w', r) →
  match r with
  | inr (Some blocks) => feed chain a blocks (b + 1) ∧ ¬ canceled w
  | inr None => canceled w'
  | inl _ => True
  end ∧ (canceled w → canceled w').
Proof using Hlaws Hchain.
  intros Hab Hb Hr.
  assert (stays (fetch_batch c a b verify)) as Hstays.
  { pose proof subdivide_stays. pose proof bloom_stays_loop. unfold fetch_batch, verifyLogsWithBloom. stay. }
  split; [|by eapply Hstays]. unfold fetch_batch in Hr.
  apply ec_bind_cases in Hr as (w1 & r1 & (q & Hq & ->)%ec_try_cases & Hr).
  apply subdivide_cases in Hq; [|lia|done]. destruct q as [e|logs].
  { destruct (isCanceled e); injection Hr as <- <-; [by apply Hq|done]. }
  destruct Hq as [Hlogs Hgo]. apply ec_bind_cases in Hr as (w2 & r2 & Hv & Hr).
  destruct r2 as [e|ls]; [by destruct Hr as [-> ->]|].
  assert (ls = logs) as ->.
  { destruct verify; [by eapply verify_cases|by injection Hv as _ <-]. }
  unfold send_batch in Hr. destruct (el_Select c w2) as [w3 [|e|]] eqn:Hs; injection Hr as <- <-.
  - split; [by apply batch_feed|done].
  - by eapply select_done.
  - done.
Qed.

Lemma batches_cases fuel : ∀ c a b verify w w' blocks e,
  0 < a → b < 2 ^ 63 → (b - a) / 200 < Z.of_nat fuel → a ≤ b + 200 →
  batches_loop fuel c a b verify w = (w', (blocks, e)) →
  ∃ m, feed chain a blocks m ∧ (m ≤ b + 1 ∨ m = a) ∧ (canceled w → blocks = [] ∧ canceled w') ∧
    (e = None → a ≤ b → m = b + 1 ∨ canceled w').
Proof using Hlaws Hchain.
  induction fuel as [|fuel IH]; intros c a b verify w w' blocks e Ha Hb Hfuel Hab Hr; cbn [batches_loop] in Hr.
  { injection Hr as <- <- <-. exists a. split_and!; [constructor|by right|done|]. intros _ Hle.
    pose proof (Z.div_pos (b - a) 200). lia. }
  destruct (Z.ltb_spec b a) as [Hlt|Hle].
  { injection Hr as <- <- <-. exists a. split_and!; [constructor|by right|done|lia]. }
  assert (Z.min (a +u 200 -u 1) b = Z.min (a + 199) b) as Hmin.
  { unfold u64. rewrite (Z.mod_small (a + 200)) by lia. rewrite Z.mod_small by lia. f_equal. lia. }
  rewrite Hmin in Hr. destruct (fetch_batch _ _ _ _ _) as [w1 r1] eqn:Hbatch.
  apply fetch_batch_cases in Hbatch as [Hr1 Hstay]; [|lia|lia].
  destruct r1 as [e1|[bs|]].
  { injection Hr as <- <- <-. exists a. split_and!; [constructor|by right|by split; [|apply Hstay]|done]. }
  2: { injection Hr as <- <- <-. exists a. split_and!; [constructor|by right|by split|by right]. }
  destruct Hr1 as [Hf Hgo]. assert (a +u 200 = a + 200) as Hnext by (apply Z.mod_small; lia). rewrite Hnext in Hr.
  destruct (batches_loop fuel c (a + 200) b verify w1) as [w2 [rest e2]] eqn:Hrest. injection Hr as <- <- <-.
  pose proof Hrest as Hempty. apply IH in Hrest as (m & Hf2 & Hm & Hcan & Hend); [|lia|lia| |lia].
  2: { replace (b - (a + 200)) with (b - a + (-1) * 200) by lia. rewrite Z.div_add by lia. lia. }
  destruct (decide (a + 199 < b)) as [Hmore|Hdone].
  - replace (Z.min (a + 199) b + 1) with (a + 200) in Hf by lia. exists m.
    split; [by eapply feed_app|]. split; [pose proof (feed_le _ _ _ _ Hf2); lia|]. split; [done|].
    intros He _. apply Hend; [done|lia].
  - replace (Z.min (a + 199) b + 1) with (b + 1) in Hf by lia.
    assert (rest = []) as ->.
    { destruct fuel; cbn [batches_loop] in Hempty; [by injection Hempty|].
      rewrite (proj2 (Z.ltb_lt b (a + 200))) in Hempty by lia. by injection Hempty. }
    rewrite app_nil_r. exists (b + 1). split_and!; [done|lia|done|by left].
Qed.
Lemma fetch_cases c a b verify w w' blocks e :
  0 < a → b < 2 ^ 63 → fetchLogsInBatches c a b verify w = (w', (blocks, e)) →
  ∃ m, feed chain a blocks m ∧ m ≤ Z.max a (b + 1) ∧ (canceled w → blocks = [] ∧ canceled w') ∧
    (e = None → m = b + 1 ∨ canceled w').
Proof using Hlaws Hchain.
  intros Ha Hb Hr. unfold fetchLogsInBatches in Hr. destruct (Z.ltb_spec b a) as [Hlt|Hle].
  - injection Hr as <- <- <-. exists a. split_and!; [constructor|lia|done|done].
  - apply batches_cases in Hr as (m & Hf & Hm & Hcan & Hend);
      [|done|done|pose proof (Z.div_pos (b - a) 200); lia|lia].
    exists m. split_and!; [done|lia|done|auto].
Qed.

(** *** Streaming *)
(** What was sent since block [a], up to the block that is wanted next. *)
Definition sent_from (a : Z) (blocks : list RawBlockLogs) (status0 status : Z * bool) : Prop :=
  ∃ m, feed chain a blocks m ∧ m ≤ Z.max a (2 ^ 63) ∧
    match blocks with [] => status = status0 | _ => status = (m - 1, true) end.
Lemma stream_cases c turns : ∀ a last progressed w w' blocks status e,
  0 < a ≤ 2 ^ 63 → stream_loop turns c a last progressed w = (w', (blocks, status, e)) →
  sent_from a blocks (last, progressed) status ∧ (canceled w → blocks = []).
Proof using Hlaws Hchain.
  induction turns as [|turns IH]; intros a last progressed w w' blocks status e Ha Hr; cbn [stream_loop] in Hr.
  { injection Hr as <- <- <- <-. split; [|done]. exists a. split_and!; [constructor|lia|done]. }
  assert (sent_from a [] (last, progressed) (last, progressed)) as Hnone.
  { exists a. split_and!; [constructor|lia|done]. }
  destruct (el_Next c w) as [w1 ev] eqn:Hev.
  assert (canceled w → canceled w1) as Hw1 by (intros Hw; pose proof (next_stays c w Hw) as Hs; by rewrite Hev in Hs).
  destruct ev as [e1| |[e1|]|n|]; try (by injection Hr as <- <- <- <-).
  pose proof (next_range _ _ _ _ Hev) as Hn.
  destruct (Z.ltb_spec n 8); [apply IH in Hr as [? ?]; [auto|done]|].
  assert (n -u 8 = n - 8) as Hsub by (apply Z.mod_small; lia). rewrite Hsub in Hr.
  destruct (Z.ltb_spec (n - 8) a); [apply IH in Hr as [? ?]; [auto|done]|].
  destruct (fetchLogsInBatches c a (n - 8) true w1) as [w2 [bs err]] eqn:Hf.
  apply fetch_cases in Hf as (m & Hf & Hm & Hcan & Hend); [|lia|lia].
  set (progressed' := progressed || (0 <? length bs)%nat) in Hr.
  set (last' := match list.last bs with Some b => rb_BlockNumber b | None => last end) in Hr.
  assert (match bs with [] => (last', progressed') = (last, progressed) | _ => (last', progressed') = (m - 1, true) end) as Hst.
  { subst last' progressed'. destruct bs as [|x bs]; [by rewrite orb_false_r|].
    destruct (list.last (x :: bs)) as [y|] eqn:Hl; [|by apply last_None in Hl].
    apply (feed_last _ _ _ _ y) in Hf; [|done]. rewrite orb_true_r. f_equal. lia. }
  destruct err as [e1|].
  { injection Hr as <- <- <- <-. split; [|intros Hw; by apply Hcan, Hw1]. exists m. split_and!; [done|lia|done]. }
  destruct (stream_loop turns c _ last' progressed' w2) as [w3 [[rest st] e3]] eqn:Hrest. injection Hr as <- <- <- <-.
  assert (n - 8 +u 1 = n - 8 + 1) as Hadd by (apply Z.mod_small; lia). rewrite Hadd in Hrest.
  apply IH in Hrest as [(m2 & Hf2 & Hm2 & Hst2) Hcan2]; [|lia].
  split; [|intros Hw; destruct (Hcan (Hw1 Hw)) as [-> Hw2]; by apply Hcan2].
  destruct rest as [|x rest].
  { rewrite app_nil_r. exists m. split_and!; [done|lia|by rewrite Hst2]. }
  destruct (Hend eq_refl) as [->|Hw2]; [|by specialize (Hcan2 Hw2)].
  exists m2. split_and!; [by eapply feed_app|lia|]. by destruct bs.
Qed.
Lemma streamLogsToChan_cases c turns a w w' blocks status e :
  0 < a ≤ 2 ^ 63 → streamLogsToChan turns c a w = (w', (blocks, status, e)) → sent_from a blocks (0, false) status.
Proof using Hlaws Hchain.
  intros Ha Hr. unfold streamLogsToChan in Hr. destruct (ec_wrap _ _ _) as [w1 [e1|u]].
  - injection Hr as <- <- <- <-. exists a. split_and!; [constructor|lia|done].
  - by apply stream_cases in Hr as [Hs _].
Qed.
(** The block from which the next attempt goes on. *)
Lemma sent_next a blocks last progressed :
  0 < a ≤ 2 ^ 63 → sent_from a blocks (0, false) (last, progressed) →
  feed chain a blocks (if progressed then last +u 1 else a) ∧ 0 < (if progressed then last +u 1 else a) ≤ 2 ^ 63.
Proof using.
  intros Ha (m & Hf & Hm & Hst). pose proof (feed_le _ _ _ _ Hf). destruct blocks as [|x bs].
  - injection Hst as -> ->. split; [constructor|lia].
  - injection Hst as -> ->. assert (m - 1 +u 1 = m) as -> by (rewrite <-(Z.mod_small m (2 ^ 64)) at 2 by lia; unfold u64; f_equal; lia).
    split; [done|lia].
Qed.
Lemma StreamLogs_cases c turns attempts : ∀ a w w' blocks,
  0 < a ≤ 2 ^ 63 → StreamLogs attempts turns c a w = (w', blocks) → ∃ m, feed chain a blocks m ∧ m ≤ 2 ^ 63.
Proof using Hlaws Hchain.
  induction attempts as [|attempts IH]; intros a w w' blocks Ha Hr; cbn [StreamLogs] in Hr.
  { injection Hr as _ <-. exists a. split; [constructor|lia]. }
  destruct (el_Stop w) as [w1 []]; [injection Hr as _ <-; exists a; split; [constructor|lia]|].
  destruct (streamLogsToChan turns c a w1) as [w2 [[bs [last progressed]] err]] eqn:Hs.
  apply streamLogsToChan_cases in Hs; [|done]. apply sent_next in Hs as [Hf Hnext]; [|done].
  destruct err as [e|]; [|injection Hr as _ <-; eexists; split; [exact Hf|lia]].
  destruct (isSingleClientInterruptedError e); [injection Hr as _ <-; eexists; split; [exact Hf|lia]|].
  destruct (StreamLogs attempts turns c _ w2) as [w3 rest] eqn:Hrest. injection Hr as _ <-.
  apply IH in Hrest as (m & Hm & Hle); [|done]. exists m. split; [by eapply feed_app|done].
Qed.

(** *** Several clients *)
Section several.
Context (interval : Duration) (tolerance : Z) (start : Z).
(** What was sent reaches to the block from which the next call streams. *)
Definition session_ok (s : Session W) : Prop :=
  feed chain start (se_sent s) (se_fromBlock s) ∧ 0 < se_fromBlock s ≤ 2 ^ 63.
Definition session_step (s s' : Session W) : Prop := session_ok s → session_ok s'.
#[local] Instance session_step_refl : Reflexive session_step.
Proof using. by intros s Hs. Qed.
#[local] Instance session_step_trans : Transitive session_step.
Proof using. unfold session_step. intros s1 s2 s3. tauto. Qed.
Abbreviation holds := (ec_keeps session_step).
Ltac hold := ec_keep_in session_step.

Lemma on_world_holds {A} (m : EC W A) : holds (on_world m).
Proof using. intros s s' r. unfold on_world. destruct (m _). intros [= <- _] Hs. exact Hs. Qed.
Lemma se_get_holds : holds se_get.
Proof using. intros s s' r [= <- _] Hs. exact Hs. Qed.
Lemma set_client_holds c t : holds (set_client c t).
Proof using. intros s s' r [= <- _] Hs. exact Hs. Qed.
Lemma set_current_holds c : holds (set_current c).
Proof using. intros s s' r [= <- _] Hs. exact Hs. Qed.
Lemma now_holds : holds now.
Proof using. apply on_world_holds. Qed.
Lemma assertSameChainID_holds id : holds (assertSameChainID id).
Proof using. intros s s' r. unfold assertSameChainID. destruct (se_chainID s); intros [= <- _] Hs; exact Hs. Qed.
#[local] Hint Resolve on_world_holds se_get_holds set_client_holds set_current_holds now_holds
  assertSameChainID_holds : ec_keeps.
Lemma getClient_holds c : holds (getClient c).
Proof using. unfold getClient, connect. hold. Qed.
Lemma Healthy_holds c : holds (Healthy interval tolerance c).
Proof using. unfold Healthy. hold. Qed.
Lemma stream_from_holds turns c : holds (stream_from turns c).
Proof using Hlaws Hchain.
  intros s s' r Hr [Hf Hn]. unfold stream_from in Hr.
  destruct (streamLogsToChan turns c _ _) as [w [[bs [last progressed]] e]] eqn:Hs.
  apply streamLogsToChan_cases, sent_next in Hs as [Hf2 Hn2]; [|done..]. injection Hr as <- _.
  split; [by eapply feed_app|done].
Qed.
#[local] Hint Resolve getClient_holds Healthy_holds stream_from_holds : ec_keeps.
Lemma call_holds {A} (f : nat → EC (Session W) A) : (∀ c, holds (f c)) → holds (call interval tolerance f).
Proof using.
  intros Hf. unfold call. apply (ec_keeps_bind session_step); [hold|intros s0]. destruct (_ =? 0)%nat; [hold|].
  generalize (None : option elerror) as errs, 0%nat as i. induction (length (se_clients s0)) as [|tries IH];
    intros errs i; cbn [call_loop]; hold.
Qed.
Lemma multi_StreamLogs_ok attempts turns : ∀ s, session_ok s → session_ok (multi_StreamLogs interval tolerance attempts turns s).
Proof using Hlaws Hchain.
  induction attempts as [|attempts IH]; intros s Hs; cbn [multi_StreamLogs]; [done|].
  destruct (on_world _ s) as [s1 r1] eqn:H1. apply on_world_holds in H1. specialize (H1 Hs).
  destruct r1 as [e|[]]; [done..|].
  destruct (call interval tolerance (stream_from turns) s1) as [s2 r2] eqn:H2.
  apply call_holds in H2; [|apply stream_from_holds]. specialize (H2 H1).
  destruct r2 as [e|[]]; [|done]. destruct (isMultiClientInterruptedError e); [done|by apply IH].
Qed.
End several.
End fetching.

(** C15. Whatever the clients answer, however often the stream breaks off, and whichever
    client serves it then, the blocks that were sent so far hold exactly the logs of the
    chain from the first block on up to the last block sent, each once, in the order of the
    chain and in the block of its number, and the numbers of the blocks increase.  The nodes may
    fail at any call; a log query that they answer, they answer exactly. *)
Theorem stream_covers_chain {W : Type} `{ExecutionLayer W} (chain : list EthLog) (canceled : W → Prop)
    {Hlaws : ExecutionLayerLaws chain canceled} interval tolerance attempts turns (s : Session W) c start w :
  chain_ok chain → 0 < start ≤ 2 ^ 63 → se_fromBlock s = start → se_sent s = [] →
  let covers blocks := ∃ m,
    feed chain start blocks m ∧ StronglySorted Z.lt (rb_BlockNumber <$> blocks) ∧
    mjoin (rb_Logs <$> blocks) = between chain start (m - 1) ∧
    (∀ b, last blocks = Some b → m = rb_BlockNumber b + 1) in
  covers (StreamLogs attempts turns c start w).2 ∧
  covers (se_sent (multi_StreamLogs interval tolerance attempts turns s)).
Proof.
  intros Hchain Hstart Hfrom Hsent covers.
  assert (∀ blocks m, feed chain start blocks m → covers blocks) as Hcov.
  { intros blocks m Hf. exists m. split_and!; [done| |by apply feed_logs|by intros b; eapply feed_last].
    apply feed_sorted in Hf as [Hs _]. by apply StronglySorted_cons in Hs as [_ Hs]. }
  split.
  - destruct (StreamLogs attempts turns c start w) as [w' blocks] eqn:Hr.
    eapply StreamLogs_cases in Hr as (m & Hf & _); [|done..]. by eapply Hcov.
  - destruct (multi_StreamLogs_ok chain canceled Hchain interval tolerance start attempts turns s) as [Hf _].
    + unfold session_ok. rewrite Hfrom, Hsent. split; [constructor|done].
    + by eapply Hcov.
Qed.
