(* ===== verification/MultiProps.v ===== *)
(** * The multi client stays well-formed and serves what one of its clients serves *)

From stdpp Require Import base list gmap numbers strings.
From S2P Require Import Prelude SpecTypes Network EventHandler ExecutionClient MultiClient ExecutionProps.
Open Scope string_scope.
Open Scope list_scope.
Open Scope Z_scope.

Section multi.
Context {W : Type} `{ExecutionLayer W} (interval : Duration) (tolerance : Z).
Abbreviation SM := (EC (Session W)).

(** ** Well-formed sessions *)
(** There are as many clients as nodes, and the current one is among them. *)
Definition session_wf (nodes : nat) (s : Session W) : Prop :=
  length (se_clients s) = nodes ∧ (se_currentClientIndex s < nodes)%nat.
(** The number of clients does not change, nor does the current one, nor the chain once it
    is known. *)
Definition same_chain (s s' : Session W) : Prop := ∀ id, se_chainID s = Some id → se_chainID s' = Some id.
Definition same_shape (s s' : Session W) : Prop :=
  length (se_clients s') = length (se_clients s) ∧ se_currentClientIndex s' = se_currentClientIndex s ∧
  same_chain s s'.
Lemma shape_same s s' :
  length (se_clients s') = length (se_clients s) → se_currentClientIndex s' = se_currentClientIndex s →
  se_chainID s' = se_chainID s → same_shape s s'.
Proof using. intros H1 H2 H3. split_and!; [done..|]. intros id. by rewrite H3. Qed.
#[local] Instance same_shape_refl : Reflexive same_shape.
Proof using. intros s. by apply shape_same. Qed.
#[local] Instance same_shape_trans : Transitive same_shape.
Proof using. unfold same_shape, same_chain. intros s1 s2 s3 (? & ? & ?) (? & ? & ?). split_and!; [congruence..|auto]. Qed.
Abbreviation shaped := (ec_keeps same_shape).
Ltac shape := ec_keep_in same_shape.

Lemma on_world_shape {A} (m : EC W A) : shaped (on_world m).
Proof using. intros s s' r. unfold on_world. destruct (m _). intros [= <- _]. by apply shape_same. Qed.
Lemma se_get_shape : shaped se_get.
Proof using. intros s s' r [= <- _]. by apply shape_same. Qed.
Lemma now_shape : shaped now.
Proof using. apply on_world_shape. Qed.
Lemma chainID_shape id : shaped (assertSameChainID id).
Proof using.
  intros s s' r. unfold assertSameChainID. destruct (se_chainID s) eqn:Hid; intros [= <- _]; [by apply shape_same|].
  split_and!; [done..|]. intros id'. congruence.
Qed.
Lemma set_client_shape c t : shaped (set_client c t).
Proof using. intros s s' r [= <- _]. apply shape_same; [apply length_insert|done..]. Qed.
#[local] Hint Resolve on_world_shape se_get_shape now_shape chainID_shape set_client_shape : ec_keeps.
Lemma connect_shape c : shaped (connect c).
Proof using. unfold connect. shape. Qed.
#[local] Hint Resolve connect_shape : ec_keeps.
Lemma getClient_shape c : shaped (getClient c).
Proof using. unfold getClient. shape. Qed.
Lemma Healthy_shape c : shaped (Healthy interval tolerance c).
Proof using. unfold Healthy. shape. Qed.
Lemma connect_all_shape l : ∀ b errs, shaped (connect_all l b errs).
Proof using. induction l as [|c l IH]; intros b errs; cbn [connect_all]; shape. Qed.
Lemma stream_from_shape turns c : shaped (stream_from turns c).
Proof using.
  intros s s' r. unfold stream_from. destruct (streamLogsToChan _ _ _ _) as [w [[bs [l p]] e]]. intros [= <- _]. by apply shape_same.
Qed.
#[local] Hint Resolve getClient_shape Healthy_shape : ec_keeps.
Lemma probe_shape order : ∀ b errs, shaped (probe_all interval tolerance order b errs).
Proof using. induction order as [|c order IH]; intros b errs; cbn [probe_all]; shape. Qed.
#[local] Hint Resolve probe_shape : ec_keeps.
Lemma multi_Healthy_shape order last : shaped (multi_Healthy interval tolerance order last).
Proof using. unfold multi_Healthy. shape. Qed.
Lemma shape_wf nodes s s' : same_shape s s' → session_wf nodes s → session_wf nodes s'.
Proof using. intros (H1 & H2 & _) [H3 H4]. split; [congruence|by rewrite H2]. Qed.

(** One turn of [call_loop]: the client serves the call, stops it, or the next one is tried. *)
Lemma call_turn {A} (f : nat → SM A) start i tries errs s s' r :
  (∀ c, shaped (f c)) → call_loop interval tolerance f start i (S tries) errs s = (s', r) →
  let total := length (se_clients s) in
  let c := ((start + i) `mod` total)%nat in
  (∃ s1, same_shape s s1 ∧
    ((∃ v s0, r = inr v ∧ f c s0 = (s1, inr v) ∧ set_current c s1 = (s', inr tt)) ∨
     (s' = s1 ∧ ∃ e s0, r = inl e ∧ isMultiClientInterruptedError e = true ∧ f c s0 = (s1, inl e)) ∨
     (∃ s2 e, set_current ((c + 1) `mod` total)%nat s1 = (s2, inr tt) ∧
       call_loop interval tolerance f start (i + 1) tries (Some (join_errors errs e)) s2 = (s', r) ∧
       (getClient c s = (s1, inl e) ∨ (∃ s0, Healthy interval tolerance c s0 = (s1, inl e)) ∨
        (∃ s0, f c s0 = (s1, inl e)))))).
Proof using.
  intros Hf Hr. cbn [call_loop] in Hr. apply ec_bind_cases in Hr as (s1 & r1 & Hg & Hr). injection Hg as <- <-.
  set (c := ((start + i) `mod` length (se_clients s))%nat) in *. cbv zeta in Hr |- *.
  apply ec_bind_cases in Hr as (s1 & r1 & (q & Hq & ->)%ec_try_cases & Hr).
  pose proof (getClient_shape _ _ _ _ Hq) as Hs1. destruct q as [e|[]].
  { apply ec_bind_cases in Hr as (s2 & r2 & H2 & Hr). injection H2 as H2 <-.
    exists s1. split; [done|]. right. right. exists s2, e. split; [by rewrite <-H2|]. eauto. }
  apply ec_bind_cases in Hr as (s2 & r2 & (q2 & Hq2 & ->)%ec_try_cases & Hr).
  pose proof (transitivity Hs1 (Healthy_shape _ _ _ _ Hq2)) as Hs2. destruct q2 as [e|[]].
  { apply ec_bind_cases in Hr as (s3 & r3 & H3 & Hr). injection H3 as H3 <-.
    exists s2. split; [done|]. right. right. exists s3, e. split; [by rewrite <-H3|]. eauto. }
  apply ec_bind_cases in Hr as (s3 & r3 & (q3 & Hq3 & ->)%ec_try_cases & Hr).
  pose proof (transitivity Hs2 (Hf _ _ _ _ Hq3)) as Hs3. destruct q3 as [e|v].
  - destruct (isMultiClientInterruptedError e) eqn:He.
    + injection Hr as <- <-. exists s3. split; [done|]. right. left. split; [done|]. by exists e, s2.
    + apply ec_bind_cases in Hr as (s4 & r4 & H4 & Hr). injection H4 as H4 <-.
      exists s3. split; [done|]. right. right. exists s4, e. split; [by rewrite <-H4|]. eauto.
  - apply ec_bind_cases in Hr as (s4 & r4 & H4 & Hr). injection H4 as H4 <-. injection Hr as <- <-.
    exists s3. split; [done|]. left. exists v, s2. split_and!; [done|done|]. by rewrite <-H4.
Qed.

Lemma call_loop_wf {A} nodes (f : nat → SM A) start tries : (∀ c, shaped (f c)) → ∀ i errs s s' r,
  session_wf nodes s → call_loop interval tolerance f start i tries errs s = (s', r) → session_wf nodes s'.
Proof using.
  intros Hf. induction tries as [|tries IH]; intros i errs s s' r Hs Hr; [by injection Hr as <- _|].
  destruct (call_turn _ _ _ _ _ _ _ _ Hf Hr) as (s1 & Hsh & Hc). pose proof (shape_wf _ _ _ Hsh Hs) as Hs1.
  destruct Hs as [Hl Hcur]. rewrite Hl in Hc.
  assert (∀ k s2, set_current (k `mod` nodes)%nat s1 = (s2, inr tt) → session_wf nodes s2) as Hset.
  { intros k s2 [= <-]. split; [by destruct Hs1|]. apply Nat.mod_upper_bound. lia. }
  destruct Hc as [(v & s0 & _ & _ & Hc)|[(-> & _)|(s2 & e & Hc & Hrest & _)]]; [by eapply Hset|done|].
  eapply IH; [|exact Hrest]. by eapply Hset.
Qed.
Lemma call_wf {A} nodes (f : nat → SM A) s s' r :
  (∀ c, shaped (f c)) → session_wf nodes s → call interval tolerance f s = (s', r) → session_wf nodes s'.
Proof using.
  intros Hf Hs Hr. unfold call in Hr. apply ec_bind_cases in Hr as (s1 & r1 & Hg & Hr). injection Hg as <- <-.
  destruct (_ =? 0)%nat; [by injection Hr as <- _|]. by eapply call_loop_wf.
Qed.
(** What a call returns comes from one of the clients. *)
Lemma call_loop_result {A} (f : nat → SM A) start tries : (∀ c, shaped (f c)) → ∀ i errs s s' v,
  call_loop interval tolerance f start i tries errs s = (s', inr v) → ∃ c s0 s1, f c s0 = (s1, inr v).
Proof using.
  intros Hf. induction tries as [|tries IH]; intros i errs s s' v Hr; [done|].
  destruct (call_turn _ _ _ _ _ _ _ _ Hf Hr) as (s1 & _ & Hc).
  destruct Hc as [(v' & s0 & [= <-] & Hv & _)|[(_ & e & s0 & [=] & _)|(s2 & e & _ & Hrest & _)]]; [by eexists _, _, _|].
  by apply IH in Hrest.
Qed.
Lemma call_result {A} (f : nat → SM A) s s' v :
  (∀ c, shaped (f c)) → call interval tolerance f s = (s', inr v) → ∃ c s0 s1, f c s0 = (s1, inr v).
Proof using.
  intros Hf Hr. unfold call in Hr. apply ec_bind_cases in Hr as (s1 & r1 & Hg & Hr). injection Hg as <- <-.
  destruct (_ =? 0)%nat; [done|]. by eapply call_loop_result.
Qed.
Lemma multi_stream_wf nodes attempts turns : ∀ s,
  session_wf nodes s → session_wf nodes (multi_StreamLogs interval tolerance attempts turns s).
Proof using.
  induction attempts as [|attempts IH]; intros s Hs; cbn [multi_StreamLogs]; [done|].
  destruct (on_world _ s) as [s1 r1] eqn:H1. apply on_world_shape in H1. pose proof (shape_wf _ _ _ H1 Hs) as Hs1.
  destruct r1 as [e|[]]; [done..|].
  destruct (call interval tolerance (stream_from turns) s1) as [s2 r2] eqn:H2.
  apply (call_wf nodes) in H2; [|apply stream_from_shape|done].
  destruct r2 as [e|[]]; [|done]. destruct (isMultiClientInterruptedError e); [done|by apply IH].
Qed.

(** C33. A multi client that was created for some nodes has one client for each of them and
    a current one among them, and keeps this over all calls, fetches of logs, health checks
    and streams, however they end: the indices into its lists are never out of range. *)
Theorem multi_client_wf nodes w s r :
  NewMulti nodes w = (s, r) → (0 < nodes)%nat →
  session_wf nodes s ∧
  ∀ s', session_wf nodes s' →
    (∀ from, session_wf nodes (multi_FetchHistoricalLogs interval tolerance from s').1) ∧
    (∀ n, session_wf nodes (multi_HeaderTime interval tolerance n s').1) ∧
    (∀ order last, session_wf nodes (multi_Healthy interval tolerance order last s').1) ∧
    (∀ attempts turns, session_wf nodes (multi_StreamLogs interval tolerance attempts turns s')).
Proof using.
  intros Hr Hn. split.
  - unfold NewMulti in Hr. destruct (Nat.eqb_spec nodes 0); [lia|].
    assert (same_shape (mkSession w None (replicate nodes None) 0 0 []) s) as Hs.
    { revert Hr. apply (ec_keeps_bind same_shape); [apply connect_all_shape|]. intros [b errs]. shape. }
    eapply shape_wf; [exact Hs|]. split; [apply length_replicate|done].
  - intros s' Hs'. split_and!.
    + intros from. destruct (multi_FetchHistoricalLogs _ _ _ _) as [s2 r2] eqn:H2. eapply call_wf in H2; [done| |done].
      intros c. apply on_world_shape.
    + intros n. destruct (multi_HeaderTime _ _ _ _) as [s2 r2] eqn:H2. eapply call_wf in H2; [done| |done].
      intros c. apply on_world_shape.
    + intros order last. eapply shape_wf; [|exact Hs']. eapply multi_Healthy_shape, surjective_pairing.
    + intros attempts turns. by apply multi_stream_wf.
Qed.

(** ** Failover *)
(** A client of the chain that can be reached, is healthy and serves a function in every
    state. *)
Definition serves {A} (id : Z) (f : nat → SM A) (c : nat) : Prop :=
  (∀ s s' e, se_chainID s = Some id → getClient c s ≠ (s', inl e)) ∧ (∀ s s' e, Healthy interval tolerance c s ≠ (s', inl e)) ∧
  (∀ s s' e, f c s ≠ (s', inl e)).

Lemma call_loop_serves {A} id (f : nat → SM A) good start tries :
  (∀ c, shaped (f c)) → serves id f good →
  (∀ c s s' e, f c s = (s', inl e) → isMultiClientInterruptedError e = false) →
  ∀ i errs s s' r, se_chainID s = Some id → (∃ k, i <= k < i + tries ∧ (start + k) `mod` length (se_clients s) = good)%nat →
  call_loop interval tolerance f start i tries errs s = (s', r) → ∃ v, r = inr v.
Proof using.
  intros Hf (Hget & Hhealthy & Hserve) Hint. induction tries as [|tries IH]; intros i errs s s' r Hid (k & Hk & Hgood) Hr.
  { lia. }
  destruct (call_turn _ _ _ _ _ _ _ _ Hf Hr) as (s1 & Hsh & Hc).
  destruct Hc as [(v & s0 & -> & _)|[(_ & e & s0 & _ & Hi & He)|(s2 & e & Hset & Hrest & Hfail)]]; [by exists v| |].
  { by rewrite (Hint _ _ _ _ He) in Hi. }
  destruct (decide (k = i)) as [->|Hne].
  - rewrite Hgood in Hfail. destruct Hfail as [He|[[s0 He]|[s0 He]]]; exfalso;
      [by eapply (Hget _ _ _ Hid)|by eapply Hhealthy|by eapply Hserve].
  - injection Hset as <-. destruct Hsh as (Hlen & _ & Hchain). refine (IH _ _ _ _ _ _ _ Hrest); [by apply Hchain|].
    exists k. split; [lia|]. cbn [se_clients]. by rewrite Hlen.
Qed.

(** C32. A call is served when one of the clients serves it, whichever client is the current
    one and whatever the others do, short of a shutdown. *)
Theorem call_serves {A} id (f : nat → SM A) good s :
  (∀ c, shaped (f c)) → se_chainID s = Some id → serves id f good → (good < length (se_clients s))%nat →
  (∀ c s s' e, f c s = (s', inl e) → isMultiClientInterruptedError e = false) →
  ∃ s' v, call interval tolerance f s = (s', inr v).
Proof using.
  intros Hf Hid Hserve Hgood Hint. destruct (call interval tolerance f s) as [s' r] eqn:Hr.
  enough (∃ v, r = inr v) as [v ->] by (by exists s', v).
  unfold call in Hr. apply ec_bind_cases in Hr as (s1 & r1 & Hg & Hr). injection Hg as <- <-.
  destruct (Nat.eqb_spec (length (se_clients s)) 0); [lia|].
  eapply call_loop_serves; [exact Hf|exact Hserve|exact Hint|exact Hid| |exact Hr].
  set (total := length (se_clients s)) in *. set (start := se_currentClientIndex s).
  pose proof (Nat.mod_upper_bound start total ltac:(lia)) as Hmod.
  exists ((good + (total - start `mod` total)) `mod` total)%nat. split.
  - split; [lia|]. cbn. apply Nat.mod_upper_bound. lia.
  - rewrite Nat.Div0.add_mod_idemp_r. pose proof (Nat.div_mod start total ltac:(lia)) as Hdm.
    replace (start + (good + (total - start `mod` total)))%nat with (good + (1 + start / total) * total)%nat by lia.
    rewrite Nat.Div0.mod_add. by apply Nat.mod_small.
Qed.
End multi.
