(* ===== verification/SyncProps.v ===== *)
(** * The syncer follows the chain

    Over all the tries, and then the ongoing stream, the committed database takes in the
    logs of the chain without a gap and none of them twice. *)

From stdpp Require Import base list gmap numbers strings sorting.
From Stdlib Require Import Strings.Byte.
From S2P Require Import Prelude Sha256 SpecTypes Network Share ShareEncoding PartialSig Slashing KeyManager.
From S2P Require Import ValueCheck RegistryStorage EventHandler EventProps EventBlocks ExecutionClient.
From S2P Require Import MultiClient EventSyncer ExecutionProps MultiProps.
Open Scope string_scope.
Open Scope list_scope.
Open Scope Z_scope.

(** ** What the syncer relies on *)
(** What a client sends from a block on is a feed of the chain. *)
Class SyncClientLaws {X : Type} `{SyncClient X} (chain : list EthLog) : Prop := {
  fetch_feed from x x' blocks e : 0 < from ≤ 2 ^ 63 → sc_FetchHistoricalLogs from x = (x', inr (blocks, e)) →
    ∃ m, feed chain from blocks m ∧ m ≤ 2 ^ 63;
  stream_feed from x x' blocks : 0 < from ≤ 2 ^ 63 → sc_StreamLogs from x = (x', blocks) →
    ∃ m, feed chain from blocks m ∧ m ≤ 2 ^ 63;
}.

Section clients.
Context {W : Type} `{ExecutionLayer W} (chain : list EthLog) (canceled : W → Prop).
Context {Hlaws : ExecutionLayerLaws chain canceled} (Hchain : chain_ok chain).

Lemma FetchHistoricalLogs_feed c from w w' blocks e :
  0 < from ≤ 2 ^ 63 → FetchHistoricalLogs c from w = (w', inr (blocks, e)) →
  ∃ m, feed chain from blocks m ∧ m ≤ 2 ^ 63.
Proof using Hlaws Hchain.
  intros Hfrom Hr. unfold FetchHistoricalLogs in Hr.
  apply ec_bind_cases in Hr as (w1 & r1 & (q & Hq & ->)%ec_wrap_cases & Hr). destruct q as [e1|n]; [by destruct Hr|].
  apply (@number_range _ _ chain canceled _) in Hq. destruct (Z.ltb_spec n 8); [done|].
  assert (n -u 8 = n - 8) as Hsub by (apply Z.mod_small; lia). rewrite Hsub in Hr.
  destruct (Z.ltb_spec (n - 8) from); [done|].
  destruct (fetchLogsInBatches c from (n - 8) false w1) as [w2 [bs e2]] eqn:Hf. injection Hr as <- <- <-.
  apply (fetch_cases chain canceled Hchain) in Hf as (m & Hf & Hm & _); [|lia..]. exists m. split; [done|lia].
Qed.

Lemma single_client_laws c attempts turns :
  SyncClientLaws (X := W) (H := single_client c attempts turns) chain.
Proof using Hlaws Hchain.
  split; cbn; intros; [by eapply FetchHistoricalLogs_feed|by eapply StreamLogs_cases].
Qed.
Lemma multi_client_laws interval tolerance attempts turns :
  SyncClientLaws (X := Session W) (H := multi_client interval tolerance attempts turns) chain.
Proof using Hlaws Hchain.
  split; cbn.
  - intros from s s' blocks e Hfrom Hr. apply call_result in Hr as (c & s0 & s1 & Hr); [|intros; apply on_world_shape].
    unfold on_world in Hr. destruct (FetchHistoricalLogs c from (se_world s0)) as [w r] eqn:Hf.
    injection Hr as <- ->. by eapply FetchHistoricalLogs_feed.
  - intros from s s' blocks Hfrom [= <- <-].
    destruct (multi_StreamLogs_ok chain canceled Hchain interval tolerance from attempts turns
      (mkSession (se_world s) (se_chainID s) (se_clients s) (se_currentClientIndex s) from [])) as [Hf Hn].
    { split; [constructor|done]. }
    eexists. split; [exact Hf|lia].
Qed.
End clients.

Section sync.
Context {X DB S KDB : Type} `{Hclient : SyncClient X} `{Hrdb : RegistryDB DB} {HrdbL : RegistryDBLaws DB}
  `{Hjson : RegistryJSON} {HjsonL : RegistryJSONLaws} `{Hss : SharesStore S} `{Hsdb : SignerDatabase KDB}
  `{Hssz : AttestationSSZ} `{Hfast : FastSSZ} `{Hbls : BLS} {Hkeys : BLSKeys} `{Henv : EventEnv}
  (networkConfig : NetCfg) (stalenessThreshold : Duration).
Context (chain : list EthLog) {Hlaws : SyncClientLaws (X := X) chain} (Hchain : chain_ok chain).
Context (Haddr : Forall (λ l, log_addresses_ok (lg_Event l)) chain).
Abbreviation Handler := (EventHandler DB S KDB).
Abbreviation Syncer := (EventSyncer X Handler).

(** ** What was synced *)
(** The events of the blocks from [a] to [n]. *)
Definition events_between (a n : Z) : list Log := lg_Event <$> between chain a n.
Definition synced (a : Z) (eh eh' : Handler) (n : Z) : Prop :=
  a - 1 ≤ n < 2 ^ 63 ∧ (a ≤ n → recorded eh' = Some n) ∧ (n < a → recorded eh' = recorded eh) ∧
  recipients_ok (committed eh') ∧
  ∀ owner, nonce_of (committed eh') owner = u16 (nonce_of (committed eh) owner + added_in (events_between a n) owner).

Lemma synced_same a (eh eh' : Handler) :
  a ≤ 2 ^ 63 → committed eh' = committed eh → recipients_ok (committed eh) → synced a eh eh' (a - 1).
Proof using.
  intros Ha Hc Hrec. unfold synced, recorded, events_between. rewrite Hc, between_empty by lia.
  split_and!; [lia|lia|lia|done|done|]. intros owner. cbn. by rewrite Z.add_0_r, nonce_range.
Qed.
Lemma synced_trans a n n' (eh eh1 eh' : Handler) :
  synced a eh eh1 n → synced (n + 1) eh1 eh' n' → synced a eh eh' n'.
Proof using Hchain.
  intros (Hn & Hr1 & Hr2 & _ & Hadd) (Hn' & Hr1' & Hr2' & Hrec' & Hadd').
  split_and!; [lia|lia| | |done|].
  - intros Ha. destruct (decide (n + 1 ≤ n')); [by apply Hr1'|]. rewrite Hr2', Hr1 by lia. f_equal. lia.
  - intros Ha. by rewrite Hr2', Hr2 by lia.
  - intros owner. rewrite Hadd', Hadd, u16_add, <-Z.add_assoc, <-added_in_app. unfold events_between.
    rewrite <-fmap_app, <-between_split by (done || lia). done.
Qed.

Lemma feed_numbers a blocks m :
  feed chain a blocks m → Forall (λ b, a ≤ rb_BlockNumber b < m ∧ Forall (λ l, l ∈ chain) (rb_Logs b)) blocks.
Proof using.
  induction 1 as [|a n rest b Ha Hn Hf IH]; constructor; cbn.
  - apply feed_le in Hf. split; [lia|]. apply Forall_forall. by intros l [? _]%elem_of_between.
  - eapply Forall_impl; [exact IH|]. cbn. intros x [? ?]. split; [lia|done].
Qed.

Lemma with_io_numbers (io : Z → BlockIO) blocks : number <$> with_io io blocks = rb_BlockNumber <$> blocks.
Proof using. unfold with_io. by rewrite <-list_fmap_compose. Qed.
Lemma with_io_logs (io : Z → BlockIO) blocks : logs_of (with_io io blocks) = lg_Event <$> mjoin (rb_Logs <$> blocks).
Proof using.
  unfold logs_of, with_io. induction blocks as [|b blocks IH]; [done|]. rewrite !fmap_cons. cbn [mjoin list_join]. rewrite fmap_app.
  f_equal. exact IH.
Qed.
Lemma with_io_ok (io : Z → BlockIO) a blocks m :
  0 < a → m ≤ 2 ^ 63 → feed chain a blocks m →
  Forall (λ b, 0 ≤ number b < 2 ^ 64 ∧ Forall log_addresses_ok (bl_Logs b.2)) (with_io io blocks).
Proof using Haddr.
  intros Ha Hm Hf%feed_numbers. apply Forall_fmap. eapply Forall_impl; [exact Hf|]. intros b [Hn Hl].
  split; [cbn; lia|]. cbn. apply Forall_fmap. eapply Forall_impl; [exact Hl|]. intros l Hin.
  rewrite Forall_forall in Haddr. by apply Haddr.
Qed.

(** A part of a feed is handled, up to the first block that fails. *)
Lemma stream_synced (io : Z → BlockIO) executeTasks a blocks m (eh eh' : Handler) last executed r :
  0 < a ≤ 2 ^ 63 → m ≤ 2 ^ 63 → feed chain a blocks m → recipients_ok (committed eh) →
  HandleBlockEventsStream networkConfig executeTasks (with_io io blocks) None [] eh = (eh', (last, executed, r)) →
  synced a eh eh' (default (a - 1) last) ∧ (∀ n, last = Some n → a ≤ n) ∧
  (∀ b rest, blocks = b :: rest → r = Ok tt → u64 (default 0 (recorded eh)) < rb_BlockNumber b).
Proof using HjsonL Hchain Haddr.
  intros Ha Hm Hf Hrec Hr. pose proof (with_io_ok io a blocks m ltac:(lia) Hm Hf) as Hok.
  apply stream_handled in Hr as (handled & rest & Hsplit & Hall & (Hsort & Hlast & Hlast' & Hadd) & Hrec'); [|done..].
  apply fmap_app_inv in Hsplit as (raw & raw' & -> & -> & ->).
  fold (with_io io raw) in *. rewrite with_io_numbers in *. rewrite with_io_logs in Hadd.
  apply feed_app_inv in Hf as (k & Hf & Hf'). pose proof (feed_le _ _ _ _ Hf) as Hle. pose proof (feed_le _ _ _ _ Hf').
  rewrite (feed_logs chain _ _ _ Hchain Hf) in Hadd.
  assert (list.last (rb_BlockNumber <$> raw) = if decide (a < k) then Some (k - 1) else None) as Hk.
  { rewrite fmap_last. destruct raw as [|x raw].
    - inversion Hf; subst. by rewrite decide_False by lia.
    - destruct (list.last (x :: raw)) as [y|] eqn:Hl; [|by apply last_None in Hl].
      pose proof (feed_last _ _ _ _ _ Hf Hl) as ->. pose proof (feed_numbers _ _ _ Hf) as Hn.
      rewrite Forall_forall in Hn. destruct (Hn y) as [Hy _]; [by apply last_Some_elem_of|].
      rewrite decide_True by lia. cbn. f_equal. lia. }
  unfold last_or in Hlast, Hlast'. rewrite Hk in Hlast, Hlast'. split_and!.
  - subst last. destruct (decide (a < k)); cbn [from_option id].
    + split_and!; [lia|lia|done|lia|done|done].
    + replace k with a in Hadd by lia. split_and!; [lia|lia|lia|done|done|done].
  - intros n ->. destruct (decide (a < k)); [|done]. injection Hlast' as ->. lia.
  - intros b rest Hb Hok'. apply Hall in Hok'. destruct raw' as [|]; [|done]. rewrite app_nil_r in Hb. subst raw.
    apply StronglySorted_inv in Hsort as [_ Hs]. rewrite fmap_cons in Hs. by apply Forall_cons in Hs as [Hs _].
Qed.

(** ** The tries *)
Lemma on_client_handler {A} (m : EC X A) (es es' : Syncer) r :
  on_client m es = (es', r) → es_eventHandler es' = es_eventHandler es ∧
    ∃ q, r = Ok q ∧ m (es_executionClient es) = (es_executionClient es', q).
Proof using. unfold on_client. destruct (m _) as [x q]. intros [= <- <-]. eauto. Qed.
Lemma ensure_handler n (es es' : Syncer) r :
  ensureBlockAboveThreshold stalenessThreshold n es = (es', r) → es_eventHandler es' = es_eventHandler es.
Proof using.
  intros (es1 & r1 & (He & q & -> & _)%on_client_handler & Hr)%bind_cases. rewrite <-He. clear He.
  destruct q as [e|time]; [by injection Hr as <- _|]. apply bind_cases in Hr as (es2 & r2 & H2 & Hr).
  unfold client_now in H2. destruct (sc_Now _) as [x t]. injection H2 as <- <-. by injection Hr as <- _.
Qed.
Lemma handle_stream_cases io executeTasks blocks (es es' : Syncer) r :
  handle_stream networkConfig io executeTasks blocks es = (es', r) →
  es_executionClient es' = es_executionClient es ∧
  ∃ last executed q, r = Ok (last, q) ∧
    HandleBlockEventsStream networkConfig executeTasks (with_io io blocks) None [] (es_eventHandler es) =
      (es_eventHandler es', (last, executed, q)).
Proof using.
  unfold handle_stream. destruct (HandleBlockEventsStream _ _ _ _ _ _) as [eh [[last ex] q]].
  intros [= <- <-]. split; [done|]. by exists last, ex, q.
Qed.

(** What a try did, given the block that it started from. *)
Definition try_ok (a n : Z) (t : SyncTry) : Prop :=
  tr_progressed t = bool_decide (a ≤ n) ∧ (a ≤ n → tr_lastProcessedBlock t = n) ∧ (tr_err t = None → a ≤ n).
Lemma syncHistory_synced io a (es es' : Syncer) r :
  0 < a ≤ 2 ^ 63 → recipients_ok (committed (es_eventHandler es)) →
  syncHistory networkConfig stalenessThreshold io a es = (es', r) →
  ∃ n, synced a (es_eventHandler es) (es_eventHandler es') n ∧ (∀ t, r = Ok t → try_ok a n t).
Proof using HjsonL Hlaws Hchain Haddr.
  intros Ha Hrec (es1 & r1 & (He & q & -> & Hq)%on_client_handler & Hr)%bind_cases.
  destruct q as [e|[blocks fetchErr]].
  { exists (a - 1). destruct (client_nothing e); injection Hr as <- <-; rewrite He;
      (split; [by apply synced_same; [lia|..]|]); intros t [= <-]; unfold try_ok; cbn [tr_progressed tr_err];
      rewrite bool_decide_false by lia; by split_and!; [|lia|]. }
  apply fetch_feed in Hq as (m & Hf & Hm); [|done].
  apply bind_cases in Hr as (es2 & r2 & (_ & last & ex & q & -> & Hs)%handle_stream_cases & Hr). rewrite He in Hs.
  cbv beta iota zeta in Hr.
  destruct (stream_synced _ _ _ _ _ _ _ _ _ _ Ha Hm Hf Hrec Hs) as (Hsync & Hlast & _).
  exists (default (a - 1) last).
  assert (∀ err b, (err = None → is_Some last) →
    try_ok a (default (a - 1) last) (mkSyncTry (default 0 last) (bool_decide (is_Some last)) err b)) as Htry.
  { intros err b Herr. destruct last as [n|]; unfold try_ok; cbn.
    - specialize (Hlast n eq_refl). rewrite !bool_decide_true by (done || lia). by split_and!.
    - rewrite !bool_decide_false by (lia || by intros [? ?]). split_and!; [done|lia|]. by intros [? ?]%Herr. }
  destruct q as [[]|e|]; [|injection Hr as <- <-; split; [done|]; intros t [= <-]; by apply Htry|by injection Hr as <- <-].
  destruct fetchErr as [e|]; [injection Hr as <- <-; split; [done|]; intros t [= <-]; by apply Htry|].
  destruct (Z.ltb_spec (default 0 last) a) as [Hlt|Hge].
  { injection Hr as <- <-. split; [done|]. intros t [= <-]. by apply Htry. }
  apply bind_cases in Hr as (es3 & r3 & H3 & Hr). pose proof (ensure_handler _ _ _ _ H3) as He3.
  destruct r3 as [err|e|]; [injection Hr as <- <-|destruct Hr as [-> ->]..]; rewrite He3; (split; [done|]); [|done..].
  intros t [= <-]. apply Htry. destruct last as [n|]; [by intros|]. cbn in Hge. lia.
Qed.

Lemma sync_tries_synced ios : ∀ a errs (es es' : Syncer) r,
  0 < a ≤ 2 ^ 63 → recipients_ok (committed (es_eventHandler es)) →
  sync_tries networkConfig stalenessThreshold ios a errs es = (es', r) →
  ∃ n, synced a (es_eventHandler es) (es_eventHandler es') n ∧ (∀ lpb, r = Ok lpb → lpb = n ∧ a ≤ n).
Proof using HjsonL Hlaws Hchain Haddr.
  induction ios as [|io ios IH]; intros a errs es es' r Ha Hrec Hr; cbn [sync_tries] in Hr.
  { injection Hr as <- <-. exists (a - 1). by split; [apply synced_same; [lia|..]|]. }
  apply bind_cases in Hr as (es1 & r1 & H1 & Hr).
  destruct (syncHistory_synced _ _ _ _ _ Ha Hrec H1) as (n & Hsync & Htry).
  destruct r1 as [t|e|]; [|destruct Hr as [-> ->]; by exists n..].
  destruct (Htry t eq_refl) as (Hp & Hl & He). destruct (tr_err t) as [err|]; cbn iota in Hr.
  - destruct (tr_retryable t); [|injection Hr as <- <-; by exists n]. cbn [negb] in Hr.
    pose proof Hsync as (Hn & _ & _ & Hrec1 & _).
    assert ((if tr_progressed t then tr_lastProcessedBlock t +u 1 else a) = n + 1) as Hnext.
    { rewrite Hp. case_bool_decide as Hle; [|lia]. rewrite (Hl Hle). apply Z.mod_small. lia. }
    rewrite Hnext in Hr. apply IH in Hr as (n' & Hsync' & Hok); [|lia|done].
    exists n'. split; [by eapply synced_trans|]. intros lpb Hlpb. apply Hok in Hlpb. lia.
  - injection Hr as <- <-. exists n. split; [done|]. specialize (He eq_refl). intros lpb [= <-]. auto.
Qed.

Lemma ongoing_synced io a (es es' : Syncer) r :
  0 < a ≤ 2 ^ 63 → recipients_ok (committed (es_eventHandler es)) →
  SyncOngoing networkConfig io a es = (es', r) →
  ∃ n, synced a (es_eventHandler es) (es_eventHandler es') n ∧
    ∀ b rest, (sc_StreamLogs a (es_executionClient es)).2 = b :: rest → r = Ok tt →
      u64 (default 0 (recorded (es_eventHandler es))) < rb_BlockNumber b.
Proof using HjsonL Hlaws Hchain Haddr.
  intros Ha Hrec Hr. unfold SyncOngoing in Hr.
  destruct (sc_StreamLogs a (es_executionClient es)) as [x blocks] eqn:Hx.
  apply stream_feed in Hx as (m & Hf & Hm); [|done].
  apply bind_cases in Hr as (es1 & r1 & (_ & last & ex & q & -> & Hs)%handle_stream_cases & Hr).
  destruct (stream_synced _ _ _ _ _ _ _ _ _ _ Ha Hm Hf Hrec Hs) as (Hsync & _ & Hfirst).
  exists (default (a - 1) last). destruct q as [[]|e|]; injection Hr as <- <-;
    (split; [exact Hsync|]); [by intros b rest Hb _; apply (Hfirst b rest)|by intros..].
Qed.

(** C14. The committed database follows the chain: when the history was synced, over any
    failed tries, and the ongoing blocks were then streamed, the last block is recorded and
    the next nonce of every owner has gone up by exactly the number of the owner's
    registrations on the chain between the first block and that one, whatever failed on the
    way and however the stream ended.  The nodes may fail at any call; a log query that they
    answer, they answer exactly. *)
Theorem sync_follows_chain ios io a (es es1 es2 : Syncer) lpb r :
  0 < a ≤ 2 ^ 63 → recipients_ok (committed (es_eventHandler es)) →
  SyncHistory networkConfig stalenessThreshold ios a es = (es1, Ok lpb) →
  SyncOngoing networkConfig io (lpb +u 1) es1 = (es2, r) →
  recorded (es_eventHandler es1) = Some lpb ∧ a ≤ lpb ∧
  ∃ last, recorded (es_eventHandler es2) = Some last ∧ lpb ≤ last ∧
    ∀ owner, nonce_of (committed (es_eventHandler es2)) owner =
      u16 (nonce_of (committed (es_eventHandler es)) owner + added_in (lg_Event <$> between chain a last) owner).
Proof using HjsonL Hlaws Hchain Haddr.
  intros Ha Hrec H1 H2. destruct (sync_tries_synced _ _ _ _ _ _ Ha Hrec H1) as (n & Hsync1 & Hok).
  destruct (Hok lpb eq_refl) as [-> Hle]. pose proof Hsync1 as (Hn & Hr1 & _ & Hrec1 & _).
  assert (n +u 1 = n + 1) as Hadd by (apply Z.mod_small; lia). rewrite Hadd in H2.
  apply ongoing_synced in H2 as (n' & Hsync2 & _); [|lia|done].
  pose proof (synced_trans _ _ _ _ _ _ Hsync1 Hsync2) as (Hn' & Hr2 & _ & _ & Hnonce).
  destruct Hsync2 as [Hn2 _]. split_and!; [by apply Hr1|done|].
  exists n'. split_and!; [apply Hr2; lia|lia|done].
Qed.

(** C39. An error of the history that comes after progress is taken for "nothing to sync"
    when the next try finds no more blocks: the node then goes on as if the history were
    synced, from the block where it started and not from the one after the last recorded,
    and its ongoing sync fails at the first block when that one was handled already. *)
Theorem history_error_taken_for_nothing offset ios io (es es1 : Syncer) last lpb e x e2 :
  let a := u64 (match last with None => offset | Some n => u64 n +u 1 end) in
  0 < a ≤ 2 ^ 63 → recipients_ok (committed (es_eventHandler es)) → last_processed es = Ok last →
  syncHistory networkConfig stalenessThreshold (ios 0%nat) a es = (es1, Ok (mkSyncTry lpb true (Some e) true)) →
  sc_FetchHistoricalLogs (lpb +u 1) (es_executionClient es1) = (x, inl e2) → client_nothing e2 = true →
  recorded (es_eventHandler es1) = Some lpb ∧ a ≤ lpb ∧
  ∃ es2, syncContractEvents networkConfig stalenessThreshold offset ios es = (es2, Ok a) ∧
    es_eventHandler es2 = es_eventHandler es1 ∧
    ∀ es3 r b rest, (sc_StreamLogs a (es_executionClient es2)).2 = b :: rest → rb_BlockNumber b ≤ lpb →
      SyncOngoing networkConfig io a es2 = (es3, r) → r ≠ Ok tt.
Proof using HjsonL Hlaws Hchain Haddr.
  intros a Ha Hrec Hlast H1 H2 He2.
  destruct (syncHistory_synced _ _ _ _ _ Ha Hrec H1) as (n & Hsync & Htry).
  destruct (Htry _ eq_refl) as (Hp & Hl & _). symmetry in Hp. apply bool_decide_eq_true in Hp.
  cbn in Hl. rewrite (Hl Hp) in *. destruct Hsync as (Hn & Hr1 & _ & Hrec1 & _). specialize (Hr1 Hp).
  split_and!; [done|done|].
  set (es2 := mkEventSyncer x (es_eventHandler es1) (es_lastProcessedBlock es1) (es_lastProcessedBlockChange es1)).
  assert (∃ err, SyncHistory networkConfig stalenessThreshold ios a es = (es2, Err err) ∧ nothing_to_sync err = true)
    as (err & Hs & Herr).
  { unfold SyncHistory. cbn [fmap list_fmap seq sync_tries]. unfold mbind, st_bind. rewrite H1.
    cbn [tr_err tr_retryable tr_progressed tr_lastProcessedBlock negb]. unfold syncHistory, on_client, mbind, st_bind.
    rewrite H2. cbn. rewrite He2. eexists. split; [done|]. cbn. by rewrite orb_true_r. }
  exists es2. split_and!; [|done|].
  - unfold syncContractEvents. rewrite Hlast. fold a. rewrite Hs, Herr. done.
  - intros es3 r b rest Hb Hle Hr ->. apply ongoing_synced in Hr as (n' & _ & Hfirst); [|done|done].
    specialize (Hfirst b rest Hb eq_refl). cbn [es2 es_eventHandler] in Hfirst. rewrite Hr1 in Hfirst. cbn in Hfirst.
    assert (u64 n = n) as Hu by (apply Z.mod_small; lia). lia.
Qed.
End sync.
