(* ===== verification/SyncRetry.v ===== *)
(** * Registrations that are tried again

    When the commit of a block fails, its transaction is discarded, but the shares that it
    registered stay in memory.  The same process tries the block again (SyncHistory), and
    then takes the registrations for known ones. *)

From stdpp Require Import base list gmap numbers strings sorting.
From Stdlib Require Import Strings.Byte.
From S2P Require Import Prelude Sha256 SpecTypes Network Share ShareEncoding SharesStorage PartialSig Slashing.
From S2P Require Import KeyManager ValueCheck RegistryStorage EventHandler EventProps EventBlocks EventShares.
Open Scope string_scope.
Open Scope list_scope.
Open Scope Z_scope.

Section retry.
Context {DB S KDB : Type} `{Hrdb : RegistryDB DB} `{Hjson : RegistryJSON} `{Hss : SharesStore S}
  {Hview : SharesStoreLaws S} `{Hsdb : SignerDatabase KDB} `{Hssz : AttestationSSZ} `{Hfast : FastSSZ}
  `{Hbls : BLS} {Hkeys : BLSKeys} {HkeysL : BLSKeysLaws} `{Henv : EventEnv} (networkConfig : NetCfg).
Abbreviation Handler := (EventHandler DB S KDB).

(** ** One registration *)
(** What is checked of a registration before its share is looked up, after the nonce was
    taken. *)
Definition share_keys (event : ValidatorAdded) : list bytes :=
  splitBytes (take (48 * length (va_OperatorIds event)) (drop 96 (va_Shares event))) 48.
Definition encrypted_keys (event : ValidatorAdded) : list bytes :=
  let encrypted := drop (48 * length (va_OperatorIds event) + 96) (va_Shares event) in
  splitBytes encrypted (length encrypted / length (va_OperatorIds event)).
Record checked (event : ValidatorAdded) (nonce : Nonce) (s : NodeStorage DB) : Prop := {
  ck_operators : validateOperators (va_OperatorIds event) s = Ok tt;
  ck_length : (256 * length (va_OperatorIds event) + (48 * length (va_OperatorIds event) + 96))%nat =
    length (va_Shares event);
  ck_signature : verifySignature (take 96 (va_Shares event)) (va_Owner event) (va_PublicKey event) nonce = Ok tt;
  ck_keys : ValidateSharePublicKeys (va_PublicKey event) (va_OperatorIds event) (share_keys event) = Ok tt;
}.
(** The share of a key is in memory, in the name of the owner. *)
Definition known (st : S) (event : ValidatorAdded) : Prop :=
  ∃ share, shares_Get (va_PublicKey event) st = Some share ∧ sh_OwnerAddress share = va_Owner event.

Lemma on_storage_run {A} (m : ST (NodeStorage DB) goerr A) (eh eh' : Handler) a :
  on_storage m eh = (eh', Ok a) ↔ ∃ s, m (eh_storage eh) = (s, Ok a) ∧ eh' = set_storage s eh.
Proof using.
  unfold on_storage. destruct (m (eh_storage eh)) as [s [x|e|]]; split; cbn; try done;
    try (by intros (? & [=] & _)).
  - intros [= <- <-]. by exists s.
  - by intros (? & [= <- <-] & ->).
Qed.
Lemma goes_on {A B} (m : ST Handler herror A) (f : A → ST Handler herror B) (eh eh1 : Handler) a :
  m eh = (eh1, Ok a) → (m ≫= f) eh = f a eh1.
Proof using. intros Hm. unfold mbind, st_bind. by rewrite Hm. Qed.
Lemma hfail_ok {A} text (q : result goerr A) a : hfail (wrap text q) = Ok a ↔ q = Ok a.
Proof using. destruct q; split; by intros [=->] || by intros [=]. Qed.

Lemma added_ok io event (eh eh' : Handler) r :
  handleValidatorAdded networkConfig io event eh = (eh', Ok r) →
  ∃ nonce s, GetNextNonce (va_Owner event) (eh_storage eh) = Ok nonce ∧
    BumpNonce (va_Owner event) (eh_storage eh) = (s, Ok tt) ∧ checked event nonce s ∧
    ((known (eh_shares eh) event ∧ eh' = set_storage s eh) ∨
     (shares_Get (va_PublicKey event) (eh_shares eh) = None ∧
      ∃ share, handleShareCreation networkConfig io event (share_keys event) (encrypted_keys event)
                 (set_storage s eh) = (eh', Ok share))).
Proof using.
  unfold handleValidatorAdded. intros (eh1 & nonce & Hn & Hr)%st_bind_ok. injection Hn as <- Hn%hfail_ok.
  apply st_bind_ok in Hr as (eh1 & [] & (s & Hb & ->)%on_storage_run & Hr).
  apply st_bind_ok in Hr as (eh1 & ? & [= <- <-] & Hr). cbv zeta in Hr.
  apply st_bind_ok in Hr as (eh1 & [] & [= <- Hops%malformed_ok] & Hr).
  apply st_bind_ok in Hr as (eh1 & [] & [= <- Hlen%malformed_ok] & Hr).
  apply st_bind_ok in Hr as (eh1 & [] & [= <- Hsig] & Hr).
  apply st_bind_ok in Hr as (eh1 & [] & [= <- Hkeys'%malformed_ok] & Hr).
  apply st_bind_ok in Hr as (eh1 & ? & [= <- <-] & Hr). apply st_bind_ok in Hr as (eh1 & share & Hshare & Hr).
  apply st_bind_ok in Hr as (eh2 & ? & [= <- <-] & Hr). injection Hr as <- _.
  exists nonce, s. split_and!; [done|done| |].
  - split; [done| | |done].
    + apply fail_if_ok, negb_false_iff, Nat.eqb_eq in Hlen. exact Hlen.
    + by destruct (verifySignature _ _ _ _) as [[]|e|].
  - change (eh_shares (set_storage s eh)) with (eh_shares eh) in Hshare.
    destruct (shares_Get (va_PublicKey event) (eh_shares eh)) as [known_share|] eqn:Hget.
    + left. destruct (bool_decide_reflect (va_Owner event = sh_OwnerAddress known_share)) as [Ho|]; [|done].
      injection Hshare as <- _. split; [|done]. by exists known_share.
    + right. split; [done|]. by exists share.
Qed.
(** A known registration takes its nonce and does nothing else. *)
Lemma added_known io event nonce s (eh : Handler) :
  GetNextNonce (va_Owner event) (eh_storage eh) = Ok nonce →
  BumpNonce (va_Owner event) (eh_storage eh) = (s, Ok tt) → checked event nonce s → known (eh_shares eh) event →
  ∃ r, handleValidatorAdded networkConfig io event eh = (set_storage s eh, Ok r).
Proof using.
  intros Hn Hb [Hops Hlen Hsig Hkeys'] (share & Hget & Ho).
  unfold handleValidatorAdded. rewrite (goes_on _ _ _ eh nonce) by (unfold read_storage; by rewrite Hn).
  rewrite (goes_on _ _ _ (set_storage s eh) tt) by (unfold on_storage; by rewrite Hb).
  rewrite (goes_on st_get _ _ (set_storage s eh) (set_storage s eh)) by done. cbv zeta.
  change (eh_storage (set_storage s eh)) with s.
  rewrite (goes_on _ _ _ (set_storage s eh) tt) by (unfold st_lift; by rewrite Hops).
  rewrite (goes_on _ _ _ (set_storage s eh) tt).
  2:{ unfold st_lift, fail_if. by rewrite (proj2 (Nat.eqb_eq _ _) Hlen). }
  rewrite (goes_on _ _ _ (set_storage s eh) tt) by (unfold st_lift; by rewrite Hsig).
  rewrite (goes_on _ _ _ (set_storage s eh) tt) by (unfold st_lift; fold (share_keys event); by rewrite Hkeys').
  rewrite (goes_on st_get _ _ (set_storage s eh) (set_storage s eh)) by done.
  change (eh_shares (set_storage s eh)) with (eh_shares eh). rewrite Hget, bool_decide_true by done. by eexists.
Qed.

(** *** What is registered stays known *)
Lemma creation_known io event nonce s (eh eh' : Handler) share :
  length (va_PublicKey event) = 48%nat → checked event nonce s →
  handleShareCreation networkConfig io event (share_keys event) (encrypted_keys event) eh = (eh', Ok share) →
  ∃ s, new_share event (share_keys event) s ∧ held_shares eh' = <[va_PublicKey event := s]> (held_shares eh).
Proof using HkeysL Hview.
  intros Hlen [Hops Hl _ _] Hc.
  destruct (share_lengths (length (va_OperatorIds event)) (va_Shares event)) as [Hspk Hek];
    [by eapply operators_valid|exact Hl|].
  apply share_creation in Hc as [[_ Hno]|Hput]; [by destruct (Hno share)|exact Hput|exact Hlen|exact Hspk|exact Hek].
Qed.
Lemma known_view st event :
  known st event ↔ ∃ share, shares_view st !! va_PublicKey event = Some share ∧ sh_OwnerAddress share = va_Owner event.
Proof using. unfold known. by setoid_rewrite shares_get_view. Qed.
Lemma added_knows io event (eh eh' : Handler) r :
  length (va_PublicKey event) = 48%nat → handleValidatorAdded networkConfig io event eh = (eh', Ok r) →
  known (eh_shares eh') event ∧ (∀ event', known (eh_shares eh) event' → known (eh_shares eh') event').
Proof using HkeysL Hview.
  intros Hlen (nonce & s & _ & _ & Hck & [[Hk ->]|(Hnone & share & Hc)])%added_ok; [by split|].
  destruct (creation_known _ _ _ _ _ _ _ Hlen Hck Hc) as (sh & (_ & Ho & _) & Hput).
  unfold held_shares in Hput. change (eh_shares (set_storage s eh)) with (eh_shares eh) in Hput.
  rewrite shares_get_view in Hnone. split.
  - apply known_view. exists sh. by rewrite Hput, lookup_insert_eq.
  - intros event' (sh' & Hv & Ho')%known_view. apply known_view. exists sh'. split; [|done].
    rewrite Hput, lookup_insert_ne; [done|]. intros Heq. by rewrite <-Heq, Hnone in Hv.
Qed.

(** *** The second try of what the first one took *)
Definition same_txn (eh eh' : Handler) : Prop := ns_txn (eh_storage eh') = ns_txn (eh_storage eh).
Definition same_records (eh eh' : Handler) : Prop :=
  eh_shares eh' = eh_shares eh ∧ km_db (eh_keyManager eh') = km_db (eh_keyManager eh).

Lemma bump_again owner (s s1 s' : NodeStorage DB) :
  ns_txn s1 = ns_txn s → BumpNonce owner s = (s', Ok tt) →
  ∃ s1', BumpNonce owner s1 = (s1', Ok tt) ∧ ns_txn s1' = ns_txn s'.
Proof using.
  intros Ht. unfold BumpNonce, in_txn, st_wrap, st_lift, st_get, st_modify, mbind, st_bind. rewrite Ht.
  destruct (wrap _ (getRecipientData (ns_txn s) owner)) as [found|e|]; [|done..].
  destruct (wrap _ (rd_Marshal _)) as [raw|e|]; [|done..].
  destruct (rdb_Set _ _ raw (ns_txn s)) as [txn [[]|e|]]; cbn; [|done..].
  destruct found; intros [= <-]; eexists; by split.
Qed.
Lemma checked_again event nonce (s s1 : NodeStorage DB) :
  ns_txn s1 = ns_txn s → checked event nonce s → checked event nonce s1.
Proof using.
  intros Ht [Hops Hl Hsig Hk]. split; [|done..]. rewrite <-Hops. unfold validateOperators, operatorsExist. by rewrite Ht.
Qed.
Lemma added_again io io' event (eh eh1 eh' : Handler) r :
  same_txn eh eh1 → known (eh_shares eh1) event → handleValidatorAdded networkConfig io event eh = (eh', Ok r) →
  ∃ eh1' r', handleValidatorAdded networkConfig io' event eh1 = (eh1', Ok r') ∧ same_txn eh' eh1' ∧ same_records eh1 eh1'.
Proof using.
  intros Ht Hk (nonce & s & Hn & Hb & Hck & Hcase)%added_ok.
  destruct (bump_again _ _ _ _ Ht Hb) as (s1 & Hb1 & Ht1).
  assert (GetNextNonce (va_Owner event) (eh_storage eh1) = Ok nonce) as Hn1.
  { rewrite <-Hn. unfold GetNextNonce. by rewrite Ht. }
  destruct (added_known io' event nonce s1 eh1 Hn1 Hb1 (checked_again _ _ _ _ Ht1 Hck) Hk) as [r' Hr'].
  exists (set_storage s1 eh1), r'. split_and!; [exact Hr'| |done].
  unfold same_txn. cbn [eh_storage set_storage]. rewrite Ht1.
  destruct Hcase as [[_ ->]|(_ & share & Hc)]; [done|]. by apply share_creation_stored in Hc as ->.
Qed.

(** ** The registrations of a block *)
(** Logs that are registrations, all of them handled without an error. *)
Inductive all_taken (io : BlockIO) : list Log → Handler → Handler → Prop :=
  | taken_none eh : all_taken io [] eh eh
  | taken_one event logs eh eh1 eh2 r :
      length (va_PublicKey event) = 48%nat → handleValidatorAdded networkConfig io event eh = (eh1, Ok r) →
      all_taken io logs eh1 eh2 → all_taken io (LogEvent (EValidatorAdded event) :: logs) eh eh2.

Lemma taken_logs io n logs eh eh' :
  all_taken io logs eh eh' → ∃ tasks, process_logs networkConfig io n logs eh = (eh', Ok tasks).
Proof using.
  induction 1 as [eh|event logs eh eh1 eh2 r _ Hr _ [tasks IH]]; [by exists []|].
  exists tasks. cbn [process_logs]. unfold mbind, st_bind. cbn [processEvent handle_event].
  unfold mbind, st_bind. rewrite Hr. cbn. by rewrite IH.
Qed.
Lemma taken_known io logs eh eh' :
  all_taken io logs eh eh' →
  (∀ event, LogEvent (EValidatorAdded event) ∈ logs → known (eh_shares eh') event) ∧
  (∀ event, known (eh_shares eh) event → known (eh_shares eh') event).
Proof using HkeysL Hview.
  induction 1 as [eh|event logs eh eh1 eh2 r Hlen Hr _ [IHin IHkeep]].
  { split; [intros event []%elem_of_nil|done]. }
  destruct (added_knows _ _ _ _ _ Hlen Hr) as [Hnew Hkeep]. split; [|by eauto].
  intros event' [[= ->]|Hin]%elem_of_cons; eauto.
Qed.
Lemma taken_again io io' logs eh eh' :
  all_taken io logs eh eh' → ∀ eh1, same_txn eh eh1 →
  (∀ event, LogEvent (EValidatorAdded event) ∈ logs → known (eh_shares eh1) event) →
  ∃ eh1', all_taken io' logs eh1 eh1' ∧ same_txn eh' eh1' ∧ same_records eh1 eh1'.
Proof using.
  induction 1 as [eh|event logs eh eh2 eh3 r Hlen Hr _ IH]; intros eh1 Ht Hk.
  { exists eh1. by split_and!; [constructor| |]. }
  destruct (added_again io io' event eh eh1 eh2 r Ht (Hk event (list_elem_of_here _ _)) Hr)
    as (eh4 & r' & Hr' & Ht' & Hsame).
  destruct (IH eh4 Ht') as (eh5 & Htaken & Ht5 & Hsame5).
  { intros event' Hin. destruct Hsame as [-> _]. apply Hk. by constructor. }
  exists eh5. split_and!; [by econstructor|done|]. unfold same_records in *. destruct Hsame, Hsame5. split; congruence.
Qed.

(** A block whose logs are taken, up to the commit. *)
Lemma taken_block io block last (eh em : Handler) s :
  GetLastProcessedBlock (eh_storage eh) = Ok last → u64 (default 0 last) < bl_BlockNumber block →
  all_taken io (bl_Logs block) eh em → SaveLastProcessedBlock (bl_BlockNumber block) (eh_storage em) = (s, Ok tt) →
  ∃ tasks, block_events networkConfig io block eh = (Commit io ;; mret tasks) (set_storage s em).
Proof using.
  intros Hlast Hlt Htaken Hsave. destruct (taken_logs io (bl_BlockNumber block) _ _ _ Htaken) as [tasks Hlogs].
  exists tasks. unfold block_events. rewrite (goes_on _ _ _ eh last) by (unfold read_storage; by rewrite Hlast).
  rewrite (goes_on _ _ _ eh tt).
  2:{ unfold st_lift, fail_if. by destruct (Z.leb_spec (bl_BlockNumber block) (u64 (default 0 last))); [lia|]. }
  rewrite (goes_on _ _ _ _ _ Hlogs). rewrite (goes_on _ _ _ (set_storage s em) tt); [done|].
  apply on_storage_run. exists s. split; [|done]. unfold st_wrap. by rewrite Hsave.
Qed.
Lemma save_again n (s s1 s' : NodeStorage DB) :
  ns_txn s1 = ns_txn s → SaveLastProcessedBlock n s = (s', Ok tt) → ∃ s1', SaveLastProcessedBlock n s1 = (s1', Ok tt).
Proof using.
  intros Ht. unfold SaveLastProcessedBlock, in_txn. rewrite Ht.
  destruct (rdb_Set _ _ _ (ns_txn s)) as [txn r]. intros [= _ ->]. by eexists.
Qed.
End retry.

Section retried.
Context {DB SDB KDB : Type} `{Hrdb : RegistryDB DB} {HrdbL : RegistryDBLaws DB} `{Hjson : RegistryJSON}
  {HjsonL : RegistryJSONLaws} `{Hdb : Database SDB} `{Hsdb : SignerDatabase KDB} `{Hssz : AttestationSSZ}
  `{Hfast : FastSSZ} `{Hcodes : StatusCodes} `{Hbls : BLS} {Hkeys : BLSKeys} {HkeysL : BLSKeysLaws} `{Henv : EventEnv}
  (networkConfig : NetCfg) (storagePrefix : bytes).
#[local] Instance stored_shares : SharesStore (sharesStorage SDB) := storage_shares storagePrefix.
#[local] Instance stored_shares_laws : SharesStoreLaws (sharesStorage SDB) := storage_shares_laws storagePrefix.
Abbreviation Handler := (EventHandler DB (sharesStorage SDB) KDB).

(** C40. Take a block whose logs are registrations of validators, each of them handled without
    an error, and whose transaction then fails to commit.  The try fails; a second try by the
    same process whose commit succeeds returns no error and records the block as processed, and
    every validator of the block is in memory under its owner; but the database of shares and
    the records of the key manager are the ones from before the first try: the shares are in
    memory only. *)
Theorem retried_registration_not_stored io io' block (eh em : Handler) last s e :
  GetLastProcessedBlock (eh_storage (Begin eh)) = Ok last →
  u64 (default 0 last) < bl_BlockNumber block < 2 ^ 64 →
  all_taken networkConfig io (bl_Logs block) (Begin eh) em →
  SaveLastProcessedBlock (bl_BlockNumber block) (eh_storage em) = (s, Ok tt) →
  io_commit io = Err e → io_commit io' = Ok tt →
  ∃ eh1 e1 eh2 tasks,
    processBlockEvents networkConfig io block eh = (eh1, Err e1) ∧
    processBlockEvents networkConfig io' block eh1 = (eh2, Ok tasks) ∧
    recorded eh2 = Some (bl_BlockNumber block) ∧
    (∀ event, LogEvent (EValidatorAdded event) ∈ bl_Logs block → known (eh_shares eh2) event) ∧
    ss_db (eh_shares eh2) = ss_db (eh_shares eh) ∧ km_db (eh_keyManager eh2) = km_db (eh_keyManager eh).
Proof using HkeysL HjsonL.
  intros Hlast [Hlt Hmax] Htaken Hsave Hno Hyes.
  destruct (taken_block _ _ _ _ _ _ _ Hlast Hlt Htaken Hsave) as [tasks Hfirst].
  assert (block_events networkConfig io block (Begin eh) = (set_storage s em, Err (HandlingError (EWrap "commit transaction" e))))
    as Hfail by (rewrite Hfirst; unfold mbind, st_bind, Commit; by rewrite Hno).
  pose proof (block_events_failed _ _ _ _ _ _ Hfail ltac:(done)) as Hdb1.
  set (eh1 := Discard eh (set_storage s em)).
  assert (same_txn (Begin eh) (Begin eh1)) as Ht by exact Hdb1.
  destruct (taken_known _ _ _ _ _ Htaken) as [Hknown _].
  destruct (taken_again networkConfig io io' _ _ _ Htaken (Begin eh1) Ht) as (em1 & Htaken1 & Ht1 & Hsh & Hkm).
  { intros event Hin. by apply Hknown. }
  destruct (save_again _ _ _ _ Ht1 Hsave) as [s1 Hsave1].
  assert (GetLastProcessedBlock (eh_storage (Begin eh1)) = Ok last) as Hlast1.
  { rewrite <-Hlast. unfold GetLastProcessedBlock. by rewrite Ht. }
  destruct (taken_block _ _ _ _ _ _ _ Hlast1 Hlt Htaken1 Hsave1) as [tasks1 Hsecond].
  unfold mbind, st_bind, Commit in Hsecond. rewrite Hyes in Hsecond. cbn in Hsecond.
  eexists eh1, _, _, tasks1. split; [unfold processBlockEvents; by rewrite Hfail|].
  split; [unfold processBlockEvents; by rewrite Hsecond|].
  assert (0 ≤ bl_BlockNumber block < 2 ^ 64) as Hn.
  { split; [|done]. unfold u64, wrap in Hlt. pose proof (Z.mod_pos_bound (default 0 last) (2 ^ 64) ltac:(lia)). lia. }
  destruct (block_events_ok _ _ _ _ _ _ Hn Hsecond) as (_ & Hrec & _).
  split; [exact Hrec|]. cbn [eh_shares eh_keyManager set_storage]. rewrite Hsh, Hkm.
  split; [|done]. intros event Hin. by apply Hknown.
Qed.
End retried.
