(* ===== verification/SyncWitness.v ===== *)
(** * The syncer over a small chain

    Nodes that answer queries of up to four blocks, in reverse order, serve a chain whose
    logs register operators and a validator; the first client fails once to give a header
    and subscriptions break off after each block. *)

From stdpp Require Import base list gmap numbers strings sorting.
From Stdlib Require Import Strings.Byte.
From S2P Require Import Prelude Sha256 SpecTypes Network Subnets Share ValidatorStore ShareEncoding.
From S2P Require Import RoundTimer SharesStorage SharesWitness PartialSig Slashing KeyManager ValueCheck SlashingWitness.
From S2P Require Import RegistryStorage EventHandler EventProps EventBlocks EventShares EventWitness.
From S2P Require Import ExecutionClient MultiClient EventSyncer ExecutionProps MultiProps SyncProps SyncRetry.
Open Scope string_scope.
Open Scope list_scope.
Open Scope Z_scope.

#[local] Existing Instances mem_registry mem_registry_laws toy_json toy_json_laws toy_bls toy_bls_keys toy_bls_keys_laws toy_env
  toy_shares.

(** ** The chain and its nodes *)
Definition some_chain : list EthLog :=
  [mkEthLog 10 0 0 false (an_operator 1 x01); mkEthLog 10 0 1 false (an_operator 2 x02);
   mkEthLog 10 2 2 false (an_operator 3 x03); mkEthLog 10 2 3 false (an_operator 4 x04);
   mkEthLog 11 0 0 false (LogEvent (EValidatorAdded (registration an_owner "0")));
   mkEthLog 15 1 0 false LogSkipped].
Lemma some_chain_ok : chain_ok some_chain.
Proof. split; by repeat constructor. Qed.
Lemma some_chain_addresses : Forall (λ l, log_addresses_ok (lg_Event l)) some_chain.
Proof. by repeat constructor. Qed.

(** The world counts what happened to it. *)
Definition next_event (w : nat) : StreamEvent :=
  if Nat.even w then StreamHead (Z.min (20 + Z.of_nat w) 1000) else StreamError None.
#[local] Instance some_nodes : ExecutionLayer nat := {|
  el_Select _ w := (w, Going);
  el_isClosed _ w := (w, false);
  el_Stop w := (w, false);
  el_Now w := (w, 1000 * Second);
  el_FilterLogs _ a b w :=
    if 3 <? b - a then (w, inl (ErrRPC (-32005))) else (w, inr (reverse (between some_chain a b)));
  el_Bloom _ n w := (w, inr (bool_decide (n = 15)));
  el_HeaderTime c n w := (S w, if (c =? 0)%nat && (w =? 0)%nat then inl (ErrText "timeout") else inr 1000);
  el_BlockNumber _ w := (w, inr 20);
  el_SyncProgress _ w := (w, inr None);
  el_Subscribe _ w := (w, inr tt);
  el_Next _ w := (S w, next_event w);
  el_Dial _ w := (w, inr tt);
  el_ChainID _ w := (w, inr 1);
|}.
Definition never (w : nat) : Prop := False.
#[local] Instance some_nodes_laws : ExecutionLayerLaws some_chain never.
Proof.
  split; try done; cbn.
  - intros c a b w w' logs. destruct (3 <? b - a); [done|]. intros [= _ <-]. apply reverse_Permutation.
  - intros c a b w w' e. destruct (3 <? b - a); [|done]. by intros [= _ <-].
  - intros c w w' n. unfold next_event. destruct (Nat.even w); [|done]. intros [= _ <-]. lia.
  - intros c w w' n [= _ <-]. lia.
Qed.

(** ** Streams *)
Definition two_clients : Session nat := mkSession 0%nat (Some 1) [Some 0; None] 0 5 [].
Lemma stream_covers_chain_witness :
  rb_BlockNumber <$> (StreamLogs 3 4 0 5 0%nat).2 = [10; 11; 12; 14; 15; 16] ∧
  rb_BlockNumber <$> se_sent (multi_StreamLogs 0 4 2 4 two_clients) = [10; 11; 12; 14; 15; 16; 18] ∧
  (∃ m, mjoin (rb_Logs <$> (StreamLogs 3 4 0 5 0%nat).2) = between some_chain 5 (m - 1)) ∧
  (∃ m, mjoin (rb_Logs <$> se_sent (multi_StreamLogs 0 4 2 4 two_clients)) = between some_chain 5 (m - 1)).
Proof.
  split; [vm_compute; reflexivity|]. split; [vm_compute; reflexivity|].
  split.
  - destruct (stream_covers_chain some_chain never 0 4 3 4 two_clients 0 5 0%nat some_chain_ok ltac:(lia) eq_refl eq_refl)
      as [(m & _ & _ & Hm & _) _]. exists m. exact Hm.
  - destruct (stream_covers_chain some_chain never 0 4 2 4 two_clients 0 5 0%nat some_chain_ok ltac:(lia) eq_refl eq_refl)
      as [_ (m & _ & _ & Hm & _)]. exists m. exact Hm.
Defined.

(** ** Several clients *)
Lemma multi_client_wf_witness :
  let s := (NewMulti 2 0%nat).1 in
  session_wf 2 s ∧ session_wf 2 (multi_FetchHistoricalLogs 0 4 5 s).1 ∧ session_wf 2 (multi_HeaderTime 0 4 11 s).1 ∧
  session_wf 2 (multi_Healthy 0 4 [1; 0]%nat 0 s).1 ∧ session_wf 2 (multi_StreamLogs 0 4 2 4 s).
Proof.
  cbv zeta.
  destruct (multi_client_wf 0 4 2 0%nat _ _ (surjective_pairing (NewMulti 2 0%nat)) ltac:(lia)) as [Hs Hkeep].
  destruct (Hkeep _ Hs) as (H1 & H2 & H3 & H4). split_and!; [exact Hs|apply H1|apply H2|apply H3|apply H4].
Defined.

(** The header comes from the second client, which is connected for it. *)
Lemma call_serves_witness :
  (multi_HeaderTime 0 4 11 two_clients).2 = inr 1000 ∧ se_currentClientIndex (multi_HeaderTime 0 4 11 two_clients).1 = 1%nat ∧
  ∃ s v, multi_HeaderTime 0 4 11 two_clients = (s, inr v).
Proof.
  split; [vm_compute; reflexivity|]. split; [vm_compute; reflexivity|].
  apply (call_serves 0 4 1 (λ c, on_world (ec_wrap "get header by block number" (el_HeaderTime c 11))) 1 two_clients).
  - intros c. apply on_world_shape.
  - reflexivity.
  - split_and!.
    + intros [w id clients cur from sent] s' e Hid. cbn in Hid. subst id. unfold getClient, se_get, mbind, ec_bind. cbn.
      by repeat case_match.
    + intros [w id clients cur from sent] s' e. by cbv.
    + intros [w id clients cur from sent] s' e. by cbv.
  - cbn. lia.
  - intros c [w id clients cur from sent] s' e. unfold on_world, ec_wrap. cbn.
    destruct ((c =? 0)%nat && (w =? 0)%nat); [|done]. by intros [= _ <-].
Defined.

(** ** Syncing *)
Abbreviation threshold := (300 * Second) (only parsing).
Definition over_clients : SyncClient (Session nat) := multi_client 0 4 2 4.
Definition over_one : SyncClient nat := single_client 0 2 4.
Definition fresh {X} (x : X) : EventSyncer X (EventHandler MemDB (sharesStorage MemDB) SignerMem) :=
  mkEventSyncer x empty_handler 0 0.

(** The first try fails to commit the block of the registration. *)
Definition unlucky_ios (try : nat) (n : Z) : BlockIO := if (try =? 0)%nat && (n =? 11) then failing_io else some_io.
Lemma sync_follows_chain_witness :
  let history := SyncHistory (H := over_clients) some_net threshold unlucky_ios 5 (fresh two_clients) in
  let ongoing := SyncOngoing (H := over_clients) some_net (λ _, some_io) 13 history.1 in
  history.2 = Ok 12 ∧ nonce_of (committed (es_eventHandler ongoing.1)) an_owner = 1 ∧
  ∃ last, recorded (es_eventHandler ongoing.1) = Some last ∧ 12 ≤ last ∧
    ∀ owner, nonce_of (committed (es_eventHandler ongoing.1)) owner =
      u16 (nonce_of (committed empty_handler) owner + added_in (lg_Event <$> between some_chain 5 last) owner).
Proof.
  cbv zeta. set (history := SyncHistory _ _ _ _ _).
  assert (history.2 = Ok 12) as Hr by (vm_compute; reflexivity).
  split; [exact Hr|]. split; [vm_compute; reflexivity|].
  pose proof (multi_client_laws some_chain never some_chain_ok 0 4 2 4) as Hlaws.
  destruct (sync_follows_chain (Hclient := over_clients) some_net threshold some_chain some_chain_ok some_chain_addresses
    unlucky_ios (λ _, some_io) 5 (fresh two_clients) history.1 _ 12 _ ltac:(lia) nothing_stored
    (pair_of history _ Hr) (surjective_pairing _)) as (_ & _ & Hlast).
  exact Hlast.
Defined.

(** The header that the first try needs at its end does not come; the next try finds
    nothing new. *)
Lemma history_error_taken_for_nothing_witness :
  let start := syncContractEvents (H := over_one) some_net threshold 5 (λ _ _, some_io) (fresh 0%nat) in
  start.2 = Ok 5 ∧ recorded (es_eventHandler start.1) = Some 12 ∧
  (SyncOngoing (H := over_one) some_net (λ _, some_io) 5 start.1).2 ≠ Ok tt.
Proof.
  cbv zeta. set (first := syncHistory (H := over_one) some_net threshold (λ _, some_io) 5 (fresh 0%nat)).
  assert (∃ e, first.2 = Ok (mkSyncTry 12 true (Some e) true)) as [e Hfirst] by (eexists; vm_compute; reflexivity).
  assert (sc_FetchHistoricalLogs (SyncClient := over_one) (12 +u 1) (es_executionClient first.1) =
    (1%nat, inl ErrNothingToSync)) as Hnext by (vm_compute; reflexivity).
  pose proof (single_client_laws some_chain never some_chain_ok 0 2 4) as Hlaws.
  destruct (history_error_taken_for_nothing (Hclient := over_one) some_net threshold some_chain some_chain_ok
    some_chain_addresses 5 (λ _ _, some_io) (λ _, some_io) (fresh 0%nat) first.1 None 12 e 1%nat ErrNothingToSync
    ltac:(vm_compute; split; [done|intros [=]]) nothing_stored ltac:(vm_compute; reflexivity) (pair_of first _ Hfirst)
    Hnext eq_refl) as (Hrec & _ & es2 & Hstart & Hsame & Hfails).
  rewrite Hstart. cbn [fst snd]. split; [reflexivity|]. split; [rewrite Hsame; exact Hrec|].
  assert (es_executionClient es2 = 1%nat) as Hx.
  { pose proof (f_equal (λ p, es_executionClient (fst p)) Hstart) as Hx. cbv beta in Hx. cbn [fst] in Hx.
    rewrite <-Hx. vm_compute. reflexivity. }
  eapply Hfails; [rewrite Hx; vm_compute; reflexivity|vm_compute; intros [=]|apply surjective_pairing].
Defined.

(** The registration is in memory, its block is recorded, and the database has no share. *)
Lemma retried_registration_not_stored_witness :
  let first := processBlockEvents some_net failing_io a_block with_operators in
  let second := processBlockEvents some_net some_io a_block first.1 in
  recorded second.1 = Some 11 ∧ ss_db (eh_shares second.1) = ss_db (eh_shares with_operators) ∧
  known (eh_shares second.1) (registration an_owner "0").
Proof.
  cbv zeta. set (taken := handleValidatorAdded some_net failing_io (registration an_owner "0") (Begin with_operators)).
  set (saved := SaveLastProcessedBlock 11 (eh_storage taken.1)).
  assert (∃ r, taken.2 = Ok r) as [r Hr] by (eexists; vm_compute; reflexivity).
  assert (saved.2 = Ok tt) as Hs by (vm_compute; reflexivity).
  assert (GetLastProcessedBlock (eh_storage (Begin with_operators)) = Ok (Some 10)) as Hlast by (vm_compute; reflexivity).
  assert (u64 10 < 11 < 2 ^ 64) as Hnext by (vm_compute; split; reflexivity).
  assert (all_taken some_net failing_io (bl_Logs a_block) (Begin with_operators) taken.1) as Htaken.
  { eapply taken_one; [reflexivity|exact (pair_of taken _ Hr)|apply taken_none]. }
  destruct (retried_registration_not_stored some_net [] failing_io some_io a_block with_operators taken.1 (Some 10)
    saved.1 (ENew "disk") Hlast Hnext Htaken (pair_of saved _ Hs) eq_refl eq_refl)
    as (eh1 & e1 & eh2 & tasks & H1 & H2 & Hrec & Hknown & Hdb & _).
  set (first := processBlockEvents some_net failing_io a_block with_operators).
  assert (first = (eh1, Err e1)) as -> by exact H1. cbn [fst].
  set (second := processBlockEvents some_net some_io a_block eh1).
  assert (second = (eh2, Ok tasks)) as -> by exact H2. cbn [fst]. split; [exact Hrec|]. split; [exact Hdb|].
  apply Hknown. by constructor.
Defined.
